(* ===== verification/_CoqProject ===== *)
-Q . S2P
Prelude.v
GoMonad.v
GoFloat.v
GoFloatFacts.v
RollingBuckets.v
RollingCounter.v
ConcurrentCounter.v
RollingPercentile.v
ConcurrentBucket.v
PercentileBounds.v
TimedCheck.v
GoJson.v
CounterJson.v
Errors.v
Metrics.v
Expvar.v
Closers.v
Config.v
Circuit.v
CircuitFrames.v
CircuitFacts.v
CircuitTheorems.v
CircuitSpec.v
Bulkhead.v
Transitions.v
HystrixOpener.v
HystrixCloser.v
ConcurrentCloser.v
SimpleLogic.v
Hystrix.v
HystrixCycle.v
Recovery.v
Manager.v
CircuitExport.v
GoWrapper.v
CircuitGo.v
RunStats.v
CircuitStats.v
SloTracker.v
StatsExport.v
HystrixExport.v
StreamMetrics.v
EventStream.v
MockClock.v
TestHelp.v
