(* ===== verification/Prelude.v ===== *)
(** * circuit, the circuit breaker library: a verification development

    The program is the Go module github.com/cep21/circuit (src/).  A [Circuit] wraps the calls
    of a function that may fail.  While it is closed the calls run; when its opener says so it
    opens, and calls are rejected; after a while its closer lets single calls through, and when
    these succeed the circuit closes again.  Around it are the rolling statistics the decisions
    are taken on, the manager that keeps circuits by name, and the collectors of metrics.

    ** How code is translated

    A method that mutates its receiver is a computation [M S A] of GoMonad.v: a function from a
    state to an outcome and a state, the outcome being a returned value ([Ret]), a panic
    ([Panic]), a lock the goroutine waits for and nobody will release ([Deadlock]), or exhausted
    fuel ([OutOfFuel]).  The state is kept by every outcome and deferred calls run on all of
    them.  A field that is itself an object is reached by a [lens] ([zoom]).  [int64], [int],
    [time.Duration] and times (nanoseconds of a clock) are integers [Z], the arithmetic of the
    code wrapped to 64 bits by [wrap64] (Prelude.v); maps are [gmap]s, slices lists, read and
    written out of range with a panic; pointers to objects that are shared are indices of a
    heap.  float64 (GoFloat.v) is the Standard Library's specification of binary64.

    User code (metrics objects, the functions a circuit runs, clocks, constructors) is a
    parameter: any computation over the whole world, or over its environment [U], so it may
    change anything it can reach in the code.  Interfaces are type classes: [ClosedToOpen],
    [OpenToClosed], [RunMetrics], [FallbackMetrics], with the laws a circuit relies on in
    [ClosedToOpenLaws] and [OpenToClosedLaws], which each implementation proves of itself.

    ** The files

    - Prelude.v: 64-bit integers, slices, times; lemmas on lists and sums; tactics and hints.
    - GoMonad.v: the computations, their equations, and the program logic of the library: the
      total weakest precondition [wp], the invariants [stable] under every outcome, [safe]
      under a normal return and [total] with a postcondition per outcome.
    - GoFloat.v: float64 and the conversions from and to integers.
    - RollingBuckets.v (faststats/rolling_bucket.go), RollingCounter.v
      (faststats/rolling_counter.go), RollingPercentile.v (faststats/rolling_percentile.go): the
      index arithmetic of a window of buckets, the counts and the durations kept in it.
    - TimedCheck.v (faststats/timedcheck.go): the gate that lets a quota of events through per
      sleep, with its timers as an environment that may fire them late.
    - Errors.v (errors.go), Metrics.v (metrics.go), Closers.v (closers.go), Config.v (config.go):
      the data a circuit is made of, its interfaces and its configuration.
    - Circuit.v (circuit.go): every method of [*Circuit], on the world [World]: the circuit and
      the environment.  CircuitFacts.v has the invariant [at_rest] and the lemmas of each
      operation, CircuitTheorems.v what they give: Go's contract of [Execute].
    - Transitions.v (circuit.go): the critical sections of the transition methods as the steps
      of any number of goroutines.
    - HystrixOpener.v, HystrixCloser.v, Hystrix.v (closers/hystrix/opener.go, closer.go,
      config.go), SimpleLogic.v (closers/simplelogic/closers.go): the open and close logic and
      the factory that configures it.
    - Manager.v (manager.go): circuits by name, constructors that call back into the manager, and
      racing creates.  GoWrapper.v (gowrapper.go): functions run in a goroutine of their own.
    - RunStats.v (metrics/rolling/rolling.go), SloTracker.v
      (metrics/responsetimeslo/responsetime.go): the collectors of metrics and their factories.
    - MockClock.v (internal/clock/clock.go): the clock with timers that is moved by hand.
    - GoJson.v (faststats/atomic.go, and the rules of encoding/json), CounterJson.v: the JSON and
      string forms of counters, windows and gates.
    - ConcurrentCounter.v (faststats/rolling_bucket.go, rolling_counter.go): the atomic operations
      of [Inc] and [RollingSumAt] as the steps of any number of goroutines.
    - CircuitGo.v (circuit.go, gowrapper.go): [Circuit.Go], which is [Execute] of functions run by
      GoWrapper.v's goroutines; a function that is left has changed the circuit and the environment it
      shares with its caller by then.
    - StreamMetrics.v, EventStream.v (metriceventstream/metriceventstream.go): the message of a
      circuit, collected from it and its statistics, and the stream that serves these messages:
      its clients, its collector and [Close] as the steps of goroutines over channels.
    - CircuitFrames.v: what the methods of a circuit leave alone.  CircuitSpec.v: the abstract
      machine of [run], on its interactions with clock, command, context, metrics objects and listeners.  Bulkhead.v: the
      limits of commands and fallbacks as the steps of any number of calls.  HystrixCycle.v: the
      life of a circuit with the hystrix opener and closer, as a relation on histories.
    - GoFloatFacts.v, PercentileBounds.v: rounding bounds of float64, and what they say of
      [Percentile].  ConcurrentBucket.v (faststats/rolling_percentile.go): the atomic operations of
      one bucket of durations as the steps of any number of goroutines.
    - ConcurrentCloser.v (closers/hystrix/closer.go, faststats/timedcheck.go): the atomic operations of
      one hystrix closer, and the timers of its sleep window, as the steps of any number of goroutines.
    - Recovery.v: how an open circuit with hystrix logic closes again, as rounds of its timer and its
      calls.  TestHelp.v (internal/testhelp/testhelp.go): the run functions of the tests, and the
      check that counts what a circuit does with them.
    - CircuitStats.v (circuit.go with metrics/rolling/rolling.go): a circuit that reports to rolling
      statistics, and the logic of what a computation tells them ([tells]).
    - Expvar.v (internal/evar/evar.go, metrics.go): variables, the values they are read as, and
      json.Marshal on these, with the rules a document is proved by ([reads_as], [publishes]).
      StatsExport.v (rolling_percentile.go, rolling.go, responsetime.go), HystrixExport.v (opener.go,
      closer.go) and CircuitExport.v (circuit.go, manager.go): what each component publishes.

    Operations keep the names of the code.  Where a method ends in the middle of a critical
    section or loop, its parts have names of their own: [commit_locked] is the body of
    [commitTransition] under the mutex, [deliver_enter], [deliver_pop] and [deliver_abort] are
    the critical sections of [deliverPendingTransitions], [classify] and [run_counted] the tail
    of [run], [checkLocked] the slow path of [Check], [build] and [commit] the two halves of
    [CreateCircuit].

    ** What the theorems show

    - A circuit, one goroutine at a time (CircuitTheorems.v): [Execute_total],
      [run_and_classify_reports_verdict], [run_enforces_limit],
      [Execute_fallback_table], [commitTransition_commits], the overrides [ForceOpen_...] and
      [ForcedClosed_...], and [manual_transitions].
    - Many goroutines (Transitions.v): [notifications_exactly_once_in_order],
      [quiescent_all_delivered], [every_goroutine_can_step], and [transitionTo_is_a_run], which
      ties the sequential definitions to the step relation.
    - The statistics: [rolling_counter_refines_log] and [rolling_percentile_refines_log] relate
      every sequence of calls to a log of events, and [rolling_sum_counts_window],
      [run_stats_are_exact] and [hystrix_opens_at_error_rate] are stated on the events alone.
    - The gate and the closer: [gate_rate_limit], [half_open_schedule],
      [probe_granted_after_window], [probe_streak_decides_close].
    - Composition: [hystrix_circuit_is_ready] discharges the laws that the theorems about
      [Execute] assume, for the circuit the hystrix factory configures.
    - The manager: [CreateCircuit_once], [CreateCircuit_total], [racing_creates_are_serialized],
      [racing_creates_finish].  The wrapper: [result_is_in_one_place], [nobody_is_blocked],
      [call_ends].
    - The rest: [objective_counts], [callbacks_fire_once_in_order],
      [duration_encoding], [IsBadRequest_is_errors_As], [Merge_assoc_and_defaults].
    - Counting by many goroutines (ConcurrentCounter.v): [concurrent_incs_are_counted] bounds what
      a sum can be after any interleaving, [buckets_are_cleared_once] is what the mutex is for,
      [counting_ends] says that nothing blocks; [Inc_runs] and [Sum_runs] show that the methods of
      RollingCounter.v are runs of the steps.
    - JSON: [counter_json_round_trip], [gate_json_round_trip], and [decoded_counters_are_safe] for
      texts that nobody wrote; [one_nanosecond_buckets_panic] is the exception.
    - [Circuit.Go]: [Go_total] (it ends when the context does, whatever the function does, and the
      counters are off by no more than the calls that a function it left has in progress),
      [left_commands_are_classified], [Go_without_ends] (else it is [Execute]), and
      [wrapped_calls_are_runs], which ties it to the goroutines of GoWrapper.v.
    - The event stream: [stream_message_is_exact] for the numbers, [stream_is_well_formed],
      [clients_get_events_in_order], [closed_stream_ends] for the goroutines, and
      [clients_read_the_metrics] for what a client decodes.
    - Specifications: [run_refines] (the code of [run] implements the machine of CircuitSpec.v: what it
      performs on its environment is what the machine asks for),
      [hystrix_calls_refine_histories] (with the hystrix logic, the machine opens, probes and
      closes as its history says), [bulkhead_holds] and [calls_are_bulkhead_runs].
    - Recovery: [open_circuits_recover] (rounds of a timer and a call that works close an open circuit,
      in exactly the required number).
    - Composition: [circuit_statistics_are_exact] (the statistics of a circuit are those of its
      calls, whatever these do: every call that returns reports the event that [call_events] computes).
    - Latencies: [percentiles_are_bounded] for every float64, within the durations next to its position; [readers_report_no_stale_durations] and
      [concurrent_additions_are_kept] for a bucket in use by many goroutines, of which
      [bucket_methods_are_runs] shows that RollingPercentile.v's methods are runs.
    - The half-open logic in use by many goroutines: [concurrent_probes_are_limited],
      [closed_gate_reopens], [concurrent_closes_are_earned], all with settings that change meanwhile, and [late_arm_outlives_close] for what a late
      self-arm can do; [closer_methods_are_runs] ties it to HystrixCloser.v.
    - What is published: [exported_stats_are_exact], [published_opener] (with the stale errors of an
      idle opener), [manager_publishes_its_circuits].
    - The helpers of the tests: [behavior_checks_are_exact], [Run_is_a_run], [DoTillTime_ends].
    - The mock clock: [after_sends_once], [TickUntil_ends].

    ** Fuel and bounds

    The only loop whose end is not a matter of its data is that of [deliverPendingTransitions]:
    listeners may ask for new transitions forever.  It runs on fuel, the argument [fuel] of the
    methods that may deliver; [deliver_enough_fuel] shows that one unit more than the pending
    notifications is enough when the listeners ask for none, so two units serve a call of
    [Execute], and [Execute_total] proves that the call then ends.  [TickUntil] of the mock clock runs on
    fuel as well, as much as [TickUntil_ends] finds for the instant it is to stop at.  Counters are unbounded in no
    theorem: a hypothesis like [zlen h <= max_int64] says that fewer than 2^63 events were
    counted, and [wrap64] is otherwise written out.

    ** Idealisations

    Atomic operations take effect one at a time and in program order.  The windows of the files
    other than ConcurrentCounter.v (and the buckets of those other than ConcurrentBucket.v) are those of
    one goroutine: the slow path of
    [RollingBuckets.Advance], under its mutex, is one step there.
    Times carry no monotonic clock reading apart from their value.  A circuit's
    [OpenToClose] field that a user assigns by hand after the configuration is not distinguished
    from the copy among its collectors.  Constructors and factories of a manager act on the
    manager's world; the factories stored in a configuration act on the environment alone.

    ** Not modelled

    The text of JSON values, of instants and of floating point numbers, which are parameters;
    example/main.go, a demonstration that is not part of the library;
    the headers of the event stream's responses and when its ticks come (its JSON encoding is a
    parameter); the overlap of an addition and a clear of a bucket that is a whole window late
    ([g_late] counts them, and the theorems of exactness exclude them); what a function goes on to do
    after the caller of [Go] has left, interleaved with that caller, and a function that is left in the
    middle of a transition.
*)

From stdpp Require Export base tactics list option numbers gmap strings sorting.
From Stdlib Require Export ZArith Lia Sorted.
From Stdlib Require Export Setoid Morphisms.

Declare Scope go_scope.
Delimit Scope go_scope with go.

(** * Fixed-width integers

    [int64] (and [int] on the 64-bit platforms) are integers of [Z] kept in range by
    [wrap64], the two's-complement wrap-around of the language specification. *)

Definition min_int64 : Z := - 2 ^ 63.

Definition max_int64 : Z := 2 ^ 63 - 1.

Definition in_int64 (z : Z) : bool := (min_int64 <=? z)%Z && (z <=? max_int64)%Z.

Definition wrap64 (z : Z) : Z := (z + 2 ^ 63) mod 2 ^ 64 - 2 ^ 63.

(** [time.Time] is the number of nanoseconds since the zero [Time], on one timeline;
    [time.Duration] is an [int64] number of nanoseconds. *)
Abbreviation Time := Z.
Abbreviation Duration := Z.

(** [t.Sub(u)] saturates at the extreme durations. *)
Definition time_Sub (t u : Time) : Duration :=
  Z.max min_int64 (Z.min max_int64 (t - u)).

Definition time_Add (t : Time) (d : Duration) : Time := (t + d)%Z.

Definition time_After (t u : Time) : bool := (u <? t)%Z.

Definition time_Before (t u : Time) : bool := (t <? u)%Z.

Definition time_IsZero (t : Time) : bool := (t =? 0)%Z.

Definition Nanosecond : Duration := 1.
Definition Millisecond : Duration := 1000000.
Definition Second : Duration := 1000000000.

(** * Slices

    A slice is a list; an index expression out of range panics, so a read and a write
    return [None] there. *)
Definition slice_get {A} (l : list A) (i : Z) : option A :=
  if (i <? 0)%Z then None else l !! Z.to_nat i.

Definition slice_set {A} (l : list A) (i : Z) (x : A) : option (list A) :=
  if (0 <=? i)%Z && (i <? Z.of_nat (length l))%Z then Some (<[Z.to_nat i := x]> l) else None.

Definition zlen {A} (l : list A) : Z := Z.of_nat (length l).

Definition zsum (l : list Z) : Z := foldr Z.add 0%Z l.

(** The number of elements of [l] that satisfy the boolean [p]. *)
Fixpoint count_if {A} (p : A -> bool) (l : list A) : Z :=
  match l with
  | [] => 0
  | x :: l' => (if p x then 1 else 0) + count_if p l'
  end%Z.

#[global] Arguments wrap64 _ : simpl never.
#[global] Arguments time_Sub _ _ : simpl never.
#[global] Arguments min_int64 : simpl never.
#[global] Arguments max_int64 : simpl never.

(** * Automation *)

Create HintDb go_ints.
Create HintDb go_lists.
Create Rewrite HintDb go_ints.
Create Rewrite HintDb go_lists.

(** Case analysis on every boolean comparison of the context and the goal. *)
Ltac zbool :=
  repeat match goal with
  | H : context [ (?a <=? ?b)%Z ] |- _ => destruct (Z.leb_spec a b)
  | H : context [ (?a <? ?b)%Z ] |- _ => destruct (Z.ltb_spec a b)
  | H : context [ (?a =? ?b)%Z ] |- _ => destruct (Z.eqb_spec a b)
  | |- context [ (?a <=? ?b)%Z ] => destruct (Z.leb_spec a b)
  | |- context [ (?a <? ?b)%Z ] => destruct (Z.ltb_spec a b)
  | |- context [ (?a =? ?b)%Z ] => destruct (Z.eqb_spec a b)
  end.

(** Splits the boolean connectives of the hypotheses and of the goal. *)
Ltac bdestr :=
  repeat match goal with
  | H : _ && _ = true |- _ => apply andb_true_iff in H; destruct H
  | H : _ || _ = false |- _ => apply orb_false_iff in H; destruct H
  | H : negb _ = true |- _ => apply negb_true_iff in H
  | H : negb _ = false |- _ => apply negb_false_iff in H
  | H : (_ <=? _)%Z = true |- _ => apply Z.leb_le in H
  | H : (_ <=? _)%Z = false |- _ => apply Z.leb_gt in H
  | H : (_ <? _)%Z = true |- _ => apply Z.ltb_lt in H
  | H : (_ <? _)%Z = false |- _ => apply Z.ltb_ge in H
  | H : (_ =? _)%Z = true |- _ => apply Z.eqb_eq in H
  | H : (_ =? _)%Z = false |- _ => apply Z.eqb_neq in H
  end.

(** * Lemmas on fixed-width integers *)

Lemma in_int64_spec z : in_int64 z = true <-> (min_int64 <= z <= max_int64)%Z.
Proof. unfold in_int64. rewrite andb_true_iff, !Z.leb_le. done. Qed.

Lemma wrap64_range z : (min_int64 <= wrap64 z <= max_int64)%Z.
Proof.
  unfold wrap64, min_int64, max_int64.
  pose proof (Z.mod_pos_bound (z + 2 ^ 63) (2 ^ 64) ltac:(lia)). lia.
Qed.

Lemma wrap64_in_int64 z : in_int64 (wrap64 z) = true.
Proof. apply in_int64_spec, wrap64_range. Qed.

Lemma wrap64_id z : (min_int64 <= z <= max_int64)%Z -> wrap64 z = z.
Proof.
  unfold wrap64, min_int64, max_int64. intros H. rewrite Z.mod_small; lia.
Qed.

Lemma wrap64_cong a b : (a mod 2 ^ 64 = b mod 2 ^ 64)%Z -> wrap64 a = wrap64 b.
Proof.
  unfold wrap64. intros H. f_equal.
  rewrite <- (Zplus_mod_idemp_l a), <- (Zplus_mod_idemp_l b). by rewrite H.
Qed.

Lemma wrap64_mod z : (wrap64 z mod 2 ^ 64 = z mod 2 ^ 64)%Z.
Proof.
  unfold wrap64. rewrite <- (Zminus_mod_idemp_l).
  rewrite Z.mod_mod by lia. rewrite Zminus_mod_idemp_l. f_equal. lia.
Qed.

Lemma wrap64_idemp z : wrap64 (wrap64 z) = wrap64 z.
Proof. apply wrap64_id, wrap64_range. Qed.

Lemma wrap64_add_l a b : wrap64 (wrap64 a + b) = wrap64 (a + b).
Proof.
  apply wrap64_cong. rewrite <- Zplus_mod_idemp_l, wrap64_mod, Zplus_mod_idemp_l. done.
Qed.

Lemma wrap64_add_r a b : wrap64 (a + wrap64 b) = wrap64 (a + b).
Proof. rewrite Z.add_comm, wrap64_add_l, Z.add_comm. done. Qed.

Lemma time_Sub_range t u : (min_int64 <= time_Sub t u <= max_int64)%Z.
Proof. unfold time_Sub, min_int64, max_int64. lia. Qed.

Lemma time_Sub_exact t u :
  (min_int64 <= t - u <= max_int64)%Z -> time_Sub t u = (t - u)%Z.
Proof. unfold time_Sub. lia. Qed.

Lemma time_Sub_mono t t' u : (t <= t')%Z -> (time_Sub t u <= time_Sub t' u)%Z.
Proof. unfold time_Sub. lia. Qed.

#[export] Hint Resolve wrap64_range wrap64_in_int64 time_Sub_range : go_ints.
#[export] Hint Rewrite wrap64_idemp wrap64_add_l wrap64_add_r : go_ints.

(** * Lemmas on slices, sums and counts *)

Lemma slice_get_lookup {A} (l : list A) i x :
  slice_get l i = Some x <-> (0 <= i)%Z /\ l !! Z.to_nat i = Some x.
Proof.
  unfold slice_get. destruct (Z.ltb_spec i 0); split; intros ?; destruct_and?; by try lia.
Qed.

Lemma slice_get_Some {A} (l : list A) i :
  (0 <= i < zlen l)%Z -> exists x, slice_get l i = Some x.
Proof.
  unfold slice_get, zlen. intros H. zbool; [lia |].
  apply lookup_lt_is_Some. lia.
Qed.

Lemma slice_set_Some {A} (l : list A) i x :
  (0 <= i < zlen l)%Z -> slice_set l i x = Some (<[Z.to_nat i := x]> l).
Proof. unfold slice_set, zlen. intros H. zbool; simpl; by try lia. Qed.

Lemma slice_set_None {A} (l : list A) i x :
  ~ (0 <= i < zlen l)%Z -> slice_set l i x = None.
Proof. unfold slice_set, zlen. intros H. zbool; simpl; by try lia. Qed.

Lemma zlen_nonneg {A} (l : list A) : (0 <= zlen l)%Z.
Proof. unfold zlen. lia. Qed.

Lemma zlen_insert {A} (l : list A) i x : zlen (<[i := x]> l) = zlen l.
Proof. unfold zlen. by rewrite length_insert. Qed.

Lemma zsum_app l l' : zsum (l ++ l') = (zsum l + zsum l')%Z.
Proof. induction l; simpl; lia. Qed.

Lemma count_if_nonneg {A} (p : A -> bool) l : (0 <= count_if p l)%Z.
Proof. induction l as [|x l IH]; simpl; [lia | destruct (p x); lia]. Qed.

Lemma count_if_ext {A} (p q : A -> bool) l :
  (forall x, x ∈ l -> p x = q x) -> count_if p l = count_if q l.
Proof.
  induction l as [|x l IH]; intros H; simpl; [done |].
  rewrite (H x), IH; [done | | left]. intros y Hy. apply H. by right.
Qed.

Lemma count_if_false {A} (l : list A) : count_if (fun _ => false) l = 0%Z.
Proof. induction l; simpl; lia. Qed.

Lemma count_if_app {A} (p : A -> bool) l l' : count_if p (l ++ l') = (count_if p l + count_if p l')%Z.
Proof. induction l as [|x l IH]; cbn [app count_if]; lia. Qed.

Lemma count_if_insert {A} (p : A -> bool) l i x y :
  l !! i = Some x ->
  count_if p (<[i := y]> l) = (count_if p l - (if p x then 1 else 0) + (if p y then 1 else 0))%Z.
Proof.
  revert i. induction l as [|z l IH]; intros [|i]; simpl; try done.
  - intros [= ->]. lia.
  - intros H. rewrite IH by done. lia.
Qed.

Lemma count_if_mono {A} (p q : A -> bool) l :
  (forall x, p x = true -> q x = true) -> (count_if p l <= count_if q l)%Z.
Proof.
  intros H. induction l as [|x l IH]; cbn [count_if]; [lia |].
  specialize (H x). destruct (p x); [rewrite H by done | destruct (q x)]; lia.
Qed.

Lemma count_if_le_length {A} (p : A -> bool) (l : list A) : (count_if p l <= zlen l)%Z.
Proof. unfold zlen. induction l as [|x l IH]; simpl; [lia |]. destruct (p x); lia. Qed.

Lemma zsum_cons x l : zsum (x :: l) = (x + zsum l)%Z.
Proof. done. Qed.

(** Removing elements keeps a property of all elements and the order. *)
Lemma Forall_sublist {A} (P : A -> Prop) l l' : l `sublist_of` l' -> Forall P l' -> Forall P l.
Proof. induction 1; intros HF; [done | |]; apply Forall_cons in HF as [? ?]; auto. Qed.

Lemma StronglySorted_sublist {A} (R : A -> A -> Prop) l l' :
  l `sublist_of` l' -> StronglySorted R l' -> StronglySorted R l.
Proof.
  induction 1 as [|x l l' Hsub IH|x l l' Hsub IH]; intros HS; [done | |];
    apply StronglySorted_inv in HS as [HS HF]; [| by auto].
  constructor; [by auto | by eapply Forall_sublist].
Qed.

(** Adding an indicator to one entry of a sum over [k, k+m). *)
Lemma zsum_indicator (b : bool) (g : nat -> Z) (x m k : nat) :
  zsum ((fun j => (if b && (x =? j)%nat then 1 else 0) + g j)%Z <$> seq k m)
  = ((if b && (k <=? x)%nat && (x <? k + m)%nat then 1 else 0) + zsum (g <$> seq k m))%Z.
Proof.
  revert k. induction m as [|m IH]; intros k.
  - destruct b, (Nat.leb_spec k x), (Nat.ltb_spec x (k + 0)); simpl; lia.
  - rewrite <- cons_seq, !fmap_cons, !zsum_cons, IH.
    destruct b; cbn [andb]; [| lia].
    destruct (Nat.eqb_spec x k), (Nat.leb_spec (S k) x),
      (Nat.leb_spec k x), (Nat.ltb_spec x (S k + m)), (Nat.ltb_spec x (k + S m));
      cbn [andb]; lia.
Qed.

(** Counting by residue: every element is counted in exactly one of the [n] classes. *)
Lemma count_if_partition {A} (p : A -> bool) (f : A -> nat) (n : nat) (l : list A) :
  (forall x, x ∈ l -> p x = true -> f x < n) ->
  zsum ((fun j => count_if (fun x => p x && (f x =? j)%nat) l) <$> seq 0 n) = count_if p l.
Proof.
  intros Hf. induction l as [|x l IH].
  - cbn [count_if]. clear Hf. generalize 0%nat. induction n as [|n IH]; intros k; [done |].
    rewrite <- cons_seq, fmap_cons, zsum_cons, IH. done.
  - cbn [count_if]. rewrite zsum_indicator, IH by (intros y Hy; apply Hf; by right).
    f_equal. destruct (p x) eqn:E; [| done].
    specialize (Hf x ltac:(left) E). simpl. by destruct (Nat.ltb_spec (f x) n); [| lia].
Qed.

#[export] Hint Resolve zlen_nonneg count_if_nonneg : go_lists.
#[export] Hint Rewrite @zlen_insert @length_insert : go_lists.
