(* ===== verification/GoMonad.v ===== *)
(** The effects of the modelled Go code: a method is a state transformer whose outcome is a
    returned value, a panic (which unwinds, running the deferred calls), a deadlock on a
    mutex the goroutine already holds, or exhausted fuel of a loop.  The state is kept in
    every outcome, so what a deferred call or a recovering caller sees is modelled.

    The file also gives the program logic used by the other files: the total weakest
    precondition [wp] (deadlock and exhausted fuel satisfy no postcondition), invariants
    [stable] under every outcome, invariants re-established by a normal return [safe], and the
    value a computation [reads]. *)

From S2P Require Import Prelude.

Open Scope Z_scope.

(** * Outcomes and computations *)

Inductive panic :=
| IndexOutOfRange
| NilDereference
| MakeSliceLen
| UnlockOfUnlocked
| IntegerDivideByZero
| PanicValue (v : nat).

#[export] Instance panic_eq_dec : EqDecision panic.
Proof. solve_decision. Defined.

Inductive outcome (A : Type) :=
| Ret (a : A)
| Panic (p : panic)
| Deadlock
| OutOfFuel.

Arguments Ret {A} a.
Arguments Panic {A} p.
Arguments Deadlock {A}.
Arguments OutOfFuel {A}.

Definition M (St A : Type) : Type := St -> outcome A * St.

Definition ret {St A} (a : A) : M St A := fun s => (Ret a, s).

Definition throw {St A} (p : panic) : M St A := fun s => (Panic p, s).

Definition bind {St A B} (m : M St A) (f : A -> M St B) : M St B := fun s =>
  match m s with
  | (Ret a, s') => f a s'
  | (Panic p, s') => (Panic p, s')
  | (Deadlock, s') => (Deadlock, s')
  | (OutOfFuel, s') => (OutOfFuel, s')
  end.

Definition gets {St A} (f : St -> A) : M St A := fun s => (Ret (f s), s).

Definition modify {St} (f : St -> St) : M St unit := fun s => (Ret tt, f s).

Notation "'let!' x := c 'in' k" := (bind c (fun x => k))
  (at level 10, x pattern, c at level 100, k at level 200) : go_scope.
Notation "'do!' c ; k" := (bind c (fun _ => k))
  (at level 10, c at level 100, k at level 200) : go_scope.

Open Scope go_scope.

(** [defer cleanup] before [m]: the deferred call runs on a normal return and while a
    panic unwinds; a panic of the deferred call replaces the outcome. *)
Definition defer {St A} (cleanup : M St unit) (m : M St A) : M St A := fun s =>
  match m s with
  | (Ret a, s') => (do! cleanup; ret a) s'
  | (Panic p, s') => (do! cleanup; throw p) s'
  | (Deadlock, s') => (Deadlock, s')
  | (OutOfFuel, s') => (OutOfFuel, s')
  end.

(** [for _, x := range l { f(x) }] *)
Fixpoint range_do {St A} (f : A -> M St unit) (l : list A) : M St unit :=
  match l with
  | [] => ret tt
  | x :: l' => do! f x; range_do f l'
  end.

(** A pure expression that panics when it has no value. *)
Definition of_option {St A} (p : panic) (o : option A) : M St A :=
  match o with
  | Some a => ret a
  | None => throw p
  end.

(** A function of another package that returns or panics. *)
Definition of_outcome {St A} (o : outcome A) : M St A := fun s => (o, s).

(** * Components of a state *)

Record lens (St T : Type) := Lens { view : St -> T; upd : T -> St -> St }.

Arguments Lens {St T} _ _.
Arguments view {St T} _ _.
Arguments upd {St T} _ _ _.

Class LensLaws {St T} (l : lens St T) : Prop := {
  view_upd : forall t s, view l (upd l t s) = t;
  upd_view : forall s, upd l (view l s) s = s;
  upd_upd : forall t t' s, upd l t (upd l t' s) = upd l t s
}.

(** A method of a component, run on the component inside its owner. *)
Definition zoom {St T A} (l : lens St T) (m : M T A) : M St A := fun s =>
  let '(o, t) := m (view l s) in (o, upd l t s).

(** The same through a pointer field that may be nil. *)
Definition zoom_ptr {St T A} (l : lens St (option T)) (m : M T A) : M St A := fun s =>
  match view l s with
  | Some x => let '(o, t) := m x in (o, upd l (Some t) s)
  | None => (Panic NilDereference, s)
  end.

Definition lens_comp {St T V} (l : lens St T) (k : lens T V) : lens St V :=
  Lens (fun s => view k (view l s)) (fun v s => upd l (upd k v (view l s)) s).

(** * Program logic *)

Definition wp {St A} (m : M St A) (Q : A -> St -> Prop) (E : panic -> St -> Prop) (s : St) : Prop :=
  match m s with
  | (Ret a, s') => Q a s'
  | (Panic p, s') => E p s'
  | (Deadlock, _) | (OutOfFuel, _) => False
  end.

(** [I] survives [m], whatever its outcome. *)
Definition stable {St A} (I : St -> Prop) (m : M St A) : Prop :=
  forall s, I s -> I (snd (m s)).

(** From a state of [I], [m] returns normally to a state of [I]: no panic, no deadlock. *)
Definition safe {St A} (I : St -> Prop) (m : M St A) : Prop :=
  forall s, I s -> exists a s', m s = (Ret a, s') /\ I s'.

(** From a state of [I], [m] re-establishes [I], by a normal return or by a panic of [E]. *)
Definition total {St A} (E : panic -> Prop) (I : St -> Prop) (m : M St A) : Prop :=
  forall s, I s -> wp m (fun _ => I) (fun p s' => E p /\ I s') s.

(** Equality of computations is pointwise. *)
Definition meq {St A} (m m' : M St A) : Prop := forall s, m s = m' s.

Infix "=~" := meq (at level 70, no associativity) : go_scope.

Create HintDb go_stable.
Create HintDb go_safe.
Create Rewrite HintDb go_monad.

#[export] Instance meq_equivalence St A : Equivalence (@meq St A).
Proof.
  constructor; unfold meq.
  - intros m s. done.
  - intros m m' H s. done.
  - intros m1 m2 m3 H H' s. by rewrite H.
Qed.

#[export] Instance bind_proper St A B :
  Proper (meq ==> pointwise_relation A meq ==> meq) (@bind St A B).
Proof.
  intros m m' Hm f f' Hf s. unfold bind. rewrite Hm.
  destruct (m' s) as [[] s']; try done. apply Hf.
Qed.

#[export] Instance defer_proper St A :
  Proper (meq ==> meq ==> meq) (@defer St A).
Proof.
  intros c c' Hc m m' Hm s. unfold defer, bind. rewrite Hm.
  destruct (m' s) as [[] s']; by rewrite ?Hc.
Qed.

#[export] Instance zoom_proper St T A (l : lens St T) :
  Proper (meq ==> meq) (@zoom St T A l).
Proof. intros m m' Hm s. unfold zoom. by rewrite Hm. Qed.

#[export] Instance stable_proper St A I : Proper (meq ==> iff) (@stable St A I).
Proof.
  intros m m' Hm. unfold stable. split; intros H s Hs; specialize (H s Hs); by rewrite Hm in *.
Qed.

#[export] Instance safe_proper St A I : Proper (meq ==> iff) (@safe St A I).
Proof.
  intros m m' Hm. unfold safe. split; intros H s Hs; destruct (H s Hs) as (a & s' & E & HI);
    exists a, s'; by rewrite Hm in *.
Qed.

(** ** Monad laws *)

Lemma bind_ret_l {St A B} (a : A) (f : A -> M St B) : bind (ret a) f =~ f a.
Proof. done. Qed.

Lemma bind_ret_r {St A} (m : M St A) : bind m ret =~ m.
Proof. intros s. unfold bind, ret. by destruct (m s) as [[] s']. Qed.

Lemma bind_assoc {St A B C} (m : M St A) (f : A -> M St B) (g : B -> M St C) :
  bind (bind m f) g =~ bind m (fun a => bind (f a) g).
Proof. intros s. unfold bind. by destruct (m s) as [[] s']. Qed.

Lemma bind_throw_l {St A B} p (f : A -> M St B) : bind (throw p) f =~ throw p.
Proof. done. Qed.

Lemma bind_run {St A B} (m : M St A) (f : A -> M St B) s a s' :
  m s = (Ret a, s') -> bind m f s = f a s'.
Proof. unfold bind. by intros ->. Qed.

Lemma bind_inv {St A B} (m : M St A) (f : A -> M St B) s b s' :
  bind m f s = (Ret b, s') -> exists a s1, m s = (Ret a, s1) /\ f a s1 = (Ret b, s').
Proof. unfold bind. destruct (m s) as [[a| | |] s1]; [by exists a, s1 | done ..]. Qed.

Lemma defer_ret {St A} (c : M St unit) (a : A) : defer c (ret a) =~ (do! c; ret a).
Proof. done. Qed.

Lemma range_do_app {St A} (f : A -> M St unit) l l' :
  range_do f (l ++ l') =~ (do! range_do f l; range_do f l').
Proof.
  induction l as [|x l IH]; simpl; [done |].
  rewrite bind_assoc. by setoid_rewrite IH.
Qed.

(** ** Rules of [wp] *)

Section Wp.
Context {St : Type}.
Implicit Types E : panic -> St -> Prop.

Lemma wp_ret {A} (a : A) (Q : A -> St -> Prop) E s : Q a s -> wp (ret a) Q E s.
Proof. done. Qed.

Lemma wp_throw {A} p (Q : A -> St -> Prop) E s : E p s -> wp (throw p) Q E s.
Proof. done. Qed.

Lemma wp_bind {A B} (m : M St A) (f : A -> M St B) Q E s :
  wp m (fun a => wp (f a) Q E) E s -> wp (bind m f) Q E s.
Proof. unfold wp, bind. by destruct (m s) as [[] s']. Qed.

Lemma wp_gets {A} (f : St -> A) (Q : A -> St -> Prop) E s : Q (f s) s -> wp (gets f) Q E s.
Proof. done. Qed.

Lemma wp_modify (f : St -> St) (Q : unit -> St -> Prop) E s : Q tt (f s) -> wp (modify f) Q E s.
Proof. done. Qed.

Lemma wp_defer {A} (c : M St unit) (m : M St A) Q E s :
  wp m (fun a => wp c (fun _ => Q a) E) (fun p => wp c (fun _ => E p) E) s ->
  wp (defer c m) Q E s.
Proof.
  unfold wp, defer, bind. destruct (m s) as [[] s']; try done.
  - by destruct (c s') as [[] s''].
  - by destruct (c s') as [[] s''].
Qed.

Lemma wp_mono {A} (m : M St A) (Q Q' : A -> St -> Prop) E E' s :
  wp m Q E s -> (forall a s', Q a s' -> Q' a s') -> (forall p s', E p s' -> E' p s') ->
  wp m Q' E' s.
Proof. unfold wp. destruct (m s) as [[] s']; eauto. Qed.

Lemma wp_zoom {T A} (l : lens St T) (m : M T A) Q E s :
  wp m (fun a t => Q a (upd l t s)) (fun p t => E p (upd l t s)) (view l s) ->
  wp (zoom l m) Q E s.
Proof. unfold wp, zoom. by destruct (m (view l s)) as [[] t]. Qed.

Lemma wp_run {A} (m : M St A) Q E s a s' : m s = (Ret a, s') -> wp m Q E s -> Q a s'.
Proof. unfold wp. by intros ->. Qed.

Lemma safe_wp {A} (I : St -> Prop) (m : M St A) :
  safe I m <-> forall s, I s -> wp m (fun _ => I) (fun _ _ => False) s.
Proof.
  unfold safe, wp. split.
  - intros H s Hs. destruct (H s Hs) as (a & s' & -> & HI). done.
  - intros H s Hs. specialize (H s Hs). destruct (m s) as [[] s']; naive_solver.
Qed.
End Wp.

(** ** Rules of [stable] and [safe] *)

Section Stable.
Context {St : Type} (I : St -> Prop).

Lemma stable_ret {A} (a : A) : stable I (ret a).
Proof. intros s Hs. done. Qed.

Lemma stable_throw {A} p : stable I (@throw St A p).
Proof. intros s Hs. done. Qed.

Lemma stable_gets {A} (f : St -> A) : stable I (gets f).
Proof. intros s Hs. done. Qed.

Lemma stable_modify (f : St -> St) : (forall s, I s -> I (f s)) -> stable I (modify f).
Proof. intros Hf s Hs. by apply Hf. Qed.

Lemma stable_bind {A B} (m : M St A) (f : A -> M St B) :
  stable I m -> (forall a, stable I (f a)) -> stable I (bind m f).
Proof.
  intros Hm Hf s Hs. unfold bind. specialize (Hm s Hs).
  destruct (m s) as [[] s']; try done. by apply Hf.
Qed.

Lemma stable_defer {A} (c : M St unit) (m : M St A) :
  stable I c -> stable I m -> stable I (defer c m).
Proof.
  intros Hc Hm s Hs. unfold defer. specialize (Hm s Hs).
  destruct (m s) as [[] s']; try done; simpl in Hm.
  - by apply stable_bind; [| intros; apply stable_ret |].
  - by apply stable_bind; [| intros; apply stable_throw |].
Qed.

Lemma stable_range_do {A} (f : A -> M St unit) l :
  (forall x, x ∈ l -> stable I (f x)) -> stable I (range_do f l).
Proof.
  induction l as [|x l IH]; intros H; simpl; [apply stable_ret |].
  apply stable_bind; [apply H; left |]. intros _. apply IH. intros y Hy. apply H. by right.
Qed.

Lemma safe_ret {A} (a : A) : safe I (ret a).
Proof. intros s Hs. by exists a, s. Qed.

Lemma safe_gets {A} (f : St -> A) : safe I (gets f).
Proof. intros s Hs. by exists (f s), s. Qed.

Lemma safe_modify (f : St -> St) : (forall s, I s -> I (f s)) -> safe I (modify f).
Proof. intros Hf s Hs. exists tt, (f s). eauto. Qed.

Lemma safe_bind {A B} (m : M St A) (f : A -> M St B) :
  safe I m -> (forall a, safe I (f a)) -> safe I (bind m f).
Proof.
  intros Hm Hf s Hs. destruct (Hm s Hs) as (a & s' & E & Hs'). unfold bind. rewrite E.
  by apply Hf.
Qed.

Lemma safe_range_do {A} (f : A -> M St unit) l :
  (forall x, x ∈ l -> safe I (f x)) -> safe I (range_do f l).
Proof.
  induction l as [|x l IH]; intros H; simpl; [apply safe_ret |].
  apply safe_bind; [apply H; left |]. intros _. apply IH. intros y Hy. apply H. by right.
Qed.
End Stable.

(** ** Computations that only look

    [m] returns [a] from every state of [I], and stays in [I]. *)

Definition reads {St A} (I : St -> Prop) (m : M St A) (a : A) : Prop :=
  forall s, I s -> exists s', m s = (Ret a, s') /\ I s'.

Section Reads.
Context {St : Type} (I : St -> Prop).

Lemma reads_ret {A} (a : A) : reads I (ret a) a.
Proof. intros s Hs. by exists s. Qed.

Lemma reads_bind {A B} (m : M St A) (f : A -> M St B) a b :
  reads I m a -> reads I (f a) b -> reads I (bind m f) b.
Proof.
  intros Hm Hf s Hs. destruct (Hm s Hs) as (s1 & E & H1). destruct (Hf s1 H1) as (s2 & E2 & H2).
  exists s2. split; [by rewrite (bind_run _ _ _ _ _ E) | done].
Qed.

Lemma reads_gets {A} (f : St -> A) a : (forall s, I s -> f s = a) -> reads I (gets f) a.
Proof. intros H s Hs. exists s. unfold gets. by rewrite (H s Hs). Qed.

Lemma reads_of_option {A} p (o : option A) a : o = Some a -> reads I (of_option p o) a.
Proof. intros ->. apply reads_ret. Qed.

Lemma reads_zoom {T A} (l : lens St T) (J : T -> Prop) (m : M T A) a :
  reads J m a -> (forall s, I s -> J (view l s)) -> (forall t s, I s -> J t -> I (upd l t s)) ->
  reads I (zoom l m) a.
Proof.
  intros Hm HIJ HJI s Hs. destruct (Hm _ (HIJ s Hs)) as (t & E & Ht).
  exists (upd l t s). unfold zoom. rewrite E. eauto.
Qed.
End Reads.

(** ** Rules of [total] *)

Lemma safe_total {St A} E (I : St -> Prop) (m : M St A) : safe I m -> total E I m.
Proof. intros H s Hs. destruct (H s Hs) as (a & s' & E' & HI). unfold wp. by rewrite E'. Qed.

Lemma total_safe {St A} (I : St -> Prop) (m : M St A) : total (fun _ => False) I m -> safe I m.
Proof.
  intros H s Hs. specialize (H s Hs). unfold wp in H.
  destruct (m s) as [[] s2]; try tauto. by exists a, s2.
Qed.

Lemma total_bind {St A B} E (I : St -> Prop) (m : M St A) (f : A -> M St B) :
  total E I m -> (forall a, total E I (f a)) -> total E I (bind m f).
Proof.
  intros Hm Hf s Hs. apply wp_bind. eapply wp_mono; [by apply Hm | | done].
  intros a s' HI. by apply Hf.
Qed.

(** A deferred call that leads from [J] to [I]. *)
Lemma wp_defer_total {St A} (E : panic -> Prop) (I J : St -> Prop) (c : M St unit) (m : M St A) s :
  wp m (fun _ => J) (fun p s' => E p /\ J s') s -> (forall s, J s -> exists s', c s = (Ret tt, s') /\ I s') ->
  wp (defer c m) (fun _ => I) (fun p s' => E p /\ I s') s.
Proof.
  intros Hm Hc. apply wp_defer. eapply wp_mono; [exact Hm | |]; simpl.
  - intros _ s' HJ. destruct (Hc s' HJ) as (s2 & E2 & HI). unfold wp. by rewrite E2.
  - intros p s' [HE HJ]. destruct (Hc s' HJ) as (s2 & E2 & HI). unfold wp. by rewrite E2.
Qed.

Lemma safe_stable {St A} (I : St -> Prop) (m : M St A) : safe I m -> stable I m.
Proof. intros H s Hs. destruct (H s Hs) as (a & s' & -> & HI). done. Qed.

Lemma stable_zoom {St T A} (l : lens St T) (J : T -> Prop) (I : St -> Prop) (m : M T A) :
  stable J m -> (forall s, I s -> J (view l s)) ->
  (forall t s, I s -> J t -> I (upd l t s)) -> stable I (zoom l m).
Proof.
  intros Hm HIJ HJI s Hs. unfold zoom. specialize (Hm (view l s) (HIJ s Hs)).
  destruct (m (view l s)) as [o t]. by apply HJI.
Qed.

Lemma safe_zoom {St T A} (l : lens St T) (J : T -> Prop) (I : St -> Prop) (m : M T A) :
  safe J m -> (forall s, I s -> J (view l s)) ->
  (forall t s, I s -> J t -> I (upd l t s)) -> safe I (zoom l m).
Proof.
  intros Hm HIJ HJI s Hs. destruct (Hm (view l s) (HIJ s Hs)) as (a & t & E & Ht).
  exists a, (upd l t s). unfold zoom. rewrite E. eauto.
Qed.

#[export] Hint Resolve stable_ret stable_throw stable_gets : go_stable.
#[export] Hint Resolve safe_ret safe_gets : go_safe.
#[export] Hint Rewrite @bind_ret_l @bind_assoc @bind_throw_l : go_monad.

(** Symbolic execution of a straight-line method under [wp]. *)
Ltac wp_step :=
  lazymatch goal with
  | |- wp (bind _ _) _ _ _ => apply wp_bind
  | |- wp (ret _) _ _ _ => apply wp_ret
  | |- wp (throw _) _ _ _ => apply wp_throw
  | |- wp (gets _) _ _ _ => apply wp_gets
  | |- wp (modify _) _ _ _ => apply wp_modify
  | |- wp (defer _ _) _ _ _ => apply wp_defer
  | |- wp (zoom _ _) _ _ _ => apply wp_zoom
  | |- wp (if ?b then _ else _) _ _ _ => destruct b eqn:?
  end.
Ltac wp_go := repeat (wp_step; cbn beta iota).

(** Structural proof that an invariant is stable: the leaves are left to [tac]. *)
Ltac stable_go tac :=
  repeat match goal with
  | |- stable _ (bind _ _) => apply stable_bind; [| intros ?]
  | |- stable _ (defer _ _) => apply stable_defer
  | |- stable _ (ret _) => apply stable_ret
  | |- stable _ (throw _) => apply stable_throw
  | |- stable _ (gets _) => apply stable_gets
  | |- stable _ (range_do _ _) => apply stable_range_do; intros ? ?
  | |- stable _ (if ?b then _ else _) => destruct b eqn:?
  | |- stable _ (match ?b with _ => _ end) => destruct b eqn:?
  | |- stable _ _ => tac
  end.

Ltac safe_go tac :=
  repeat match goal with
  | |- safe _ (bind _ _) => apply safe_bind; [| intros ?]
  | |- safe _ (ret _) => apply safe_ret
  | |- safe _ (gets _) => apply safe_gets
  | |- safe _ (range_do _ _) => apply safe_range_do; intros ? ?
  | |- safe _ (if ?b then _ else _) => destruct b eqn:?
  | |- safe _ (match ?b with _ => _ end) => destruct b eqn:?
  | |- safe _ _ => tac
  end.
