(* ===== verification/GoFloat.v ===== *)
(** [float64]: IEEE 754 binary64 with round to nearest even, as the Standard Library specifies
    it ([SpecFloat], no axioms), the conversions between [int64] and [float64], and the
    functions of package math that the program uses.  A conversion to an integer of a value out
    of the range of the integer (or of NaN) is implementation-dependent in Go: [int64_of_float]
    has no value there. *)

From Stdlib Require Import Floats.SpecFloat.
From S2P Require Import Prelude.

Open Scope Z_scope.

Definition float64 := spec_float.

Definition float64_of_int (z : Z) : float64 := binary_normalize 53 1024 z 0 false.

Definition fadd (x y : float64) : float64 := SFadd 53 1024 x y.
Definition fsub (x y : float64) : float64 := SFsub 53 1024 x y.
Definition fmul (x y : float64) : float64 := SFmul 53 1024 x y.
Definition fdiv (x y : float64) : float64 := SFdiv 53 1024 x y.
Definition fle (x y : float64) : bool := SFleb x y.
Definition flt (x y : float64) : bool := SFltb x y.

(** [math.IsNaN] *)
Definition is_nan (x : float64) : bool := match x with S754_nan => true | _ => false end.

(** The numerator and the denominator [2 ^ _] of a finite value. *)
Definition float_ratio (x : float64) : option (Z * Z) :=
  match x with
  | S754_zero _ => Some (0, 1)
  | S754_finite s m e =>
      let n := if s then Z.neg m else Z.pos m in
      Some (if 0 <=? e then (n * 2 ^ e, 1) else (n, 2 ^ (- e)))
  | _ => None
  end.

(** [math.Floor] and [math.Ceil]; an infinity or NaN is returned as it is. *)
Definition math_Floor (x : float64) : float64 :=
  match float_ratio x with Some (n, d) => float64_of_int (n / d) | None => x end.
Definition math_Ceil (x : float64) : float64 :=
  match float_ratio x with Some (n, d) => float64_of_int (- (- n / d)) | None => x end.

(** [int64(x)]: truncation towards zero. *)
Definition int64_of_float (x : float64) : option Z :=
  match float_ratio x with
  | Some (n, d) => let z := Z.quot n d in if in_int64 z then Some z else None
  | None => None
  end.

Example float_third : int64_of_float (fmul (fdiv (float64_of_int 1) (float64_of_int 3)) (float64_of_int 300)) = Some 100.
Proof. vm_compute. reflexivity. Qed.

(** The value of 57 errors out of 100, as a percentage, truncated: one less than the exact one. *)
Example float_percent_truncates :
  int64_of_float (fmul (fdiv (float64_of_int 57) (float64_of_int 100)) (float64_of_int 100)) = Some 56.
Proof. vm_compute. reflexivity. Qed.
