(* ===== verification/GoFloatFacts.v ===== *)
(** Bounds of floating-point results, for GoFloat.v.

    [is_le x my ey]: the float [x] is at least zero and at most [my * 2^ey].  Rounding keeps such a
    bound when it is itself a float ([round_le]): products, quotients and differences are bounded by
    bounding the exact result; and a value nearer to it than to the next float is rounded down to it
    ([round_near]).  Integers below [2^53] are exact ([float64_of_int_exact]). *)

From Stdlib Require Import Floats.SpecFloat.
From S2P Require Import Prelude GoFloat.

Open Scope Z_scope.

(** [m * 2^e], in units of [2^-K]: exponents are at least [-K]. *)
Definition K : Z := 5000.
Definition V (m e : Z) : Z := m * 2 ^ (e + K).

Abbreviation digits := Zdigits2.

Lemma V_shift m e k : - K <= e -> 0 <= k -> V (m * 2 ^ k) e = V m (e + k).
Proof. intros He Hk. unfold V. rewrite <- Z.mul_assoc, <- Z.pow_add_r by (unfold K in *; lia). do 2 f_equal. lia. Qed.

Lemma V_scale m e e' : - K <= e' <= e -> V m e = V (m * 2 ^ (e - e')) e'.
Proof. intros H. rewrite V_shift by lia. f_equal. lia. Qed.

Lemma V_le m m' e : m <= m' -> V m e <= V m' e.
Proof. intros H. unfold V. apply Z.mul_le_mono_nonneg_r; [apply Z.pow_nonneg; lia | done]. Qed.

Lemma V_le_inv m m' e : - K <= e -> V m e <= V m' e -> m <= m'.
Proof. intros He. unfold V. apply Z.mul_le_mono_pos_r. apply Z.pow_pos_nonneg; unfold K in *; lia. Qed.

Lemma V_lt_inv m m' e : - K <= e -> V m e < V m' e -> m < m'.
Proof. intros He. unfold V. apply Z.mul_lt_mono_pos_r. apply Z.pow_pos_nonneg; unfold K in *; lia. Qed.

Lemma digits_bounds m : 0 < m -> 2 ^ (digits m - 1) <= m < 2 ^ digits m.
Proof.
  destruct m as [|p|p]; [lia | intros _ | lia]. cbn [digits].
  induction p as [p IH|p IH|]; cbn [digits2_pos]; [| | done]; rewrite Pos2Z.inj_succ;
    replace (Z.succ (Zpos (digits2_pos p)) - 1) with ((Zpos (digits2_pos p) - 1) + 1) by lia;
    rewrite Z.pow_succ_r, Z.pow_add_r by lia; change (2 ^ 1) with 2; lia.
Qed.

Lemma digits_nonneg m : 0 <= m -> 0 <= digits m.
Proof. destruct m; cbn; lia. Qed.

(** ** Shifting right *)

Lemma iter_pos_rule {A} (f : A -> A) (P : Z -> A -> Prop) n k x :
  (forall k x, 0 <= k -> P k x -> P (k + 1) (f x)) -> 0 <= k -> P k x -> P (k + Zpos n) (SpecFloat.iter_pos f n x).
Proof.
  intros Hf. revert k x. induction n as [n IH|n IH|]; intros k x Hk Hx; cbn [SpecFloat.iter_pos]; [| | by apply Hf].
  - replace (k + Zpos n~1) with ((k + 1 + Zpos n) + Zpos n) by lia. apply IH; [lia |]. apply IH; [lia |]. by apply Hf.
  - replace (k + Zpos n~0) with ((k + Zpos n) + Zpos n) by lia. apply IH; [lia |]. by apply IH.
Qed.

Definition exact (l : location) : bool := match l with loc_Exact => true | _ => false end.

(** [m0] shifted by [k] bits, with the bits lost. *)
Definition shifted (m0 : Z) (ex0 : bool) (k : Z) (mrs : shr_record) : Prop :=
  shr_m mrs = m0 / 2 ^ k /\
  (m0 = shr_m mrs * 2 ^ k -> ex0 = true -> shr_r mrs = false /\ shr_s mrs = false) /\
  (2 * (m0 - shr_m mrs * 2 ^ k) < 2 ^ k -> ex0 = true -> shr_r mrs = false).

Lemma shr_1_shifted m0 ex0 k mrs :
  0 <= m0 -> 0 <= k -> shifted m0 ex0 k mrs -> shifted m0 ex0 (k + 1) (shr_1 mrs).
Proof.
  intros Hm0 Hk (Hm & Hx & _).
  assert (Hnn : 0 <= shr_m mrs) by (rewrite Hm; apply Z.div_pos; [done | apply Z.pow_pos_nonneg; lia]).
  assert (Hdiv : m0 / 2 ^ (k + 1) = shr_m mrs / 2).
  { rewrite Hm, Z.pow_add_r, <- Z.div_div by (try apply Z.pow_nonzero; lia). done. }
  assert (Hpow : 2 ^ (k + 1) = 2 * 2 ^ k) by (rewrite Z.pow_add_r by lia; change (2 ^ 1) with 2; lia).
  assert (Hp : 0 < 2 ^ k) by (apply Z.pow_pos_nonneg; lia).
  assert (Hcase : shr_m (shr_1 mrs) = shr_m mrs / 2 /\
    (shr_m mrs = 2 * (shr_m mrs / 2) -> shr_r (shr_1 mrs) = false) /\
    shr_s (shr_1 mrs) = shr_r mrs || shr_s mrs).
  { destruct mrs as [m r s]. cbn [shr_m shr_r shr_s] in *. destruct m as [|[p|p|]|p]; cbn [shr_1 shr_m shr_r shr_s]; try lia; try done.
    - assert (Zpos p~1 / 2 = Zpos p) as -> by (symmetry; apply (Z.div_unique_pos _ _ _ 1); lia).
      split; [done |]. split; [lia | done].
    - assert (Zpos p~0 / 2 = Zpos p) as -> by (symmetry; apply (Z.div_unique_pos _ _ _ 0); lia). done. }
  destruct Hcase as (E1 & E2 & E3). split; [by rewrite E1, Hdiv |].
  split.
  2: { rewrite E1, Hpow. intros Hlow _. apply E2.
    pose proof (Z.div_mod (shr_m mrs) 2 ltac:(lia)). pose proof (Z.mod_pos_bound (shr_m mrs) 2 ltac:(lia)).
    assert (shr_m mrs * 2 ^ k <= m0) by (rewrite Hm; pose proof (Z.mul_div_le m0 (2 ^ k) Hp); lia). nia. }
  rewrite E1. intros Hm0' Hex. rewrite Hpow in Hm0'.
  assert (Heven : shr_m mrs = 2 * (shr_m mrs / 2)).
  { assert (Hq : m0 / 2 ^ k = 2 * (shr_m mrs / 2)); [| lia].
    rewrite Hm0' at 1. replace (shr_m mrs / 2 * (2 * 2 ^ k)) with (2 * (shr_m mrs / 2) * 2 ^ k) by lia.
    apply Z.div_mul. lia. }
  destruct Hx as [Hr Hs]; [nia | done |]. split; [by apply E2 |]. by rewrite E3, Hr, Hs.
Qed.

Abbreviation fexp64 := (fexp 53 1024).

(** What [shr_fexp] does: a shift by as many bits as the precision asks for. *)
Lemma shr_fexp_spec m e l :
  0 <= m ->
  exists k mrs, shr_fexp 53 1024 m e l = (mrs, e + k) /\ 0 <= k /\ shifted m (exact l) k mrs /\
    k = Z.max 0 (fexp64 (digits m + e) - e) /\ (k = 0 -> mrs = shr_record_of_loc m l).
Proof.
  intros Hm. unfold shr_fexp. set (n := fexp64 _ - e).
  assert (H0 : shifted m (exact l) 0 (shr_record_of_loc m l)).
  { split; [rewrite Z.div_1_r; by destruct l as [|[]] |]. split; by destruct l as [|[]]. }
  destruct n as [|p|p] eqn:En; cbn [shr].
  - exists 0, (shr_record_of_loc m l). rewrite Z.add_0_r. split; [done |]. split; [done |]. split; [done |]. split; done.
  - exists (Zpos p), (SpecFloat.iter_pos shr_1 p (shr_record_of_loc m l)). split; [done |]. split; [done |].
    split; [| split; [done | done]].
    change (Zpos p) with (0 + Zpos p) at 1. apply (iter_pos_rule shr_1 (shifted m (exact l))); [| done | done].
    intros k x Hk. by apply shr_1_shifted.
  - exists 0, (shr_record_of_loc m l). rewrite Z.add_0_r. split; [done |]. split; [done |]. split; [done |]. split; done.
Qed.

(** ** Rounding *)

(** At least zero, and at most [my * 2^ey]; the mantissa is one of a float. *)
Definition is_le (x : float64) (my ey : Z) : Prop :=
  x = S754_zero false \/
  exists m e, x = S754_finite false m e /\ -1074 <= e /\ Zpos m < 2 ^ 53 /\ V (Zpos m) e <= V my ey.

(** A bound that is a float. *)
Definition float_bound (my ey : Z) : Prop := 0 <= my < 2 ^ 53 /\ -1074 <= ey <= 900.

(** What is rounded, from above. *)
Definition ceil_of (mx : Z) (l : location) : Z := if exact l then mx else mx + 1.

Lemma V_pow_lt a b : - K <= a -> V 1 a < V 1 b -> a < b.
Proof.
  intros Ha H. destruct (Z.lt_ge_cases a b) as [|Hle]; [done |]. exfalso. unfold V in H.
  pose proof (Z.pow_le_mono_r 2 (b + K) (a + K)). lia.
Qed.

Lemma V_pow d e : 0 <= d -> - K <= e -> V (2 ^ d) e = V 1 (e + d).
Proof. intros Hd He. rewrite <- V_shift, Z.mul_1_l by lia. done. Qed.

(** The bound is not finer than the grid the value is rounded to. *)
Lemma grid mx ex lx my ey k :
  0 <= mx -> - K <= ex -> float_bound my ey -> V (ceil_of mx lx) ex <= V my ey ->
  0 < k -> k = fexp64 (digits mx + ex) - ex -> ex + k <= ey.
Proof.
  intros Hmx Hex (Hmy & Hey) Hle Hk Ek. unfold fexp, emin in Ek.
  destruct (Z.le_gt_cases (ex + k) ey) as [|Hgt]; [done |]. exfalso.
  assert (E : ex + k = digits mx + ex - 53) by lia.
  assert (Hpos : 0 < mx) by (destruct mx; cbn [digits] in *; lia).
  destruct (digits_bounds mx Hpos) as [Hlo _]. pose proof (digits_nonneg mx Hmx).
  assert (H1 : V 1 (ex + (digits mx - 1)) <= V my ey).
  { rewrite <- V_pow by lia. etransitivity; [by apply V_le |]. etransitivity; [| exact Hle].
    apply V_le. unfold ceil_of. destruct (exact lx); lia. }
  assert (H2 : V my ey < V 1 (ey + 53)).
  { rewrite <- V_pow by (unfold K; lia). unfold V. apply Z.mul_lt_mono_pos_r; [apply Z.pow_pos_nonneg; unfold K; lia | lia]. }
  pose proof (V_pow_lt (ex + (digits mx - 1)) (ey + 53)). lia.
Qed.

Lemma round_even_cases mx l : round_nearest_even mx l = mx \/ (round_nearest_even mx l = mx + 1 /\ exact l = false).
Proof. destruct l as [|[]]; cbn; try (by left); [destruct (Z.even mx); [by left | by right] | by right]. Qed.

(** The first half of rounding. *)
Lemma round_mantissa mx ex lx my ey k mrs :
  0 <= mx -> - K <= ex -> float_bound my ey -> V (ceil_of mx lx) ex <= V my ey ->
  shifted mx (exact lx) k mrs -> 0 <= k -> k = Z.max 0 (fexp64 (digits mx + ex) - ex) ->
  (k = 0 -> mrs = shr_record_of_loc mx lx) ->
  0 <= round_nearest_even (shr_m mrs) (loc_of_shr_record mrs) /\
  V (round_nearest_even (shr_m mrs) (loc_of_shr_record mrs)) (ex + k) <= V my ey.
Proof.
  intros Hmx Hex Hb Hle (Hm & Hx & _) Hk Ek H0. set (q := shr_m mrs) in *.
  assert (Hp : 0 < 2 ^ k) by (apply Z.pow_pos_nonneg; lia).
  assert (Hq0 : 0 <= q) by (rewrite Hm; by apply Z.div_pos).
  assert (Hq : q * 2 ^ k <= mx) by (rewrite Hm; pose proof (Z.mul_div_le mx (2 ^ k) Hp); lia).
  assert (Hceil : mx <= ceil_of mx lx) by (unfold ceil_of; destruct (exact lx); lia).
  assert (HV : V q (ex + k) <= V my ey).
  { rewrite <- V_shift by lia. etransitivity; [by apply V_le |]. etransitivity; [by apply V_le | done]. }
  destruct (round_even_cases q (loc_of_shr_record mrs)) as [->|[-> Hin]]; [done |]. split; [lia |].
  assert (Hne : ~ (mx = q * 2 ^ k /\ exact lx = true)).
  { intros [E1 E2]. destruct (Hx E1 E2) as [Er Es]. destruct mrs as [m r s]. cbn in *. by rewrite Er, Es in Hin. }
  destruct (Z.eq_dec k 0) as [->|Hk0].
  - rewrite Z.pow_0_r, Z.mul_1_r in Hne. rewrite Z.add_0_r.
    assert (Hqm : q = mx) by (unfold q; rewrite H0 by done; by destruct lx as [|[]]).
    destruct (exact lx) eqn:El; [by exfalso; apply Hne |]. unfold ceil_of in Hle. rewrite El in Hle. by rewrite Hqm.
  - pose proof (grid mx ex lx my ey k Hmx Hex Hb Hle ltac:(lia) ltac:(lia)) as Hgrid.
    rewrite (V_scale my ey (ex + k)) in Hle, HV |- * by lia. apply V_le.
    enough (q < my * 2 ^ (ey - (ex + k))) by lia. apply (V_lt_inv _ _ (ex + k)); [lia |].
    rewrite <- V_shift by lia. eapply Z.lt_le_trans; [| exact Hle].
    assert (Hlt : q * 2 ^ k < ceil_of mx lx).
    { unfold ceil_of in *. destruct (exact lx); [| lia]. destruct (Z.eq_dec mx (q * 2 ^ k)); [by exfalso; apply Hne | lia]. }
    unfold V. apply Z.mul_lt_mono_pos_r; [apply Z.pow_pos_nonneg; unfold K in *; lia | done].
Qed.

(** The second half: from the rounded mantissa. *)
Lemma round_finish mx ex lx my ey :
  0 <= mx -> - K <= ex -> float_bound my ey ->
  (forall k mrs, shr_fexp 53 1024 mx ex lx = (mrs, ex + k) -> 0 <= k -> shifted mx (exact lx) k mrs ->
     k = Z.max 0 (fexp64 (digits mx + ex) - ex) -> (k = 0 -> mrs = shr_record_of_loc mx lx) ->
     0 <= round_nearest_even (shr_m mrs) (loc_of_shr_record mrs) /\
     V (round_nearest_even (shr_m mrs) (loc_of_shr_record mrs)) (ex + k) <= V my ey) ->
  is_le (binary_round_aux 53 1024 false mx ex lx) my ey.
Proof.
  intros Hmx Hex Hb Hround. unfold binary_round_aux.
  destruct (shr_fexp_spec mx ex lx Hmx) as (k & mrs & E & Hk & Hs & Ek & H0).
  destruct (Hround k mrs E Hk Hs Ek H0) as [Hr HV]. rewrite E. clear Hround E.
  set (r := round_nearest_even _ _) in *.
  destruct (shr_fexp_spec r (ex + k) loc_Exact Hr) as (k2 & mrs2 & -> & Hk2 & [Hm2 _] & Ek2 & _).
  assert (Hp : 0 < 2 ^ k2) by (apply Z.pow_pos_nonneg; lia).
  assert (Hlt : shr_m mrs2 < 2 ^ 53).
  { rewrite Hm2. apply Z.div_lt_upper_bound; [done |]. rewrite <- Z.pow_add_r by lia.
    destruct (Z.eq_dec r 0) as [->|Hr0]; [apply Z.pow_pos_nonneg; lia |].
    destruct (digits_bounds r ltac:(lia)) as [_ Hd]. eapply Z.lt_le_trans; [exact Hd |].
    apply Z.pow_le_mono_r; [lia |]. unfold fexp, emin in Ek2. lia. }
  assert (HV2 : V (shr_m mrs2) (ex + k + k2) <= V my ey).
  { etransitivity; [| exact HV]. rewrite <- V_shift by lia. apply V_le. rewrite Hm2.
    pose proof (Z.mul_div_le r (2 ^ k2) Hp). lia. }
  assert (H2 : 0 <= shr_m mrs2) by (rewrite Hm2; by apply Z.div_pos).
  destruct (shr_m mrs2) as [|m|m] eqn:Em; [by left | | lia].
  assert (He : ex + k + k2 <= 971).
  { assert (H1 : V 1 (ex + k + k2) < V 1 954); [| apply V_pow_lt in H1; lia].
    eapply Z.le_lt_trans; [apply (V_le 1 (Zpos m)); lia |]. eapply Z.le_lt_trans; [exact HV2 |].
    destruct Hb as [Hmy Hey]. eapply Z.lt_le_trans.
    - unfold V. apply Z.mul_lt_mono_pos_r; [apply Z.pow_pos_nonneg; unfold K; lia | apply Hmy].
    - change (2 ^ 53 * 2 ^ (ey + K)) with (V (2 ^ 53) ey). rewrite V_pow by (unfold K; lia).
      unfold V. rewrite !Z.mul_1_l. apply Z.pow_le_mono_r; unfold K; lia. }
  replace (ex + k + k2 <=? 1024 - 53) with true by (symmetry; apply Z.leb_le; lia).
  right. exists m, (ex + k + k2). split; [done |]. split; [unfold fexp, emin in *; lia |]. done.
Qed.

Lemma round_le mx ex lx my ey :
  0 <= mx -> - K <= ex -> float_bound my ey -> V (ceil_of mx lx) ex <= V my ey ->
  is_le (binary_round_aux 53 1024 false mx ex lx) my ey.
Proof.
  intros Hmx Hex Hb Hle. apply round_finish; [done .. |]. intros k mrs _ Hk Hs Ek H0.
  by apply round_mantissa with mx lx.
Qed.

(** The bits that rounding cuts off such a value. *)
Lemma near_position mx ex my ey :
  0 <= mx -> - K <= ex -> float_bound my ey -> 2 ^ 52 <= my -> V my ey < V mx ex -> V mx ex < V (2 * my + 1) (ey - 1) ->
  Z.max 0 (fexp64 (digits mx + ex) - ex) = ey - ex /\ mx / 2 ^ (ey - ex) = my /\
  2 * (mx - my * 2 ^ (ey - ex)) < 2 ^ (ey - ex).
Proof.
  intros Hmx Hex [Hmy Hey] Hnorm Hgt Hmid.
  assert (Hd : ex < ey).
  { destruct (Z.lt_ge_cases ex ey) as [|Hge]; [done |]. exfalso.
    rewrite (V_scale mx ex ey) in Hgt, Hmid by (unfold K; lia).
    apply V_lt_inv in Hgt; [| unfold K; lia]. rewrite (V_scale _ ey (ey - 1)) in Hmid by (unfold K; lia).
    apply V_lt_inv in Hmid; [| unfold K; lia]. replace (ey - (ey - 1)) with 1 in Hmid by lia. lia. }
  rewrite (V_scale my ey ex) in Hgt by (unfold K in *; lia). apply V_lt_inv in Hgt; [| lia].
  rewrite (V_scale _ (ey - 1) ex) in Hmid by (unfold K in *; lia). apply V_lt_inv in Hmid; [| lia].
  set (d := ey - ex) in *. replace (ey - 1 - ex) with (d - 1) in Hmid by lia.
  assert (H2 : 2 ^ d = 2 * 2 ^ (d - 1)) by (rewrite <- Z.pow_succ_r by lia; f_equal; lia).
  assert (Hp : 0 < 2 ^ (d - 1)) by (apply Z.pow_pos_nonneg; lia).
  assert (Hdig : digits mx = 53 + d).
  { destruct (digits_bounds mx ltac:(nia)) as [Hlo Hhi].
    assert (2 ^ (52 + d) < 2 ^ digits mx) by (rewrite Z.pow_add_r by lia; nia).
    assert (2 ^ (digits mx - 1) < 2 ^ (53 + d)) by (rewrite (Z.pow_add_r 2 53) by lia; nia).
    pose proof (digits_nonneg mx Hmx). apply Z.pow_lt_mono_r_iff in H, H0; lia. }
  split; [rewrite Hdig; unfold fexp, emin; lia |].
  split; [symmetry; apply (Z.div_unique_pos _ _ _ (mx - my * 2 ^ d)); nia | nia].
Qed.

(** A value below the middle between a float of full precision and the next one. *)
Lemma round_near mx ex my ey :
  0 <= mx -> - K <= ex -> float_bound my ey -> 2 ^ 52 <= my -> V mx ex < V (2 * my + 1) (ey - 1) ->
  is_le (binary_round_aux 53 1024 false mx ex loc_Exact) my ey.
Proof.
  intros Hmx Hex Hb Hnorm Hmid. destruct (Z.le_gt_cases (V mx ex) (V my ey)) as [Hle|Hgt]; [by apply round_le |].
  pose proof Hb as [Hmy Hey]. apply round_finish; [done .. |]. intros k mrs _ Hk (Hm & _ & Hr) Ek _.
  destruct (near_position mx ex my ey Hmx Hex Hb Hnorm Hgt Hmid) as (Ek' & Eq & Hrem). rewrite Ek' in Ek. subst k.
  rewrite Eq in Hm. rewrite Hm in Hr |- *.
  assert (Er : round_nearest_even my (loc_of_shr_record mrs) = my).
  { destruct mrs as [m r st]. cbn [shr_r] in Hr. rewrite (Hr Hrem eq_refl). by destruct st. }
  rewrite Er. split; [lia |]. by replace (ex + (ey - ex)) with ey by lia.
Qed.

(** ** The operations *)

Lemma shl_align_spec p e e' :
  fst (shl_align p e e') = Pos.iter xO p (Z.to_pos (e - e')) /\ e' < e \/ fst (shl_align p e e') = p /\ e <= e'.
Proof. unfold shl_align. destruct (e' - e) as [|d|d] eqn:E; cbn; [right | right | left]; (split; [| lia]); [done .. |]. by replace (e - e') with (Zpos d) by lia. Qed.

Lemma iter_xO p n : Zpos (Pos.iter xO p n) = Zpos p * 2 ^ Zpos n.
Proof.
  induction n as [|n IH] using Pos.peano_ind; [cbn; lia |].
  rewrite Pos.iter_succ, Pos2Z.inj_succ, Z.pow_succ_r by lia. lia.
Qed.

(** Aligning to a smaller exponent. *)
Lemma shl_align_fst p e e' : e' <= e -> Zpos (fst (shl_align p e e')) = Zpos p * 2 ^ (e - e').
Proof.
  intros H. destruct (shl_align_spec p e e') as [[-> Hlt]|[-> Hle]].
  - rewrite iter_xO. by rewrite Z2Pos.id by lia.
  - replace (e - e') with 0 by lia. lia.
Qed.

Lemma digits_shift p n : digits (Zpos (Pos.iter xO p n)) = digits (Zpos p) + Zpos n.
Proof.
  induction n as [|n IH] using Pos.peano_ind; [cbn; lia |].
  rewrite Pos.iter_succ. cbn [digits digits2_pos] in *. lia.
Qed.

Lemma binary_round_le p e my ey :
  - K <= e -> float_bound my ey -> V (Zpos p) e <= V my ey -> is_le (binary_round 53 1024 false p e) my ey.
Proof.
  intros He Hb Hle. unfold binary_round. set (e' := fexp64 _).
  assert (He' : -1074 <= e') by (unfold e', fexp, emin; lia).
  assert (H : exists q ez, shl_align p e e' = (q, ez) /\ - K <= ez /\ V (Zpos q) ez = V (Zpos p) e).
  { unfold shl_align. destruct (e' - e) as [|d|d] eqn:E; [by exists p, e ..|].
    exists (Pos.iter xO p d), e'. split; [done |]. split; [unfold K; lia |].
    rewrite iter_xO, V_shift by (unfold K in *; lia). f_equal. lia. }
  destruct H as (q & ez & -> & Hez & HV). apply round_le; try done. cbn [ceil_of exact]. by rewrite HV.
Qed.

Lemma normalize_le m e my ey :
  0 <= m -> - K <= e -> float_bound my ey -> V m e <= V my ey -> is_le (binary_normalize 53 1024 m e false) my ey.
Proof. intros Hm He Hb Hle. destruct m as [|p|p]; [by left | by apply binary_round_le | lia]. Qed.

Lemma float64_of_int_le z my ey :
  0 <= z -> float_bound my ey -> V z 0 <= V my ey -> is_le (float64_of_int z) my ey.
Proof. intros. by apply normalize_le. Qed.

Lemma product_le m1 x1 m2 x2 a e1 c e2 :
  -1074 <= x1 -> -1074 <= x2 -> -1074 <= e1 -> -1074 <= e2 ->
  V (Zpos m1) x1 <= V a e1 -> V (Zpos m2) x2 <= V c e2 -> V (Zpos (m1 * m2)) (x1 + x2) <= V (a * c) (e1 + e2).
Proof.
  intros Hx1 Hx2 He1 He2 H1 H2. unfold V in *.
  apply (Z.mul_le_mono_pos_r _ _ (2 ^ K)); [apply Z.pow_pos_nonneg; unfold K; lia |].
  rewrite <- !Z.mul_assoc, <- !Z.pow_add_r by (unfold K; lia).
  replace (x1 + x2 + K + K) with ((x1 + K) + (x2 + K)) by lia.
  replace (e1 + e2 + K + K) with ((e1 + K) + (e2 + K)) by lia.
  rewrite (Z.pow_add_r 2 (x1 + K)), (Z.pow_add_r 2 (e1 + K)) by (unfold K; lia). rewrite Pos2Z.inj_mul.
  replace (Zpos m1 * Zpos m2 * (2 ^ (x1 + K) * 2 ^ (x2 + K))) with ((Zpos m1 * 2 ^ (x1 + K)) * (Zpos m2 * 2 ^ (x2 + K))) by ring.
  replace (a * (c * (2 ^ (e1 + K) * 2 ^ (e2 + K)))) with ((a * 2 ^ (e1 + K)) * (c * 2 ^ (e2 + K))) by ring.
  apply Z.mul_le_mono_nonneg; try done; apply Z.mul_nonneg_nonneg; try lia; apply Z.pow_nonneg; lia.
Qed.

Lemma fmul_le x y a e1 c e2 my ey :
  is_le x a e1 -> is_le y c e2 -> float_bound my ey -> -1074 <= e1 -> -1074 <= e2 ->
  V (a * c) (e1 + e2) <= V my ey -> is_le (fmul x y) my ey.
Proof.
  intros [->|(m1 & x1 & -> & Hx1 & _ & H1)] [->|(m2 & x2 & -> & Hx2 & _ & H2)] Hb He1 He2 Hle; try by left.
  cbn [fmul SFmul xorb]. apply round_le; [lia | unfold K; lia | done |]. cbn [ceil_of exact].
  etransitivity; [| exact Hle]. by apply product_le.
Qed.

Lemma fmul_near x y a e1 c e2 my ey :
  is_le x a e1 -> is_le y c e2 -> float_bound my ey -> 2 ^ 52 <= my -> -1074 <= e1 -> -1074 <= e2 ->
  V (a * c) (e1 + e2) < V (2 * my + 1) (ey - 1) -> is_le (fmul x y) my ey.
Proof.
  intros [->|(m1 & x1 & -> & Hx1 & _ & H1)] [->|(m2 & x2 & -> & Hx2 & _ & H2)] Hb Hn He1 He2 Hlt; try by left.
  cbn [fmul SFmul xorb]. apply round_near; [lia | unfold K; lia | done | done |].
  eapply Z.le_lt_trans; [| exact Hlt]. by apply product_le.
Qed.
(** ** Integers *)

(** A mantissa of 53 bits is not rounded. *)
Lemma round_aux_exact m e :
  fexp64 (digits (Zpos m) + e) <= e -> e <= 971 ->
  binary_round_aux 53 1024 false (Zpos m) e loc_Exact = S754_finite false m e.
Proof.
  intros He Hmax.
  assert (H : shr_fexp 53 1024 (Zpos m) e loc_Exact = (Build_shr_record (Zpos m) false false, e)).
  { unfold shr_fexp. destruct (fexp64 _ - e) as [|p|p] eqn:E; cbn [shr]; [done | lia | done]. }
  unfold binary_round_aux. rewrite H. cbn [shr_m loc_of_shr_record round_nearest_even]. rewrite H. cbn [shr_m].
  by rewrite (proj2 (Z.leb_le e (1024 - 53))) by lia.
Qed.

Lemma float64_of_int_exact z :
  0 < z < 2 ^ 53 -> exists m e, float64_of_int z = S754_finite false m e /\ -53 <= e <= 0 /\ Zpos m = z * 2 ^ (- e).
Proof.
  intros [Hz Hmax]. destruct z as [|p|p]; [lia | | lia].
  destruct (digits_bounds (Zpos p) Hz) as [Hlo Hhi]. set (d := digits (Zpos p)) in *.
  assert (Hd : 1 <= d <= 53).
  { split; [unfold d; cbn; lia |]. destruct (Z.le_gt_cases d 53) as [|Hgt]; [done |]. exfalso.
    pose proof (Z.pow_le_mono_r 2 53 (d - 1)). lia. }
  unfold float64_of_int, binary_normalize, binary_round. change (Zpos (digits2_pos p)) with d.
  assert (Hf : fexp64 (d + 0) = d - 53) by (unfold fexp, emin; lia). rewrite Hf.
  destruct (Z.eq_dec d 53) as [E|E].
  - rewrite E. change (shl_align p 0 (53 - 53)) with (p, 0). cbv beta iota. rewrite round_aux_exact.
    + exists p, 0. cbn. split; [done |]. lia.
    + change (digits (Zpos p)) with d. rewrite E. by vm_compute.
    + lia.
  - unfold shl_align. replace (d - 53 - 0) with (Zneg (Z.to_pos (53 - d))) by lia. cbv beta iota. rewrite round_aux_exact.
    + eexists _, _. split; [done |]. split; [lia |]. rewrite iter_xO. do 2 f_equal. lia.
    + rewrite digits_shift. change (digits (Zpos p)) with d. unfold fexp, emin. lia.
    + lia.
Qed.

Lemma int64_of_float_of_int z : 0 <= z < 2 ^ 53 -> int64_of_float (float64_of_int z) = Some z.
Proof.
  intros Hz. assert (Hin : in_int64 z = true) by (apply in_int64_spec; unfold min_int64, max_int64; lia).
  destruct (Z.eq_dec z 0) as [->|H0]; [done |].
  destruct (float64_of_int_exact z ltac:(lia)) as (m & e & -> & He & Hm).
  unfold int64_of_float, float_ratio. destruct (Z.leb_spec 0 e) as [H|H].
  - assert (e = 0) as -> by lia. rewrite Z.pow_0_r, Z.mul_1_r in *. rewrite Hm, Z.quot_1_r. by rewrite Hin.
  - rewrite Hm, Z.quot_mul by (apply Z.pow_nonzero; lia). by rewrite Hin.
Qed.

(** A bounded float converts to a bounded integer. *)
Lemma int64_of_float_le x my ey N :
  is_le x my ey -> V my ey <= V N 0 -> 0 <= N <= max_int64 -> exists z, int64_of_float x = Some z /\ 0 <= z <= N.
Proof.
  intros [->|(m & e & -> & He & _ & Hle)] HN Hmax.
  - exists 0. split; [done |]. lia.
  - assert (Hz : forall z, 0 <= z -> V z 0 <= V (Zpos m) e -> in_int64 z = true /\ 0 <= z <= N).
    { intros z Hz HzV. assert (z <= N) by (apply (V_le_inv _ _ 0); [done | lia]).
      split; [apply in_int64_spec; unfold min_int64; lia | lia]. }
    unfold int64_of_float, float_ratio. destruct (Z.leb_spec 0 e) as [H|H].
    + rewrite Z.quot_1_r. destruct (Hz (Zpos m * 2 ^ e)) as [-> ?]; [lia | rewrite V_shift by (done || unfold K; lia); done |].
      by eexists.
    + assert (Hp : 0 < 2 ^ (- e)) by (apply Z.pow_pos_nonneg; lia).
      rewrite Z.quot_div_nonneg by lia. destruct (Hz (Zpos m / 2 ^ (- e))) as [-> ?]; [by apply Z.div_pos | | by eexists].
      rewrite (V_scale _ 0 e) by (unfold K; lia). apply V_le. replace (0 - e) with (- e) by lia.
      pose proof (Z.mul_div_le (Zpos m) (2 ^ (- e)) Hp). lia.
Qed.

(** ** Floor and ceiling *)

(** The largest float below 1. *)
Definition below_1 : Z * Z := (2 ^ 53 - 1, -53).

Lemma fraction_le f d e :
  0 <= f < d -> d = 2 ^ (- e) -> -1074 <= e < 0 -> f < 2 ^ 53 -> V f e <= V below_1.1 below_1.2.
Proof.
  intros Hf Hd He Hm. cbn [below_1 fst snd]. destruct (Z.le_gt_cases (-53) e) as [H|H].
  - rewrite (V_scale f e (-53)) by (unfold K; lia). apply V_le. replace (e - -53) with (e + 53) by lia.
    assert (Hp : 1 <= 2 ^ (e + 53)) by (pose proof (Z.pow_pos_nonneg 2 (e + 53)); lia).
    assert (Hdp : d * 2 ^ (e + 53) = 2 ^ 53) by (rewrite Hd, <- Z.pow_add_r by lia; f_equal; lia). nia.
  - rewrite (V_scale _ (-53) e) by (unfold K; lia). apply V_le.
    pose proof (Z.pow_pos_nonneg 2 (-53 - e)). nia.
Qed.

Lemma floor_ceil x N :
  is_le x N 0 -> 0 <= N < 2 ^ 53 ->
  exists f c, math_Floor x = float64_of_int f /\ math_Ceil x = float64_of_int c /\ 0 <= f <= c /\ c <= f + 1 /\ c <= N /\
    is_le (fsub x (float64_of_int f)) below_1.1 below_1.2.
Proof.
  intros [->|(m & e & -> & He & Hm & Hle)] HN; [by exists 0, 0; repeat split; try done; [apply HN | left] |].
  unfold math_Floor, math_Ceil, float_ratio. destruct (Z.leb_spec 0 e) as [H|H].
  - rewrite !Z.div_1_r. exists (Zpos m * 2 ^ e), (Zpos m * 2 ^ e).
    assert (Hn : Zpos m * 2 ^ e <= N) by (apply (V_le_inv _ _ 0); [done | rewrite V_shift by (done || unfold K; lia); done]).
    assert (Hpos : 0 < Zpos m * 2 ^ e) by (apply Z.mul_pos_pos; [done | apply Z.pow_pos_nonneg; lia]).
    split; [done |]. split; [f_equal; lia |]. split; [lia |]. split; [lia |]. split; [done |].
    destruct (float64_of_int_exact (Zpos m * 2 ^ e)) as (m' & e' & -> & He' & Em'); [lia |].
    left. cbn [fsub SFsub cond_Zopp]. rewrite !shl_align_fst by lia. rewrite Z.min_r by lia.
    rewrite Z.sub_diag, Z.pow_0_r, Z.mul_1_r, Em'. rewrite <- Z.mul_assoc, <- Z.pow_add_r by lia.
    replace (e + - e') with (e - e') by lia. by rewrite Z.sub_diag.
  - set (d := 2 ^ (- e)). assert (Hd : 0 < d) by (apply Z.pow_pos_nonneg; lia).
    assert (HmN : Zpos m <= N * d).
    { apply (V_le_inv _ _ e); [unfold K; lia |]. unfold d. rewrite V_shift by (unfold K; lia).
      by replace (e + - e) with 0 by lia. }
    pose proof (Z.div_mod (Zpos m) d ltac:(lia)) as Hdm. pose proof (Z.mod_pos_bound (Zpos m) d Hd) as Hmod.
    exists (Zpos m / d), (- (- Zpos m / d)). split; [done |]. split; [done |].
    assert (Hf0 : 0 <= Zpos m / d) by (by apply Z.div_pos).
    assert (Hc : - Zpos m / d <= - (Zpos m / d)).
    { apply Z.div_le_upper_bound; lia. }
    split; [lia |]. split; [assert (- (Zpos m / d) - 1 <= - Zpos m / d) by (apply Z.div_le_lower_bound; lia); lia |].
    split; [assert (- N <= - Zpos m / d) by (apply Z.div_le_lower_bound; lia); lia |].
    assert (Hfrac : V (Zpos m mod d) e <= V below_1.1 below_1.2) by (by apply (fraction_le _ d); lia).
    destruct (Z.eq_dec (Zpos m / d) 0) as [E0|E0].
    + rewrite E0 in *. cbn [float64_of_int binary_normalize fsub SFsub]. right. exists m, e.
      split; [done |]. split; [done |]. split; [done |]. by replace (Zpos m mod d) with (Zpos m) in Hfrac by lia.
    + destruct (float64_of_int_exact (Zpos m / d)) as (m' & e' & -> & He' & Em').
      { split; [lia |]. assert (Zpos m / d <= N); [| lia]. apply Z.div_le_upper_bound; lia. }
      cbn [fsub SFsub cond_Zopp]. rewrite !shl_align_fst by lia. set (ez := Z.min e e').
      assert (Hpow : Zpos m' * 2 ^ (e' - ez) = (Zpos m / d) * d * 2 ^ (e - ez)).
      { rewrite Em'. unfold d. rewrite <- !Z.mul_assoc, <- !Z.pow_add_r by lia. do 2 f_equal. lia. }
      rewrite Hpow, <- Z.mul_sub_distr_r. replace (Zpos m - Zpos m / d * d) with (Zpos m mod d) by lia.
      apply normalize_le; [| unfold K; lia | | ].
      * apply Z.mul_nonneg_nonneg; [lia | apply Z.pow_nonneg; lia].
      * split; cbn; lia.
      * rewrite V_shift by (unfold K; lia). by replace (ez + (e - ez)) with e by lia.
Qed.

(** ** A percentage as a fraction *)

(** The floats there are. *)
Definition valid (x : float64) : Prop := valid_binary 53 1024 x = true.

Lemma float64_100 : float64_of_int 100 = S754_finite false (Z.to_pos (100 * 2 ^ 46)) (-46).
Proof. by vm_compute. Qed.

(** Between 0 and 100: a positive float that is smaller than 100. *)
Lemma percentage_cases p :
  valid p -> is_nan p = false -> fle p (float64_of_int 0) = false -> fle (float64_of_int 100) p = false ->
  exists m e, p = S754_finite false m e /\ -1074 <= e <= -46 /\ V (Zpos m) e < V (100 * 2 ^ 46) (-46).
Proof.
  intros Hv Hn H0 H100. rewrite float64_100 in H100.
  destruct p as [s|[]| |[] m e]; try (vm_compute in H0; discriminate); try (vm_compute in H100; discriminate); try done.
  exists m, e. split; [done |]. unfold valid, valid_binary, bounded, canonical_mantissa in Hv.
  apply andb_true_iff in Hv as [Hc%Z.eqb_eq _]. unfold fexp, emin in Hc.
  destruct (digits_bounds (Zpos m) eq_refl) as [_ Hm]. cbn [digits] in Hm.
  unfold fle, SFleb, SFcompare in H100. destruct (Z.compare_spec (-46) e) as [<-|Hlt|Hgt]; [| done |].
  - split; [lia |]. unfold V. apply Z.mul_lt_mono_pos_r; [by vm_compute |].
    destruct (Z.lt_ge_cases (Zpos m) (100 * 2 ^ 46)) as [|Hge]; [done |]. exfalso.
    change (Pos.compare_cont Eq ?a ?b) with (Pos.compare a b) in H100.
    destruct (Pos.compare_spec (Z.to_pos (100 * 2 ^ 46)) m) as [E|E|E]; try done.
    revert E Hge. change (100 * 2 ^ 46) with (Zpos (Z.to_pos (100 * 2 ^ 46))). lia.
  - split; [lia |]. rewrite (V_scale (100 * 2 ^ 46) (-46) e) by (unfold K; lia). unfold V.
    apply Z.mul_lt_mono_pos_r; [apply Z.pow_pos_nonneg; unfold K; lia |].
    eapply Z.lt_le_trans; [exact Hm |].
    assert (Hd : 2 ^ Zpos (digits2_pos m) <= 2 ^ 53) by (apply Z.pow_le_mono_r; lia).
    assert (Hp : 2 ^ 1 <= 2 ^ (-46 - e)) by (apply Z.pow_le_mono_r; lia).
    etransitivity; [exact Hd |]. etransitivity; [| apply (Z.mul_le_mono_nonneg_l (2 ^ 1) _ (100 * 2 ^ 46)); [done | exact Hp]].
    by vm_compute.
Qed.

Lemma fdiv_100_le p :
  valid p -> is_nan p = false -> fle p (float64_of_int 0) = false -> fle (float64_of_int 100) p = false ->
  is_le (fdiv p (float64_of_int 100)) 1 0.
Proof.
  intros Hv Hn H0 H100. destruct (percentage_cases p Hv Hn H0 H100) as (m & e & -> & He & Hlt).
  rewrite float64_100. set (m2 := Z.to_pos (100 * 2 ^ 46)). assert (Hm2 : Zpos m2 = 100 * 2 ^ 46) by done.
  rewrite <- Hm2 in Hlt. cbn [fdiv SFdiv xorb]. unfold SFdiv_core_binary.
  set (e' := Z.min _ _). assert (He' : -1074 <= e' <= e - -46) by (unfold e', fexp, emin; lia).
  set (m' := match e - -46 - e' with
             | Z0 => Zpos m | Zpos _ => Z.shiftl (Zpos m) (e - -46 - e') | Zneg _ => 0
             end).
  assert (Em' : m' = Zpos m * 2 ^ (e - -46 - e')).
  { unfold m'. destruct (e - -46 - e') eqn:Es; [lia | by rewrite Z.shiftl_mul_pow2 by lia | lia]. }
  pose proof (Z_div_mod m' (Zpos m2) ltac:(lia)) as Hdm. destruct (Z.div_eucl m' (Zpos m2)) as [q r].
  destruct Hdm as [Edm Hr].
  assert (Hpos : 0 <= m') by (rewrite Em'; apply Z.mul_nonneg_nonneg; [lia | apply Z.pow_nonneg; lia]).
  assert (Hq : 0 <= q) by nia.
  assert (Hlt' : m' < Zpos m2 * 2 ^ (- e')).
  { apply (V_lt_inv _ _ (e' + -46)); [unfold K; lia |]. rewrite Em'. rewrite !V_shift by (unfold K; lia).
    replace (e' + -46 + (e - -46 - e')) with e by lia. by replace (e' + -46 + - e') with (-46) by lia. }
  assert (Hq' : q + 1 <= 2 ^ (- e')) by nia.
  apply round_le; [done | unfold K; lia | split; cbn; lia |].
  rewrite (V_scale 1 0 e') by (unfold K; lia). apply V_le. replace (0 - e') with (- e') by lia.
  unfold ceil_of. destruct (exact _); lia.
Qed.
