(* ===== verification/RollingBuckets.v ===== *)
(** faststats/rolling_bucket.go: the index arithmetic of a rolling window of buckets.

    [RollingBuckets] does not own the buckets; its [Advance] clears them through a callback.
    Both are therefore generic in the state [St] of the owner: a lens [r] gives the owner's
    [RollingBuckets] field, and [clearBucket] acts on the owner.  The mutex of the slow path
    makes [rollForward] one atomic step, which is how it is modelled. *)

From S2P Require Import Prelude GoMonad.

(** * Data *)

Record RollingBuckets := mkRollingBuckets {
  NumBuckets : Z;
  StartTime : Time;
  BucketWidth : Duration;
  LastAbsIndex : Z
}.

Definition set_LastAbsIndex (i : Z) (r : RollingBuckets) : RollingBuckets :=
  mkRollingBuckets (NumBuckets r) (StartTime r) (BucketWidth r) i.

(** * Operations *)

Section Advance.
Context {St : Type} (r : lens St RollingBuckets) (clearBucket : Z -> M St unit).

(** [for i := last + 1; i <= absIndex && i <= last+n; i++ { clearBucket(int(i % n)) }] *)
Fixpoint clear_loop (fuel : nat) (i absIndex limit n : Z) : M St unit :=
  match fuel with
  | O => fun s => (OutOfFuel, s)
  | S fuel' =>
      if (i <=? absIndex) && (i <=? limit)
      then do! clearBucket (Z.rem i n);
           clear_loop fuel' (wrap64 (i + 1)) absIndex limit n
      else ret tt
  end.

Definition rollForward (absIndex n : Z) : M St Z :=
  let! last := gets (fun s => LastAbsIndex (view r s)) in
  if absIndex <=? last then ret last
  else
    do! clear_loop (S (Z.to_nat n)) (wrap64 (last + 1)) absIndex (wrap64 (last + n)) n;
    do! modify (fun s => upd r (set_LastAbsIndex absIndex (view r s)) s);
    ret absIndex.

Definition Advance (now : Time) : M St Z :=
  let! rb := gets (view r) in
  if (NumBuckets rb <=? 0) || (BucketWidth rb <=? 0) then ret (-1)
  else
    let diff := time_Sub now (StartTime rb) in
    if diff <? 0 then ret (-1)
    else
      let n := NumBuckets rb in
      let absIndex := Z.quot diff (BucketWidth rb) in
      let bucket := Z.rem absIndex n in
      let behind := wrap64 (LastAbsIndex rb - absIndex) in
      if 0 <=? behind then
        if n <=? behind then ret (-1) else ret bucket
      else
        let! last := rollForward absIndex n in
        if n <=? wrap64 (last - absIndex) then ret (-1) else ret bucket.
End Advance.

(** [Store] copies the exported fields; the receiver's mutex is not part of the model. *)
Definition Store (bucket r : RollingBuckets) : RollingBuckets :=
  mkRollingBuckets (NumBuckets bucket) (StartTime bucket) (BucketWidth bucket) (LastAbsIndex bucket).

(** [validate() != nil] *)
Definition validate_fails (r : RollingBuckets) : bool :=
  (NumBuckets r <? 0) || (BucketWidth r <? 0) || (LastAbsIndex r <? 0).

(** * Specification

    The absolute index of an instant, when the window counts it at all. *)
Definition absIndexAt (r : RollingBuckets) (now : Time) : option Z :=
  if (NumBuckets r <=? 0) || (BucketWidth r <=? 0) || (time_Sub now (StartTime r) <? 0)
  then None
  else Some (time_Sub now (StartTime r) / BucketWidth r).

(** The last absolute index after an [Advance] to [now]. *)
Definition advancedLast (r : RollingBuckets) (now : Time) : Z :=
  match absIndexAt r now with
  | Some i => Z.max (LastAbsIndex r) i
  | None => LastAbsIndex r
  end.

(** What [Advance] returns: the bucket of [now], or -1 when [now] is not in the window. *)
Definition advanceResult (r : RollingBuckets) (now : Time) : Z :=
  match absIndexAt r now with
  | Some i => if NumBuckets r <=? LastAbsIndex r - i then -1 else i mod NumBuckets r
  | None => -1
  end.

(** The absolute indices whose buckets an [Advance] to [now] clears, in order. *)
Definition clearedIndices (r : RollingBuckets) (now : Time) : list Z :=
  seqZ (LastAbsIndex r + 1) (Z.min (advancedLast r now - LastAbsIndex r) (NumBuckets r)).

(** The well-formed windows: a window in use, whose index arithmetic stays within [int64].
    The last inequality only excludes windows of about [2^63] buckets (or of [2^62] buckets
    with a width of one nanosecond). *)
Definition window_ok (r : RollingBuckets) : Prop :=
  0 < NumBuckets r /\ 0 < BucketWidth r /\
  0 <= LastAbsIndex r <= max_int64 / BucketWidth r /\
  max_int64 / BucketWidth r + NumBuckets r <= max_int64.

(** The windows whose index arithmetic may wrap around, but harmlessly: an absolute index is at most
    half of the largest [int64]. *)
Definition window_wide (r : RollingBuckets) : Prop :=
  0 < NumBuckets r <= max_int64 /\ 1 < BucketWidth r /\ 0 <= LastAbsIndex r <= max_int64.

(** A window that never records anything: what the zero value and a bucket width of zero
    (a rolling duration shorter than the number of buckets) give. *)
Definition window_idle (r : RollingBuckets) : Prop :=
  NumBuckets r <= 0 \/ BucketWidth r <= 0.

(** * Lemmas *)

Lemma absIndexAt_bounds r now i :
  window_ok r -> absIndexAt r now = Some i ->
  0 <= i <= max_int64 / BucketWidth r /\ i = time_Sub now (StartTime r) / BucketWidth r /\
  0 <= time_Sub now (StartTime r).
Proof.
  unfold absIndexAt. intros (Hn & Hw & _) H.
  destruct (_ || _) eqn:E; [done |]. injection H as <-. bdestr.
  pose proof (time_Sub_range now (StartTime r)) as Hr.
  repeat split; [apply Z.div_pos; lia | apply Z.div_le_mono; lia | lia].
Qed.

Lemma absIndexAt_set_LastAbsIndex i cfg now : absIndexAt (set_LastAbsIndex i cfg) now = absIndexAt cfg now.
Proof. done. Qed.

(** A later instant has a later index. *)
Lemma absIndexAt_mono cfg t now i :
  absIndexAt cfg t = Some i -> t <= now -> exists j, absIndexAt cfg now = Some j /\ 0 <= i <= j.
Proof.
  unfold absIndexAt. intros H Hle. pose proof (time_Sub_mono t now (StartTime cfg) Hle).
  destruct (_ || _) eqn:E; [done |]. injection H as <-. bdestr.
  rewrite (proj2 (Z.leb_gt (NumBuckets cfg) 0)), (proj2 (Z.leb_gt (BucketWidth cfg) 0)),
    (proj2 (Z.ltb_ge (time_Sub now (StartTime cfg)) 0)) by lia.
  eexists. split; [done |]. split; [apply Z.div_pos; lia | apply Z.div_le_mono; lia].
Qed.

Lemma advancedLast_ge r now : LastAbsIndex r <= advancedLast r now.
Proof. unfold advancedLast. destruct (absIndexAt r now); lia. Qed.

Lemma window_ok_advanced r now :
  window_ok r -> window_ok (set_LastAbsIndex (advancedLast r now) r).
Proof.
  intros H. pose proof (advancedLast_ge r now). unfold advancedLast in *.
  destruct (absIndexAt r now) as [i|] eqn:E.
  - destruct (absIndexAt_bounds r now i H E) as [? _]. destruct H as (? & ? & ? & ?).
    repeat split; simpl; lia.
  - by destruct r.
Qed.

Lemma advanceResult_range r now :
  window_ok r -> -1 <= advanceResult r now < NumBuckets r.
Proof.
  intros H. unfold advanceResult. destruct (absIndexAt r now) as [i|] eqn:E;
    destruct H as (? & ? & _).
  - zbool; [lia |]. pose proof (Z.mod_pos_bound i (NumBuckets r)). lia.
  - lia.
Qed.

(** ** The clearing loop *)

Section AdvanceFacts.
Context {St : Type} (r : lens St RollingBuckets) `{!LensLaws r}.
Context (clearBucket : Z -> M St unit) (clr : Z -> St -> St) (I : St -> Prop).

(** The owner's callback: on every bucket of the window it is the total function [clr],
    it keeps the owner's invariant [I] and does not touch the window. *)
Hypothesis clear_ok : forall j s, I s -> 0 <= j < NumBuckets (view r s) ->
  clearBucket j s = (Ret tt, clr j s) /\ I (clr j s) /\ view r (clr j s) = view r s.

Definition clear_all (n : Z) (js : list Z) (s : St) : St :=
  fold_left (fun s j => clr (j mod n) s) js s.

Lemma clear_all_ok n js s :
  I s -> n = NumBuckets (view r s) -> 0 < n -> Forall (fun j => 0 <= j) js ->
  I (clear_all n js s) /\ view r (clear_all n js s) = view r s.
Proof.
  intros HI Hn Hpos Hjs. revert s HI Hn. induction Hjs as [|j js Hj Hjs IH]; intros s HI Hn;
    simpl; [done |].
  destruct (clear_ok (j mod n) s HI) as (_ & HI' & Hv).
  { rewrite <- Hn. apply Z.mod_pos_bound. lia. }
  destruct (IH (clr (j mod n) s)) as [? ->]; [done | by rewrite Hv | by rewrite Hv].
Qed.

Lemma clear_loop_spec fuel i a limit n s :
  I s -> n = NumBuckets (view r s) -> 0 < n -> 0 <= i ->
  a < max_int64 \/ limit < max_int64 -> a <= max_int64 -> limit <= max_int64 ->
  (Z.to_nat (Z.min a limit - i + 1) < fuel)%nat ->
  clear_loop clearBucket fuel i a limit n s
    = (Ret tt, clear_all n (seqZ i (Z.min a limit - i + 1)) s).
Proof.
  revert i s. induction fuel as [|fuel IH]; intros i s HI Hn Hpos Hi Hlt Ha Hl Hf; [lia |].
  simpl. destruct (Z.leb_spec i a) as [Hia|Hia]; [destruct (Z.leb_spec i limit) as [Hil|Hil] |];
    simpl; [| by rewrite seqZ_nil by lia | by rewrite seqZ_nil by lia].
  rewrite Z.rem_mod_nonneg by lia.
  destruct (clear_ok (i mod n) s HI) as (E & HI' & Hv).
  { rewrite <- Hn. apply Z.mod_pos_bound. lia. }
  unfold bind. rewrite E. rewrite wrap64_id by (unfold min_int64, max_int64 in *; lia).
  rewrite IH by (rewrite ?Hv; (done || lia)).
  rewrite (seqZ_cons i) by lia. simpl. repeat f_equal; lia.
Qed.

(** ** [Advance] on a well-formed window *)

Lemma rollForward_spec now i s :
  I s -> window_ok (view r s) -> absIndexAt (view r s) now = Some i ->
  LastAbsIndex (view r s) < i ->
  exists s', rollForward r clearBucket i (NumBuckets (view r s)) s
    = (Ret i, upd r (set_LastAbsIndex i (view r s)) s')
    /\ s' = clear_all (NumBuckets (view r s)) (clearedIndices (view r s) now) s.
Proof.
  intros HI Hok Hi Hlt. destruct (absIndexAt_bounds _ _ _ Hok Hi) as (Hb & _).
  pose proof Hok as (Hn & Hw & Hl & Hmax).
  assert (Hdiv : max_int64 / BucketWidth (view r s) <= max_int64)
    by (apply Z.div_le_upper_bound; unfold max_int64 in *; nia).
  unfold clearedIndices, advancedLast. rewrite Hi, Z.max_r by lia.
  set (js := seqZ _ _). exists (clear_all (NumBuckets (view r s)) js s). split; [| done].
  destruct (clear_all_ok (NumBuckets (view r s)) js s) as [HI' Hv]; [done | done | done | |].
  { apply Forall_forall. intros j Hj. apply elem_of_seqZ in Hj. lia. }
  unfold rollForward, bind, gets, modify, ret. cbv beta iota.
  destruct (Z.leb_spec i (LastAbsIndex (view r s))); [lia |].
  rewrite !wrap64_id by (unfold min_int64, max_int64 in *; lia).
  rewrite clear_loop_spec by (done || lia). cbv beta iota.
  replace (seqZ _ _) with js by (unfold js; f_equal; lia). by rewrite Hv.
Qed.

Lemma Advance_ok now s :
  I s -> window_ok (view r s) ->
  exists s', Advance r clearBucket now s
      = (Ret (advanceResult (view r s) now),
         upd r (set_LastAbsIndex (advancedLast (view r s) now) (view r s)) s')
    /\ s' = clear_all (NumBuckets (view r s)) (clearedIndices (view r s) now) s
    /\ I s' /\ view r s' = view r s.
Proof.
  intros HI Hok. pose proof Hok as (Hn & Hw & Hl & Hmax).
  assert (Hdiv : max_int64 / BucketWidth (view r s) <= max_int64)
    by (apply Z.div_le_upper_bound; unfold max_int64 in *; nia).
  assert (Hnop : forall a, upd r (set_LastAbsIndex (LastAbsIndex (view r s)) (view r s)) a = a <->
    upd r (view r s) a = a) by (intros a; by destruct (view r s)).
  set (rb := view r s) in *.
  destruct (clear_all_ok (NumBuckets rb) (clearedIndices rb now) s) as [HI' Hv];
    [done | done | done | |].
  { apply Forall_forall. intros j Hj. apply elem_of_seqZ in Hj. lia. }
  eexists. split; [| by split; [reflexivity | split]].
  unfold Advance, bind at 1, gets at 1. fold rb.
  destruct (Z.leb_spec (NumBuckets rb) 0); [lia |].
  destruct (Z.leb_spec (BucketWidth rb) 0); [lia |]. simpl.
  destruct (absIndexAt rb now) as [i|] eqn:Ei.
  - destruct (absIndexAt_bounds _ _ _ Hok Ei) as (Hb & Hi & Hd).
    destruct (Z.ltb_spec (time_Sub now (StartTime rb)) 0); [lia |].
    rewrite Z.quot_div_nonneg, <- Hi by lia.
    rewrite (wrap64_id (LastAbsIndex rb - i)) by (unfold min_int64, max_int64 in *; lia).
    rewrite Z.rem_mod_nonneg by lia.
    unfold advanceResult, advancedLast. rewrite Ei.
    destruct (Z.leb_spec 0 (LastAbsIndex rb - i)) as [Hge|Hlt].
    + rewrite Z.max_l by lia.
      replace (clearedIndices rb now) with (@nil Z).
      2:{ unfold clearedIndices, advancedLast. rewrite Ei, seqZ_nil by lia. done. }
      assert (E : upd r (set_LastAbsIndex (LastAbsIndex rb) rb) s = s).
      { apply Hnop. apply upd_view. }
      simpl. rewrite E. by zbool.
    + destruct (rollForward_spec now i s HI Hok Ei) as (s' & E & ->); [fold rb; lia |].
      unfold bind. fold rb in E. rewrite E. rewrite Z.max_r by lia.
      rewrite Z.sub_diag, wrap64_id by (unfold min_int64, max_int64; lia). by zbool; try lia.
  - assert (Hd : time_Sub now (StartTime rb) < 0).
    { unfold absIndexAt in Ei. destruct (_ || _) eqn:Eb; [| done]. zbool; simpl in *; done || lia. }
    destruct (Z.ltb_spec (time_Sub now (StartTime rb)) 0); [| lia].
    unfold advanceResult, advancedLast, clearedIndices, advancedLast.
    rewrite Ei, seqZ_nil by lia. simpl. unfold ret. f_equal. symmetry. apply Hnop, upd_view.
Qed.

(** On a wide window [Advance] returns an index in range, or -1, and keeps the window wide. *)
Lemma Advance_wide now s :
  I s -> window_wide (view r s) ->
  exists i L s', Advance r clearBucket now s = (Ret i, upd r (set_LastAbsIndex L (view r s)) s') /\
    I s' /\ view r s' = view r s /\ 0 <= L <= max_int64 /\ i < NumBuckets (view r s).
Proof.
  intros HI (Hn & Hw & HL). set (rb := view r s) in *.
  assert (Hnop : forall i : Z, i < NumBuckets rb -> exists j L s', (@Ret Z i, s) = (Ret j, upd r (set_LastAbsIndex L rb) s') /\
    I s' /\ view r s' = rb /\ 0 <= L <= max_int64 /\ j < NumBuckets rb).
  { intros i Hi. exists i, (LastAbsIndex rb), s. split; [| by repeat split; try lia].
    replace (set_LastAbsIndex (LastAbsIndex rb) rb) with rb by (by destruct rb). unfold rb. by rewrite upd_view. }
  unfold Advance, bind at 1, gets at 1. fold rb.
  destruct (Z.leb_spec (NumBuckets rb) 0); [lia |]. destruct (Z.leb_spec (BucketWidth rb) 0); [lia |]. cbn [orb].
  destruct (Z.ltb_spec (time_Sub now (StartTime rb)) 0); [apply Hnop; lia |].
  pose proof (time_Sub_range now (StartTime rb)) as Hr. rewrite Z.quot_div_nonneg by lia.
  set (a := time_Sub now (StartTime rb) / BucketWidth rb).
  assert (Ha : 0 <= a < max_int64).
  { unfold a. split; [apply Z.div_pos; lia |]. apply Z.div_lt_upper_bound; unfold max_int64 in *; nia. }
  rewrite Z.rem_mod_nonneg by lia. pose proof (Z.mod_pos_bound a (NumBuckets rb)).
  rewrite wrap64_id by (unfold min_int64, max_int64 in *; lia).
  destruct (Z.leb_spec 0 (LastAbsIndex rb - a)); [destruct (_ <=? _); apply Hnop; lia |].
  unfold rollForward, bind, gets, modify, ret. cbv beta iota. fold rb.
  destruct (Z.leb_spec a (LastAbsIndex rb)); [lia |].
  rewrite (wrap64_id (LastAbsIndex rb + 1)) by (unfold min_int64, max_int64 in *; lia).
  set (limit := wrap64 (LastAbsIndex rb + NumBuckets rb)).
  assert (Hlim : limit <= LastAbsIndex rb + NumBuckets rb /\ limit <= max_int64).
  { split; [| apply wrap64_range]. destruct (Z.le_gt_cases (LastAbsIndex rb + NumBuckets rb) max_int64).
    - unfold limit. rewrite wrap64_id by (unfold min_int64, max_int64 in *; lia). lia.
    - pose proof (wrap64_range (LastAbsIndex rb + NumBuckets rb)). unfold limit. lia. }
  set (js := seqZ (LastAbsIndex rb + 1) (Z.min a limit - (LastAbsIndex rb + 1) + 1)).
  destruct (clear_all_ok (NumBuckets rb) js s) as [HI' Hv]; [done | done | lia | |].
  { apply Forall_forall. intros j Hj%elem_of_seqZ. lia. }
  rewrite clear_loop_spec by (done || lia). fold js. fold rb in Hv. rewrite Hv.
  set (b := NumBuckets rb <=? wrap64 (a - a)). exists (if b then -1 else a mod NumBuckets rb), a.
  eexists. split; [by destruct b |]. split; [done |]. split; [done |]. split; [lia |]. destruct b; lia.
Qed.

(** On an idle window [Advance] refuses every instant and changes nothing. *)
Lemma Advance_idle now s :
  window_idle (view r s) -> Advance r clearBucket now s = (Ret (-1), s).
Proof.
  unfold window_idle, Advance, bind, gets, ret. intros H. simpl.
  by zbool; simpl; try lia.
Qed.
End AdvanceFacts.

(** ** Which buckets an [Advance] clears *)

Lemma clearedIndices_mod r now j :
  window_ok r -> 0 <= j < NumBuckets r ->
  (exists k, k ∈ clearedIndices r now /\ k mod NumBuckets r = j) <->
  (exists k, LastAbsIndex r < k <= advancedLast r now /\ k mod NumBuckets r = j).
Proof.
  intros (Hn & _) Hj. pose proof (advancedLast_ge r now) as Hge.
  set (n := NumBuckets r) in *. set (L := LastAbsIndex r) in *. set (L' := advancedLast r now) in *.
  split.
  - intros (k & Hk%elem_of_seqZ & Hm). exists k. split; [lia | done].
  - intros (k & Hk & Hm).
    exists (L + 1 + (j - (L + 1)) mod n). split.
    + apply elem_of_seqZ.
      pose proof (Z.mod_pos_bound (j - (L + 1)) n ltac:(lia)).
      enough ((j - (L + 1)) mod n <= k - (L + 1)) by lia.
      replace ((j - (L + 1)) mod n) with ((k - (L + 1)) mod n).
      * apply Z.mod_le; lia.
      * rewrite <- Hm, <- (Zminus_mod_idemp_l k). done.
    + rewrite Z.add_mod_idemp_r by lia.
      replace (L + 1 + (j - (L + 1))) with j by lia. apply Z.mod_small. lia.
Qed.

(** The index of the window congruent to [j]: the absolute index bucket [j] stands for when
    the last index is [L]. *)
Definition window_index (n L j : Z) : Z := L - (L - j) mod n.

Lemma window_index_spec n L j :
  0 < n -> 0 <= j < n ->
  L - n < window_index n L j <= L /\ window_index n L j mod n = j.
Proof.
  intros Hn Hj. unfold window_index. pose proof (Z.mod_pos_bound (L - j) n Hn). split; [lia |].
  rewrite Zminus_mod_idemp_r. replace (L - (L - j)) with j by lia. apply Z.mod_small. lia.
Qed.

Lemma window_index_unique n L j k :
  0 < n -> 0 <= j < n -> L - n < k <= L -> k mod n = j -> k = window_index n L j.
Proof.
  intros Hn Hj Hk Hm. destruct (window_index_spec n L j Hn Hj) as [Hb Hm'].
  set (k' := window_index n L j) in *.
  assert (Hd : (k - k') mod n = 0) by (rewrite Zminus_mod, Hm, Hm', Z.sub_diag; apply Z.mod_0_l; lia).
  apply Z.div_exact in Hd; [| lia]. set (q := (k - k') / n) in *.
  assert (q = 0) by nia. lia.
Qed.

(** The index a bucket stands for moves past the old end of the window exactly for the
    cleared buckets. *)
Lemma window_index_advance rb now j :
  window_ok rb -> 0 <= j < NumBuckets rb ->
  let n := NumBuckets rb in let L := LastAbsIndex rb in let L' := advancedLast rb now in
  ((exists k, k ∈ clearedIndices rb now /\ k mod n = j) -> L < window_index n L' j) /\
  ((forall k, k ∈ clearedIndices rb now -> k mod n <> j) -> window_index n L' j = window_index n L j).
Proof.
  intros Hok Hj n L L'. assert (Hn : 0 < n) by (by destruct Hok).
  pose proof (advancedLast_ge rb now) as Hge. fold L L' in Hge.
  destruct (window_index_spec n L' j Hn Hj) as [Hw' Hm'].
  pose proof (clearedIndices_mod rb now j Hok Hj) as Hc. fold n L L' in Hc. split.
  - intros (k & Hk & Hm)%Hc. destruct (decide (L' - n < k)) as [Hin|Hout]; [| lia].
    rewrite <- (window_index_unique n L' j k); lia.
  - intros Hno. apply window_index_unique; try done.
    destruct (decide (window_index n L' j <= L)) as [Hle|Hgt]; [lia |].
    destruct (proj2 Hc) as (k & Hk & Hkm); [eexists; split; [| exact Hm']; lia |].
    destruct (Hno k Hk Hkm).
Qed.

