(* ===== verification/RollingCounter.v ===== *)
(** faststats/rolling_counter.go: a count of events over a sliding window of buckets.

    [RollingCounter] has the fields of the struct; each method is a computation of
    [M RollingCounter], with the index panics of the slice accesses.  The specification is
    the log of the absolute indices of the counted events ([window_log]): the refinement
    [represents] says bucket [j] holds the number of logged events of the one absolute index
    of the window congruent to [j], and [run_counter_refines] relates every sequence of
    calls to the log. *)

From S2P Require Import Prelude GoMonad RollingBuckets.

(** * Data *)

Record RollingCounter := mkRollingCounter {
  buckets : list Z;
  totalSum : Z;
  rollingBucket : RollingBuckets
}.

Definition rollingBucketL : lens RollingCounter RollingBuckets :=
  Lens rollingBucket (fun rb r => mkRollingCounter (buckets r) (totalSum r) rb).

Definition set_buckets (bs : list Z) (r : RollingCounter) : RollingCounter :=
  mkRollingCounter bs (totalSum r) (rollingBucket r).

Definition set_totalSum (n : Z) (r : RollingCounter) : RollingCounter :=
  mkRollingCounter (buckets r) n (rollingBucket r).

(** * Operations *)

(** [make([]AtomicInt64, numBuckets)] panics on a negative length. *)
Definition NewRollingCounter (bucketWidth : Duration) (numBuckets : Z) (now : Time)
    : outcome RollingCounter :=
  if numBuckets <? 0 then Panic MakeSliceLen
  else Ret (mkRollingCounter (replicate (Z.to_nat numBuckets) 0) 0
              (mkRollingBuckets numBuckets now bucketWidth 0)).

(** The zero value of the struct. *)
Definition RollingCounter_zero : RollingCounter :=
  mkRollingCounter [] 0 (mkRollingBuckets 0 0 0 0).

(** [r.buckets[idx].Set(v)] *)
Definition bucket_Set (idx v : Z) : M RollingCounter unit := fun r =>
  match slice_set (buckets r) idx v with
  | Some bs => (Ret tt, set_buckets bs r)
  | None => (Panic IndexOutOfRange, r)
  end.

(** [r.buckets[idx].Add(d)] *)
Definition bucket_Add (idx d : Z) : M RollingCounter unit := fun r =>
  match slice_get (buckets r) idx with
  | Some v => bucket_Set idx (wrap64 (v + d)) r
  | None => (Panic IndexOutOfRange, r)
  end.

Definition clearBucket (idx : Z) : M RollingCounter unit := bucket_Set idx 0.

Definition Inc (now : Time) : M RollingCounter unit :=
  do! modify (fun r => set_totalSum (wrap64 (totalSum r + 1)) r);
  let! len := gets (fun r => zlen (buckets r)) in
  if len =? 0 then ret tt
  else
    let! idx := Advance rollingBucketL clearBucket now in
    if idx <? 0 then ret tt else bucket_Add idx 1.

(** [ret += r.buckets[i].Get()] over the range of the buckets. *)
Definition sumBuckets (r : RollingCounter) : Z :=
  fold_left (fun acc v => wrap64 (acc + v)) (buckets r) 0.

Definition RollingSumAt (now : Time) : M RollingCounter Z :=
  do! Advance rollingBucketL clearBucket now;
  gets sumBuckets.

Definition TotalSum (r : RollingCounter) : Z := totalSum r.

(** The loop of [GetBuckets]: [ret[i] = r.buckets[idx].Get()] for [i] from 0. *)
Fixpoint GetBuckets_loop (count : nat) (i startIdx n : Z) (bs : list Z) : option (list Z) :=
  match count with
  | O => Some []
  | S count' =>
      let idx := startIdx - i in
      let idx := if idx <? 0 then idx + n else idx in
      v ← slice_get bs idx;
      rest ← GetBuckets_loop count' (i + 1) startIdx n bs;
      Some (v :: rest)
  end.

Definition GetBuckets (now : Time) : M RollingCounter (list Z) :=
  let! r := gets (fun r => r) in
  if (NumBuckets (rollingBucket r) <=? 0) || (zlen (buckets r) =? 0) then ret []
  else
    do! Advance rollingBucketL clearBucket now;
    let! r := gets (fun r => r) in
    let n := NumBuckets (rollingBucket r) in
    let startIdx := Z.rem (LastAbsIndex (rollingBucket r)) n in
    of_option IndexOutOfRange (GetBuckets_loop (Z.to_nat n) 0 startIdx n (buckets r)).

Definition Reset (now : Time) : M RollingCounter unit :=
  do! Advance rollingBucketL clearBucket now;
  let! len := gets (fun r => length (buckets r)) in
  range_do clearBucket (seqZ 0 (Z.of_nat len)).

(** * Specification: the log of counted events *)

Record window_log := mkWindowLog {
  wl_last : Z;          (* the newest absolute index seen by any call *)
  wl_events : list Z;   (* the absolute index of every event since the last reset *)
  wl_total : Z          (* events ever *)
}.

(** The fixed parameters of a window: a [RollingBuckets] with its [LastAbsIndex] ignored. *)
Section Spec.
  Context (cfg : RollingBuckets).

Definition log_advance (now : Time) (w : window_log) : window_log :=
  mkWindowLog (advancedLast (set_LastAbsIndex (wl_last w) cfg) now) (wl_events w) (wl_total w).

Definition log_inc (now : Time) (w : window_log) : window_log :=
  let w' := log_advance now w in
  match absIndexAt cfg now with
  | Some i => mkWindowLog (wl_last w') (i :: wl_events w') (wl_total w + 1)
  | None => mkWindowLog (wl_last w') (wl_events w') (wl_total w + 1)
  end.

Definition log_reset (now : Time) (w : window_log) : window_log :=
  let w' := log_advance now w in mkWindowLog (wl_last w') [] (wl_total w').

(** How many logged events are in the window. *)
Definition log_count (w : window_log) : Z :=
  count_if (fun k => wl_last w - NumBuckets cfg <? k) (wl_events w).
End Spec.

(** The calls a client makes, and what each returns. *)
Inductive counter_call :=
| CallInc (now : Time)
| CallRollingSumAt (now : Time)
| CallTotalSum
| CallReset (now : Time).

Definition call_counter (c : counter_call) : M RollingCounter (option Z) :=
  match c with
  | CallInc now => do! Inc now; ret None
  | CallRollingSumAt now => let! v := RollingSumAt now in ret (Some v)
  | CallTotalSum => gets (fun r => Some (TotalSum r))
  | CallReset now => do! Reset now; ret None
  end.

Fixpoint run_counter (cs : list counter_call) : M RollingCounter (list (option Z)) :=
  match cs with
  | [] => ret []
  | c :: cs' => let! v := call_counter c in let! vs := run_counter cs' in ret (v :: vs)
  end.

Definition call_log (cfg : RollingBuckets) (c : counter_call) (w : window_log)
    : option Z * window_log :=
  match c with
  | CallInc now => (None, log_inc cfg now w)
  | CallRollingSumAt now =>
      let w' := log_advance cfg now w in (Some (wrap64 (log_count cfg w')), w')
  | CallTotalSum => (Some (wrap64 (wl_total w)), w)
  | CallReset now => (None, log_reset cfg now w)
  end.

Fixpoint run_log (cfg : RollingBuckets) (cs : list counter_call) (w : window_log)
    : list (option Z) * window_log :=
  match cs with
  | [] => ([], w)
  | c :: cs' =>
      let '(v, w1) := call_log cfg c w in
      let '(vs, w2) := run_log cfg cs' w1 in (v :: vs, w2)
  end.

(** The invariant of the methods: as many buckets as the window has. *)
Definition counter_shape (r : RollingCounter) : Prop :=
  zlen (buckets r) = NumBuckets (rollingBucket r).

(** * Refinement relation *)

(** Bucket [j] holds the number of events of the index of the window it stands for. *)
Definition buckets_mean (n L : Z) (evs bs : list Z) : Prop :=
  forall j v, bs !! j = Some v ->
    v = wrap64 (count_if (fun k => k =? window_index n L (Z.of_nat j)) evs).

Definition represents (cfg : RollingBuckets) (r : RollingCounter) (w : window_log) : Prop :=
  rollingBucket r = set_LastAbsIndex (wl_last w) cfg /\
  window_ok (rollingBucket r) /\
  counter_shape r /\
  totalSum r = wrap64 (wl_total w) /\
  Forall (fun k => 0 <= k <= wl_last w) (wl_events w) /\
  buckets_mean (NumBuckets cfg) (wl_last w) (wl_events w) (buckets r).

(** * Lemmas *)

#[export] Instance rollingBucketL_laws : LensLaws rollingBucketL.
Proof. by split; intros; destruct s. Qed.

Lemma clearBucket_spec j r :
  counter_shape r -> 0 <= j < NumBuckets (rollingBucket r) ->
  clearBucket j r = (Ret tt, set_buckets (<[Z.to_nat j := 0]> (buckets r)) r).
Proof.
  unfold counter_shape. intros H Hj. unfold clearBucket, bucket_Set.
  by rewrite slice_set_Some by lia.
Qed.

Lemma clearBucket_ok j r :
  counter_shape r -> 0 <= j < NumBuckets (view rollingBucketL r) ->
  clearBucket j r = (Ret tt, set_buckets (<[Z.to_nat j := 0]> (buckets r)) r) /\
  counter_shape (set_buckets (<[Z.to_nat j := 0]> (buckets r)) r) /\
  view rollingBucketL (set_buckets (<[Z.to_nat j := 0]> (buckets r)) r) = view rollingBucketL r.
Proof.
  intros H Hj. split; [by apply clearBucket_spec |]. split; [| done].
  unfold counter_shape in *. simpl. by rewrite zlen_insert.
Qed.

Abbreviation clr := (fun j r => set_buckets (<[Z.to_nat j := 0]> (buckets r)) r).

Lemma clear_all_fields n js r :
  rollingBucket (clear_all clr n js r) = rollingBucket r /\
  totalSum (clear_all clr n js r) = totalSum r.
Proof.
  unfold clear_all. revert r. induction js as [|k js IH]; intros r; simpl; [done |].
  by destruct (IH (clr (k mod n) r)) as [-> ->].
Qed.

(** A cleared bucket is zero, every other one keeps its value. *)
Lemma clear_all_lookup n js r j v :
  0 < n -> buckets (clear_all clr n js r) !! j = Some v ->
  (v = 0 /\ exists k, k ∈ js /\ k mod n = Z.of_nat j) \/
  (buckets r !! j = Some v /\ forall k, k ∈ js -> k mod n <> Z.of_nat j).
Proof.
  unfold clear_all. intros Hn. revert r. induction js as [|k js IH]; intros r H; simpl in *.
  - right. split; [done |]. by intros k Hk%elem_of_nil.
  - destruct (IH _ H) as [(-> & k' & Hk' & Hm)|[Hl Hk]].
    + left. split; [done |]. exists k'. split; [by right | done].
    + simpl in Hl. pose proof (Z.mod_pos_bound k n Hn).
      apply list_lookup_insert_Some in Hl as [(Hj & -> & _)|[Hj Hl]].
      * left. split; [done |]. exists k. split; [left | lia].
      * right. split; [done |]. intros k' [->|Hk']%elem_of_cons; [lia | by apply Hk].
Qed.

Lemma clear_all_means rb now evs r :
  window_ok rb -> zlen (buckets (clear_all clr (NumBuckets rb) (clearedIndices rb now) r)) = NumBuckets rb ->
  Forall (fun k => 0 <= k <= LastAbsIndex rb) evs ->
  buckets_mean (NumBuckets rb) (LastAbsIndex rb) evs (buckets r) ->
  buckets_mean (NumBuckets rb) (advancedLast rb now) evs
    (buckets (clear_all clr (NumBuckets rb) (clearedIndices rb now) r)).
Proof.
  intros Hok Hlen Hev Hb j v Hj.
  assert (Hjn : 0 <= Z.of_nat j < NumBuckets rb).
  { apply lookup_lt_Some in Hj. unfold zlen in Hlen. lia. }
  destruct (window_index_advance rb now _ Hok Hjn) as [Hcl Hkeep].
  apply clear_all_lookup in Hj; [| by destruct Hok]. destruct Hj as [[-> Hex]|[Hj Hno]].
  - specialize (Hcl Hex). rewrite (count_if_ext _ (fun _ => false)), count_if_false; [done |].
    intros x Hx. rewrite Forall_forall in Hev. specialize (Hev x Hx). zbool; [lia | done].
  - rewrite (Hkeep Hno). by apply Hb.
Qed.

(** Advancing the window, seen through the relation to the log. *)
Lemma Advance_represents cfg now r w :
  represents cfg r w ->
  exists r', Advance rollingBucketL clearBucket now r
      = (Ret (advanceResult (rollingBucket r) now), r')
    /\ represents cfg r' (log_advance cfg now w).
Proof.
  intros (Hrb & Hok & Hsh & Htot & Hev & Hb).
  destruct (Advance_ok rollingBucketL clearBucket clr counter_shape clearBucket_ok now r Hsh Hok)
    as (r0 & E & Er0 & Hsh0 & Hv0).
  eexists. split; [exact E |]. clear E. simpl in Er0, Hv0.
  destruct (clear_all_fields (NumBuckets (rollingBucket r)) (clearedIndices (rollingBucket r) now) r)
    as [_ Ht]. rewrite <- Er0 in Ht.
  pose proof (advancedLast_ge (rollingBucket r) now) as Hge.
  assert (HL : LastAbsIndex (rollingBucket r) = wl_last w) by (by rewrite Hrb).
  assert (Hcfg : NumBuckets cfg = NumBuckets (rollingBucket r)) by (by rewrite Hrb).
  unfold represents, log_advance. rewrite <- Hrb. simpl.
  split; [by rewrite Hrb |].
  split; [apply (window_ok_advanced _ now Hok) |].
  split; [unfold counter_shape in *; simpl in *; by rewrite Hsh0, Hv0 |].
  split; [by rewrite Ht |].
  split; [eapply Forall_impl; [exact Hev |]; simpl; intros k; rewrite <- HL; lia |].
  rewrite Hcfg, Er0. apply clear_all_means; [done | | by rewrite HL | by rewrite HL, <- Hcfg].
  rewrite <- Er0. by rewrite Hsh0, Hv0.
Qed.

Lemma counter_shape_nonempty cfg r w : represents cfg r w -> zlen (buckets r) <> 0.
Proof. intros (_ & (Hn & _) & Hsh & _). unfold counter_shape in Hsh. lia. Qed.

Lemma zlen_lookup {A} (l : list A) (j : nat) x : l !! j = Some x -> 0 <= Z.of_nat j < zlen l.
Proof. intros H%lookup_lt_Some. unfold zlen. lia. Qed.

(** Logging an event whose index has already left the window changes no bucket. *)
Lemma represents_old_event cfg r w i :
  represents cfg r w -> 0 <= i -> i <= wl_last w - NumBuckets cfg ->
  represents cfg r (mkWindowLog (wl_last w) (i :: wl_events w) (wl_total w)).
Proof.
  intros (Hrb & Hok & Hsh & Ht & Hev & Hb) Hi Hold.
  assert (Hn : 0 < NumBuckets cfg) by (rewrite Hrb in Hok; by destruct Hok).
  repeat split; try done; try apply Hok; simpl.
  - constructor; [lia | done].
  - intros j v Hj. rewrite (Hb j v Hj). simpl. unfold counter_shape in Hsh.
    apply zlen_lookup in Hj. rewrite Hsh, Hrb in Hj. simpl in Hj.
    destruct (window_index_spec (NumBuckets cfg) (wl_last w) (Z.of_nat j) Hn Hj).
    destruct (Z.eqb_spec i (window_index (NumBuckets cfg) (wl_last w) (Z.of_nat j))); [lia |].
    by rewrite Z.add_0_l.
Qed.

(** Counting an event of the window in its bucket. *)
Lemma bucket_Add_represents cfg r w i :
  represents cfg r w -> 0 <= i -> wl_last w - NumBuckets cfg < i <= wl_last w ->
  exists r', bucket_Add (i mod NumBuckets cfg) 1 r = (Ret tt, r') /\
    represents cfg r' (mkWindowLog (wl_last w) (i :: wl_events w) (wl_total w)).
Proof.
  intros (Hrb & Hok & Hsh & Ht & Hev & Hb) Hi Hin.
  assert (Hn : 0 < NumBuckets cfg) by (rewrite Hrb in Hok; by destruct Hok).
  assert (Hlen : zlen (buckets r) = NumBuckets cfg) by (unfold counter_shape in Hsh; by rewrite Hsh, Hrb).
  pose proof (Z.mod_pos_bound i (NumBuckets cfg) Hn) as Hm.
  destruct (slice_get_Some (buckets r) (i mod NumBuckets cfg)) as [v Hv]; [lia |].
  unfold bucket_Add, bucket_Set. rewrite Hv, slice_set_Some by lia.
  eexists. split; [done |].
  apply slice_get_lookup in Hv as [_ Hv].
  repeat split; try done; try apply Hok; simpl.
  - unfold counter_shape. simpl. by rewrite zlen_insert, Hlen, Hrb.
  - constructor; [lia | done].
  - intros j x Hj.
    assert (Hjb : 0 <= Z.of_nat j < NumBuckets cfg).
    { apply zlen_lookup in Hj. by rewrite zlen_insert, Hlen in Hj. }
    pose proof (window_index_spec _ (wl_last w) _ Hn Hjb) as [_ Hwm].
    apply list_lookup_insert_Some in Hj as [(Hj & <- & _)|[Hj Hold]]; simpl.
    + rewrite (Hb _ _ Hv), <- Hj, Z2Nat.id by lia.
      rewrite <- (window_index_unique (NumBuckets cfg) (wl_last w) (i mod NumBuckets cfg) i) by lia.
      rewrite Z.eqb_refl. autorewrite with go_ints. f_equal. lia.
    + rewrite (Hb _ _ Hold).
      destruct (Z.eqb_spec i (window_index (NumBuckets cfg) (wl_last w) (Z.of_nat j))) as [->|];
        [| by rewrite Z.add_0_l].
      rewrite Hwm in Hj. lia.
Qed.

(** [Inc] against the log. *)
Lemma Inc_represents cfg now r w :
  represents cfg r w ->
  exists r', Inc now r = (Ret tt, r') /\ represents cfg r' (log_inc cfg now w).
Proof.
  intros Hr. pose proof (counter_shape_nonempty _ _ _ Hr) as Hne.
  set (w1 := mkWindowLog (wl_last w) (wl_events w) (wl_total w + 1)).
  set (r1 := set_totalSum (wrap64 (totalSum r + 1)) r).
  assert (Hr1 : represents cfg r1 w1).
  { destruct Hr as (? & Hok & ? & Ht & ? & ?). repeat split; try done; try apply Hok.
    simpl. rewrite Ht. by autorewrite with go_ints. }
  destruct (Advance_represents cfg now r1 w1 Hr1) as (r' & E & Hr').
  unfold Inc, bind, modify, gets. fold r1. change (buckets r1) with (buckets r).
  destruct (Z.eqb_spec (zlen (buckets r)) 0) as [|_]; [done |]. rewrite E. clear E.
  pose proof Hr1 as (Hrb & Hok & _).
  rewrite Hrb in Hok |- *. unfold advanceResult, log_inc.
  rewrite absIndexAt_set_LastAbsIndex. cbn [NumBuckets LastAbsIndex set_LastAbsIndex].
  change (wl_last w1) with (wl_last w).
  destruct (absIndexAt cfg now) as [i|] eqn:Ei; [| by exists r'].
  pose proof Hok as (Hn & _). simpl in Hn.
  destruct (absIndexAt_bounds _ _ i Hok Ei) as (Hi & _).
  assert (HL : wl_last (log_advance cfg now w1) = Z.max (wl_last w) i).
  { unfold log_advance, advancedLast. simpl. by rewrite absIndexAt_set_LastAbsIndex, Ei. }
  assert (HL' : wl_last (log_advance cfg now w) = wl_last (log_advance cfg now w1)) by done.
  rewrite HL'. destruct (Z.leb_spec (NumBuckets cfg) (wl_last w - i)).
  - exists r'. split; [done |]. apply (represents_old_event _ _ _ i Hr'); lia.
  - pose proof (Z.mod_pos_bound i (NumBuckets cfg) Hn).
    destruct (Z.ltb_spec (i mod NumBuckets cfg) 0); [lia |].
    apply (bucket_Add_represents _ _ _ i Hr'); lia.
Qed.

(** The running sum of the buckets is the log's count of the window. *)
Lemma sumBuckets_zsum bs acc :
  fold_left (fun acc v => wrap64 (acc + v)) bs acc = wrap64 (acc + zsum bs) \/
  (bs = [] /\ fold_left (fun acc v => wrap64 (acc + v)) bs acc = acc).
Proof.
  revert acc. induction bs as [|b bs IH]; intros acc; simpl; [by right |]. left.
  destruct (IH (wrap64 (acc + b))) as [->|[-> ->]].
  - rewrite wrap64_add_l. f_equal. lia.
  - simpl. f_equal. lia.
Qed.

Lemma wrap64_zsum l : wrap64 (zsum (wrap64 <$> l)) = wrap64 (zsum l).
Proof.
  induction l as [|x l IH]; [done |].
  by rewrite fmap_cons, !zsum_cons, wrap64_add_l, <- wrap64_add_r, IH, wrap64_add_r.
Qed.

Lemma sumBuckets_represents cfg r w :
  represents cfg r w -> sumBuckets r = wrap64 (log_count cfg w).
Proof.
  intros (Hrb & Hok & Hsh & _ & Hev & Hb).
  assert (Hn : 0 < NumBuckets cfg) by (rewrite Hrb in Hok; by destruct Hok).
  set (n := NumBuckets cfg) in *. set (L := wl_last w) in *.
  assert (Hlen : zlen (buckets r) = n) by (unfold counter_shape in Hsh; by rewrite Hsh, Hrb).
  set (g := fun j : nat => count_if (fun k => (L - n <? k) && (Z.to_nat (k mod n) =? j)%nat) (wl_events w)).
  assert (Hbs : buckets r = wrap64 <$> (g <$> seq 0 (Z.to_nat n))).
  { apply list_eq. intros j. rewrite !list_lookup_fmap.
    destruct (buckets r !! j) as [v|] eqn:Ej.
    - pose proof (zlen_lookup _ _ _ Ej) as Hj. rewrite Hlen in Hj.
      rewrite lookup_seq_lt by lia. simpl. f_equal. rewrite (Hb _ _ Ej). f_equal.
      unfold g. apply count_if_ext. intros k Hk. rewrite Forall_forall in Hev. specialize (Hev k Hk).
      fold n L. pose proof (window_index_spec n L _ Hn Hj). pose proof (Z.mod_pos_bound k n Hn).
      destruct (Z.eqb_spec k (window_index n L (Z.of_nat j))) as [->|Hne].
      + zbool; [simpl; symmetry; apply Nat.eqb_eq; lia | lia].
      + zbool; [| done]. simpl. symmetry. apply Nat.eqb_neq. intros Heq.
        apply Hne, window_index_unique; lia.
    - apply lookup_ge_None in Ej. rewrite lookup_seq_ge; [done | unfold zlen in Hlen; lia]. }
  unfold sumBuckets.
  destruct (sumBuckets_zsum (buckets r) 0) as [->|[E _]].
  - rewrite Z.add_0_l, Hbs, wrap64_zsum. f_equal. unfold g, log_count. fold n L.
    apply count_if_partition. intros k _ _. pose proof (Z.mod_pos_bound k n Hn). lia.
  - rewrite E in Hlen. unfold zlen in Hlen. simpl in Hlen. lia.
Qed.

(** ** Clearing every bucket *)

Lemma clear_range js r :
  Forall (fun j => 0 <= j < zlen (buckets r)) js ->
  range_do clearBucket js r
    = (Ret tt, set_buckets (foldl (fun bs j => <[Z.to_nat j := 0]> bs) (buckets r) js) r).
Proof.
  revert r. induction js as [|j js IH]; intros r H; simpl.
  - by destruct r.
  - apply Forall_cons in H as [Hj H]. unfold bind, clearBucket at 1, bucket_Set at 1.
    rewrite slice_set_Some by done. rewrite IH; [done |]. simpl. by rewrite zlen_insert.
Qed.

Lemma foldl_clear_lookup (js : list Z) (bs : list Z) (j : nat) (v : Z) :
  foldl (fun bs j => <[Z.to_nat j := 0]> bs) bs js !! j = Some v ->
  v = 0 \/ (bs !! j = Some v /\ forall k, k ∈ js -> Z.to_nat k <> j).
Proof.
  revert bs. induction js as [|k js IH]; intros bs H; simpl in *.
  - right. split; [done |]. by intros ? ?%elem_of_nil.
  - destruct (IH _ H) as [->|[Hl Hno]]; [by left |].
    apply list_lookup_insert_Some in Hl as [(_ & <- & _)|[Hk Hl]]; [by left | right].
    split; [done |]. intros k' [->|?]%elem_of_cons; [done | by apply Hno].
Qed.

Lemma foldl_clear_length (js : list Z) (bs : list Z) :
  length (foldl (fun bs j => <[Z.to_nat j := 0]> bs) bs js) = length bs.
Proof. revert bs. induction js; intros; simpl; [done |]. by rewrite IHjs, length_insert. Qed.

Lemma Reset_represents cfg now r w :
  represents cfg r w ->
  exists r', Reset now r = (Ret tt, r') /\ represents cfg r' (log_reset cfg now w).
Proof.
  intros Hr. destruct (Advance_represents cfg now r w Hr) as (r1 & E & Hr1).
  unfold Reset, bind, gets. rewrite E. clear E.
  rewrite clear_range.
  2:{ apply Forall_forall. intros j Hj%elem_of_seqZ. unfold zlen. lia. }
  eexists. split; [done |].
  destruct Hr1 as (Hrb & Hok & Hsh & Ht & Hev & Hb).
  repeat split; try done; try apply Hok; simpl.
  - unfold counter_shape, zlen in *. simpl. by rewrite foldl_clear_length.
  - intros j v H. destruct (foldl_clear_lookup _ _ _ _ H) as [Hv|[Hj Hno]]; [by rewrite Hv |].
    apply lookup_lt_Some in Hj. destruct (Hno (Z.of_nat j)); [apply elem_of_seqZ | ]; lia.
Qed.

(** ** Reading the buckets backwards in time *)

Lemma GetBuckets_loop_spec (count : nat) i startIdx n (bs : list Z) :
  0 <= startIdx < n -> zlen bs = n -> 0 <= i -> i + Z.of_nat count <= n ->
  exists vs, GetBuckets_loop count i startIdx n bs = Some vs /\ length vs = count /\
    forall k v, vs !! k = Some v -> bs !! Z.to_nat ((startIdx - (i + Z.of_nat k)) mod n) = Some v.
Proof.
  intros Hs Hlen. revert i. induction count as [|count IH]; intros i Hi Hc; cbn [GetBuckets_loop].
  - exists []. split; [done | split; [done |]]. by intros k v Hv; rewrite lookup_nil in Hv.
  - set (idx := if startIdx - i <? 0 then startIdx - i + n else startIdx - i).
    assert (Hidx : idx = (startIdx - i) mod n).
    { unfold idx. destruct (Z.ltb_spec (startIdx - i) 0).
      - apply Z.mod_unique with (q := -1); lia.
      - symmetry. apply Z.mod_small. lia. }
    destruct (slice_get_Some bs idx) as [v Hv].
    { rewrite Hidx, Hlen. apply Z.mod_pos_bound. lia. }
    destruct (IH (i + 1)) as (vs & E & Hvl & Hvs); [lia | lia |].
    rewrite Hv. simpl. rewrite E. simpl. exists (v :: vs). split; [done |]. split; [simpl; lia |].
    apply slice_get_lookup in Hv as [_ Hv].
    intros [|k] x Hx; simpl in Hx.
    + injection Hx as <-. by rewrite Z.add_0_r, <- Hidx.
    + rewrite <- (Hvs _ _ Hx). do 3 f_equal. lia.
Qed.

Lemma GetBuckets_represents cfg now r w :
  represents cfg r w ->
  exists vs r', GetBuckets now r = (Ret vs, r') /\ represents cfg r' (log_advance cfg now w) /\
    vs = (fun i => wrap64 (count_if (fun k => k =? wl_last (log_advance cfg now w) - i) (wl_events w)))
         <$> seqZ 0 (NumBuckets cfg).
Proof.
  intros Hr. pose proof (counter_shape_nonempty _ _ _ Hr) as Hne.
  pose proof Hr as (Hrb0 & (Hn & _) & _).
  destruct (Advance_represents cfg now r w Hr) as (r1 & E & Hr1).
  unfold GetBuckets, bind at 1, gets at 1.
  destruct (Z.leb_spec (NumBuckets (rollingBucket r)) 0); [lia |].
  destruct (Z.eqb_spec (zlen (buckets r)) 0) as [|_]; [done |]. cbn [orb].
  unfold bind, gets. rewrite E. clear E.
  pose proof Hr1 as (Hrb & Hok & Hsh & _ & _ & Hb). rewrite Hrb.
  cbn [NumBuckets LastAbsIndex set_LastAbsIndex].
  set (n := NumBuckets cfg) in *. set (L := wl_last (log_advance cfg now w)) in *.
  assert (Hn' : 0 < n) by (unfold n; rewrite Hrb0 in Hn; done).
  assert (HL : 0 <= L) by (rewrite Hrb in Hok; destruct Hok as (_ & _ & ? & _); simpl in *; lia).
  assert (Hlen : zlen (buckets r1) = n) by (unfold counter_shape in Hsh; by rewrite Hsh, Hrb).
  rewrite Z.rem_mod_nonneg by lia. pose proof (Z.mod_pos_bound L n Hn') as HLm.
  destruct (GetBuckets_loop_spec (Z.to_nat n) 0 (L mod n) n (buckets r1)) as (vs & Eg & Hvl & Hvs);
    [lia | done | lia | lia |].
  rewrite Eg. exists vs, r1. split; [done |]. split; [done |].
  apply list_eq. intros k. rewrite list_lookup_fmap.
  destruct (vs !! k) as [v|] eqn:Ev.
  - pose proof (lookup_lt_Some _ _ _ Ev) as Hk. rewrite lookup_seqZ_lt by lia. simpl. f_equal.
    pose proof (Hvs k v Ev) as Hv. rewrite Z.add_0_l, Zminus_mod_idemp_l in Hv.
    pose proof (Z.mod_pos_bound (L - Z.of_nat k) n Hn') as Hm.
    rewrite (Hb _ _ Hv), Z2Nat.id by lia. fold n L.
    by rewrite <- (window_index_unique n L ((L - Z.of_nat k) mod n) (L - Z.of_nat k)) by lia.
  - apply lookup_ge_None in Ev. by rewrite lookup_seqZ_ge by lia.
Qed.

(** ** Panic freedom, on any window *)

Definition counter_ok (r : RollingCounter) : Prop :=
  counter_shape r /\ 0 <= LastAbsIndex (rollingBucket r) /\
  (window_ok (rollingBucket r) \/ window_idle (rollingBucket r) \/ window_wide (rollingBucket r)).

Lemma Advance_counter_ok now r :
  counter_ok r ->
  exists i r', Advance rollingBucketL clearBucket now r = (Ret i, r') /\ counter_ok r' /\
    (i < 0 \/ i < zlen (buckets r')).
Proof.
  intros (Hsh & HL0 & [Hok|[Hidle|Hwide]]).
  - destruct (Advance_ok rollingBucketL clearBucket clr counter_shape clearBucket_ok now r Hsh Hok)
      as (r0 & E & _ & Hsh0 & Hv0). eexists _, _. split; [exact E |].
    pose proof (advanceResult_range _ now Hok) as Hr. simpl in *.
    assert (Hlen : zlen (buckets r0) = NumBuckets (rollingBucket r)) by (by rewrite Hsh0, Hv0).
    split; [| right; simpl; lia]. split; [by unfold counter_shape; simpl |].
    split; [simpl; pose proof (advancedLast_ge (rollingBucket r) now); lia |]. left. apply (window_ok_advanced _ now Hok).
  - exists (-1), r. rewrite Advance_idle by done. repeat split; [done | done | by right; left | lia].
  - destruct (Advance_wide rollingBucketL clearBucket clr counter_shape clearBucket_ok now r Hsh Hwide)
      as (i & L & r0 & E & Hsh0 & Hv0 & HL & Hi). eexists _, _. split; [exact E |].
    assert (Hlen : zlen (buckets r0) = NumBuckets (rollingBucket r)) by (simpl in Hv0; by rewrite Hsh0, Hv0).
    split; [| right; simpl in *; lia]. split; [by unfold counter_shape; simpl |].
    split; [simpl; lia |]. right; right. by destruct Hwide as (? & ? & _).
Qed.

Lemma bucket_Set_safe i v r :
  counter_ok r -> 0 <= i < zlen (buckets r) ->
  exists r', bucket_Set i v r = (Ret tt, r') /\ counter_ok r' /\ zlen (buckets r') = zlen (buckets r).
Proof.
  intros [Hsh Hok] Hi. unfold bucket_Set. rewrite slice_set_Some by done.
  eexists. split; [done |]. unfold counter_ok, counter_shape in *. simpl. by rewrite zlen_insert.
Qed.

Lemma Inc_safe now : safe counter_ok (Inc now).
Proof.
  unfold Inc. apply safe_bind; [by apply safe_modify |]. intros _.
  intros r Hr. unfold bind at 1, gets. destruct (_ =? 0); [by apply safe_ret |].
  destruct (Advance_counter_ok now r Hr) as (i & r' & E & Hr' & Hi).
  unfold bind. rewrite E. destruct (Z.ltb_spec i 0); [by apply safe_ret |].
  destruct (slice_get_Some (buckets r') i) as [v Hv]; [lia |].
  unfold bucket_Add. rewrite Hv.
  destruct (bucket_Set_safe i (wrap64 (v + 1)) r' Hr') as (r2 & -> & ? & _); [lia |]. by exists tt, r2.
Qed.

Lemma Advance_safe now : safe counter_ok (Advance rollingBucketL clearBucket now).
Proof.
  intros r Hr. destruct (Advance_counter_ok now r Hr) as (i & r' & E & Hr' & _). by exists i, r'.
Qed.

Lemma RollingSumAt_safe now : safe counter_ok (RollingSumAt now).
Proof. unfold RollingSumAt. safe_go ltac:(apply Advance_safe). Qed.

Lemma Reset_safe now : safe counter_ok (Reset now).
Proof.
  unfold Reset. apply safe_bind; [apply Advance_safe |]. intros _ r Hr. unfold bind, gets.
  assert (H : forall js r, counter_ok r -> Forall (fun j => 0 <= j < zlen (buckets r)) js ->
    exists a r', range_do clearBucket js r = (Ret a, r') /\ counter_ok r').
  { clear. induction js as [|j js IH]; intros r Hr Hjs; simpl; [by apply safe_ret |].
    apply Forall_cons in Hjs as [Hj Hjs].
    destruct (bucket_Set_safe j 0 r Hr Hj) as (r' & E & Hr' & Hl).
    unfold bind, clearBucket. rewrite E. apply IH; [done |]. by rewrite Hl. }
  apply H; [done |]. apply Forall_forall. intros j Hj%elem_of_seqZ. unfold zlen. lia.
Qed.

Lemma GetBuckets_safe now : safe counter_ok (GetBuckets now).
Proof.
  unfold GetBuckets. intros r Hr. rewrite (bind_run _ _ _ r r) by done.
  destruct (_ || _); [by apply safe_ret |].
  destruct (Advance_counter_ok now r Hr) as (i & r' & E & Hr' & _). rewrite (bind_run _ _ _ _ _ E).
  rewrite (bind_run _ _ _ r' r') by done. pose proof Hr' as (Hsh & HL & _).
  set (n := NumBuckets (rollingBucket r')) in *. set (L := LastAbsIndex (rollingBucket r')) in *.
  destruct (Z.le_gt_cases n 0) as [Hn|Hn].
  { rewrite Z2Nat.nonpos by lia. by exists [], r'. }
  rewrite Z.rem_mod_nonneg by lia.
  destruct (GetBuckets_loop_spec (Z.to_nat n) 0 (L mod n) n (buckets r')) as (vs & Ev & _);
    [by apply Z.mod_pos_bound | done | lia | lia |]. rewrite Ev. by exists vs, r'.
Qed.

Lemma run_counter_safe cs : safe counter_ok (run_counter cs).
Proof.
  induction cs as [|c cs IH]; [apply safe_ret |]. apply safe_bind; [| intros v; apply safe_bind; [done | intros; apply safe_ret]].
  destruct c as [now|now| |now]; cbn [call_counter]; [| | apply safe_gets |];
    (apply safe_bind; [| intros; apply safe_ret]); [apply Inc_safe | apply RollingSumAt_safe | apply Reset_safe].
Qed.

Lemma NewRollingCounter_ok w n now r :
  NewRollingCounter w n now = Ret r -> 0 < w -> max_int64 / w + n <= max_int64 -> counter_ok r.
Proof.
  unfold NewRollingCounter. destruct (Z.ltb_spec n 0); [done |]. intros [= <-] Hw Hm. split.
  - unfold counter_shape, zlen. simpl. rewrite length_replicate. lia.
  - split; [done |]. destruct (Z.le_gt_cases n 0); [right; left; by left |]. left. repeat split; simpl; try lia.
    apply Z.div_pos; unfold max_int64; lia.
Qed.

Lemma RollingCounter_zero_ok : counter_ok RollingCounter_zero.
Proof. split; [done |]. split; [done |]. right. left. by left. Qed.

#[export] Hint Resolve Inc_safe RollingSumAt_safe GetBuckets_safe Reset_safe RollingCounter_zero_ok : go_safe.

(** ** Sequences of calls *)

Lemma call_counter_represents cfg c r w :
  represents cfg r w ->
  exists r', call_counter c r = (Ret (fst (call_log cfg c w)), r') /\
    represents cfg r' (snd (call_log cfg c w)).
Proof.
  intros Hr. destruct c as [now|now| |now]; unfold call_counter, bind, gets; simpl.
  - destruct (Inc_represents cfg now r w Hr) as (r' & -> & Hr'). by exists r'.
  - destruct (Advance_represents cfg now r w Hr) as (r' & E & Hr').
    unfold RollingSumAt, bind, gets. rewrite E. exists r'.
    by rewrite (sumBuckets_represents _ _ _ Hr').
  - exists r. destruct Hr as (Hrb & Hok & Hsh & Ht & Hrest). unfold TotalSum. by rewrite Ht.
  - destruct (Reset_represents cfg now r w Hr) as (r' & -> & Hr'). by exists r'.
Qed.

Lemma run_counter_represents cfg cs r w :
  represents cfg r w ->
  exists r', run_counter cs r = (Ret (fst (run_log cfg cs w)), r') /\
    represents cfg r' (snd (run_log cfg cs w)).
Proof.
  revert r w. induction cs as [|c cs IH]; intros r w Hr; simpl; [by exists r |].
  destruct (call_counter_represents cfg c r w Hr) as (r1 & E1 & Hr1).
  unfold bind. rewrite E1. destruct (call_log cfg c w) as [v w1].
  destruct (IH r1 w1 Hr1) as (r2 & E2 & Hr2). rewrite E2.
  destruct (run_log cfg cs w1) as [vs w2]. by exists r2.
Qed.

Lemma New_represents w n now r :
  NewRollingCounter w n now = Ret r -> 0 < w -> 0 < n -> max_int64 / w + n <= max_int64 ->
  represents (mkRollingBuckets n now w 0) r (mkWindowLog 0 [] 0).
Proof.
  unfold NewRollingCounter. destruct (Z.ltb_spec n 0); [done |]. intros [= <-] Hw Hn Hm.
  assert (0 <= max_int64 / w) by (apply Z.div_pos; unfold max_int64; lia).
  repeat split; simpl; try (done || lia).
  - unfold counter_shape, zlen. simpl. rewrite length_replicate. lia.
  - intros j v Hj. apply lookup_replicate in Hj as [-> _]. done.
Qed.

(** The events of a sequence of [Inc] calls, as absolute indices. *)
Definition inc_indices (cfg : RollingBuckets) (ts : list Time) : list Z :=
  omap (absIndexAt cfg) ts.

Lemma run_log_incs cfg ts w :
  let w' := snd (run_log cfg (CallInc <$> ts) w) in
  (forall i, count_if (fun k => i <? k) (wl_events w')
             = count_if (fun k => i <? k) (wl_events w) + count_if (fun k => i <? k) (inc_indices cfg ts)) /\
  wl_last w' = foldr Z.max (wl_last w) (inc_indices cfg ts).
Proof.
  revert w. induction ts as [|t ts IH]; intros w; [simpl; split; [intros; lia | done] |].
  cbn [fmap list_fmap run_log call_log].
  specialize (IH (log_inc cfg t w)). destruct (run_log cfg _ (log_inc cfg t w)) as [vs w'].
  simpl in IH |- *. destruct IH as [IH1 IH2]. unfold log_inc, log_advance, advancedLast in *.
  rewrite absIndexAt_set_LastAbsIndex in *.
  destruct (absIndexAt cfg t) as [i|] eqn:E; simpl in *; rewrite ?E in *; simpl in *.
  - split; [intros j; rewrite IH1; lia |]. rewrite IH2.
    generalize (inc_indices cfg ts) as l. clear. induction l; simpl; lia.
  - split; [done |]. by rewrite IH2.
Qed.

Lemma call_log_sum cfg cs now w :
  run_log cfg (cs ++ [CallRollingSumAt now]) w
  = let '(vs, w1) := run_log cfg cs w in
    let w2 := log_advance cfg now w1 in (vs ++ [Some (wrap64 (log_count cfg w2))], w2).
Proof.
  revert w. induction cs as [|c cs IH]; intros w; simpl; [done |].
  destruct (call_log cfg c w) as [v w1]. rewrite IH. by destruct (run_log cfg cs w1).
Qed.

Lemma foldr_max_le b l m : Forall (fun x => x <= m) l -> b <= m -> foldr Z.max b l <= m.
Proof. induction 1; simpl; lia. Qed.

Lemma count_if_inc_indices cfg ts (p : Z -> bool) :
  (forall t, t ∈ ts -> exists i, absIndexAt cfg t = Some i) ->
  count_if p (inc_indices cfg ts)
  = count_if (fun t => match absIndexAt cfg t with Some i => p i | None => false end) ts.
Proof.
  intros H. induction ts as [|t ts IH]; simpl; [done |].
  destruct (H t ltac:(left)) as [i Hi]. rewrite Hi. simpl. rewrite IH; [done |].
  intros t' Ht'. apply H. by right.
Qed.

Lemma absIndexAt_exact n w start t :
  0 < n -> 0 < w -> start <= t -> t - start <= max_int64 ->
  absIndexAt (mkRollingBuckets n start w 0) t = Some ((t - start) / w).
Proof.
  intros Hn Hw Ht Hm. unfold absIndexAt. simpl.
  rewrite time_Sub_exact by (unfold min_int64, max_int64 in *; lia).
  by zbool; simpl; try lia.
Qed.

(** What [RollingSumAt now] reads off the log of [Inc] calls at [ts], none of them before the
    start of the window nor after [now], made on an empty window. *)
Lemma window_count w n start ts now L0 T :
  let cfg := mkRollingBuckets n start w 0 in
  0 < w -> 0 < n -> Forall (fun t => start <= t <= now) ts -> start <= now ->
  now - start <= max_int64 -> zlen ts <= max_int64 -> 0 <= L0 <= (now - start) / w ->
  let l := log_advance cfg now (snd (run_log cfg (CallInc <$> ts) (mkWindowLog L0 [] T))) in
  wl_last l = (now - start) / w /\
  wrap64 (log_count cfg l) = count_if (fun t => (now - start) / w - n <? (t - start) / w) ts.
Proof.
  intros cfg Hw Hn Hts Hnow Hr Hlen HL0.
  pose proof (run_log_incs cfg ts (mkWindowLog L0 [] T)) as [Hc HL].
  destruct (run_log cfg (CallInc <$> ts) _) as [vs w1]. simpl in Hc, HL |- *.
  rewrite Forall_forall in Hts.
  assert (Hidx : forall t, t ∈ ts -> absIndexAt cfg t = Some ((t - start) / w)).
  { intros t Ht. specialize (Hts t Ht). apply absIndexAt_exact; lia. }
  assert (Hlast : wl_last (log_advance cfg now w1) = (now - start) / w).
  { unfold log_advance, advancedLast. simpl. rewrite absIndexAt_set_LastAbsIndex.
    unfold cfg at 1. rewrite absIndexAt_exact by lia. simpl. rewrite HL. apply Z.max_r.
    apply foldr_max_le; [| lia]. apply Forall_forall. unfold inc_indices.
    intros i (t & Ht & Hi)%list_elem_of_omap. rewrite (Hidx t Ht) in Hi. injection Hi as <-.
    apply Z.div_le_mono; [done |]. specialize (Hts t Ht). lia. }
  split; [exact Hlast |].
  unfold log_count. rewrite Hlast. simpl. rewrite Hc, count_if_inc_indices by eauto. rewrite Z.add_0_l.
  rewrite (count_if_ext _ (fun t => (now - start) / w - n <? (t - start) / w)).
  - apply wrap64_id. pose proof (count_if_le_length (fun t => (now - start) / w - n <? (t - start) / w) ts).
    pose proof (count_if_nonneg (fun t => (now - start) / w - n <? (t - start) / w) ts).
    unfold min_int64, max_int64 in *. lia.
  - intros t Ht. by rewrite Hidx.
Qed.

(** The number of instants whose bucket is one of the [n] newest at [now]. *)
Definition in_window (w n : Z) (start now : Time) (ts : list Time) : Z :=
  count_if (fun t => (now - start) / w - n <? (t - start) / w) ts.

Lemma in_window_bounds w n start now ts : 0 <= in_window w n start now ts <= zlen ts.
Proof. split; [apply count_if_nonneg | apply count_if_le_length]. Qed.

(** A counter that, since it was created or last reset, had [Inc] calls at [ts]; [now] bounds
    every instant it was called at. *)
Section Fed.
  Context (w n : Z) (start now : Time).
  Abbreviation cfg := (mkRollingBuckets n start w 0).

Definition fed (ts : list Time) (r : RollingCounter) : Prop :=
  Forall (fun t => start <= t <= now) ts /\
  exists L0 T, 0 <= L0 <= (now - start) / w /\
    represents cfg r (snd (run_log cfg (CallInc <$> ts) (mkWindowLog L0 [] T))).

Hypothesis Hw : 0 < w.
Hypothesis Hn : 0 < n.
Hypothesis Hnow : start <= now.
Hypothesis Hrange : now - start <= max_int64.

Lemma fed_new r :
  NewRollingCounter w n start = Ret r -> max_int64 / w + n <= max_int64 -> fed [] r.
Proof.
  intros H Hm. split; [constructor |]. exists 0, 0. split; [| by apply New_represents].
  split; [done |]. apply Z.div_pos; lia.
Qed.

Lemma run_log_app_inc ts t l :
  snd (run_log cfg (CallInc <$> (ts ++ [t])) l) = log_inc cfg t (snd (run_log cfg (CallInc <$> ts) l)).
Proof.
  revert l. induction ts as [|u ts IH]; intros l; [done |].
  rewrite <- app_comm_cons, !fmap_cons. cbn [run_log call_log]. specialize (IH (log_inc cfg u l)).
  destruct (run_log cfg (CallInc <$> (ts ++ [t])) _), (run_log cfg (CallInc <$> ts) _). exact IH.
Qed.

Lemma fed_inc ts t r :
  fed ts r -> start <= t <= now -> exists r', Inc t r = (Ret tt, r') /\ fed (ts ++ [t]) r'.
Proof.
  intros (Hts & L0 & T & HL0 & H) Ht. destruct (Inc_represents cfg t r _ H) as (r' & E & H').
  exists r'. split; [done |]. split; [apply Forall_app_2; [done | by apply Forall_singleton] |].
  exists L0, T. split; [done |]. by rewrite run_log_app_inc.
Qed.

(** The newest index seen is no later than that of [now]. *)
Lemma fed_last ts L0 T :
  Forall (fun t => start <= t <= now) ts -> 0 <= L0 <= (now - start) / w ->
  wl_last (snd (run_log cfg (CallInc <$> ts) (mkWindowLog L0 [] T))) <= (now - start) / w.
Proof.
  intros Hts HL0. destruct (run_log_incs cfg ts (mkWindowLog L0 [] T)) as [_ ->]. simpl.
  rewrite Forall_forall in Hts.
  assert (Hin : forall i, i ∈ inc_indices cfg ts -> i <= (now - start) / w).
  { unfold inc_indices. intros i (t & Ht & Hi)%list_elem_of_omap. specialize (Hts t Ht).
    rewrite absIndexAt_exact in Hi by lia. injection Hi as <-.
    apply Z.div_le_mono; lia. }
  apply foldr_max_le; [by apply Forall_forall | lia].
Qed.

Lemma fed_reset ts t r :
  fed ts r -> start <= t <= now -> exists r', Reset t r = (Ret tt, r') /\ fed [] r'.
Proof.
  intros (Hts & L0 & T & HL0 & H) Ht. destruct (Reset_represents cfg t r _ H) as (r' & E & H').
  exists r'. split; [done |]. split; [constructor |].
  pose proof (fed_last ts L0 T Hts HL0) as Hlast.
  set (l := snd (run_log cfg (CallInc <$> ts) (mkWindowLog L0 [] T))) in *.
  exists (wl_last (log_reset cfg t l)), (wl_total (log_reset cfg t l)). split; [| exact H'].
  simpl. unfold advancedLast. rewrite absIndexAt_set_LastAbsIndex.
  rewrite absIndexAt_exact by lia. simpl.
  pose proof (Z.div_pos (t - start) w). pose proof (Z.div_le_mono (t - start) (now - start) w). lia.
Qed.

(** The events and the total of a log do not depend on the index it starts from. *)
Lemma run_log_incs_frame ts l l' :
  wl_events l = wl_events l' -> wl_total l = wl_total l' ->
  let e := snd (run_log cfg (CallInc <$> ts) l) in let e' := snd (run_log cfg (CallInc <$> ts) l') in
  wl_events e = wl_events e' /\ wl_total e = wl_total e'.
Proof.
  revert l l'. induction ts as [|t ts IH]; intros l l' He Ht; [done |].
  rewrite fmap_cons. cbn [run_log call_log].
  specialize (IH (log_inc cfg t l) (log_inc cfg t l')).
  destruct (run_log cfg _ (log_inc cfg t l)), (run_log cfg _ (log_inc cfg t l')). apply IH.
  - unfold log_inc. simpl. destruct (absIndexAt cfg t); simpl; by rewrite He.
  - unfold log_inc. destruct (absIndexAt cfg t); simpl; by rewrite Ht.
Qed.

(** The log of a counter, rolled forward to [t], is one that started at that index. *)
Lemma roll_log ts t L0 T :
  Forall (fun u => start <= u <= now) ts -> start <= t <= now ->
  log_advance cfg t (snd (run_log cfg (CallInc <$> ts) (mkWindowLog L0 [] T)))
  = snd (run_log cfg (CallInc <$> ts) (mkWindowLog (Z.max L0 ((t - start) / w)) [] T)).
Proof.
  intros Hts Ht. set (L := Z.max _ _).
  destruct (run_log_incs_frame ts (mkWindowLog L [] T) (mkWindowLog L0 [] T) eq_refl eq_refl) as [He Htot].
  destruct (run_log_incs cfg ts (mkWindowLog L [] T)) as [_ HL].
  destruct (run_log_incs cfg ts (mkWindowLog L0 [] T)) as [_ HL0]. cbn [wl_last] in HL, HL0.
  unfold log_advance, advancedLast. rewrite absIndexAt_set_LastAbsIndex, absIndexAt_exact by lia. simpl in HL0 |- *.
  rewrite HL0, <- He, <- Htot.
  assert (Hmax : forall l, Z.max (foldr Z.max L0 l) ((t - start) / w) = foldr Z.max L l)
    by (unfold L; intros l; induction l as [|x l IH]; simpl; lia).
  rewrite Hmax, <- HL. by destruct (snd (run_log cfg (CallInc <$> ts) (mkWindowLog L [] T))).
Qed.

Lemma fed_roll ts t r :
  fed ts r -> start <= t <= now -> exists x r', RollingSumAt t r = (Ret x, r') /\ fed ts r'.
Proof.
  intros (Hts & L0 & T & HL0 & H) Ht. destruct (Advance_represents _ t r _ H) as (r' & E & H').
  eexists _, r'. split; [unfold RollingSumAt; by rewrite (bind_run _ _ _ _ _ E) |].
  split; [done |]. rewrite (roll_log ts t L0 T Hts Ht) in H'. eexists _, T. split; [| exact H'].
  pose proof (Z.div_pos (t - start) w). pose proof (Z.div_le_mono (t - start) (now - start) w). lia.
Qed.

Lemma fed_sum ts r :
  fed ts r -> zlen ts <= max_int64 ->
  exists r', RollingSumAt now r = (Ret (in_window w n start now ts), r') /\ fed ts r'.
Proof.
  intros Hfed Hlen. destruct (fed_roll ts now r Hfed) as (x & r' & E & Hr'); [lia |].
  destruct Hfed as (Hts & L0 & T & HL0 & H). exists r'. split; [| done]. rewrite E. do 2 f_equal.
  destruct (Advance_represents _ now r _ H) as (r1 & E1 & H1).
  destruct (window_count w n start ts now L0 T Hw Hn Hts Hnow Hrange Hlen HL0) as [_ Hcount].
  unfold RollingSumAt in E. rewrite (bind_run _ _ _ _ _ E1) in E. injection E as <- _.
  by rewrite (sumBuckets_represents _ _ _ H1), Hcount.
Qed.
End Fed.

(** The total only changes by counting. *)
Lemma fed_sum_total w n start now ts t r x r' :
  fed w n start now ts r -> RollingSumAt t r = (Ret x, r') -> totalSum r' = totalSum r.
Proof.
  intros (_ & L0 & T & _ & H). destruct (Advance_represents _ t r _ H) as (r1 & E & H1).
  unfold RollingSumAt. rewrite (bind_run _ _ _ _ _ E). intros [= _ <-].
  destruct H as (_ & _ & _ & -> & _). by destruct H1 as (_ & _ & _ & -> & _).
Qed.

Lemma fed_inc_total w n start now ts t r r' :
  fed w n start now ts r -> Inc t r = (Ret tt, r') -> totalSum r' = wrap64 (totalSum r + 1).
Proof.
  intros (_ & L0 & T & _ & H) E. destruct (Inc_represents _ t r _ H) as (r1 & E1 & H1).
  assert (r1 = r') as -> by congruence.
  destruct H as (_ & _ & _ & -> & _). destruct H1 as (_ & _ & _ & -> & _). rewrite wrap64_add_l.
  unfold log_inc. by destruct (absIndexAt _ t).
Qed.

(** What a counter was fed by [now] it was fed by any later instant. *)
Lemma fed_mono w n start now now' ts r :
  0 < w -> now <= now' -> fed w n start now ts r -> fed w n start now' ts r.
Proof.
  intros Hw Hle (Hts & L0 & T & HL0 & H). split.
  - eapply Forall_impl; [exact Hts |]. cbv beta. lia.
  - exists L0, T. split; [| done]. pose proof (Z.div_le_mono (now - start) (now' - start) w). lia.
Qed.

(** * Properties *)

(** C38: a [RollingCounter] refines its specification, the log of counted events.  For every
    sequence of [Inc], [RollingSumAt], [TotalSum] and [Reset] calls, at any instants and in
    any order, made on a new counter, no call panics, every sum it returns is the number of
    logged events of the window (modulo 2^64), and every total is the number of [Inc] calls. *)
Theorem rolling_counter_refines_log w n start cs r :
  NewRollingCounter w n start = Ret r -> 0 < w -> 0 < n -> max_int64 / w + n <= max_int64 ->
  exists r', run_counter cs r
    = (Ret (fst (run_log (mkRollingBuckets n start w 0) cs (mkWindowLog 0 [] 0))), r').
Proof.
  intros Hnew Hw Hn Hm.
  destruct (run_counter_represents _ cs _ _ (New_represents w n start r Hnew Hw Hn Hm))
    as (r' & E & _). by exists r'.
Qed.

Lemma rolling_counter_refines_log_witness :
  exists r', run_counter
    [CallInc 105; CallInc 112; CallRollingSumAt 119; CallRollingSumAt 131; CallInc 90;
     CallTotalSum; CallReset 131; CallRollingSumAt 132]
    (mkRollingCounter [0; 0; 0] 0 (mkRollingBuckets 3 100 10 0))
  = (Ret [None; None; Some 2; Some 1; None; Some 3; None; Some 0], r').
Proof.
  apply (rolling_counter_refines_log 10 3 100
    [CallInc 105; CallInc 112; CallRollingSumAt 119; CallRollingSumAt 131; CallInc 90;
     CallTotalSum; CallReset 131; CallRollingSumAt 132]); vm_compute; congruence.
Defined.

(** The sliding-window count, in terms of the instants alone: after [Inc] calls at [ts]
    (in any order), none before the start and none after [now], [RollingSumAt now] returns
    exactly the number of those instants whose bucket is one of the [n] newest at [now]. *)
Theorem rolling_sum_counts_window w n start ts now r :
  NewRollingCounter w n start = Ret r -> 0 < w -> 0 < n -> max_int64 / w + n <= max_int64 ->
  Forall (fun t => start <= t <= now) ts -> start <= now -> now - start <= max_int64 ->
  zlen ts <= max_int64 ->
  exists vs r', run_counter ((CallInc <$> ts) ++ [CallRollingSumAt now]) r
    = (Ret (vs ++ [Some (count_if (fun t => (now - start) / w - n <? (t - start) / w) ts)]), r').
Proof.
  intros Hnew Hw Hn Hm Hts Hnow Hr Hlen. set (cfg := mkRollingBuckets n start w 0).
  destruct (run_counter_represents _ ((CallInc <$> ts) ++ [CallRollingSumAt now]) _ _
    (New_represents w n start r Hnew Hw Hn Hm)) as (r' & -> & _). fold cfg.
  rewrite call_log_sum. destruct (window_count w n start ts now 0 0 Hw Hn Hts Hnow Hr Hlen) as [_ Hwc].
  { split; [done |]. apply Z.div_pos; lia. }
  fold cfg in Hwc. destruct (run_log cfg (CallInc <$> ts) _) as [vs w1].
  exists vs, r'. cbn [fst snd] in *. by rewrite Hwc.
Qed.

Lemma rolling_sum_counts_window_witness :
  exists vs r', run_counter ((CallInc <$> [100; 117; 109; 125]) ++ [CallRollingSumAt 131])
      (mkRollingCounter [0; 0; 0] 0 (mkRollingBuckets 3 100 10 0))
    = (Ret (vs ++ [Some 2]), r').
Proof.
  apply (rolling_sum_counts_window 10 3 100 [100; 117; 109; 125] 131);
    first [reflexivity | vm_compute; congruence | repeat constructor; vm_compute; congruence].
Defined.

(** [GetBuckets] reads the window backwards in time: entry [i] is the number of events
    logged [i] buckets before the newest one, and the entries add up to what [RollingSumAt]
    returns at the same instant. *)
Theorem GetBuckets_backwards_in_time cfg now r w :
  represents cfg r w ->
  let w' := log_advance cfg now w in
  exists vs r' r'',
    GetBuckets now r = (Ret vs, r') /\
    vs = (fun i => wrap64 (count_if (fun k => k =? wl_last w' - i) (wl_events w')))
           <$> seqZ 0 (NumBuckets cfg) /\
    RollingSumAt now r = (Ret (wrap64 (zsum vs)), r'').
Proof.
  intros Hr w'. destruct (GetBuckets_represents cfg now r w Hr) as (vs & r' & E & Hr' & Hvs).
  destruct (Advance_represents cfg now r w Hr) as (r'' & Ea & Hr'').
  exists vs, r', r''. split; [done | split; [done |]].
  unfold RollingSumAt, bind, gets. rewrite Ea, (sumBuckets_represents _ _ _ Hr''). do 2 f_equal.
  rewrite Hvs. fold w'. set (L := wl_last w'). set (n := NumBuckets cfg).
  pose proof Hr' as (_ & Hok & _ & _ & Hev & _). fold w' L in Hev.
  assert (Hn : 0 < n) by (destruct Hr' as (Hrb & (Hn & _) & _); rewrite Hrb in Hn; done).
  unfold seqZ. rewrite <- !list_fmap_compose.
  rewrite (list_fmap_ext _ (wrap64 ∘ (fun j : nat => count_if
    (fun k => (L - n <? k) && (Z.to_nat (L - k) =? j)%nat) (wl_events w')))).
  - rewrite list_fmap_compose, wrap64_zsum. do 2 f_equal. unfold log_count. fold L n.
    symmetry. apply count_if_partition. intros k Hk Hlt. bdestr.
    rewrite Forall_forall in Hev. specialize (Hev k Hk). lia.
  - intros i j Hj%lookup_seq. simpl. f_equal. apply count_if_ext. intros k Hk.
    rewrite Forall_forall in Hev. specialize (Hev k Hk).
    destruct (Z.eqb_spec k (L - (Z.of_nat j + 0))), (Z.ltb_spec (L - n) k),
      (Nat.eqb_spec (Z.to_nat (L - k)) j); simpl; (done || lia).
Qed.

Definition counter_example : RollingCounter :=
  mkRollingCounter [1; 0; 2] 3 (mkRollingBuckets 3 100 10 2).

Lemma counter_example_represents :
  represents (mkRollingBuckets 3 100 10 0) counter_example (mkWindowLog 2 [2; 0; 2] 3).
Proof.
  split; [done |]. split; [repeat split; vm_compute; congruence |]. split; [done |]. split; [done |].
  split; [repeat constructor; simpl; lia |].
  intros [|[|[|j]]] v Hv; simpl in Hv; [injection Hv as <- ..|]; done.
Qed.

Lemma GetBuckets_backwards_in_time_witness :
  exists vs r' r'', GetBuckets 135 counter_example = (Ret vs, r') /\ vs = [0; 2; 0] /\
    RollingSumAt 135 counter_example = (Ret 2, r'').
Proof.
  destruct (GetBuckets_backwards_in_time (mkRollingBuckets 3 100 10 0) 135 counter_example
    (mkWindowLog 2 [2; 0; 2] 3) counter_example_represents) as (vs & r' & r'' & E1 & E2 & E3).
  exists vs, r', r''. split; [exact E1 | split; [exact E2 |]]. by rewrite E2 in E3.
Defined.
