(* ===== verification/ConcurrentCounter.v ===== *)
(** faststats/rolling_counter.go and rolling_bucket.go with [Inc] and [RollingSumAt] on any number
    of goroutines.

    The other files take a call of [Advance] as one step.  Here a [step] is one atomic operation of
    one call: the addition to the total, a load of [LastAbsIndex], the locking of [advanceMu], the
    clearing of one bucket, the store of [LastAbsIndex], the addition to a bucket.  [Inc] of
    RollingCounter.v is a run of these steps ([Inc_is_a_run]), and after any interleaving of calls
    the counter is the one that counted all of them one after the other
    ([concurrent_incs_are_counted]), except for writes that come a whole window late, the
    limitation that the comment of [RollingBuckets] names; [g_late] counts them. *)

From stdpp Require Import relations.
From S2P Require Import Prelude GoMonad RollingBuckets RollingCounter.

Module ConcurrentCounter.

(** * Calls in progress *)

(** Where a call is; [inc] tells [Inc] from [RollingSumAt], whose loads of the buckets change
    nothing and are left out. *)
Inductive call_at :=
| Starting (now : Time) (inc : bool)
| Looking (now : Time) (inc : bool)                (* about to load LastAbsIndex *)
| Waiting (now : Time) (inc : bool)                (* for advanceMu *)
| Checking (now : Time) (inc : bool)               (* has it, about to load LastAbsIndex again *)
| Clearing (now : Time) (inc : bool) (last i : Z)  (* in the loop of rollForward *)
| Releasing (now : Time) (inc : bool) (last : Z)   (* rollForward is about to return [last] *)
| Writing (now : Time) (idx : Z)                   (* about to add to bucket [idx] *)
| Finished.

(** The calls that hold the mutex. *)
Definition holding (t : call_at) : bool :=
  match t with Checking _ _ | Clearing _ _ _ _ | Releasing _ _ _ => true | _ => false end.

(** [absIndex] and [bucket] of [Advance]. *)
Definition absIndex_of (rb : RollingBuckets) (now : Time) : Z :=
  Z.quot (time_Sub now (StartTime rb)) (BucketWidth rb).
Definition bucket_of (rb : RollingBuckets) (now : Time) : Z := Z.rem (absIndex_of rb now) (NumBuckets rb).

(** [Advance] up to the slow path: an index, or -1, or the window has to roll forward. *)
Definition look (rb : RollingBuckets) (now : Time) : option Z :=
  if (NumBuckets rb <=? 0) || (BucketWidth rb <=? 0) then Some (-1)
  else if time_Sub now (StartTime rb) <? 0 then Some (-1)
  else
    let behind := wrap64 (LastAbsIndex rb - absIndex_of rb now) in
    if 0 <=? behind then Some (if NumBuckets rb <=? behind then -1 else bucket_of rb now) else None.

(** What follows the result of [Advance]. *)
Definition after (now : Time) (inc : bool) (idx : Z) : call_at :=
  if inc && negb (idx <? 0) then Writing now idx else Finished.

(** [advanceMu.Lock], which waits while the mutex is taken, and [Unlock]. *)
Definition lock (mu : bool) : option bool := if mu then None else Some true.
Definition unlock (mu : bool) : option bool := if mu then Some false else None.

(** [rollForward] has the mutex: is there still anything to do? *)
Definition checked (rb : RollingBuckets) (now : Time) (inc : bool) : call_at :=
  let l := LastAbsIndex rb in
  if absIndex_of rb now <=? l then Releasing now inc l else Clearing now inc l (wrap64 (l + 1)).

(** [rollForward] returned [last]. *)
Definition rolled (rb : RollingBuckets) (now : Time) (last : Z) : Z :=
  if NumBuckets rb <=? wrap64 (last - absIndex_of rb now) then -1 else bucket_of rb now.

(** What the invariants talk about. *)
Record ghost := mkGhost {
  g_front : Z;            (* buckets are cleared up to this absolute index *)
  g_clears : list Z;      (* the absolute indices cleared, newest first *)
  g_told : list Time;     (* the instants of all calls of Inc *)
  g_landed : list Z;      (* the absolute indices of the additions to buckets that were in time *)
  g_lost : list Z;        (* those of calls that were refused, or late *)
  g_late : Z;             (* additions to a bucket whose window was over *)
  g_noise : list Z        (* late additions to each bucket since it was cleared *)
}.

Record sys := mkSys { counter : RollingCounter; advanceMu : bool; calls : list call_at; g : ghost }.

Definition tell (now : Time) (gh : ghost) : ghost :=
  mkGhost (g_front gh) (g_clears gh) (now :: g_told gh) (g_landed gh) (g_lost gh) (g_late gh) (g_noise gh).
Definition lose (k : Z) (gh : ghost) : ghost :=
  mkGhost (g_front gh) (g_clears gh) (g_told gh) (g_landed gh) (k :: g_lost gh) (g_late gh) (g_noise gh).
Definition clear_to (i : Z) (j : nat) (gh : ghost) : ghost :=
  mkGhost i (i :: g_clears gh) (g_told gh) (g_landed gh) (g_lost gh) (g_late gh) (<[j := 0]> (g_noise gh)).
Definition publish (i : Z) (gh : ghost) : ghost :=
  mkGhost i (g_clears gh) (g_told gh) (g_landed gh) (g_lost gh) (g_late gh) (g_noise gh).

Definition add_noise (j : nat) (l : list Z) : list Z :=
  match l !! j with Some z => <[j := z + 1]> l | None => l end.

(** An addition for the absolute index [k] to bucket [j]: in time if its window is not over. *)
Definition land (n k : Z) (j : nat) (gh : ghost) : ghost :=
  if g_front gh - n <? k
  then mkGhost (g_front gh) (g_clears gh) (g_told gh) (k :: g_landed gh) (g_lost gh) (g_late gh) (g_noise gh)
  else mkGhost (g_front gh) (g_clears gh) (g_told gh) (g_landed gh) (k :: g_lost gh) (g_late gh + 1)
         (add_noise j (g_noise gh)).

(** A call of [Inc] for which [Advance] returned -1 is not counted. *)
Definition refuse (rb : RollingBuckets) (now : Time) (inc : bool) (idx : Z) (gh : ghost) : ghost :=
  if inc && (idx <? 0)
  then match absIndexAt rb now with Some k => lose k gh | None => gh end
  else gh.

Definition set_LastAbs (i : Z) (c : RollingCounter) : RollingCounter :=
  upd rollingBucketL (set_LastAbsIndex i (rollingBucket c)) c.

Inductive step : sys -> sys -> Prop :=
| StepCall c mu ts gh now inc :
    step (mkSys c mu ts gh) (mkSys c mu (ts ++ [Starting now inc]) gh)
| StepTotal c mu ts gh i now :
    ts !! i = Some (Starting now true) ->
    step (mkSys c mu ts gh)
      (mkSys (set_totalSum (wrap64 (totalSum c + 1)) c) mu
         (<[i := if zlen (buckets c) =? 0 then Finished else Looking now true]> ts) (tell now gh))
| StepSum c mu ts gh i now :
    ts !! i = Some (Starting now false) ->
    step (mkSys c mu ts gh) (mkSys c mu (<[i := Looking now false]> ts) gh)
| StepFast c mu ts gh i now inc idx :
    ts !! i = Some (Looking now inc) -> look (rollingBucket c) now = Some idx ->
    step (mkSys c mu ts gh)
      (mkSys c mu (<[i := after now inc idx]> ts) (refuse (rollingBucket c) now inc idx gh))
| StepSlow c mu ts gh i now inc :
    ts !! i = Some (Looking now inc) -> look (rollingBucket c) now = None ->
    step (mkSys c mu ts gh) (mkSys c mu (<[i := Waiting now inc]> ts) gh)
| StepLock c mu mu' ts gh i now inc :
    ts !! i = Some (Waiting now inc) -> lock mu = Some mu' ->
    step (mkSys c mu ts gh) (mkSys c mu' (<[i := Checking now inc]> ts) gh)
| StepCheck c mu ts gh i now inc :
    ts !! i = Some (Checking now inc) ->
    step (mkSys c mu ts gh) (mkSys c mu (<[i := checked (rollingBucket c) now inc]> ts) gh)
| StepClear c c' mu ts gh i now inc last j :
    let n := NumBuckets (rollingBucket c) in
    ts !! i = Some (Clearing now inc last j) ->
    (j <=? absIndex_of (rollingBucket c) now) && (j <=? wrap64 (last + n)) = true ->
    clearBucket (Z.rem j n) c = (Ret tt, c') ->
    step (mkSys c mu ts gh)
      (mkSys c' mu (<[i := Clearing now inc last (wrap64 (j + 1))]> ts) (clear_to j (Z.to_nat (Z.rem j n)) gh))
| StepPublish c mu ts gh i now inc last j :
    let k := absIndex_of (rollingBucket c) now in
    ts !! i = Some (Clearing now inc last j) ->
    (j <=? k) && (j <=? wrap64 (last + NumBuckets (rollingBucket c))) = false ->
    step (mkSys c mu ts gh)
      (mkSys (set_LastAbs k c) mu (<[i := Releasing now inc k]> ts) (publish k gh))
| StepUnlock c mu mu' ts gh i now inc last :
    let idx := rolled (rollingBucket c) now last in
    ts !! i = Some (Releasing now inc last) -> unlock mu = Some mu' ->
    step (mkSys c mu ts gh)
      (mkSys c mu' (<[i := after now inc idx]> ts) (refuse (rollingBucket c) now inc idx gh))
| StepWrite c c' mu ts gh i now idx :
    ts !! i = Some (Writing now idx) -> bucket_Add idx 1 c = (Ret tt, c') ->
    step (mkSys c mu ts gh)
      (mkSys c' mu (<[i := Finished]> ts)
         (land (NumBuckets (rollingBucket c)) (absIndex_of (rollingBucket c) now) (Z.to_nat idx) gh)).

(** A counter nobody is calling. *)
Definition initial (r : RollingCounter) : sys :=
  mkSys r false [] (mkGhost 0 [] [] [] [] 0 (replicate (length (buckets r)) 0)).

(** ** Schedules *)

(** The next step of call [i], if it can make one. *)
Definition next (i : nat) (s : sys) : option sys :=
  let c := counter s in let rb := rollingBucket c in let ts := calls s in
  let go c' mu t gh := Some (mkSys c' mu (<[i := t]> ts) gh) in
  match ts !! i with
  | Some (Starting now true) =>
      go (set_totalSum (wrap64 (totalSum c + 1)) c) (advanceMu s)
        (if zlen (buckets c) =? 0 then Finished else Looking now true) (tell now (g s))
  | Some (Starting now false) => go c (advanceMu s) (Looking now false) (g s)
  | Some (Looking now inc) =>
      match look rb now with
      | Some idx => go c (advanceMu s) (after now inc idx) (refuse rb now inc idx (g s))
      | None => go c (advanceMu s) (Waiting now inc) (g s)
      end
  | Some (Waiting now inc) => mu' ← lock (advanceMu s); go c mu' (Checking now inc) (g s)
  | Some (Checking now inc) => go c (advanceMu s) (checked rb now inc) (g s)
  | Some (Clearing now inc last j) =>
      let k := absIndex_of rb now in
      if (j <=? k) && (j <=? wrap64 (last + NumBuckets rb)) then
        match clearBucket (Z.rem j (NumBuckets rb)) c with
        | (Ret _, c') => go c' (advanceMu s) (Clearing now inc last (wrap64 (j + 1)))
                           (clear_to j (Z.to_nat (Z.rem j (NumBuckets rb))) (g s))
        | _ => None
        end
      else go (set_LastAbs k c) (advanceMu s) (Releasing now inc k) (publish k (g s))
  | Some (Releasing now inc last) =>
      let idx := rolled rb now last in
      mu' ← unlock (advanceMu s); go c mu' (after now inc idx) (refuse rb now inc idx (g s))
  | Some (Writing now idx) =>
      match bucket_Add idx 1 c with
      | (Ret _, c') => go c' (advanceMu s) Finished
                         (land (NumBuckets rb) (absIndex_of rb now) (Z.to_nat idx) (g s))
      | _ => None
      end
  | Some Finished | None => None
  end.

Fixpoint schedule (js : list nat) (s : sys) : option sys :=
  match js with
  | [] => Some s
  | j :: js' => s' ← next j s; schedule js' s'
  end.

(** New calls, as many as wanted. *)
Fixpoint called (ts : list call_at) (s : sys) : sys :=
  match ts with
  | [] => s
  | t :: ts' => called ts' (mkSys (counter s) (advanceMu s) (calls s ++ [t]) (g s))
  end.

Definition is_start (t : call_at) : bool := match t with Starting _ _ => true | _ => false end.

Lemma next_step i s s' : next i s = Some s' -> step s s'.
Proof.
  destruct s as [c mu ts gh]. unfold next. cbn [counter advanceMu calls g].
  destruct (ts !! i) as [[now [|]|now inc|now inc|now inc|now inc last j|now inc last|now idx|]|] eqn:Hi;
    try done.
  - intros [= <-]. by apply StepTotal.
  - intros [= <-]. by apply StepSum.
  - destruct (look _ _) eqn:E; intros [= <-]; [by apply StepFast | by apply StepSlow].
  - destruct (lock mu) eqn:E; [| done]. intros [= <-]. by eapply StepLock.
  - intros [= <-]. by apply StepCheck.
  - destruct (_ && _) eqn:E; [| intros [= <-]; by eapply StepPublish].
    destruct (clearBucket _ _) as [[[]| | |] c'] eqn:Ec; try done. intros [= <-]. by apply StepClear.
  - destruct (unlock mu) eqn:E; [| done]. intros [= <-]. by eapply StepUnlock.
  - destruct (bucket_Add _ _ _) as [[[]| | |] c'] eqn:Ec; try done. intros [= <-]. by apply StepWrite.
Qed.

Lemma schedule_steps js s s' : schedule js s = Some s' -> rtc step s s'.
Proof.
  revert s. induction js as [|j js IH]; intros s; cbn [schedule]; [by intros [= <-] |].
  destruct (next j s) as [s1|] eqn:E; [| done]. intros H. eapply rtc_l; [by eapply next_step | by apply IH].
Qed.

Lemma called_steps ts s : forallb is_start ts = true -> rtc step s (called ts s).
Proof.
  revert s. induction ts as [|t ts IH]; intros s; cbn [forallb called]; [done |]. intros [Ht Hts]%andb_prop.
  destruct s as [c mu l gh]. destruct t; try done. eapply rtc_l; [apply StepCall | by apply IH].
Qed.

(** * The invariant *)

Section Invariant.
Context (cfg : RollingBuckets).
Abbreviation n := (NumBuckets cfg).

(** The last absolute index there is. *)
Definition most : Z := max_int64 / BucketWidth cfg.

Definition call_ok (L front : Z) (t : call_at) : Prop :=
  match t with
  | Starting _ _ | Looking _ _ | Finished => True
  | Waiting now _ => is_Some (absIndexAt cfg now)
  | Checking now _ => is_Some (absIndexAt cfg now) /\ front = L
  | Clearing now _ last i => exists k, absIndexAt cfg now = Some k /\ last = L /\ i = front + 1 /\
      L <= front <= Z.min k (L + n) /\ L < k
  | Releasing now _ last => exists k, absIndexAt cfg now = Some k /\ k <= L /\ last = L /\ front = L
  | Writing now idx => exists k, absIndexAt cfg now = Some k /\ k <= L /\ idx = k mod n
  end.

(** Calls of [Inc] that are told and not yet counted or refused, by their absolute index. *)
Definition pending (p : Z -> bool) (t : call_at) : bool :=
  match t with
  | Looking now true | Waiting now true | Checking now true | Clearing now true _ _
  | Releasing now true _ | Writing now _ => from_option p false (absIndexAt cfg now)
  | _ => false
  end.

Definition lock_ok (mu : bool) (ts : list call_at) : Prop :=
  (forall i t, ts !! i = Some t -> holding t = true -> mu = true) /\
  (forall i j t t', ts !! i = Some t -> ts !! j = Some t' -> holding t = true -> holding t' = true -> i = j) /\
  (mu = true -> exists i t, ts !! i = Some t /\ holding t = true).

(** Bucket by bucket: what landed in the window up to [front], and the noise. *)
Definition value_ok (front : Z) (landed noise bs : list Z) : Prop :=
  zlen noise = n /\
  exists ideal, bs = zip_with (fun a z => wrap64 (a + z)) ideal noise /\ zlen ideal = n /\
    buckets_mean n front landed ideal.

Record counter_inv (s : sys) : Prop := {
  v_cfg : rollingBucket (counter s) = set_LastAbsIndex (LastAbsIndex (rollingBucket (counter s))) cfg;
  v_ok : window_ok (rollingBucket (counter s));
  v_front : LastAbsIndex (rollingBucket (counter s)) <= g_front (g s) <= most;
  v_mu : advanceMu s = false -> g_front (g s) = LastAbsIndex (rollingBucket (counter s));
  v_lock : lock_ok (advanceMu s) (calls s);
  v_calls : Forall (call_ok (LastAbsIndex (rollingBucket (counter s))) (g_front (g s))) (calls s);
  v_value : value_ok (g_front (g s)) (g_landed (g s)) (g_noise (g s)) (buckets (counter s));
  v_landed : Forall (fun k => 0 <= k <= LastAbsIndex (rollingBucket (counter s))) (g_landed (g s));
  v_lost : Forall (fun k => k <= g_front (g s) - n) (g_lost (g s));
  v_count : forall p, count_if p (inc_indices cfg (g_told (g s)))
    = count_if p (g_landed (g s)) + count_if p (g_lost (g s)) + count_if (pending p) (calls s);
  v_total : totalSum (counter s) = wrap64 (zlen (g_told (g s)));
  v_late : Forall (fun z => 0 <= z) (g_noise (g s)) /\ zsum (g_noise (g s)) <= g_late (g s) <= zlen (g_lost (g s));
  v_clears : StronglySorted (fun a b => b < a) (g_clears (g s)) /\ Forall (fun k => k <= g_front (g s)) (g_clears (g s))
}.

(** ** The mutex *)

Lemma lock_spec mu mu' : lock mu = Some mu' -> mu = false /\ mu' = true.
Proof using. by destruct mu; [| intros [= <-]]. Qed.

Lemma unlock_spec mu mu' : unlock mu = Some mu' -> mu = true /\ mu' = false.
Proof using. by destruct mu; [intros [= <-] |]. Qed.

Lemma lock_keep mu ts i t t' :
  lock_ok mu ts -> ts !! i = Some t -> holding t' = holding t -> lock_ok mu (<[i := t']> ts).
Proof.
  intros (Hmu & Hone & Hex) Hi Ht. split; [| split].
  - intros j u. rewrite list_lookup_insert_Some. intros [(<- & <- & _)|[_ Hj]] Hu; [| by eauto].
    rewrite Ht in Hu. eauto.
  - intros j k u u'. rewrite !list_lookup_insert_Some.
    intros [(<- & <- & _)|[? Hj]] [(<- & <- & _)|[? Hk]] Hu Hu'; rewrite ?Ht in *; eauto.
  - intros (j & u & Hj & Hu)%Hex. destruct (decide (i = j)) as [<-|Hne].
    + exists i, t'. rewrite list_lookup_insert_eq by (by eapply lookup_lt_Some). split; congruence.
    + exists j, u. by rewrite list_lookup_insert_ne.
Qed.

Lemma lock_take ts i t t' :
  lock_ok false ts -> ts !! i = Some t -> holding t' = true -> lock_ok true (<[i := t']> ts).
Proof.
  intros (Hmu & Hone & _) Hi Ht'. split; [done |]. split.
  - intros j k u u'. rewrite !list_lookup_insert_Some.
    intros [(<- & <- & _)|[? Hj]] [(<- & <- & _)|[? Hk]] Hu Hu'; try done.
    + by specialize (Hmu _ _ Hk Hu').
    + by specialize (Hmu _ _ Hj Hu).
    + by specialize (Hmu _ _ Hj Hu).
  - intros _. exists i, t'. by rewrite list_lookup_insert_eq by (by eapply lookup_lt_Some).
Qed.

Lemma others_free mu ts i t j t' :
  lock_ok mu ts -> ts !! i = Some t -> holding t = true -> j <> i -> ts !! j = Some t' -> holding t' = false.
Proof.
  intros (_ & Hone & _) Hi Ht Hne Hj. destruct (holding t') eqn:E; [| done]. by destruct Hne; eapply Hone.
Qed.

Lemma lock_release ts i t t' :
  lock_ok true ts -> ts !! i = Some t -> holding t = true -> holding t' = false ->
  lock_ok false (<[i := t']> ts).
Proof.
  intros Hl Hi Ht Ht'.
  assert (Hno : forall j u, <[i := t']> ts !! j = Some u -> holding u = false).
  { intros j u. rewrite list_lookup_insert_Some. intros [(<- & <- & _)|[Hne Hj]]; [done |].
    by eapply (others_free true ts i t j u). }
  split; [| split; [| done]].
  - intros j u Hj Hu. by rewrite (Hno j u Hj) in Hu.
  - intros j k u u' Hj _ Hu. by rewrite (Hno j u Hj) in Hu.
Qed.

(** The holder moves the window; the others see it only through the newest index. *)
Lemma calls_moved mu ts i t t' L front L' front' :
  lock_ok mu ts -> ts !! i = Some t -> holding t = true -> L <= L' ->
  Forall (call_ok L front) ts -> call_ok L' front' t' -> Forall (call_ok L' front') (<[i := t']> ts).
Proof.
  intros Hl Hi Ht HL Hok Ht'. apply Forall_lookup. intros j u.
  rewrite list_lookup_insert_Some. intros [(<- & <- & _)|[Hne Hj]]; [done |].
  pose proof (others_free mu ts i t j u Hl Hi Ht (not_eq_sym Hne) Hj) as Hf.
  pose proof (Forall_lookup_1 _ _ _ _ Hok Hj) as Hu.
  destruct u; try done. destruct Hu as (k & Hk & Hle & Hidx). exists k. split; [done |]. split; [lia | done].
Qed.

(** ** The values *)

Hypothesis Hn : 0 < n.

Lemma mean_clear front landed bs :
  0 <= front -> Forall (fun k => k <= front) landed -> buckets_mean n front landed bs -> zlen bs = n ->
  buckets_mean n (front + 1) landed (<[Z.to_nat ((front + 1) mod n) := 0]> bs).
Proof.
  intros Hf Hl Hm Hlen j v. pose proof (Z.mod_pos_bound (front + 1) n Hn).
  rewrite list_lookup_insert_Some. intros [(<- & <- & _)|[Hne Hj]].
  - rewrite Z2Nat.id by lia. rewrite (count_if_ext _ (fun _ => false)), count_if_false; [done |].
    intros k Hk. rewrite Forall_forall in Hl. specialize (Hl k Hk). apply Z.eqb_neq.
    rewrite <- (window_index_unique n (front + 1) _ (front + 1)); lia.
  - pose proof (zlen_lookup _ _ _ Hj). rewrite (Hm j v Hj). do 2 f_equal.
    assert (E : window_index n (front + 1) (Z.of_nat j) = window_index n front (Z.of_nat j)); [| by rewrite E].
    destruct (window_index_spec n (front + 1) (Z.of_nat j)) as [Hb Hmod]; [done | lia |].
    apply window_index_unique; try lia.
    destruct (decide (window_index n (front + 1) (Z.of_nat j) = front + 1)) as [E|]; [| lia].
    rewrite E in Hmod. lia.
Qed.

Lemma mean_jump L front landed bs :
  Forall (fun k => k <= L) landed -> buckets_mean n (L + n) landed bs -> zlen bs = n -> L + n <= front ->
  buckets_mean n front landed bs.
Proof.
  intros Hl Hm Hlen Hf j v Hj. rewrite (Hm j v Hj). f_equal. pose proof (zlen_lookup _ _ _ Hj).
  destruct (window_index_spec n (L + n) (Z.of_nat j)) as [H1 _]; [done | lia |].
  destruct (window_index_spec n front (Z.of_nat j)) as [H2 _]; [done | lia |].
  apply count_if_ext. intros k Hk. rewrite Forall_forall in Hl. specialize (Hl k Hk). zbool; try done; lia.
Qed.

Lemma mean_land front landed bs k v :
  front - n < k <= front -> buckets_mean n front landed bs -> zlen bs = n ->
  bs !! Z.to_nat (k mod n) = Some v ->
  buckets_mean n front (k :: landed) (<[Z.to_nat (k mod n) := wrap64 (v + 1)]> bs).
Proof.
  intros Hk Hm Hlen Hv j u. pose proof (Z.mod_pos_bound k n Hn). cbn [count_if].
  rewrite list_lookup_insert_Some. intros [(<- & <- & _)|[Hne Hj]].
  - rewrite Z2Nat.id by lia. rewrite <- (window_index_unique n front (k mod n) k), Z.eqb_refl by lia.
    rewrite (Hm _ _ Hv), Z2Nat.id by lia. rewrite <- (window_index_unique n front (k mod n) k) by lia.
    rewrite wrap64_add_l. f_equal. lia.
  - pose proof (zlen_lookup _ _ _ Hj) as Hb. rewrite (Hm j u Hj). f_equal.
    destruct (window_index_spec n front (Z.of_nat j)) as [_ Hmod]; [done | lia |].
    destruct (Z.eqb_spec k (window_index n front (Z.of_nat j))) as [E|]; [| lia].
    rewrite <- E in Hmod. lia.
Qed.

Lemma value_clear front landed noise bs :
  0 <= front -> Forall (fun k => k <= front) landed -> value_ok front landed noise bs ->
  let j := Z.to_nat ((front + 1) mod n) in
  value_ok (front + 1) landed (<[j := 0]> noise) (<[j := 0]> bs).
Proof.
  intros Hf Hl (Hz & ideal & -> & Hlen & Hm) j. split; [by rewrite zlen_insert |].
  exists (<[j := 0]> ideal). split; [| split; [by rewrite zlen_insert | by apply mean_clear]].
  by rewrite <- insert_zip_with.
Qed.

Lemma value_jump L front landed noise bs :
  Forall (fun k => k <= L) landed -> value_ok (L + n) landed noise bs -> L + n <= front ->
  value_ok front landed noise bs.
Proof.
  intros Hl (Hz & ideal & Hbs & Hlen & Hm) Hf. split; [done |]. exists ideal.
  split; [done |]. split; [done |]. by apply (mean_jump L).
Qed.

(** The bucket of an index, with its ideal value and its noise. *)
Lemma value_lookup front landed noise bs k :
  value_ok front landed noise bs ->
  exists ideal a z, bs = zip_with (fun a z => wrap64 (a + z)) ideal noise /\ zlen ideal = n /\
    buckets_mean n front landed ideal /\ ideal !! Z.to_nat (k mod n) = Some a /\
    noise !! Z.to_nat (k mod n) = Some z /\ bs !! Z.to_nat (k mod n) = Some (wrap64 (a + z)).
Proof.
  intros (Hz & ideal & -> & Hlen & Hm). pose proof (Z.mod_pos_bound k n Hn). unfold zlen in *.
  destruct (lookup_lt_is_Some_2 ideal (Z.to_nat (k mod n))) as [a Ha]; [lia |].
  destruct (lookup_lt_is_Some_2 noise (Z.to_nat (k mod n))) as [z Hz']; [lia |].
  exists ideal, a, z. repeat (split; [done |]). by rewrite lookup_zip_with, Ha, Hz'.
Qed.

Lemma value_land front landed noise bs k v :
  front - n < k <= front -> value_ok front landed noise bs -> bs !! Z.to_nat (k mod n) = Some v ->
  value_ok front (k :: landed) noise (<[Z.to_nat (k mod n) := wrap64 (v + 1)]> bs).
Proof.
  intros Hk Hv Hb. destruct (value_lookup front landed noise bs k Hv) as (ideal & a & z & -> & Hlen & Hm & Ha & Hz & Hb').
  rewrite Hb' in Hb. injection Hb as <-. split; [apply Hv |].
  exists (<[Z.to_nat (k mod n) := wrap64 (a + 1)]> ideal).
  split; [| split; [by rewrite zlen_insert | by apply mean_land]].
  rewrite <- (list_insert_id noise _ z Hz) at 2. rewrite <- insert_zip_with. f_equal.
  rewrite !wrap64_add_l. f_equal. lia.
Qed.

Lemma value_late front landed noise bs k v :
  value_ok front landed noise bs -> bs !! Z.to_nat (k mod n) = Some v ->
  value_ok front landed (add_noise (Z.to_nat (k mod n)) noise) (<[Z.to_nat (k mod n) := wrap64 (v + 1)]> bs).
Proof.
  intros Hv Hb. destruct (value_lookup front landed noise bs k Hv) as (ideal & a & z & -> & Hlen & Hm & Ha & Hz & Hb').
  rewrite Hb' in Hb. injection Hb as <-. unfold add_noise. rewrite Hz.
  split; [rewrite zlen_insert; apply Hv |]. exists ideal. split; [| done].
  rewrite <- (list_insert_id ideal _ a Ha) at 2. rewrite <- insert_zip_with. f_equal.
  rewrite wrap64_add_l. f_equal. lia.
Qed.

(** ** Absolute indices *)

Lemma index_facts L now k :
  window_ok (set_LastAbsIndex L cfg) -> absIndexAt cfg now = Some k ->
  absIndex_of (set_LastAbsIndex L cfg) now = k /\ bucket_of (set_LastAbsIndex L cfg) now = k mod n /\
  0 <= k <= most.
Proof.
  intros Hok Hk. destruct (absIndexAt_bounds (set_LastAbsIndex L cfg) now k Hok Hk) as (Hb & Hd & H0). cbn in *.
  destruct Hok as (_ & Hw & _). cbn in Hw.
  assert (E : absIndex_of (set_LastAbsIndex L cfg) now = k)
    by (unfold absIndex_of; cbn; rewrite Z.quot_div_nonneg; lia).
  split; [done |]. split; [| done]. unfold bucket_of. rewrite E. cbn. apply Z.rem_mod_nonneg; lia.
Qed.

Lemma most_bounds L : window_ok (set_LastAbsIndex L cfg) -> 0 <= L <= most /\ most + n <= max_int64 /\ 0 <= most.
Proof. intros (_ & _ & ? & ?). cbn in *. unfold most. lia. Qed.

Lemma look_spec L now :
  window_ok (set_LastAbsIndex L cfg) ->
  match look (set_LastAbsIndex L cfg) now with
  | Some idx =>
      (absIndexAt cfg now = None /\ idx = -1) \/
      (exists k, absIndexAt cfg now = Some k /\ k <= L /\ idx = if n <=? L - k then -1 else k mod n)
  | None => exists k, absIndexAt cfg now = Some k /\ L < k
  end.
Proof.
  intros Hok. pose proof (most_bounds L Hok) as (HL & Hmost & _).
  destruct (absIndexAt cfg now) as [k|] eqn:E.
  - destruct (index_facts L now k Hok E) as (Hi & Hb & Hk).
    destruct (absIndexAt_bounds (set_LastAbsIndex L cfg) now k Hok E) as (_ & _ & H0). cbn in H0.
    destruct Hok as (_ & Hw & _). unfold look. rewrite Hi, Hb. cbn in *.
    destruct (Z.leb_spec n 0); [lia |]. destruct (Z.leb_spec (BucketWidth cfg) 0); [lia |]. cbn [orb].
    destruct (Z.ltb_spec (time_Sub now (StartTime cfg)) 0); [lia |].
    rewrite wrap64_id by (unfold min_int64, max_int64 in *; lia).
    destruct (Z.leb_spec 0 (L - k)); [right | exists k; split; [done | lia]].
    exists k. split; [done |]. split; [lia | done].
  - unfold absIndexAt in E. unfold look. cbn [set_LastAbsIndex NumBuckets BucketWidth StartTime].
    destruct ((n <=? 0) || (BucketWidth cfg <=? 0)); [by left |].
    by destruct (time_Sub now (StartTime cfg) <? 0); [left |].
Qed.

Lemma rolled_spec L now k last :
  window_ok (set_LastAbsIndex L cfg) -> absIndexAt cfg now = Some k -> k <= last <= L ->
  rolled (set_LastAbsIndex L cfg) now last = if n <=? last - k then -1 else k mod n.
Proof.
  intros Hok Hk Hl. pose proof (most_bounds L Hok) as (HL & Hmost & _).
  destruct (index_facts L now k Hok Hk) as (Hi & Hb & Hk'). unfold rolled. rewrite Hi, Hb. cbn.
  by rewrite wrap64_id by (unfold min_int64, max_int64 in *; lia).
Qed.

Lemma window_ok_at L L' : window_ok (set_LastAbsIndex L cfg) -> 0 <= L' <= most -> window_ok (set_LastAbsIndex L' cfg).
Proof. intros (? & ? & _ & ?) Hb. unfold most in Hb. by repeat split; cbn in *; try lia. Qed.

Lemma value_length front landed noise bs : value_ok front landed noise bs -> zlen bs = n.
Proof.
  intros (Hz & ideal & -> & Hlen & _). unfold zlen in *. rewrite length_zip_with. lia.
Qed.

Lemma zsum_insert (l : list Z) i x y : l !! i = Some x -> zsum (<[i := y]> l) = zsum l - x + y.
Proof using.
  clear. revert i. induction l as [|z l IH]; intros [|i] E; try done.
  - injection E as ->. change (<[0%nat := y]> (x :: l)) with (y :: l). rewrite !zsum_cons. lia.
  - change (<[S i := y]> (z :: l)) with (z :: <[i := y]> l). rewrite !zsum_cons, (IH i) by done. lia.
Qed.

(** ** The steps *)

(** A call goes on and changes nothing, except that it may take or release the mutex. *)
Lemma count_inv_move c mu mu' ts gh i t t' :
  counter_inv (mkSys c mu ts gh) -> ts !! i = Some t -> lock_ok mu' (<[i := t']> ts) ->
  (mu' = false -> g_front gh = LastAbsIndex (rollingBucket c)) ->
  call_ok (LastAbsIndex (rollingBucket c)) (g_front gh) t' -> (forall p, pending p t' = pending p t) ->
  counter_inv (mkSys c mu' (<[i := t']> ts) gh).
Proof.
  intros [] Hi Hlock Hmu Hok Hp. constructor; cbn [counter advanceMu calls g] in *; try done.
  - by apply Forall_insert.
  - intros p. rewrite (count_if_insert _ _ _ t), Hp by done. rewrite v_count0. lia.
Qed.

(** A call learns the result of [Advance]. *)
Lemma inv_refuse c mu mu' ts gh i t now inc idx :
  let L := LastAbsIndex (rollingBucket c) in
  counter_inv (mkSys c mu ts gh) -> ts !! i = Some t -> lock_ok mu' (<[i := after now inc idx]> ts) ->
  (mu' = false -> g_front gh = L) ->
  (forall p, pending p t = inc && from_option p false (absIndexAt cfg now)) ->
  (absIndexAt cfg now = None /\ idx = -1) \/
  (exists k, absIndexAt cfg now = Some k /\ k <= L /\ idx = if n <=? L - k then -1 else k mod n) ->
  counter_inv (mkSys c mu' (<[i := after now inc idx]> ts) (refuse (rollingBucket c) now inc idx gh)).
Proof.
  intros L [] Hi Hlock Hmu Hp Hidx. cbn [counter advanceMu calls g] in *. fold L in v_front0, v_calls0.
  assert (Hex : absIndexAt (rollingBucket c) now = absIndexAt cfg now) by (by rewrite v_cfg0).
  unfold refuse, after in *. rewrite Hex. destruct inc; cbn [andb] in *.
  2:{ apply (count_inv_move c mu mu' ts gh i t Finished); try done. }
  destruct Hidx as [[E ->]|(k & E & Hk & ->)]; rewrite E in *; cbn [from_option] in *.
  { apply (count_inv_move c mu mu' ts gh i t Finished); try done. }
  destruct (Z.leb_spec n (L - k)) as [Hout|Hin].
  - change (-1 <? 0) with true in *. cbn [negb] in *.
    constructor; cbn [counter advanceMu calls g lose g_front g_clears g_told g_landed g_lost g_late g_noise] in *;
      try done.
    + by apply Forall_insert.
    + constructor; [lia | done].
    + intros p. rewrite (count_if_insert _ _ _ t), Hp by done. rewrite v_count0. cbn [count_if pending]. lia.
    + destruct v_late0. split; [done |]. unfold zlen in *. cbn [length]. lia.
  - pose proof (Z.mod_pos_bound k n Hn). destruct (Z.ltb_spec (k mod n) 0); [lia |]. cbn [negb] in *.
    apply (count_inv_move c mu mu' ts gh i t); try done.
    + by exists k.
    + intros p. cbn [pending]. by rewrite Hp, E.
Qed.

(** The call is counted, and the window is still to be advanced. *)
Lemma inv_total c mu ts gh i now :
  counter_inv (mkSys c mu ts gh) -> ts !! i = Some (Starting now true) ->
  counter_inv (mkSys (set_totalSum (wrap64 (totalSum c + 1)) c) mu
    (<[i := if zlen (buckets c) =? 0 then Finished else Looking now true]> ts) (tell now gh)).
Proof.
  intros [] Hi. cbn [counter advanceMu calls g] in *. rewrite (value_length _ _ _ _ v_value0).
  destruct (Z.eqb_spec n 0); [lia |].
  constructor; cbn [counter advanceMu calls g set_totalSum rollingBucket buckets totalSum
    tell g_front g_clears g_told g_landed g_lost g_late g_noise]; try done.
  - by apply (lock_keep _ _ _ (Starting now true)).
  - by apply Forall_insert.
  - intros p. rewrite (count_if_insert _ _ _ (Starting now true)) by done. cbn [pending].
    specialize (v_count0 p). unfold inc_indices in *. cbn [omap list_omap].
    destruct (absIndexAt cfg now) as [k|]; cbn [from_option count_if]; lia.
  - rewrite v_total0, wrap64_add_l. unfold zlen. cbn [length]. f_equal. lia.
Qed.

(** One bucket is cleared. *)
Lemma inv_clear c c' mu ts gh i now inc last j :
  let n' := NumBuckets (rollingBucket c) in
  counter_inv (mkSys c mu ts gh) -> ts !! i = Some (Clearing now inc last j) ->
  (j <=? absIndex_of (rollingBucket c) now) && (j <=? wrap64 (last + n')) = true ->
  clearBucket (Z.rem j n') c = (Ret tt, c') ->
  counter_inv (mkSys c' mu (<[i := Clearing now inc last (wrap64 (j + 1))]> ts)
    (clear_to j (Z.to_nat (Z.rem j n')) gh)).
Proof.
  intros n' [] Hi Hj Hc. cbn [counter advanceMu calls g] in *. unfold n' in *. clear n'.
  set (L := LastAbsIndex (rollingBucket c)) in *. rewrite v_cfg0 in v_ok0.
  pose proof (most_bounds L v_ok0) as (HL & Hmost & _).
  destruct (Forall_lookup_1 _ _ _ _ v_calls0 Hi) as (k & Hk & -> & -> & Hf & HLk).
  destruct (index_facts L now k v_ok0 Hk) as (Hidx & _ & Hkm).
  rewrite v_cfg0, Hidx in Hj. cbn [set_LastAbsIndex NumBuckets] in Hj.
  rewrite wrap64_id in Hj by (unfold min_int64, max_int64 in *; lia). bdestr.
  rewrite v_cfg0 in Hc |- *. cbn [set_LastAbsIndex NumBuckets] in Hc |- *.
  rewrite Z.rem_mod_nonneg in Hc |- * by lia. pose proof (Z.mod_pos_bound (g_front gh + 1) n Hn).
  assert (Hlen := value_length _ _ _ _ v_value0).
  unfold clearBucket, bucket_Set in Hc. rewrite slice_set_Some in Hc by lia. injection Hc as <-.
  rewrite (wrap64_id (g_front gh + 1 + 1)) by (unfold min_int64, max_int64 in *; lia).
  assert (Hin : Forall (fun k => k <= g_front gh) (g_landed gh))
    by (eapply Forall_impl; [exact v_landed0 |]; cbn beta; intros; lia).
  constructor; cbn [counter advanceMu calls g set_buckets rollingBucket buckets totalSum
    clear_to g_front g_clears g_told g_landed g_lost g_late g_noise]; fold L; try done.
  - by rewrite v_cfg0.
  - lia.
  - intros Hmu. rewrite (v_mu0 Hmu) in *. by rewrite (proj1 v_lock0 _ _ Hi eq_refl) in Hmu.
  - by eapply lock_keep.
  - eapply calls_moved; try done. exists k. repeat split; try done; lia.
  - apply value_clear; try done; lia.
  - eapply Forall_impl; [exact v_lost0 |]. cbn beta. intros; lia.
  - intros p. by rewrite (count_if_insert _ _ _ _ _ Hi), v_count0; cbn [pending]; lia.
  - destruct v_late0 as [Hpos Hsum]. split; [by apply Forall_insert |].
    destruct (value_lookup _ _ _ _ (g_front gh + 1) v_value0) as (? & ? & z & _ & _ & _ & _ & Hz & _).
    rewrite (zsum_insert _ _ z) by done. pose proof (Forall_lookup_1 _ _ _ _ Hpos Hz). cbn beta in *. lia.
  - destruct v_clears0 as [Hs Hle]. split.
    + constructor; [done |]. eapply Forall_impl; [exact Hle |]. cbn beta. intros; lia.
    + constructor; [lia |]. eapply Forall_impl; [exact Hle |]. cbn beta. intros; lia.
Qed.

(** The new index is published: every expired bucket is empty by now. *)
Lemma inv_publish c mu ts gh i now inc last j :
  let k := absIndex_of (rollingBucket c) now in
  counter_inv (mkSys c mu ts gh) -> ts !! i = Some (Clearing now inc last j) ->
  (j <=? k) && (j <=? wrap64 (last + NumBuckets (rollingBucket c))) = false ->
  counter_inv (mkSys (set_LastAbs k c) mu (<[i := Releasing now inc k]> ts) (publish k gh)).
Proof.
  intros k0 [] Hi Hj. cbn [counter advanceMu calls g] in *. unfold k0 in *. clear k0.
  set (L := LastAbsIndex (rollingBucket c)) in *. rewrite v_cfg0 in v_ok0.
  pose proof (most_bounds L v_ok0) as (HL & Hmost & _).
  destruct (Forall_lookup_1 _ _ _ _ v_calls0 Hi) as (k & Hk & -> & -> & Hf & HLk).
  destruct (index_facts L now k v_ok0 Hk) as (Hidx & _ & Hkm).
  assert (Hidx' : absIndex_of (rollingBucket c) now = k) by (by rewrite v_cfg0). rewrite Hidx' in *.
  rewrite v_cfg0 in Hj. cbn [set_LastAbsIndex NumBuckets] in Hj.
  rewrite wrap64_id in Hj by (unfold min_int64, max_int64 in *; lia).
  assert (Hdone : g_front gh = k \/ (g_front gh = L + n /\ L + n <= k)).
  { apply andb_false_iff in Hj as [Hj|Hj]; apply Z.leb_gt in Hj; lia. }
  assert (Hval : value_ok k (g_landed gh) (g_noise gh) (buckets c)).
  { destruct Hdone as [<-|[E Hle]]; [done |]. rewrite E in v_value0. apply (value_jump L); try done.
    eapply Forall_impl; [exact v_landed0 |]. cbn beta. intros; lia. }
  constructor; cbn [counter advanceMu calls g set_LastAbs rollingBucketL upd set_LastAbsIndex rollingBucket
    buckets totalSum LastAbsIndex publish g_front g_clears g_told g_landed g_lost g_late g_noise]; try done.
  - by rewrite v_cfg0.
  - rewrite v_cfg0. apply (window_ok_at L); [done | lia].
  - lia.
  - by eapply lock_keep.
  - eapply (calls_moved mu ts i _ _ L (g_front gh)); try done; [lia |]. exists k. repeat split; try done; lia.
  - eapply Forall_impl; [exact v_landed0 |]. cbn beta. intros; lia.
  - eapply Forall_impl; [exact v_lost0 |]. cbn beta. intros; lia.
  - intros p. by rewrite (count_if_insert _ _ _ _ _ Hi), v_count0; cbn [pending]; lia.
  - destruct v_clears0 as [Hs Hle]. split; [done |]. eapply Forall_impl; [exact Hle |]. cbn beta. intros; lia.
Qed.

(** The addition to a bucket, in time or not. *)
Lemma inv_write c c' mu ts gh i now idx :
  counter_inv (mkSys c mu ts gh) -> ts !! i = Some (Writing now idx) -> bucket_Add idx 1 c = (Ret tt, c') ->
  counter_inv (mkSys c' mu (<[i := Finished]> ts)
    (land (NumBuckets (rollingBucket c)) (absIndex_of (rollingBucket c) now) (Z.to_nat idx) gh)).
Proof.
  intros [] Hi Hadd. cbn [counter advanceMu calls g] in *.
  set (L := LastAbsIndex (rollingBucket c)) in *. rewrite v_cfg0 in v_ok0.
  destruct (Forall_lookup_1 _ _ _ _ v_calls0 Hi) as (k & Hk & HkL & ->).
  destruct (index_facts L now k v_ok0 Hk) as (Hidx & _ & Hkm).
  rewrite v_cfg0, Hidx. cbn [set_LastAbsIndex NumBuckets].
  assert (Hlen := value_length _ _ _ _ v_value0). pose proof (Z.mod_pos_bound k n Hn).
  destruct (slice_get_Some (buckets c) (k mod n)) as [v Hv]; [lia |].
  unfold bucket_Add, bucket_Set in Hadd. rewrite Hv, slice_set_Some in Hadd by lia. injection Hadd as <-.
  apply slice_get_lookup in Hv as [_ Hv]. unfold land.
  destruct (Z.ltb_spec (g_front gh - n) k) as [Hin|Hout];
    constructor; cbn [counter advanceMu calls g set_buckets rollingBucket buckets totalSum
      g_front g_clears g_told g_landed g_lost g_late g_noise]; fold L; try done.
  all: try (by eapply lock_keep).
  all: try (by apply Forall_insert).
  all: try (by rewrite v_cfg0).
  all: try (intros p; rewrite (count_if_insert _ _ _ _ _ Hi), v_count0; cbn [pending count_if]; rewrite Hk;
    cbn [from_option]; lia).
  - apply value_land; try done. lia.
  - constructor; [lia | done].
  - by apply value_late.
  - constructor; [lia | done].
  - destruct v_late0 as [Hpos Hsum].
    destruct (value_lookup _ _ _ _ k v_value0) as (? & ? & z & _ & _ & _ & _ & Hz & _).
    unfold add_noise. rewrite Hz. pose proof (Forall_lookup_1 _ _ _ _ Hpos Hz). cbn beta in *.
    split; [apply Forall_insert; [done | lia] |]. rewrite (zsum_insert _ _ z) by done.
    unfold zlen in *. cbn [length]. lia.
Qed.

Lemma look_invariant c mu ts gh now :
  counter_inv (mkSys c mu ts gh) ->
  match look (rollingBucket c) now with
  | Some idx =>
      (absIndexAt cfg now = None /\ idx = -1) \/
      (exists k, absIndexAt cfg now = Some k /\ k <= LastAbsIndex (rollingBucket c) /\
        idx = if n <=? LastAbsIndex (rollingBucket c) - k then -1 else k mod n)
  | None => exists k, absIndexAt cfg now = Some k /\ LastAbsIndex (rollingBucket c) < k
  end.
Proof.
  intros []. cbn [counter] in *. rewrite v_cfg0 in v_ok0. pose proof (look_spec _ now v_ok0) as H.
  by rewrite <- v_cfg0 in H.
Qed.

Lemma inv_check c mu ts gh i now inc :
  counter_inv (mkSys c mu ts gh) -> ts !! i = Some (Checking now inc) ->
  counter_inv (mkSys c mu (<[i := checked (rollingBucket c) now inc]> ts) gh).
Proof.
  intros Hinv Hi. destruct Hinv as [] eqn:E. clear E. cbn [counter advanceMu calls g] in *.
  rewrite v_cfg0 in v_ok0. pose proof (most_bounds _ v_ok0) as (HL & Hmost & _).
  destruct (Forall_lookup_1 _ _ _ _ v_calls0 Hi) as ([k Hk] & Hf).
  destruct (index_facts _ now k v_ok0 Hk) as (Hidx & _ & Hkm). rewrite <- v_cfg0 in Hidx.
  unfold checked. cbn zeta. set (l := LastAbsIndex (rollingBucket c)) in *. rewrite Hidx.
  destruct (Z.leb_spec k l); apply (count_inv_move c mu mu ts gh i _ _ Hinv Hi); try done.
  all: try by eapply lock_keep.
  - by exists k.
  - rewrite wrap64_id by (unfold min_int64, max_int64 in *; lia). exists k. repeat split; try done; lia.
Qed.

Lemma inv_unlock c ts gh i now inc last :
  let idx := rolled (rollingBucket c) now last in
  counter_inv (mkSys c true ts gh) -> ts !! i = Some (Releasing now inc last) ->
  counter_inv (mkSys c false (<[i := after now inc idx]> ts) (refuse (rollingBucket c) now inc idx gh)).
Proof.
  intros idx Hinv Hi. destruct Hinv as [] eqn:E. clear E. cbn [counter advanceMu calls g] in *.
  rewrite v_cfg0 in v_ok0.
  destruct (Forall_lookup_1 _ _ _ _ v_calls0 Hi) as (k & Hk & HkL & -> & Hf).
  apply (inv_refuse c true false ts gh i _ now inc idx Hinv Hi); [| done | |].
  - apply (lock_release ts i _ _ v_lock0 Hi); [done |]. unfold after. by destruct (inc && _).
  - intros p. cbn [pending]. by destruct inc.
  - right. exists k. split; [done |]. split; [done |]. unfold idx. rewrite v_cfg0. by apply rolled_spec.
Qed.

Lemma count_inv_step s s' : counter_inv s -> step s s' -> counter_inv s'.
Proof.
  intros Hinv Hstep. destruct Hstep.
  - destruct Hinv. constructor; cbn [counter advanceMu calls g] in *; try done.
    + destruct v_lock0 as (Hmu & Hone & Hex). split; [| split].
      * intros i t. rewrite lookup_app_Some, list_lookup_singleton_Some.
        intros [Hi|(_ & _ & <-)] Ht; [by eapply Hmu | done].
      * intros i j t t'. rewrite !lookup_app_Some, !list_lookup_singleton_Some.
        intros [Hi|(_ & _ & <-)] [Hj|(_ & _ & <-)] Ht Ht'; try done. by eapply Hone.
      * intros (i & t & Hi & Ht)%Hex. exists i, t. split; [by apply lookup_app_l_Some | done].
    + apply Forall_app. split; [done | by apply Forall_singleton].
    + intros p. rewrite count_if_app, v_count0. cbn [count_if pending]. lia.
  - by apply inv_total.
  - eapply count_inv_move; try done; [by eapply lock_keep; [apply Hinv | ..] | apply Hinv].
  - pose proof (look_invariant _ _ _ _ now Hinv) as Hl. rewrite H0 in Hl.
    apply (inv_refuse c mu mu ts gh i (Looking now inc)); [done | done | | apply (v_mu _ Hinv) | | done].
    + eapply lock_keep; [apply Hinv | done |]. unfold after. by destruct (inc && _).
    + intros p. cbn [pending]. by destruct inc.
  - pose proof (look_invariant _ _ _ _ now Hinv) as Hl. rewrite H0 in Hl. destruct Hl as (k & Hk & _).
    eapply count_inv_move; try done; [by eapply lock_keep; [apply Hinv | ..] | apply Hinv | by exists k].
  - apply lock_spec in H0 as [-> ->]. eapply count_inv_move; try done; [by eapply lock_take; [apply Hinv | ..] |].
    split; [exact (Forall_lookup_1 _ _ _ _ (v_calls _ Hinv) H) | by apply (v_mu _ Hinv)].
  - by apply inv_check.
  - by eapply inv_clear.
  - by eapply inv_publish.
  - apply unlock_spec in H0 as [-> ->]. by apply inv_unlock.
  - by eapply inv_write.
Qed.

Lemma inv_steps s s' : counter_inv s -> rtc step s s' -> counter_inv s'.
Proof. intros Hinv. induction 1; eauto using count_inv_step. Qed.

Lemma count_inv_initial r w now : NewRollingCounter w n now = Ret r -> cfg = mkRollingBuckets n now w 0 ->
  window_ok cfg -> counter_inv (initial r).
Proof.
  unfold NewRollingCounter. intros H Hcfg Hok. destruct (Z.ltb_spec n 0); [done |]. injection H as <-.
  assert (Hrep : length (replicate (Z.to_nat n) 0) = Z.to_nat n) by apply length_replicate.
  assert (Hz : forall m, zsum (replicate m 0) = 0) by (induction m; [done |]; cbn [replicate]; rewrite zsum_cons; lia).
  assert (Hmost : 0 <= most) by (destruct Hok as (_ & ? & _ & _); unfold most; apply Z.div_pos; unfold max_int64; lia).
  constructor; cbn [initial counter advanceMu calls g rollingBucket buckets totalSum LastAbsIndex g_front g_clears
    g_told g_landed g_lost g_late g_noise]; try done.
  - by rewrite Hcfg.
  - by rewrite <- Hcfg.
  - rewrite Hrep. split; [unfold zlen; rewrite length_replicate; lia |].
    exists (replicate (Z.to_nat n) 0). split; [| split].
    + by rewrite zip_with_replicate_l, fmap_replicate by (by rewrite length_replicate).
    + unfold zlen. rewrite length_replicate. lia.
    + by intros j v [-> _]%lookup_replicate.
  - rewrite Hrep. split; [apply Forall_replicate; lia |]. rewrite Hz. unfold zlen. cbn [length]. lia.
  - by split; constructor.
Qed.
End Invariant.

(** * The methods are runs of the steps *)

(** Nothing was told, and no addition was late. *)
Definition same_history (gh gh' : ghost) : Prop := g_told gh' = g_told gh /\ g_late gh' = g_late gh.

#[local] Instance same_history_preorder : PreOrder same_history.
Proof. split; [by intros ? | intros ? ? ? [E1 E2] [E3 E4]; split; congruence]. Qed.

Lemma refuse_same rb now inc idx gh : same_history gh (refuse rb now inc idx gh).
Proof. unfold refuse. destruct (inc && _); [| done]. by destruct (absIndexAt rb now). Qed.

Lemma clearBucket_window j c c' : clearBucket j c = (Ret tt, c') -> rollingBucket c' = rollingBucket c.
Proof. unfold clearBucket, bucket_Set. destruct (slice_set _ _ _); [| done]. by intros [= <-]. Qed.

(** The loop of [rollForward] by the goroutine that holds the mutex. *)
Lemma clear_loop_runs rb now inc last fuel i j c c' ts gh :
  rollingBucket c = rb -> ts !! i = Some (Clearing now inc last j) ->
  clear_loop clearBucket fuel j (absIndex_of rb now) (wrap64 (last + NumBuckets rb)) (NumBuckets rb) c = (Ret tt, c') ->
  exists j' gh', rollingBucket c' = rb /\ same_history gh gh' /\
    (j' <=? absIndex_of rb now) && (j' <=? wrap64 (last + NumBuckets rb)) = false /\
    rtc step (mkSys c true ts gh) (mkSys c' true (<[i := Clearing now inc last j']> ts) gh').
Proof.
  revert j c ts gh. induction fuel as [|fuel IH]; intros j c ts gh Hrb Hi; [done |].
  cbn [clear_loop]. destruct (_ && _) eqn:Eg; cycle 1.
  { intros [= <-]. exists j, gh. split; [done |]. split; [done |]. split; [done |].
    by rewrite list_insert_id. }
  intros H. apply bind_inv in H as (? & c1 & Hc & H). rename x into u. destruct u.
  assert (Hi' := lookup_lt_Some _ _ _ Hi).
  destruct (IH (wrap64 (j + 1)) c1 (<[i := Clearing now inc last (wrap64 (j + 1))]> ts)
    (clear_to j (Z.to_nat (Z.rem j (NumBuckets rb))) gh)) as (j' & gh' & Hrb' & Hg & Hj' & Hrun); [| | done |].
  - by rewrite (clearBucket_window _ _ _ Hc).
  - by rewrite list_lookup_insert_eq.
  - exists j', gh'. split; [done |]. split; [by destruct Hg |]. split; [done |].
    rewrite list_insert_insert_eq in Hrun. eapply rtc_l; [| exact Hrun]. subst rb. by apply StepClear.
Qed.

Lemma Advance_look now c :
  let rb := rollingBucket c in
  Advance rollingBucketL clearBucket now c
  = match look rb now with
    | Some idx => (Ret idx, c)
    | None => (let! last := rollForward rollingBucketL clearBucket (absIndex_of rb now) (NumBuckets rb) in
               ret (rolled rb now last)) c
    end.
Proof.
  intros rb. unfold Advance, look. rewrite (bind_run _ _ _ rb c) by done.
  destruct ((NumBuckets rb <=? 0) || _); [done |]. destruct (_ <? 0); [done |].
  fold (absIndex_of rb now). destruct (0 <=? _); [by destruct (NumBuckets rb <=? _) |].
  unfold bind at 1 2. destruct (rollForward _ _ _ _ c) as [[] c1]; try done.
  unfold rolled, bucket_of. by destruct (NumBuckets rb <=? _).
Qed.

Lemma Advance_runs now inc i idx c c' ts gh :
  ts !! i = Some (Looking now inc) -> Advance rollingBucketL clearBucket now c = (Ret idx, c') ->
  exists gh', same_history gh gh' /\
    rtc step (mkSys c false ts gh) (mkSys c' false (<[i := after now inc idx]> ts) gh').
Proof.
  intros Hi. rewrite Advance_look. set (rb := rollingBucket c). assert (Hlen := lookup_lt_Some _ _ _ Hi).
  destruct (look rb now) as [x|] eqn:Hl.
  { intros [= -> <-]. exists (refuse rb now inc idx gh). split; [apply refuse_same |].
    apply rtc_once. by apply StepFast. }
  intros H. apply bind_inv in H as (last & c1 & Hroll & [= <- <-]).
  pose proof (StepSlow c false ts gh i now inc Hi Hl) as S1.
  pose proof (StepLock c false true _ gh i now inc (list_lookup_insert_eq ts i (Waiting now inc) Hlen) eq_refl) as S2.
  rewrite list_insert_insert_eq in S2.
  pose proof (StepCheck c true _ gh i now inc (list_lookup_insert_eq ts i (Checking now inc) Hlen)) as S3.
  rewrite list_insert_insert_eq in S3. unfold checked in S3. fold rb in S3. cbn zeta in S3.
  unfold rollForward in Hroll. rewrite (bind_run _ _ _ (LastAbsIndex rb) c) in Hroll by done.
  destruct (absIndex_of rb now <=? LastAbsIndex rb).
  - injection Hroll as <- <-.
    pose proof (StepUnlock c true false _ gh i now inc (LastAbsIndex rb)
      (list_lookup_insert_eq ts i _ Hlen) eq_refl) as S4.
    cbn zeta in S4. rewrite list_insert_insert_eq in S4. fold rb in S4.
    eexists. split; [apply refuse_same | by eauto using rtc_l, rtc_refl].
  - apply bind_inv in Hroll as ([] & c2 & Hloop & Hpub).
    apply (clear_loop_runs rb now inc (LastAbsIndex rb) _ i _ c c2
      (<[i := Clearing now inc (LastAbsIndex rb) (wrap64 (LastAbsIndex rb + 1))]> ts) gh) in Hloop
      as (j' & gh' & Hrb & Hg & Hj & Hrun); [| done | by apply list_lookup_insert_eq].
    rewrite list_insert_insert_eq in Hrun.
    pose proof (StepPublish c2 true _ gh' i now inc (LastAbsIndex rb) j' (list_lookup_insert_eq ts i _ Hlen)) as S4.
    cbn zeta in S4. rewrite Hrb in S4. specialize (S4 Hj). rewrite list_insert_insert_eq in S4.
    rewrite (bind_run _ _ _ tt (set_LastAbs (absIndex_of rb now) c2)) in Hpub by done.
    injection Hpub as <- <-.
    pose proof (StepUnlock (set_LastAbs (absIndex_of rb now) c2) true false _ (publish (absIndex_of rb now) gh') i now inc
      (absIndex_of rb now) (list_lookup_insert_eq ts i _ Hlen) eq_refl) as S5.
    cbn zeta in S5. rewrite list_insert_insert_eq in S5.
    replace (rolled (rollingBucket (set_LastAbs _ c2)) now) with (rolled rb now) in S5
      by (unfold rolled, absIndex_of, bucket_of; cbn; by rewrite Hrb).
    eexists. split.
    2: { apply (rtc_l _ _ _ _ S1), (rtc_l _ _ _ _ S2), (rtc_l _ _ _ _ S3). etransitivity; [exact Hrun |].
      exact (rtc_l _ _ _ _ S4 (rtc_once _ _ S5)). }
    etransitivity; [exact Hg |]. exact (refuse_same _ _ _ _ (publish _ gh')).
Qed.

(** [Inc] by one goroutine, the others standing still. *)
Lemma Inc_runs now i c c' ts gh :
  ts !! i = Some (Starting now true) -> Inc now c = (Ret tt, c') ->
  exists gh', g_told gh' = now :: g_told gh /\
    rtc step (mkSys c false ts gh) (mkSys c' false (<[i := Finished]> ts) gh').
Proof.
  intros Hi H. pose proof (StepTotal c false ts gh i now Hi) as S1. assert (Hlen := lookup_lt_Some _ _ _ Hi).
  unfold Inc in H. set (c1 := set_totalSum _ c) in *.
  rewrite (bind_run _ _ _ tt c1), (bind_run _ _ _ (zlen (buckets c)) c1) in H by done.
  destruct (zlen (buckets c) =? 0).
  { injection H as <-. by eexists; split; [| apply (rtc_once _ _ S1)]. }
  apply bind_inv in H as (idx & c2 & Hadv & H).
  destruct (Advance_runs now true i idx c1 c2 _ (tell now gh) (list_lookup_insert_eq ts i _ Hlen) Hadv)
    as (gh' & [Ht _] & Hrun). rewrite list_insert_insert_eq in Hrun. unfold after in Hrun.
  destruct (idx <? 0); cbn [andb negb] in Hrun.
  - injection H as <-. exists gh'. split; [done |]. exact (rtc_l _ _ _ _ S1 Hrun).
  - pose proof (StepWrite c2 c' false _ gh' i now idx (list_lookup_insert_eq ts i _ Hlen) H) as S2.
    rewrite list_insert_insert_eq in S2. eexists. split; [| apply (rtc_l _ _ _ _ S1); etransitivity; [exact Hrun |];
      exact (rtc_once _ _ S2)].
    unfold land. by destruct (_ <? _).
Qed.

(** The part of [RollingSumAt] that changes the counter. *)
Lemma Sum_runs now i idx c c' ts gh :
  ts !! i = Some (Starting now false) -> Advance rollingBucketL clearBucket now c = (Ret idx, c') ->
  exists gh', same_history gh gh' /\
    rtc step (mkSys c false ts gh) (mkSys c' false (<[i := Finished]> ts) gh').
Proof.
  intros Hi H. pose proof (StepSum c false ts gh i now Hi) as S1. assert (Hlen := lookup_lt_Some _ _ _ Hi).
  destruct (Advance_runs now false i idx c c' _ gh (list_lookup_insert_eq ts i _ Hlen) H) as (gh' & Hg & Hrun).
  rewrite list_insert_insert_eq in Hrun. exists gh'. split; [done |]. exact (rtc_l _ _ _ _ S1 Hrun).
Qed.

(** * A counter at rest *)

Definition resting (s : sys) : Prop := Forall (eq Finished) (calls s).

#[local] Instance call_at_eq_dec : EqDecision call_at.
Proof. solve_decision. Defined.

#[local] Instance resting_dec s : Decision (resting s).
Proof. unfold resting. apply _. Defined.

Section Rest.
Context (cfg : RollingBuckets).
Abbreviation n := (NumBuckets cfg).
Hypothesis Hn : 0 < n.


(** The number of calls of [Inc] that are counted by the window ending at [L]. *)
Definition counted (L : Z) (told : list Time) : Z := count_if (fun k => L - n <? k) (inc_indices cfg told).

Lemma zsum_zip_add (l l' : list Z) : length l = length l' -> zsum (zip_with Z.add l l') = zsum l + zsum l'.
Proof using.
  revert l'. induction l as [|x l IH]; intros [|y l']; try done; cbn [zip_with length]; intros [= E].
  rewrite !zsum_cons, (IH l') by done. lia.
Qed.

Lemma counted_le L told : 0 <= counted L told <= zlen told.
Proof using.
  unfold counted. split; [apply count_if_nonneg |]. etransitivity; [apply count_if_le_length |].
  unfold inc_indices, zlen. induction told as [|t told IH]; [done |]. cbn [omap list_omap length].
  destruct (absIndexAt cfg t); cbn [length]; lia.
Qed.

Lemma pending_resting p ts : Forall (eq Finished) ts -> count_if (pending cfg p) ts = 0.
Proof using. clear. induction 1 as [|t ts <- _ IH]; [done |]. cbn [count_if pending]. lia. Qed.

Lemma rest_free s : counter_inv cfg s -> resting s -> advanceMu s = false.
Proof using.
  intros Hinv Hrest. destruct (advanceMu s) eqn:E; [| done].
  destruct (v_lock _ _ Hinv) as (_ & _ & Hex). destruct (Hex E) as (i & t & Hi & Ht).
  by rewrite <- (Forall_lookup_1 _ _ _ _ Hrest Hi) in Ht.
Qed.

(** What the additions in time make of the buckets, as a counter nobody shared. *)
Lemma rest_sum s :
  counter_inv cfg s -> resting s ->
  let L := LastAbsIndex (rollingBucket (counter s)) in
  sumBuckets (counter s) = wrap64 (counted L (g_told (g s)) + zsum (g_noise (g s))).
Proof.
  intros Hinv Hrest L. pose proof (rest_free s Hinv Hrest) as Hmu. destruct Hinv. destruct v_value0 as (Hz & ideal & Hbs & Hlen & Hm).
  rewrite (v_mu0 Hmu) in *. fold L in v_cfg0, v_landed0, v_lost0, Hm.
  set (r := mkRollingCounter ideal (totalSum (counter s)) (rollingBucket (counter s))).
  assert (Hr : represents cfg r (mkWindowLog L (g_landed (g s)) (zlen (g_told (g s))))).
  { split; [exact v_cfg0 |]. split; [exact v_ok0 |].
    split; [unfold counter_shape, r; cbn; by rewrite v_cfg0 |]. by repeat split. }
  apply sumBuckets_represents in Hr. unfold sumBuckets in *. cbn [buckets r] in Hr.
  assert (Hcount : counted L (g_told (g s)) = log_count cfg (mkWindowLog L (g_landed (g s)) (zlen (g_told (g s))))).
  { unfold counted, log_count. cbn [wl_last wl_events]. rewrite v_count0, pending_resting by done.
    rewrite (count_if_ext _ (fun _ => false) (g_lost (g s))), count_if_false; [lia |].
    intros k Hk. rewrite Forall_forall in v_lost0. specialize (v_lost0 k Hk). cbn beta in *.
    apply Z.ltb_ge. lia. }
  assert (Hsum : forall l, fold_left (fun acc v => wrap64 (acc + v)) l 0 = wrap64 (zsum l)).
  { intros l. destruct (sumBuckets_zsum l 0) as [->|[-> _]]; [by rewrite Z.add_0_l | done]. }
  rewrite !Hsum in *. rewrite Hcount, <- wrap64_add_l, <- Hr, wrap64_add_l, Hbs.
  rewrite <- zsum_zip_add by (unfold zlen in *; lia).
  rewrite <- (wrap64_zsum (zip_with Z.add ideal _)). do 2 f_equal.
  clear. generalize (g_noise (g s)). induction ideal as [|x l IH]; intros [|y l']; try done.
  cbn [zip_with fmap list_fmap]. by rewrite IH.
Qed.

(** No more than the calls there were. *)
Lemma rest_bound s :
  counter_inv cfg s -> resting s ->
  counted (LastAbsIndex (rollingBucket (counter s))) (g_told (g s)) + zsum (g_noise (g s)) <= zlen (g_told (g s)).
Proof using.
  intros Hinv Hrest. pose proof (rest_free s Hinv Hrest) as Hmu. destruct Hinv. rewrite (v_mu0 Hmu) in *.
  destruct v_late0 as [_ Hsum]. pose proof (counted_le 0 (g_told (g s))) as Hle.
  set (L := LastAbsIndex (rollingBucket (counter s))) in *.
  assert (Hall : forall l : list Z, count_if (fun _ => true) l = zlen l).
  { induction l as [|x l IH]; [done |]. cbn [count_if]. rewrite IH. unfold zlen. cbn [length]. lia. }
  assert (Hone : zlen (g_landed (g s)) + zlen (g_lost (g s)) <= zlen (g_told (g s))).
  { specialize (v_count0 (fun _ => true)). rewrite !Hall, pending_resting in v_count0 by done.
    pose proof (count_if_le_length (fun _ => true) (inc_indices cfg (g_told (g s)))).
    enough (zlen (inc_indices cfg (g_told (g s))) <= zlen (g_told (g s))) by lia.
    unfold inc_indices, zlen. clear. induction (g_told (g s)) as [|t l IH]; [done |]. cbn [omap list_omap length].
    destruct (absIndexAt cfg t); cbn [length]; lia. }
  unfold counted. rewrite v_count0, pending_resting by done.
  rewrite (count_if_ext _ (fun _ => false) (g_lost (g s))), count_if_false; [|].
  - pose proof (count_if_le_length (fun k => L - n <? k) (g_landed (g s))). lia.
  - intros k Hk. rewrite Forall_forall in v_lost0. specialize (v_lost0 k Hk). cbn beta in *. apply Z.ltb_ge. lia.
Qed.

Lemma rest_advance s now :
  counter_inv cfg s -> resting s ->
  exists idx s', Advance rollingBucketL clearBucket now (counter s) = (Ret idx, counter s') /\
    LastAbsIndex (rollingBucket (counter s')) = advancedLast (rollingBucket (counter s)) now /\
    counter_inv cfg s' /\ resting s' /\ same_history (g s) (g s').
Proof.
  intros Hinv Hrest. pose proof (rest_free s Hinv Hrest) as Hmu.
  destruct s as [c mu ts gh]. cbn [counter advanceMu calls g] in *. subst mu.
  assert (Hsh : counter_shape c).
  { unfold counter_shape. destruct Hinv. cbn [counter g] in *. rewrite v_cfg0. by eapply value_length. }
  destruct (Advance_ok rollingBucketL clearBucket _ counter_shape clearBucket_ok now c Hsh (v_ok _ _ Hinv))
    as (c1 & E & _). set (c' := upd _ _ _) in E.
  assert (Hi : (ts ++ [Starting now false]) !! length ts = Some (Starting now false))
    by by rewrite lookup_app_r, Nat.sub_diag.
  destruct (Sum_runs now (length ts) _ c c' _ gh Hi E) as (gh' & Hg & Hrun).
  eexists _, (mkSys c' _ _ _). split; [exact E |]. split; [done |]. split; [| split; [| exact Hg]].
  - eapply inv_steps; [done | exact Hinv |]. eapply rtc_l; [apply StepCall | exact Hrun].
  - unfold resting. cbn [calls]. rewrite insert_app_r_alt, Nat.sub_diag by lia. by apply Forall_app_2; [| constructor].
Qed.

(** [RollingSumAt] on a counter at rest. *)
Lemma rest_reads s now :
  counter_inv cfg s -> resting s -> zlen (g_told (g s)) <= max_int64 ->
  exists v c', RollingSumAt now (counter s) = (Ret v, c') /\
    let L := LastAbsIndex (rollingBucket c') in
    L = advancedLast (rollingBucket (counter s)) now /\
    counted L (g_told (g s)) <= v <= counted L (g_told (g s)) + g_late (g s) /\
    v <= zlen (g_told (g s)) /\ TotalSum c' = zlen (g_told (g s)).
Proof.
  intros Hinv Hrest Hmax. destruct (rest_advance s now Hinv Hrest) as (idx & s' & Hadv & HL & Hinv' & Hrest' & Ht & Hla).
  pose proof (rest_sum s' Hinv' Hrest') as Hsum. cbn zeta in Hsum. pose proof (rest_bound s' Hinv' Hrest') as Hb.
  pose proof (counted_le (LastAbsIndex (rollingBucket (counter s'))) (g_told (g s'))) as Hc.
  destruct (v_late _ _ Hinv') as [Hpos Hlate]. assert (Hz : 0 <= zsum (g_noise (g s'))).
  { clear - Hpos. induction Hpos; [done |]. rewrite zsum_cons. lia. }
  pose proof (v_total _ _ Hinv') as Htot. rewrite Ht, Hla in *. pose proof (zlen_nonneg (g_told (g s))).
  rewrite wrap64_id in Hsum by (unfold min_int64, max_int64 in *; lia).
  rewrite wrap64_id in Htot by (unfold min_int64, max_int64 in *; lia).
  exists (sumBuckets (counter s')), (counter s'). unfold RollingSumAt. rewrite (bind_run _ _ _ _ _ Hadv).
  split; [done |]. split; [done |]. rewrite Hsum. split; [lia |]. split; [lia | done].
Qed.
End Rest.

(** * Every call ends *)

(** A step of the calls there are. *)
Definition quiet_step (s s' : sys) : Prop := step s s' /\ length (calls s') = length (calls s).

(** What a call has left to do, at most. *)
Definition weight (n : Z) (t : call_at) : Z :=
  match t with
  | Starting _ _ => n + 8
  | Looking _ _ => n + 7
  | Waiting _ _ => n + 6
  | Checking _ _ => n + 5
  | Clearing _ _ last i => last + n - i + 4
  | Releasing _ _ _ => 2
  | Writing _ _ => 1
  | Finished => 0
  end.

Section Progress.
Context (cfg : RollingBuckets).
Abbreviation n := (NumBuckets cfg).
Hypothesis Hn : 0 < n.
Abbreviation work := (fun s => zsum (weight n <$> calls s)).

Lemma inv_bounds s : counter_inv cfg s ->
  0 <= LastAbsIndex (rollingBucket (counter s)) <= g_front (g s) /\ g_front (g s) + n <= max_int64.
Proof using.
  intros []. rewrite v_cfg0 in v_ok0. destruct (most_bounds _ _ v_ok0) as (? & ? & _). lia.
Qed.

Lemma work_insert ts i t t' :
  ts !! i = Some t -> weight n t' < weight n t -> zsum (weight n <$> <[i := t']> ts) < zsum (weight n <$> ts).
Proof using.
  intros Hi Hw. rewrite list_fmap_insert.
  rewrite (zsum_insert _ i (weight n t)) by (by rewrite list_lookup_fmap, Hi). lia.
Qed.

Lemma weight_bounds L front t : L <= front -> call_ok cfg L front t -> 0 <= weight n t <= n + 8.
Proof.
  destruct t; cbn [call_ok weight]; try lia.
  intros HL (k & _ & -> & -> & ? & _). lia.
Qed.

Lemma work_bounds s : counter_inv cfg s -> 0 <= work s <= zlen (calls s) * (n + 8).
Proof.
  intros Hinv. destruct (v_front _ _ Hinv) as [HL _]. pose proof (v_calls _ _ Hinv) as Hc.
  unfold zlen. induction Hc as [|t ts Ht Hc IH]; cbn [fmap list_fmap length]; [done |].
  rewrite zsum_cons. pose proof (weight_bounds _ _ t HL Ht). lia.
Qed.

Lemma after_weight now inc idx : weight n (after now inc idx) <= 1.
Proof using. unfold after. destruct (inc && _); cbn [weight]; lia. Qed.

Lemma quiet_step_works s s' : counter_inv cfg s -> quiet_step s s' -> work s' < work s.
Proof.
  intros Hinv [Hstep Hlen]. pose proof (count_inv_step _ Hn _ _ Hinv Hstep) as Hinv'. destruct Hstep; cbn [calls] in *.
  { rewrite length_app in Hlen. cbn [length] in Hlen. lia. }
  all: pose proof (inv_bounds _ Hinv) as [HL Hf];
    pose proof (Forall_lookup_1 _ _ _ _ (v_calls _ _ Hinv) H) as Ht; cbn [counter g call_ok] in *;
    apply (work_insert _ _ _ _ H); cbn [weight].
  - destruct (_ =? 0); cbn [weight]; lia.
  - lia.
  - pose proof (after_weight now inc idx). lia.
  - lia.
  - lia.
  - unfold checked. cbn zeta. destruct (_ <=? _); cbn [weight]; [lia |].
    rewrite wrap64_id by (unfold min_int64, max_int64 in *; lia). lia.
  - destruct (Forall_lookup_1 _ _ i _ (v_calls _ _ Hinv') (list_lookup_insert_eq ts i _ (lookup_lt_Some _ _ _ H)))
      as (k & _ & _ & -> & _).
    cbn [g g_front clear_to]. lia.
  - destruct Ht as (k' & _ & -> & -> & Hk & _). lia.
  - pose proof (after_weight now inc idx). lia.
  - lia.
Qed.

Lemma quiet_insert c mu ts gh c' mu' i t gh' :
  step (mkSys c mu ts gh) (mkSys c' mu' (<[i := t]> ts) gh') -> exists s', quiet_step (mkSys c mu ts gh) s'.
Proof using. intros H. eexists. split; [exact H |]. apply length_insert. Qed.

Lemma someone_steps s : counter_inv cfg s -> ~ resting s -> exists s', quiet_step s s'.
Proof.
  intros Hinv Hrest. destruct s as [c mu ts gh]. pose proof (value_length _ _ _ _ _ (v_value _ _ Hinv)) as Hlen.
  pose proof (v_cfg _ _ Hinv) as Hcfg. cbn [counter g] in Hlen, Hcfg.
  assert (Hn' : NumBuckets (rollingBucket c) = n) by (by rewrite Hcfg).
  destruct mu.
  - destruct (v_lock _ _ Hinv) as (_ & _ & Hex). destruct (Hex eq_refl) as (i & t & Hi & Ht).
    pose proof (Forall_lookup_1 _ _ _ _ (v_calls _ _ Hinv) Hi) as Hok. cbn [calls counter g] in *.
    destruct t as [| | |now inc|now inc last j|now inc last| |]; try done.
    + eapply quiet_insert. by apply StepCheck.
    + destruct ((j <=? absIndex_of (rollingBucket c) now) && (j <=? wrap64 (last + NumBuckets (rollingBucket c)))) eqn:E.
      * destruct Hok as (k & _ & -> & -> & Hf & _). pose proof (inv_bounds _ Hinv) as [HL _]. cbn [counter g] in *.
        pose proof (Z.mod_pos_bound (g_front gh + 1) n Hn).
        eapply quiet_insert, (StepClear c _ _ _ _ _ _ _ _ _ Hi E).
        unfold clearBucket, bucket_Set. by rewrite Hn', Z.rem_mod_nonneg, slice_set_Some by lia.
      * eapply quiet_insert. by eapply StepPublish.
    + eapply quiet_insert. by apply StepUnlock.
  - assert (Hex : Exists (fun t => t <> Finished) ts).
    { apply not_Forall_Exists; [intros t; destruct t; (by left) || (by right) |].
      intros Hall. apply Hrest. eapply Forall_impl; [exact Hall |]. intros t Ht. cbn in Ht. by destruct t; destruct Ht. }
    apply Exists_exists in Hex as (t & [i Hi]%list_elem_of_lookup_1 & Ht).
    pose proof (Forall_lookup_1 _ _ _ _ (v_calls _ _ Hinv) Hi) as Hok. destruct (v_lock _ _ Hinv) as (Hmu & _).
    cbn [calls counter g advanceMu] in *. specialize (Hmu i t Hi).
    destruct t as [now [|]|now inc|now inc|now inc|now inc last j|now inc last|now idx|];
      try (by specialize (Hmu eq_refl)); try done.
    + eapply quiet_insert. by apply StepTotal.
    + eapply quiet_insert. by apply StepSum.
    + destruct (look (rollingBucket c) now) eqn:E; eapply quiet_insert; [by eapply StepFast | by eapply StepSlow].
    + eapply quiet_insert. by eapply StepLock.
    + destruct Hok as (k & _ & _ & ->). pose proof (Z.mod_pos_bound k n Hn).
      destruct (slice_get_Some (buckets c) (k mod n)) as [v Hv]; [lia |].
      eapply quiet_insert, (StepWrite c _ _ _ _ _ _ _ Hi).
      unfold bucket_Add, bucket_Set. by rewrite Hv, slice_set_Some by lia.
Qed.

Lemma quiet_ends s : counter_inv cfg s -> exists s', rtc quiet_step s s' /\ resting s'.
Proof.
  remember (Z.to_nat (work s)) as m eqn:Em. revert s Em.
  induction m as [m IH] using lt_wf_ind. intros s Em Hinv.
  destruct (decide (resting s)) as [Hr|Hr]; [by exists s |].
  destruct (someone_steps s Hinv Hr) as [s1 Hq]. pose proof (quiet_step_works s s1 Hinv Hq).
  pose proof (count_inv_step _ Hn _ _ Hinv (proj1 Hq)) as Hinv1. pose proof (work_bounds s1 Hinv1).
  cbn beta in *. destruct (IH (Z.to_nat (work s1)) ltac:(lia) s1 eq_refl Hinv1) as (s' & Hrun & Hr').
  exists s'. split; [by eapply rtc_l | done].
Qed.

Lemma quiet_runs k s s' : counter_inv cfg s -> nsteps quiet_step k s s' -> Z.of_nat k <= work s.
Proof.
  intros Hinv Hrun. revert Hinv. induction Hrun as [s|k s s1 s' Hq _ IH]; intros Hinv.
  - pose proof (work_bounds s Hinv). cbn beta in *. lia.
  - pose proof (quiet_step_works s s1 Hinv Hq). specialize (IH (count_inv_step _ Hn _ _ Hinv (proj1 Hq))). cbn beta in *. lia.
Qed.
End Progress.

Lemma new_inv w n start r s :
  0 < w -> 0 < n -> max_int64 / w + n <= max_int64 -> NewRollingCounter w n start = Ret r ->
  rtc step (initial r) s -> NumBuckets (rollingBucket r) = n /\ counter_inv (rollingBucket r) s.
Proof.
  intros Hw Hn Hm Hr Hrun. pose proof (New_represents w n start r Hr Hw Hn Hm) as (Hcfg & Hok & _).
  change (rollingBucket r = mkRollingBuckets n start w 0) in Hcfg. rewrite Hcfg in *. split; [done |].
  eapply inv_steps; [exact Hn | | exact Hrun]. by eapply count_inv_initial.
Qed.

(** C25: The rolling counter counts what goroutines count at the same time.  Whatever the
    interleaving of calls of [Inc] and [RollingSumAt] on a new counter, when they are done the
    total is the number of calls of [Inc], and the next [RollingSumAt] is the number of those whose
    bucket is in the window, up to the newest instant any call has seen; only an addition to a
    bucket whose window had passed in between can be counted on top of that ([g_late] of them, and
    never more than there were calls). *)
Theorem concurrent_incs_are_counted w n start r s now :
  0 < w -> 0 < n -> max_int64 / w + n <= max_int64 -> NewRollingCounter w n start = Ret r ->
  rtc step (initial r) s -> resting s -> zlen (g_told (g s)) <= max_int64 ->
  exists v c', RollingSumAt now (counter s) = (Ret v, c') /\
    let exact := counted (rollingBucket r) (LastAbsIndex (rollingBucket c')) (g_told (g s)) in
    LastAbsIndex (rollingBucket c') = advancedLast (rollingBucket (counter s)) now /\
    exact <= v <= exact + g_late (g s) /\
    v <= zlen (g_told (g s)) /\ TotalSum c' = zlen (g_told (g s)).
Proof.
  intros Hw Hn Hm Hr Hrun Hrest Hmax. destruct (new_inv w n start r s Hw Hn Hm Hr Hrun) as [En Hinv].
  by apply (rest_reads (rollingBucket r)); [rewrite En | ..].
Qed.

(** Of the goroutines that find the window behind at the same time, one at a time rolls it forward;
    no index is cleared twice, indices are published only after they are cleared, and an addition goes
    to the bucket of an index that has been published. *)
Theorem buckets_are_cleared_once w n start r s :
  0 < w -> 0 < n -> max_int64 / w + n <= max_int64 -> NewRollingCounter w n start = Ret r ->
  rtc step (initial r) s ->
  let L := LastAbsIndex (rollingBucket (counter s)) in
  (forall i j t t', calls s !! i = Some t -> calls s !! j = Some t' ->
     holding t = true -> holding t' = true -> i = j) /\
  NoDup (g_clears (g s)) /\
  (advanceMu s = false -> Forall (fun k => k <= L) (g_clears (g s))) /\
  (forall i now idx, calls s !! i = Some (Writing now idx) ->
     exists k, absIndexAt (rollingBucket r) now = Some k /\ k <= L /\ idx = k mod n).
Proof.
  intros Hw Hn Hm Hr Hrun L. destruct (new_inv w n start r s Hw Hn Hm Hr Hrun) as [En Hinv].
  destruct Hinv as [_ _ _ Hmu (_ & Hone & _) Hcalls _ _ _ _ _ _ [Hs Hle]]. split; [exact Hone |].
  split; [| split].
  - clear - Hs. induction Hs as [|k l _ IH Hk]; constructor; [| done].
    intros Hin. rewrite Forall_forall in Hk. specialize (Hk k Hin). lia.
  - intros E. by rewrite (Hmu E) in Hle.
  - intros i t idx Hi. rewrite <- En. exact (Forall_lookup_1 _ _ _ _ Hcalls Hi).
Qed.

(** Counting ends: from any reachable state the calls there are take boundedly many steps however
    they are scheduled, and can always go on until all have returned; the mutex is never left locked
    and no index is out of range. *)
Theorem counting_ends w n start r s :
  0 < w -> 0 < n -> max_int64 / w + n <= max_int64 -> NewRollingCounter w n start = Ret r ->
  rtc step (initial r) s ->
  (forall k s', nsteps quiet_step k s s' -> Z.of_nat k <= zlen (calls s) * (n + 8)) /\
  (exists s', rtc quiet_step s s' /\ resting s' /\ advanceMu s' = false) /\
  (resting s \/ exists s', quiet_step s s').
Proof.
  intros Hw Hn Hm Hr Hrun. destruct (new_inv w n start r s Hw Hn Hm Hr Hrun) as [En Hinv].
  set (cfg := rollingBucket r) in *. assert (Hn' : 0 < NumBuckets cfg) by lia. split; [| split].
  - intros k s' Hk. pose proof (quiet_runs cfg Hn' k s s' Hinv Hk). pose proof (work_bounds cfg Hn' s Hinv).
    cbn beta in *. rewrite En in *. lia.
  - destruct (quiet_ends cfg Hn' s Hinv) as (s' & Hq & Hrest). exists s'. split; [done |]. split; [done |].
    apply (rest_free cfg); [| done]. apply (inv_steps cfg Hn' s); [done |]. clear - Hq.
    induction Hq as [|s1 s2 s3 [Hs _] _ IH]; [done | by eapply rtc_l].
  - destruct (decide (resting s)); [by left | right]. by apply (someone_steps cfg Hn').
Qed.

(** ** A race

    Three calls find the window behind at the same time; the one that gets the mutex first clears
    both buckets, while call 0 has the bucket of an older instant in hand and adds to it late. *)

Module Race.

Definition fresh : RollingCounter := mkRollingCounter [0; 0] 0 (mkRollingBuckets 2 1000 10 0).

Definition four_calls : sys :=
  called [Starting 1005 true; Starting 1025 true; Starting 1027 true; Starting 1027 false] (initial fresh).

Definition steps_of_calls : list nat := [0; 0; 1; 1; 2; 2; 3; 3; 1; 1; 1; 1; 1; 1; 2; 2; 2; 3; 3; 3; 0; 1; 2]%nat.

Definition while_rolling : sys := default four_calls (schedule (take 11 steps_of_calls) four_calls).

Definition all_done : sys := default four_calls (schedule steps_of_calls four_calls).

Lemma reach js : rtc step (initial fresh) (default four_calls (schedule js four_calls)).
Proof.
  transitivity four_calls; [by apply called_steps |].
  destruct (schedule js four_calls) as [s|] eqn:E; [| done]. by eapply schedule_steps.
Qed.

Lemma all_done_rests : resting all_done.
Proof. unfold resting. replace (calls all_done) with (replicate 4 Finished) by (by vm_compute). by repeat constructor. Qed.

(** Call 1 holds the mutex and has cleared one of the two buckets. *)
Example while_rolling_is :
  calls while_rolling = [Writing 1005 0; Clearing 1025 true 0 2; Waiting 1027 true; Waiting 1027 false] /\
  advanceMu while_rolling = true /\ g_clears (g while_rolling) = [1].
Proof. vm_compute. auto. Qed.

Example all_done_is :
  buckets (counter all_done) = [3; 0] /\ totalSum (counter all_done) = 3 /\
  g_late (g all_done) = 1 /\ g_clears (g all_done) = [2; 1].
Proof. vm_compute. auto. Qed.

Lemma concurrent_incs_are_counted_witness :
  exists v c', RollingSumAt 1029 (counter all_done) = (Ret v, c') /\
    2 <= v <= 2 + 1 /\ v <= 3 /\ TotalSum c' = 3.
Proof.
  destruct (concurrent_incs_are_counted 10 2 1000 fresh all_done 1029) as (v & c' & E & HL & Hv & Hle & Ht);
    [lia | lia | vm_compute; discriminate | done | exact (reach steps_of_calls) | exact all_done_rests | vm_compute; discriminate |].
  exists v, c'. split; [exact E |]. rewrite HL in Hv. vm_compute in Hv, Hle, Ht. split; [exact Hv | split; [exact Hle | exact Ht]].
Defined.

Lemma buckets_are_cleared_once_witness :
  NoDup (g_clears (g while_rolling)) /\
  exists k, absIndexAt (rollingBucket fresh) 1005 = Some k /\ k <= 0 /\ 0 = k mod 2.
Proof.
  destruct (buckets_are_cleared_once 10 2 1000 fresh while_rolling) as (_ & Hc & _ & Hw);
    [lia | lia | vm_compute; discriminate | done | exact (reach (take 11 steps_of_calls)) |].
  split; [exact Hc |]. exact (Hw 0%nat 1005 0 eq_refl).
Defined.

Lemma counting_ends_witness :
  (exists s', quiet_step while_rolling s') /\
  exists s', rtc quiet_step while_rolling s' /\ resting s' /\ advanceMu s' = false.
Proof.
  destruct (counting_ends 10 2 1000 fresh while_rolling) as (_ & He & [Hr|Hs]);
    [lia | lia | vm_compute; discriminate | done | exact (reach (take 11 steps_of_calls)) | | by split].
  exfalso. pose proof (Forall_lookup_1 _ _ 0%nat _ Hr eq_refl). discriminate.
Defined.
End Race.
End ConcurrentCounter.
