(* ===== verification/RollingPercentile.v ===== *)
(** faststats/rolling_percentile.go: the latencies of a sliding window, kept in size-limited
    buckets, and the statistics over them.

    [durationsBucket] stores encoded durations in a ring of slots.  Its specification is the
    list of the durations added since the last clear ([holds]): the ring holds the latest of
    them ([stored]).  [RollingPercentile] is specified by the log of its additions
    ([percentile_log]).  [slices.Sort] is the sorting of the Standard Library's order on [Z];
    floating point is that of GoFloat.v.  The capacity [SortedDurations] allocates in advance is
    left out; the exporters and string forms are in StatsExport.v, the atomic operations of a
    bucket in ConcurrentBucket.v. *)

From S2P Require Import Prelude GoMonad GoFloat RollingBuckets.

Module RollingPercentile.

(** * The encoding of durations *)

Definition unsetDuration : Z := 0.

Definition encodeDuration (d : Duration) : Z :=
  let d := if d <? 0 then 0 else d in wrap64 (d + 1).

Definition decodeDuration (v : Z) : Duration := wrap64 (v - 1).

(** * Buckets *)

Record durationsBucket := mkDurationsBucket {
  durationsSomeInvalid : list Z;
  currentIndex : Z
}.

Definition newDurationsBucket (bucketSize : Z) : outcome durationsBucket :=
  if bucketSize <? 0 then Panic MakeSliceLen
  else Ret (mkDurationsBucket (replicate (Z.to_nat bucketSize) 0) 0).

Definition size (b : durationsBucket) : Z :=
  Z.min (currentIndex b) (zlen (durationsSomeInvalid b)).

(** [b.durationsSomeInvalid[i].Set(v)] *)
Definition slot_Set (i v : Z) : M durationsBucket unit := fun b =>
  match slice_set (durationsSomeInvalid b) i v with
  | Some vs => (Ret tt, mkDurationsBucket vs (currentIndex b))
  | None => (Panic IndexOutOfRange, b)
  end.

Definition set_currentIndex (i : Z) : M durationsBucket unit :=
  modify (fun b => mkDurationsBucket (durationsSomeInvalid b) i).

(** The loop of [appendDurations], for [i] from [0] to [size() - 1]; it stays in range. *)
Definition appendDurations (b : durationsBucket) (l : list Duration) : list Duration :=
  fold_left (fun acc v => if v =? unsetDuration then acc else acc ++ [decodeDuration v])
    (take (Z.to_nat (size b)) (durationsSomeInvalid b)) l.

Definition clear : M durationsBucket unit :=
  let! used := gets size in
  do! range_do (fun i => slot_Set i unsetDuration) (seqZ 0 used);
  set_currentIndex 0.

Definition addDuration (d : Duration) : M durationsBucket unit :=
  let! b := gets (fun b => b) in
  if zlen (durationsSomeInvalid b) =? 0 then ret tt
  else
    let next := wrap64 (currentIndex b + 1) in
    do! set_currentIndex next;
    let nextIndex := wrap64 (next - 1) in
    let arrayIndex := Z.rem nextIndex (zlen (durationsSomeInvalid b)) in
    slot_Set arrayIndex (encodeDuration d).

(** * The rolling window *)

Record RollingPercentile := mkRollingPercentile {
  buckets : list durationsBucket;
  rollingBucket : RollingBuckets
}.

Definition rollingBucketL : lens RollingPercentile RollingBuckets :=
  Lens rollingBucket (fun rb r => mkRollingPercentile (buckets r) rb).

(** A method of [r.buckets[idx]] *)
Definition at_bucket {A} (idx : Z) (m : M durationsBucket A) : M RollingPercentile A := fun r =>
  match slice_get (buckets r) idx with
  | Some b =>
      let '(o, b') := m b in
      (o, mkRollingPercentile (<[Z.to_nat idx := b']> (buckets r)) (rollingBucket r))
  | None => (Panic IndexOutOfRange, r)
  end.

Definition makeBuckets (numBuckets bucketSize : Z) : outcome (list durationsBucket) :=
  if numBuckets <? 0 then Panic MakeSliceLen
  else if numBuckets =? 0 then Ret []
  else match newDurationsBucket bucketSize with
       | Ret b => Ret (replicate (Z.to_nat numBuckets) b)
       | Panic p => Panic p
       | Deadlock => Deadlock
       | OutOfFuel => OutOfFuel
       end.

Definition NewRollingPercentile (bucketWidth : Duration) (numBuckets bucketSize : Z) (now : Time)
    : outcome RollingPercentile :=
  match makeBuckets numBuckets bucketSize with
  | Ret bs => Ret (mkRollingPercentile bs (mkRollingBuckets numBuckets now bucketWidth 0))
  | Panic p => Panic p
  | Deadlock => Deadlock
  | OutOfFuel => OutOfFuel
  end.

(** The zero value of the struct. *)
Definition RollingPercentile_zero : RollingPercentile :=
  mkRollingPercentile [] (mkRollingBuckets 0 0 0 0).

Definition clearBucket (idx : Z) : M RollingPercentile unit := at_bucket idx clear.

Definition AddDuration (d : Duration) (now : Time) : M RollingPercentile unit :=
  let! r := gets (fun r => r) in
  if zlen (buckets r) =? 0 then ret tt
  else
    let! idx := Advance rollingBucketL clearBucket now in
    if idx <? 0 then ret tt else at_bucket idx (addDuration d).

Definition Reset (now : Time) : M RollingPercentile unit :=
  do! Advance rollingBucketL clearBucket now;
  let! r := gets (fun r => r) in
  range_do clearBucket (seqZ 0 (NumBuckets (rollingBucket r))).

Definition SortedDurations (now : Time) : M RollingPercentile (list Duration) :=
  let! r := gets (fun r => r) in
  if zlen (buckets r) =? 0 then ret []
  else
    do! Advance rollingBucketL clearBucket now;
    let! r := gets (fun r => r) in
    ret (merge_sort Z.le (fold_left (fun l b => appendDurations b l) (buckets r) [])).

Definition SnapshotAt (now : Time) : M RollingPercentile (list Duration) := SortedDurations now.

(** * Statistics of a sorted list *)

Definition Mean (s : list Duration) : Duration :=
  if zlen s =? 0 then -1
  else Z.quot (fold_left (fun sum d => wrap64 (sum + d)) s 0) (zlen s).

Definition Min (s : list Duration) : Duration :=
  match s with [] => -1 | d :: _ => d end.

Definition Max (s : list Duration) : Duration :=
  match last s with None => -1 | Some d => d end.

(** [None] is a panic of an index out of range or an integer conversion the language leaves
    open. *)
Definition Percentile (s : list Duration) (p : float64) : option Duration :=
  if (zlen s =? 0) || is_nan p then Some (-1)
  else if zlen s =? 1 then slice_get s 0
  else if fle p (float64_of_int 0) then slice_get s 0
  else if fle (float64_of_int 100) p then slice_get s (zlen s - 1)
  else
    let absoluteIndex := fmul (fdiv p (float64_of_int 100)) (float64_of_int (zlen s - 1)) in
    i ← int64_of_float (math_Floor absoluteIndex);
    firstValue ← slice_get s i;
    j ← int64_of_float (math_Ceil absoluteIndex);
    secondValue ← slice_get s j;
    let firstWeight := fsub absoluteIndex (math_Floor absoluteIndex) in
    x ← int64_of_float (fmul (float64_of_int (wrap64 (secondValue - firstValue))) firstWeight);
    Some (wrap64 (firstValue + x)).

Example percentile_between : Percentile [10; 20; 30; 40; 50] (float64_of_int 90) = Some 46.
Proof. vm_compute. reflexivity. Qed.

(** * Specification of a bucket *)

(** What a duration is recorded as. *)
Definition clamp (d : Duration) : Duration := Z.max 0 d.

(** The latest [n] elements. *)
Definition latest {A} (n : nat) (l : list A) : list A := drop (length l - n) l.

(** The ring of [n] slots after the additions [ds] since the last clear. *)
Definition holds (n : nat) (ds : list Duration) (b : durationsBucket) : Prop :=
  length (durationsSomeInvalid b) = n /\ currentIndex b = zlen ds /\ zlen ds < max_int64 /\
  Forall (fun d => d <= max_int64) ds /\
  (forall i d, ds !! i = Some d -> (length ds <= i + n)%nat ->
     durationsSomeInvalid b !! (i mod n)%nat = Some (encodeDuration d)) /\
  (forall j, (length ds <= j < n)%nat -> durationsSomeInvalid b !! j = Some unsetDuration).

(** ** The encoding *)

Lemma decode_encode d : d <= max_int64 -> decodeDuration (encodeDuration d) = clamp d.
Proof.
  intros Hd. unfold decodeDuration, encodeDuration, clamp.
  destruct (Z.ltb_spec d 0).
  - rewrite (wrap64_id (0 + 1)), wrap64_id by (unfold min_int64, max_int64; lia). lia.
  - unfold Z.sub. rewrite wrap64_add_l. replace (d + 1 + -1) with d by lia.
    rewrite wrap64_id by (unfold min_int64; lia). lia.
Qed.

Lemma encode_set d : d <= max_int64 -> encodeDuration d <> unsetDuration.
Proof.
  intros Hd H. pose proof (decode_encode d Hd) as E. rewrite H in E.
  unfold decodeDuration, unsetDuration, clamp in E.
  rewrite wrap64_id in E by (unfold min_int64, max_int64; lia). lia.
Qed.

(** ** The operations of a bucket *)

Lemma holds_new n b : newDurationsBucket n = Ret b -> holds (Z.to_nat n) [] b.
Proof.
  unfold newDurationsBucket. destruct (Z.ltb_spec n 0); [done |]. intros [= <-].
  split; [apply length_replicate |]. split; [done |]. split; [done |]. split; [constructor |].
  split; [done |]. intros j Hj. simpl. apply lookup_replicate. split; [done | lia].
Qed.

Lemma slot_Set_spec i v b :
  0 <= i < zlen (durationsSomeInvalid b) ->
  slot_Set i v b = (Ret tt, mkDurationsBucket (<[Z.to_nat i := v]> (durationsSomeInvalid b)) (currentIndex b)).
Proof. intros H. unfold slot_Set. by rewrite slice_set_Some. Qed.

Lemma holds_add n ds d b :
  holds n ds b -> zlen ds + 1 < max_int64 -> d <= max_int64 ->
  exists b', addDuration d b = (Ret tt, b') /\ (n <> 0%nat -> holds n (ds ++ [d]) b').
Proof.
  intros (Hlen & Hidx & Hmax & Hds & Hset & Hunset) Hroom Hd. unfold addDuration, bind at 1, gets.
  destruct (Z.eqb_spec (zlen (durationsSomeInvalid b)) 0) as [H0|H0].
  { exists b. split; [done |]. unfold zlen in H0. lia. }
  assert (Hn : (0 < n)%nat) by (unfold zlen in H0; lia).
  pose proof (zlen_nonneg ds) as Hz.
  unfold bind, set_currentIndex, modify. cbn [currentIndex durationsSomeInvalid]. rewrite Hidx.
  rewrite (wrap64_id (zlen ds + 1)), Z.add_simpl_r, (wrap64_id (zlen ds))
    by (unfold min_int64, max_int64 in *; lia).
  rewrite Z.rem_mod_nonneg by (unfold zlen in *; lia).
  assert (Hz' : zlen (durationsSomeInvalid b) = Z.of_nat n) by (unfold zlen; lia).
  rewrite Hz'. rewrite slot_Set_spec.
  2:{ cbn [durationsSomeInvalid]. rewrite Hz'. apply Z.mod_pos_bound. lia. }
  eexists. split; [done |]. intros _. unfold holds. cbn [durationsSomeInvalid currentIndex].
  assert (Hpos : Z.to_nat (zlen ds mod Z.of_nat n) = (length ds mod n)%nat).
  { unfold zlen. rewrite <- Nat2Z.inj_mod. lia. }
  rewrite Hpos. set (p := (length ds mod n)%nat) in *.
  assert (Hp : (p < n)%nat) by (apply Nat.mod_upper_bound; lia).
  split; [by rewrite length_insert |]. split; [unfold zlen; rewrite length_app; simpl; lia |].
  split; [unfold zlen in *; rewrite length_app; simpl; lia |].
  split; [apply Forall_app_2; [done | by apply Forall_singleton] |]. split.
  - intros i x Hi Hlate. rewrite length_app in Hlate. simpl in Hlate.
    destruct (decide (i = length ds)) as [->|Hne].
    + rewrite lookup_app_r, Nat.sub_diag in Hi by lia. injection Hi as <-. fold p.
      apply list_lookup_insert_eq. lia.
    + assert (Hlt : (i < length ds)%nat).
      { apply lookup_lt_Some in Hi. rewrite length_app in Hi. simpl in Hi. lia. }
      rewrite lookup_app_l in Hi by done. rewrite list_lookup_insert_ne; [apply Hset; [done | lia] |].
      unfold p. intros Heq.
      assert (exists q, length ds = (i + q * n)%nat /\ (0 < q)%nat) as (q & Hq & Hq0).
      { pose proof (Nat.div_mod_eq (length ds) n). pose proof (Nat.div_mod_eq i n).
        rewrite <- Heq in *. set (a := (length ds / n)%nat) in *. set (c := (i / n)%nat) in *.
        assert (c < a)%nat by nia. exists (a - c)%nat. nia. }
      nia.
  - intros j Hj. rewrite length_app in Hj. simpl in Hj.
    assert (p <> j). { unfold p. rewrite Nat.mod_small by lia. lia. }
    rewrite list_lookup_insert_ne by done. apply Hunset. lia.
Qed.

Lemma clear_prefix (k : nat) b :
  (k <= length (durationsSomeInvalid b))%nat ->
  range_do (fun i => slot_Set i unsetDuration) (seqZ 0 (Z.of_nat k)) b
  = (Ret tt, mkDurationsBucket (replicate k unsetDuration ++ drop k (durationsSomeInvalid b)) (currentIndex b)).
Proof.
  intros Hk. assert (H : forall m i vs c, (i + m <= length vs)%nat ->
    range_do (fun i => slot_Set i unsetDuration) (seqZ (Z.of_nat i) (Z.of_nat m)) (mkDurationsBucket vs c)
    = (Ret tt, mkDurationsBucket (take i vs ++ replicate m unsetDuration ++ drop (i + m) vs) c)).
  { clear. induction m as [|m IH]; intros i vs c Hm.
    - rewrite seqZ_nil by lia. simpl. by rewrite Nat.add_0_r, take_drop.
    - rewrite seqZ_cons by lia. cbn [range_do]. unfold bind.
      rewrite slot_Set_spec by (cbn; unfold zlen; lia). cbn [durationsSomeInvalid currentIndex].
      replace (Z.succ (Z.of_nat i)) with (Z.of_nat (S i)) by lia.
      replace (Z.pred (Z.of_nat (S m))) with (Z.of_nat m) by lia.
      rewrite Nat2Z.id, IH by (rewrite length_insert; lia). do 2 f_equal.
      rewrite drop_insert_lt by lia. replace (i + S m)%nat with (S i + m)%nat by lia.
      rewrite (take_S_r _ i unsetDuration) by (rewrite list_lookup_insert_eq; [done | lia]).
      rewrite take_insert_ge by lia. by rewrite <- app_assoc. }
  destruct b as [vs c]. exact (H k 0%nat vs c Hk).
Qed.

Lemma holds_clear n ds b :
  holds n ds b -> exists b', clear b = (Ret tt, b') /\ holds n [] b'.
Proof.
  intros (Hlen & Hidx & Hmax & Hds & Hset & Hunset). unfold clear, bind, gets.
  pose proof (zlen_nonneg ds).
  assert (Hs : size b = Z.of_nat (Nat.min (length ds) n)) by (unfold size, zlen in *; lia).
  rewrite Hs, clear_prefix by lia. eexists. split; [done |]. unfold holds. simpl.
  split; [rewrite length_app, length_replicate, length_drop; lia |]. split; [done |]. split; [done |].
  split; [constructor |]. split; [done |]. intros j Hj.
  destruct (decide (j < Nat.min (length ds) n)%nat) as [Hlt|Hge].
  - rewrite lookup_app_l by (rewrite length_replicate; lia). by apply lookup_replicate.
  - rewrite lookup_app_r, length_replicate, lookup_drop by (rewrite length_replicate; lia).
    replace (_ + _)%nat with j by lia. apply Hunset. lia.
Qed.

(** The contents of the ring in slot order: once more than [n] durations were added, the
    latest of them wrap around. *)
Definition ring (n : nat) (ds : list Duration) : list Duration :=
  if decide (length ds < n)%nat then ds
  else
    let r := (length ds mod n)%nat in
    drop (n - r) (latest n ds) ++ take (n - r) (latest n ds).

Lemma length_latest {A} n (l : list A) : length (latest n l) = Nat.min (length l) n.
Proof. unfold latest. rewrite length_drop. lia. Qed.

Lemma latest_lookup {A} n (l : list A) k :
  (n <= length l)%nat -> latest n l !! k = l !! (length l - n + k)%nat.
Proof. intros H. unfold latest. apply lookup_drop. Qed.

Lemma ring_permutation n ds : (0 < n)%nat -> ring n ds ≡ₚ latest n ds.
Proof.
  intros Hn. unfold ring, latest. destruct (decide _).
  - by replace (length ds - n)%nat with 0%nat by lia.
  - by rewrite Permutation_app_comm, take_drop.
Qed.

Lemma length_ring n ds : (0 < n)%nat -> length (ring n ds) = Nat.min (length ds) n.
Proof. intros Hn. by rewrite (ring_permutation n ds Hn), length_latest. Qed.

(** Slot [j] of the ring holds an element added at a position congruent to [j], among the
    latest [n]. *)
Lemma ring_lookup n ds j x :
  (0 < n)%nat -> ring n ds !! j = Some x ->
  exists i, ds !! i = Some x /\ (length ds <= i + n)%nat /\ (i mod n)%nat = j.
Proof.
  intros Hn. unfold ring. destruct (decide (length ds < n)%nat) as [Hlt|Hge].
  - intros H. exists j. apply lookup_lt_Some in H as Hj. split; [done |]. split; [lia |].
    apply Nat.mod_small. lia.
  - set (r := (length ds mod n)%nat). pose proof (Nat.div_mod_eq (length ds) n) as Hdm. fold r in Hdm.
    assert (Hr : (r < n)%nat) by (apply Nat.mod_upper_bound; lia).
    set (q := (length ds / n)%nat) in *. assert (Hq : (0 < q)%nat) by nia.
    assert (Hlen : length (drop (n - r) (latest n ds)) = r)
      by (rewrite length_drop, length_latest; lia).
    intros [H|[Hj H]]%lookup_app_Some.
    + apply lookup_lt_Some in H as Hj. rewrite Hlen in Hj.
      rewrite lookup_drop, latest_lookup in H by lia. eexists. split; [exact H |]. split; [lia |].
      replace (_ + _)%nat with (j + q * n)%nat by lia. rewrite Nat.Div0.mod_add. apply Nat.mod_small. lia.
    + rewrite Hlen in Hj, H. apply lookup_take_Some in H as [H Hlt].
      rewrite latest_lookup in H by lia. eexists. split; [exact H |]. split; [lia |].
      replace (_ + _)%nat with (j + (q - 1) * n)%nat by nia. rewrite Nat.Div0.mod_add.
      apply Nat.mod_small. lia.
Qed.

Lemma holds_slots n ds b :
  (0 < n)%nat -> holds n ds b ->
  take (Z.to_nat (size b)) (durationsSomeInvalid b) = encodeDuration <$> ring n ds.
Proof.
  intros Hn (Hlen & Hidx & _ & _ & Hset & _).
  assert (Hs : Z.to_nat (size b) = Nat.min (length ds) n) by (unfold size, zlen in *; lia).
  rewrite Hs. eapply list_eq_same_length; [reflexivity | |].
  { rewrite length_fmap, length_ring, length_take by done. lia. }
  intros j x y Hj Hx Hy. rewrite length_fmap, length_ring in Hj by done.
  apply lookup_take_Some in Hx as [Hx _]. apply list_lookup_fmap_Some in Hy as (d & -> & Hd).
  apply ring_lookup in Hd as (i & Hi & Hlate & <-); [| done].
  rewrite (Hset i d Hi Hlate) in Hx. by injection Hx.
Qed.

Lemma append_encoded ds l :
  Forall (fun d => d <= max_int64) ds ->
  fold_left (fun acc v => if v =? unsetDuration then acc else acc ++ [decodeDuration v])
    (encodeDuration <$> ds) l = l ++ (clamp <$> ds).
Proof.
  intros H. revert l. induction H as [|d ds Hd Hds IH]; intros l; simpl; [by rewrite app_nil_r |].
  destruct (Z.eqb_spec (encodeDuration d) unsetDuration) as [E|_]; [by apply encode_set in E |].
  by rewrite IH, decode_encode, <- app_assoc.
Qed.

Lemma holds_append n ds b l :
  (0 < n)%nat -> holds n ds b -> appendDurations b l = l ++ (clamp <$> ring n ds).
Proof.
  intros Hn H. unfold appendDurations. rewrite (holds_slots n ds b Hn H). apply append_encoded.
  destruct H as (_ & _ & _ & Hds & _). rewrite (ring_permutation n ds Hn).
  unfold latest. by apply Forall_drop.
Qed.

(** * Specification of the window: the log of the added durations *)

Record percentile_log := mkPercentileLog {
  pl_last : Z;                       (* the newest absolute index seen by any call *)
  pl_events : list (Z * Duration)    (* what was added since the last reset, in order *)
}.

(** The durations logged with absolute index [k], oldest first. *)
Definition durations_at (k : Z) (evs : list (Z * Duration)) : list Duration :=
  (filter (fun e => e.1 = k) evs).*2.

Section Spec.
  Context (cfg : RollingBuckets) (sz : nat).

Definition plog_advance (now : Time) (w : percentile_log) : percentile_log :=
  mkPercentileLog (advancedLast (set_LastAbsIndex (pl_last w) cfg) now) (pl_events w).

Definition plog_add (d : Duration) (now : Time) (w : percentile_log) : percentile_log :=
  let w' := plog_advance now w in
  match absIndexAt cfg now with
  | Some i => mkPercentileLog (pl_last w') (pl_events w' ++ [(i, d)])
  | None => w'
  end.

Definition plog_reset (now : Time) (w : percentile_log) : percentile_log :=
  mkPercentileLog (pl_last (plog_advance now w)) [].

(** The durations of the window: for each of its indices the latest [sz] logged there. *)
Definition window_durations (w : percentile_log) : list Duration :=
  k ← seqZ (pl_last w - NumBuckets cfg + 1) (NumBuckets cfg);
  clamp <$> latest sz (durations_at k (pl_events w)).
End Spec.

Inductive percentile_call :=
| CallAddDuration (d : Duration) (now : Time)
| CallSortedDurations (now : Time)
| CallReset (now : Time).

Definition call_percentile (c : percentile_call) : M RollingPercentile (option (list Duration)) :=
  match c with
  | CallAddDuration d now => do! AddDuration d now; ret None
  | CallSortedDurations now => let! l := SortedDurations now in ret (Some l)
  | CallReset now => do! Reset now; ret None
  end.

Fixpoint run_percentile (cs : list percentile_call)
    : M RollingPercentile (list (option (list Duration))) :=
  match cs with
  | [] => ret []
  | c :: cs' => let! v := call_percentile c in let! vs := run_percentile cs' in ret (v :: vs)
  end.

Definition call_plog cfg sz (c : percentile_call) (w : percentile_log)
    : option (list Duration) * percentile_log :=
  match c with
  | CallAddDuration d now => (None, plog_add cfg d now w)
  | CallSortedDurations now =>
      let w' := plog_advance cfg now w in (Some (merge_sort Z.le (window_durations cfg sz w')), w')
  | CallReset now => (None, plog_reset cfg now w)
  end.

Fixpoint run_plog cfg sz (cs : list percentile_call) (w : percentile_log)
    : list (option (list Duration)) * percentile_log :=
  match cs with
  | [] => ([], w)
  | c :: cs' =>
      let '(v, w1) := call_plog cfg sz c w in
      let '(vs, w2) := run_plog cfg sz cs' w1 in (v :: vs, w2)
  end.

(** * Refinement *)

#[export] Instance rollingBucketL_laws : LensLaws rollingBucketL.
Proof. by split; intros; destruct s. Qed.

Section Refinement.
  Context (cfg : RollingBuckets) (sz : nat).
  Hypothesis Hsz : (0 < sz)%nat.

(** As many buckets as the window has, each of them well-formed. *)
Definition shape (r : RollingPercentile) : Prop :=
  zlen (buckets r) = NumBuckets (rollingBucket r) /\
  Forall (fun b => exists ds, holds sz ds b) (buckets r).

Definition represents (r : RollingPercentile) (w : percentile_log) : Prop :=
  rollingBucket r = set_LastAbsIndex (pl_last w) cfg /\
  window_ok (rollingBucket r) /\
  zlen (buckets r) = NumBuckets cfg /\
  Forall (fun e => 0 <= e.1 <= pl_last w) (pl_events w) /\
  forall j b, buckets r !! j = Some b ->
    holds sz (durations_at (window_index (NumBuckets cfg) (pl_last w) (Z.of_nat j)) (pl_events w)) b.

Definition clr (j : Z) (r : RollingPercentile) : RollingPercentile := snd (clearBucket j r).

Lemma represents_shape r w : represents r w -> shape r.
Proof.
  intros (Hrb & _ & Hlen & _ & Hb). split; [by rewrite Hlen, Hrb |].
  apply Forall_lookup_2. eauto.
Qed.

Lemma at_bucket_run {A} j (m : M durationsBucket A) r b :
  0 <= j -> buckets r !! Z.to_nat j = Some b ->
  at_bucket j m r
  = ((m b).1, mkRollingPercentile (<[Z.to_nat j := (m b).2]> (buckets r)) (rollingBucket r)).
Proof.
  intros Hj Hb. unfold at_bucket. rewrite (proj2 (slice_get_lookup _ _ _) (conj Hj Hb)).
  by destruct (m b).
Qed.

Lemma shape_lookup r j :
  shape r -> 0 <= j < NumBuckets (rollingBucket r) ->
  exists b ds, buckets r !! Z.to_nat j = Some b /\ holds sz ds b.
Proof.
  intros [Hlen Hb] Hj. destruct (lookup_lt_is_Some_2 (buckets r) (Z.to_nat j)) as [b E];
    [unfold zlen in Hlen; lia |].
  destruct (Forall_lookup_1 _ _ _ _ Hb E) as [ds Hds]. by exists b, ds.
Qed.

Lemma durations_clearBucket_spec j r :
  shape r -> 0 <= j < NumBuckets (rollingBucket r) ->
  exists b', holds sz [] b' /\ clearBucket j r
    = (Ret tt, mkRollingPercentile (<[Z.to_nat j := b']> (buckets r)) (rollingBucket r)).
Proof.
  intros Hs Hj. destruct (shape_lookup r j Hs Hj) as (b & ds & E & Hds).
  destruct (holds_clear sz ds b Hds) as (b' & Ec & Hb'). exists b'. split; [done |].
  unfold clearBucket. rewrite (at_bucket_run _ _ _ b) by (done || lia). by rewrite Ec.
Qed.

Lemma durations_clearBucket_ok j r :
  shape r -> 0 <= j < NumBuckets (view rollingBucketL r) ->
  clearBucket j r = (Ret tt, clr j r) /\ shape (clr j r) /\
  view rollingBucketL (clr j r) = view rollingBucketL r.
Proof.
  intros Hs Hj. destruct (durations_clearBucket_spec j r Hs Hj) as (b' & Hb' & E). unfold clr. rewrite E.
  split; [done |]. split; [| done]. destruct Hs as [Hlen Hb].
  split; simpl; [by rewrite zlen_insert | apply Forall_insert; eauto].
Qed.

(** A cleared bucket is empty, every other one is kept. *)
Lemma durations_clear_all_lookup js r j b :
  let n := NumBuckets (rollingBucket r) in
  0 < n -> Forall (fun k => 0 <= k) js -> shape r ->
  buckets (clear_all clr n js r) !! j = Some b ->
  (holds sz [] b /\ exists k, k ∈ js /\ k mod n = Z.of_nat j) \/
  (buckets r !! j = Some b /\ forall k, k ∈ js -> k mod n <> Z.of_nat j).
Proof.
  intros n Hn Hjs. unfold n in *. clear n. revert r Hn.
  induction Hjs as [|k js Hk Hjs IH]; intros r Hn Hs H; simpl in *.
  - right. split; [done |]. by intros k Hk%elem_of_nil.
  - pose proof (Z.mod_pos_bound k (NumBuckets (rollingBucket r)) Hn) as Hkn.
    set (n := NumBuckets (rollingBucket r)) in *.
    destruct (durations_clearBucket_ok (k mod n) r Hs) as (_ & Hs' & Hv); [done |].
    destruct (durations_clearBucket_spec (k mod n) r Hs) as (b' & Hb' & E); [done |].
    simpl in Hv. assert (En : NumBuckets (rollingBucket (clr (k mod n) r)) = n) by (by rewrite Hv).
    rewrite <- En in H at 1. destruct (IH (clr (k mod n) r)) as [(Hb & k' & Hk' & Hm)|[Hl Hno]];
      [by rewrite En | done | done | |]; rewrite En in *.
    + left. split; [done |]. exists k'. split; [by right | done].
    + unfold clr in Hl. rewrite E in Hl. simpl in Hl.
      apply list_lookup_insert_Some in Hl as [(Hj & <- & _)|[Hj Hl]].
      * left. split; [done |]. exists k. split; [left | lia].
      * right. split; [done |]. intros k' [->|Hk']%elem_of_cons; [lia | by apply Hno].
Qed.

Lemma durations_at_none k evs :
  (forall e, e ∈ evs -> e.1 <> k) -> durations_at k evs = [].
Proof.
  intros H. unfold durations_at. induction evs as [|e evs IH]; [done |].
  rewrite filter_cons_False by (apply H; left). apply IH. intros e' He'. apply H. by right.
Qed.

Lemma durations_at_app k evs i d :
  durations_at k (evs ++ [(i, d)]) = durations_at k evs ++ (if decide (i = k) then [d] else []).
Proof.
  unfold durations_at. rewrite filter_app, fmap_app. f_equal.
  destruct (decide (i = k)); [by rewrite filter_cons_True | by rewrite filter_cons_False].
Qed.

Lemma length_durations_at k evs : zlen (durations_at k evs) <= zlen evs.
Proof.
  unfold durations_at, zlen. rewrite length_fmap.
  pose proof (length_filter (fun e : Z * Duration => e.1 = k) evs). lia.
Qed.

Lemma durations_Advance_represents now r w :
  represents r w ->
  exists r', Advance rollingBucketL clearBucket now r
      = (Ret (advanceResult (rollingBucket r) now), r')
    /\ represents r' (plog_advance cfg now w).
Proof.
  intros Hr. pose proof (represents_shape r w Hr) as Hsh. destruct Hr as (Hrb & Hok & Hlen & Hev & Hb).
  destruct (Advance_ok rollingBucketL clearBucket clr shape durations_clearBucket_ok now r Hsh Hok)
    as (r0 & E & Er0 & [Hlen0 _] & Hv0).
  eexists. split; [exact E |]. clear E. simpl in Er0, Hv0.
  pose proof (advancedLast_ge (rollingBucket r) now) as Hge.
  assert (HL : LastAbsIndex (rollingBucket r) = pl_last w) by (by rewrite Hrb).
  assert (Hcfg : NumBuckets cfg = NumBuckets (rollingBucket r)) by (by rewrite Hrb).
  unfold represents, plog_advance. rewrite <- Hrb. simpl.
  split; [by rewrite Hrb |]. split; [apply (window_ok_advanced _ now Hok) |].
  split; [by rewrite Hlen0, Hv0 |].
  split; [eapply Forall_impl; [exact Hev |]; simpl; intros e; rewrite <- HL; lia |].
  rewrite Hcfg. intros j b Hj. assert (Hjn : 0 <= Z.of_nat j < NumBuckets (rollingBucket r)).
  { apply lookup_lt_Some in Hj. unfold zlen in Hlen0. rewrite Hv0 in Hlen0. lia. }
  destruct (window_index_advance (rollingBucket r) now _ Hok Hjn) as [Hcl Hkeep].
  rewrite Er0 in Hj. apply durations_clear_all_lookup in Hj; [| by destruct Hok | | done].
  2:{ apply Forall_forall. intros k Hk%elem_of_seqZ. destruct Hok as (_ & _ & ? & _). lia. }
  destruct Hj as [[Hemp Hex]|[Hj Hno]].
  - specialize (Hcl Hex). rewrite durations_at_none; [done |].
    intros e He. rewrite Forall_forall in Hev. specialize (Hev e He). lia.
  - rewrite (Hkeep Hno), HL, Hcfg in *. by apply Hb.
Qed.

Lemma represents_nonempty r w : represents r w -> (zlen (buckets r) =? 0) = false.
Proof.
  intros (Hrb & (Hn & _) & Hlen & _). rewrite Hrb in Hn. simpl in Hn. apply Z.eqb_neq. lia.
Qed.

Lemma AddDuration_represents d now r w :
  represents r w -> d <= max_int64 -> zlen (pl_events w) + 1 < max_int64 ->
  exists r', AddDuration d now r = (Ret tt, r') /\ represents r' (plog_add cfg d now w).
Proof.
  intros Hr Hd Hroom. unfold AddDuration, bind, gets. rewrite (represents_nonempty r w Hr).
  destruct (durations_Advance_represents now r w Hr) as (r1 & E & Hr1). rewrite E. clear E.
  assert (Hrb : rollingBucket r = set_LastAbsIndex (pl_last w) cfg) by apply Hr.
  pose proof Hr as (_ & Hok & _). unfold plog_add, advanceResult.
  replace (absIndexAt (rollingBucket r) now) with (absIndexAt cfg now) by (by rewrite Hrb).
  destruct (absIndexAt cfg now) as [i|] eqn:Ei; [| by exists r1].
  assert (Hi : absIndexAt (rollingBucket r) now = Some i) by (by rewrite Hrb).
  destruct (absIndexAt_bounds _ _ _ Hok Hi) as ((Hi0 & _) & _).
  assert (HL' : pl_last (plog_advance cfg now w) = Z.max (pl_last w) i).
  { unfold plog_advance, advancedLast. simpl. rewrite absIndexAt_set_LastAbsIndex, Ei. done. }
  assert (Hev1 : pl_events (plog_advance cfg now w) = pl_events w) by done.
  set (w1 := plog_advance cfg now w) in *. clearbody w1.
  destruct Hr1 as (Hrb1 & Hok1 & Hlen1 & Hev & Hb).
  assert (Hn : 0 < NumBuckets cfg) by (destruct Hok as (Hn & _); by rewrite Hrb in Hn).
  assert (HLr : LastAbsIndex (rollingBucket r) = pl_last w) by (by rewrite Hrb).
  assert (HNr : NumBuckets (rollingBucket r) = NumBuckets cfg) by (by rewrite Hrb).
  rewrite HLr, HNr.
  assert (Hev' : Forall (fun e : Z * Duration => 0 <= e.1 <= pl_last w1) (pl_events w1 ++ [(i, d)])).
  { apply Forall_app_2; [done |]. apply Forall_singleton. cbn [fst]. lia. }
  destruct (Z.leb_spec (NumBuckets cfg) (pl_last w - i)) as [Hold|Hin].
  - (* the instant has left the window *)
    exists r1. split; [done |]. split; [done |]. split; [done |]. split; [done |]. split; [exact Hev' |].
    intros j b Hj. cbn [pl_last pl_events]. rewrite durations_at_app, decide_False, app_nil_r; [by apply Hb |].
    assert (0 <= Z.of_nat j < NumBuckets cfg) as Hjn
      by (apply lookup_lt_Some in Hj; unfold zlen in Hlen1; lia).
    destruct (window_index_spec (NumBuckets cfg) (pl_last w1) (Z.of_nat j) Hn Hjn). lia.
  - pose proof (Z.mod_pos_bound i (NumBuckets cfg) Hn) as Him.
    destruct (Z.ltb_spec (i mod NumBuckets cfg) 0); [lia |].
    destruct (lookup_lt_is_Some_2 (buckets r1) (Z.to_nat (i mod NumBuckets cfg))) as [b E];
      [unfold zlen in Hlen1; lia |].
    rewrite (at_bucket_run _ _ _ b) by (done || lia).
    assert (Hwi : i = window_index (NumBuckets cfg) (pl_last w1) (i mod NumBuckets cfg))
      by (apply window_index_unique; lia).
    pose proof (Hb _ _ E) as Hbi. rewrite Z2Nat.id, <- Hwi in Hbi by lia.
    pose proof (length_durations_at i (pl_events w1)) as Hl. rewrite Hev1 in Hl.
    destruct (holds_add sz _ d b Hbi) as (b' & Ea & Hb'); [rewrite Hev1; lia | done |].
    rewrite Ea. eexists. split; [reflexivity |]. specialize (Hb' ltac:(lia)).
    split; [done |]. split; [done |]. split; [simpl; by rewrite zlen_insert |]. split; [exact Hev' |].
    intros j bj Hj. cbn [pl_last pl_events buckets fst snd] in *. rewrite durations_at_app.
    apply list_lookup_insert_Some in Hj as [(<- & <- & _)|[Hne Hj]].
    + rewrite Z2Nat.id, <- Hwi, decide_True by (done || lia). done.
    + rewrite decide_False, app_nil_r; [by apply Hb |]. intros ->.
      assert (0 <= Z.of_nat j < NumBuckets cfg) as Hjn
        by (apply lookup_lt_Some in Hj; unfold zlen in Hlen1; lia).
      destruct (window_index_spec (NumBuckets cfg) (pl_last w1) (Z.of_nat j) Hn Hjn) as [_ Hm].
      apply Hne. rewrite Hm. lia.
Qed.

(** Clearing every bucket in turn. *)
Lemma durations_clear_range k r :
  shape r -> (k <= length (buckets r))%nat ->
  exists r', range_do clearBucket (seqZ 0 (Z.of_nat k)) r = (Ret tt, r') /\
    shape r' /\ rollingBucket r' = rollingBucket r /\
    forall j b, (j < k)%nat -> buckets r' !! j = Some b -> holds sz [] b.
Proof.
  intros Hs. induction k as [|k IH]; intros Hk; [exists r; split; [done |]; split; [done |]; split; [done | lia] |].
  destruct IH as (r1 & E & Hs1 & Hrb1 & Hc); [lia |].
  assert (Hkn : 0 <= Z.of_nat k < NumBuckets (rollingBucket r1)).
  { destruct Hs as [Hlen _]. rewrite Hrb1, <- Hlen. unfold zlen. lia. }
  destruct (durations_clearBucket_ok (Z.of_nat k) r1 Hs1 Hkn) as (_ & Hs2 & _).
  destruct (durations_clearBucket_spec (Z.of_nat k) r1 Hs1 Hkn) as (b' & Hb' & E2).
  unfold clr in Hs2. rewrite E2 in Hs2. simpl in Hs2.
  eexists. split.
  { rewrite seqZ_S, range_do_app, Z.add_0_l. unfold bind at 1. rewrite E. cbn [range_do].
    unfold bind. rewrite E2. reflexivity. }
  split; [exact Hs2 |]. split; [done |]. simpl. intros j b Hj Hb.
  apply list_lookup_insert_Some in Hb as [(_ & <- & _)|[Hne Hb]]; [done |]. apply (Hc j); [lia | done].
Qed.

Lemma durations_Reset_represents now r w :
  represents r w ->
  exists r', Reset now r = (Ret tt, r') /\ represents r' (plog_reset cfg now w).
Proof.
  intros Hr. destruct (durations_Advance_represents now r w Hr) as (r1 & E & Hr1).
  pose proof (represents_shape _ _ Hr1) as Hs. destruct Hr1 as (Hrb & Hok & Hlen & Hev & Hb).
  destruct (durations_clear_range (length (buckets r1)) r1 Hs) as (r' & E' & [Hlen' _] & Hrb' & Hc); [done |].
  assert (Hn : NumBuckets (rollingBucket r1) = NumBuckets cfg) by (by rewrite Hrb).
  exists r'. split.
  { unfold Reset, bind, gets. rewrite E, Hn, <- Hlen. exact E'. }
  split; [by rewrite Hrb' |]. split; [by rewrite Hrb' |]. split; [by rewrite Hlen', Hrb' |].
  split; [constructor |]. intros j b Hj. apply (Hc j); [| done].
  apply lookup_lt_Some in Hj. unfold zlen in *. rewrite Hrb', Hn in Hlen'. lia.
Qed.

Lemma fold_append (D : nat -> list Duration) bs k l :
  (forall j b, bs !! j = Some b -> holds sz (D (k + j)%nat) b) ->
  fold_left (fun l b => appendDurations b l) bs l
  = l ++ (j ← seq k (length bs); clamp <$> ring sz (D j)).
Proof.
  revert k l. induction bs as [|b bs IH]; intros k l H; simpl; [by rewrite app_nil_r |].
  rewrite (holds_append sz (D k)) by (done || by rewrite <- (Nat.add_0_r k); apply (H 0%nat)).
  rewrite (IH (S k)), <- app_assoc; [done |].
  intros j b' Hj. replace (S k + j)%nat with (k + S j)%nat by lia. by apply (H (S j)).
Qed.

Lemma bind_permutation {A B} (f g : A -> list B) l :
  (forall x, f x ≡ₚ g x) -> (x ← l; f x) ≡ₚ (x ← l; g x).
Proof. intros H. induction l as [|x l IH]; simpl; [done |]. by rewrite H, IH. Qed.

(** The buckets stand for the indices of the window, each for one. *)
Lemma window_indices n L :
  0 < n ->
  (fun j => window_index n L (Z.of_nat j)) <$> seq 0 (Z.to_nat n) ≡ₚ seqZ (L - n + 1) n.
Proof.
  intros Hn. apply NoDup_Permutation; [| apply NoDup_seqZ |].
  - apply NoDup_fmap_2_strong; [| apply NoDup_seq]. intros j j' Hj%elem_of_seq Hj'%elem_of_seq E.
    destruct (window_index_spec n L (Z.of_nat j) Hn ltac:(lia)) as [_ Hm].
    destruct (window_index_spec n L (Z.of_nat j') Hn ltac:(lia)) as [_ Hm']. rewrite E in Hm. lia.
  - intros k. rewrite list_elem_of_fmap, elem_of_seqZ. split.
    + intros (j & -> & Hj%elem_of_seq). destruct (window_index_spec n L (Z.of_nat j) Hn); lia.
    + intros Hk. pose proof (Z.mod_pos_bound k n Hn). exists (Z.to_nat (k mod n)). split.
      * rewrite Z2Nat.id by lia. apply window_index_unique; lia.
      * apply elem_of_seq. lia.
Qed.

Lemma window_durations_permutation r w :
  represents r w ->
  fold_left (fun l b => appendDurations b l) (buckets r) [] ≡ₚ window_durations cfg sz w.
Proof.
  intros (Hrb & (Hn & _) & Hlen & _ & Hb). rewrite Hrb in Hn. simpl in Hn.
  set (D := fun j : nat => durations_at (window_index (NumBuckets cfg) (pl_last w) (Z.of_nat j)) (pl_events w)).
  rewrite (fold_append D (buckets r) 0%nat []) by exact Hb. simpl. unfold window_durations.
  rewrite <- (window_indices (NumBuckets cfg) (pl_last w)), list_fmap_bind by done.
  replace (length (buckets r)) with (Z.to_nat (NumBuckets cfg)) by (unfold zlen in Hlen; lia).
  apply bind_permutation. intros j. simpl. by rewrite ring_permutation.
Qed.

Lemma sort_unique l l' : l ≡ₚ l' -> merge_sort Z.le l = merge_sort Z.le l'.
Proof.
  intros H. apply (Sorted_unique Z.le); [apply (Sorted_merge_sort Z.le) .. |].
  by rewrite !merge_sort_Permutation.
Qed.

Lemma SortedDurations_represents now r w :
  represents r w ->
  exists r', SortedDurations now r
      = (Ret (merge_sort Z.le (window_durations cfg sz (plog_advance cfg now w))), r')
    /\ represents r' (plog_advance cfg now w).
Proof.
  intros Hr. destruct (durations_Advance_represents now r w Hr) as (r1 & E & Hr1). exists r1. split; [| done].
  unfold SortedDurations, bind, gets. rewrite (represents_nonempty r w Hr), E. unfold ret.
  do 2 f_equal. by apply sort_unique, window_durations_permutation.
Qed.

Lemma plog_add_length d now w :
  zlen (pl_events (plog_add cfg d now w)) <= zlen (pl_events w) + 1.
Proof using.
  clear. unfold plog_add. destruct (absIndexAt cfg now); simpl; [| lia].
  unfold zlen. rewrite length_app. simpl. lia.
Qed.

(** The durations given to [AddDuration] are values of their type. *)
Definition call_in_range (c : percentile_call) : Prop :=
  match c with CallAddDuration d _ => d <= max_int64 | _ => True end.

Lemma call_represents c r w :
  represents r w -> call_in_range c -> zlen (pl_events w) + 1 < max_int64 ->
  exists r', call_percentile c r = (Ret (fst (call_plog cfg sz c w)), r') /\
    represents r' (snd (call_plog cfg sz c w)) /\
    zlen (pl_events (snd (call_plog cfg sz c w))) <= zlen (pl_events w) + 1.
Proof.
  intros Hr Hc Hroom. pose proof (zlen_nonneg (pl_events w)). destruct c as [d now|now|now]; simpl in *.
  - destruct (AddDuration_represents d now r w Hr Hc Hroom) as (r' & E & Hr'). exists r'.
    unfold bind. rewrite E. split; [done |]. split; [done |]. apply plog_add_length.
  - destruct (SortedDurations_represents now r w Hr) as (r' & E & Hr'). exists r'.
    unfold bind. rewrite E. split; [done |]. split; [done | lia].
  - destruct (durations_Reset_represents now r w Hr) as (r' & E & Hr'). exists r'.
    unfold bind. rewrite E. split; [done |]. split; [done |]. unfold zlen in *. simpl. lia.
Qed.

Lemma run_represents cs r w :
  represents r w -> Forall call_in_range cs -> zlen (pl_events w) + zlen cs < max_int64 ->
  exists r', run_percentile cs r = (Ret (fst (run_plog cfg sz cs w)), r') /\
    represents r' (snd (run_plog cfg sz cs w)).
Proof.
  intros Hr Hcs. revert r w Hr. induction Hcs as [|c cs Hc Hcs IH]; intros r w Hr Hroom; [by exists r |].
  unfold zlen in Hroom. cbn [length] in Hroom.
  destruct (call_represents c r w Hr Hc) as (r1 & E1 & Hr1 & Hl); [unfold zlen; lia |].
  destruct (IH r1 _ Hr1) as (r2 & E2 & Hr2); [unfold zlen in *; lia |]. exists r2.
  simpl. destruct (call_plog cfg sz c w) as [v w1]. simpl in *.
  destruct (run_plog cfg sz cs w1) as [vs w2]. simpl in *. split; [| done].
  unfold bind. by rewrite E1, E2.
Qed.
End Refinement.

Lemma durations_New_represents w n sz start r :
  NewRollingPercentile w n sz start = Ret r -> 0 < w -> 0 < n -> 0 < sz ->
  max_int64 / w + n <= max_int64 ->
  represents (mkRollingBuckets n start w 0) (Z.to_nat sz) r (mkPercentileLog 0 []).
Proof.
  unfold NewRollingPercentile, makeBuckets. destruct (Z.ltb_spec n 0); [done |].
  destruct (Z.eqb_spec n 0); [lia |]. destruct (newDurationsBucket sz) as [b| | |] eqn:E; try done.
  intros [= <-] Hw Hn Hsz Hm. apply holds_new in E.
  assert (0 <= max_int64 / w) by (apply Z.div_pos; unfold max_int64; lia).
  split; [done |]. split; [by repeat split; simpl; try lia |].
  split; [simpl; unfold zlen; rewrite length_replicate; lia |]. split; [constructor |].
  intros j b' Hj. simpl in Hj. apply lookup_replicate in Hj as [-> _]. exact E.
Qed.

(** ** Statistics of a sorted list *)

Lemma fold_sum s acc :
  Forall (fun d => 0 <= d) s -> 0 <= acc -> acc + zsum s <= max_int64 ->
  fold_left (fun sum d => wrap64 (sum + d)) s acc = acc + zsum s.
Proof.
  intros H. revert acc. induction H as [|d s Hd Hs IH]; intros acc Ha Hm; [simpl; lia |].
  rewrite zsum_cons in *. simpl.
  assert (0 <= zsum s) by (clear -Hs; induction Hs; [done | rewrite zsum_cons; lia]).
  rewrite wrap64_id by (unfold min_int64; lia). rewrite IH by lia. lia.
Qed.

Lemma sorted_bounds s :
  StronglySorted Z.le s -> Forall (fun d => Min s <= d <= Max s) s.
Proof.
  induction 1 as [|d s Hs IH Hd]; [constructor |].
  assert (HM : Max (d :: s) = match s with [] => d | _ => Max s end) by (unfold Max; by destruct s).
  constructor; rewrite HM; simpl.
  - destruct s as [|d' s]; [lia |]. apply Forall_cons in Hd as [? _].
    apply Forall_cons in IH as [[_ ?] _]. lia.
  - rewrite Forall_forall in *. intros d' Hd'. specialize (IH d' Hd'). specialize (Hd d' Hd').
    destruct s; [by apply elem_of_nil in Hd' | split; [exact Hd | apply IH]].
Qed.

Lemma zsum_bounds s a b : Forall (fun d => a <= d <= b) s -> a * zlen s <= zsum s <= b * zlen s.
Proof.
  induction 1 as [|d s Hd Hs IH]; [unfold zlen; simpl; lia |].
  rewrite zsum_cons. unfold zlen in *. cbn [length]. lia.
Qed.

(** * Properties *)

(** The encoding of a slot loses nothing: it is injective on the durations of the type
    that are not negative, decoding it gives back the duration (0 for a negative one), and no
    duration is encoded as the mark of an unset slot, the largest one included, whose [+1]
    wraps around. *)
Theorem duration_encoding d d' :
  d <= max_int64 -> d' <= max_int64 ->
  decodeDuration (encodeDuration d) = Z.max 0 d /\ encodeDuration d <> unsetDuration /\
  (encodeDuration d = encodeDuration d' <-> Z.max 0 d = Z.max 0 d') /\
  encodeDuration max_int64 = min_int64.
Proof.
  intros Hd Hd'. split; [by apply decode_encode |]. split; [by apply encode_set |]. split; [split |].
  - intros H. by rewrite <- !(decode_encode _), H by done.
  - unfold encodeDuration. intros H. f_equal. zbool; lia.
  - by vm_compute.
Qed.

Lemma duration_encoding_witness :
  decodeDuration (encodeDuration (-7)) = 0 /\ encodeDuration (-7) <> unsetDuration /\
  (encodeDuration (-7) = encodeDuration 5 <-> Z.max 0 (-7) = Z.max 0 5) /\
  encodeDuration max_int64 = min_int64.
Proof. apply (duration_encoding (-7) 5); vm_compute; congruence. Defined.

(** A bucket keeps the latest durations: after any additions to a new bucket of [n] slots
    none of which panics, reading it appends the latest [n] of them (negative ones as 0), in
    the order they were added as long as they fit, in some order once they wrapped around; and
    clearing it then leaves a bucket that reads as empty. *)
Theorem bucket_keeps_latest n ds b :
  newDurationsBucket n = Ret b -> 0 < n -> Forall (fun d => d <= max_int64) ds ->
  zlen ds < max_int64 ->
  exists b' b'' kept, range_do addDuration ds b = (Ret tt, b') /\
    (forall l, appendDurations b' l = l ++ kept) /\
    kept ≡ₚ Z.max 0 <$> latest (Z.to_nat n) ds /\
    (zlen ds < n -> kept = Z.max 0 <$> ds) /\
    clear b' = (Ret tt, b'') /\ appendDurations b'' [] = [].
Proof.
  intros Hnew Hn Hds Hmax. apply holds_new in Hnew. assert (Hn' : (0 < Z.to_nat n)%nat) by lia.
  assert (H : forall pre b, holds (Z.to_nat n) pre b -> zlen (pre ++ ds) < max_int64 ->
    exists b', range_do addDuration ds b = (Ret tt, b') /\ holds (Z.to_nat n) (pre ++ ds) b').
  { clear Hnew b Hmax. induction Hds as [|d ds Hd Hds IH]; intros pre b Hb Hmax.
    - exists b. by rewrite app_nil_r.
    - unfold zlen in Hmax. rewrite length_app in Hmax. simpl in Hmax.
      destruct (holds_add _ pre d b Hb) as (b1 & E & Hb1); [unfold zlen; lia | done |].
      destruct (IH (pre ++ [d]) b1) as (b2 & E2 & Hb2);
        [apply Hb1; lia | unfold zlen; rewrite !length_app; simpl; lia |].
      exists b2. cbn [range_do]. unfold bind. rewrite E, E2. by rewrite <- app_assoc in Hb2. }
  destruct (H [] b Hnew Hmax) as (b' & E & Hb'). destruct (holds_clear _ _ _ Hb') as (b'' & Ec & Hb'').
  exists b', b'', (clamp <$> ring (Z.to_nat n) ds). split; [done |].
  split; [intros l; by apply holds_append |]. split; [by rewrite ring_permutation |].
  split; [intros Hlt; unfold ring; by rewrite decide_True by (unfold zlen in Hlt; lia) |].
  split; [done |]. rewrite (holds_append _ [] b'' []) by done. unfold ring. by rewrite decide_True by (simpl; lia).
Qed.

Lemma bucket_keeps_latest_witness :
  exists b' b'' kept, range_do addDuration [5; -1; 7; 9] (mkDurationsBucket [0; 0; 0] 0) = (Ret tt, b') /\
    (forall l, appendDurations b' l = l ++ kept) /\ kept ≡ₚ [0; 7; 9] /\
    (4 < 3 -> kept = [5; 0; 7; 9]) /\ clear b' = (Ret tt, b'') /\ appendDurations b'' [] = [].
Proof.
  apply (bucket_keeps_latest 3 [5; -1; 7; 9] (mkDurationsBucket [0; 0; 0] 0));
    first [reflexivity | repeat constructor; vm_compute; congruence].
Defined.

(** C19: [RollingPercentile] refines the log of its additions.  For every sequence of
    [AddDuration], [SortedDurations] and [Reset] calls, at any instants in any order, made on a
    new instance, no call panics, and [SortedDurations] returns the sorted list of exactly the
    logged durations of the window: for each of its [n] indices the latest [sz] logged there. *)
Theorem rolling_percentile_refines_log w n sz start cs r :
  NewRollingPercentile w n sz start = Ret r -> 0 < w -> 0 < n -> 0 < sz ->
  max_int64 / w + n <= max_int64 -> Forall call_in_range cs -> zlen cs < max_int64 ->
  exists r', run_percentile cs r
    = (Ret (fst (run_plog (mkRollingBuckets n start w 0) (Z.to_nat sz) cs (mkPercentileLog 0 []))), r').
Proof.
  intros Hnew Hw Hn Hsz Hm Hcs Hlen.
  destruct (run_represents (mkRollingBuckets n start w 0) (Z.to_nat sz) ltac:(lia) cs r
    (mkPercentileLog 0 []) (durations_New_represents w n sz start r Hnew Hw Hn Hsz Hm) Hcs) as (r' & E & _);
    [unfold zlen in *; simpl; lia |]. by exists r'.
Qed.

Lemma rolling_percentile_refines_log_witness :
  exists r', run_percentile
    [CallAddDuration 40 105; CallAddDuration 10 107; CallAddDuration 30 108; CallAddDuration 20 112;
     CallSortedDurations 119; CallSortedDurations 121; CallReset 122; CallSortedDurations 122]
    (mkRollingPercentile [mkDurationsBucket [0; 0] 0; mkDurationsBucket [0; 0] 0] (mkRollingBuckets 2 100 10 0))
  = (Ret [None; None; None; None; Some [10; 20; 30]; Some [20]; None; Some []], r').
Proof.
  apply (rolling_percentile_refines_log 10 2 2 100
    [CallAddDuration 40 105; CallAddDuration 10 107; CallAddDuration 30 108; CallAddDuration 20 112;
     CallSortedDurations 119; CallSortedDurations 121; CallReset 122; CallSortedDurations 122]);
    first [reflexivity | repeat constructor; vm_compute; congruence].
Defined.
(** The statistics of a sorted list of durations: [Min] and [Max] bound every element, the
    mean lies between them when the sum does not overflow, a percentile of 0 or less is the
    minimum and one of 100 or more the maximum; NaN and the empty list give -1. *)
Theorem sorted_statistics s p :
  StronglySorted Z.le s -> Forall (fun d => 0 <= d) s -> zsum s <= max_int64 -> s <> [] ->
  Forall (fun d => Min s <= d <= Max s) s /\ Min s <= Mean s <= Max s /\
  (is_nan p = true -> Percentile s p = Some (-1)) /\
  (is_nan p = false -> fle p (float64_of_int 0) = true -> Percentile s p = Some (Min s)) /\
  (is_nan p = false -> fle p (float64_of_int 0) = false -> fle (float64_of_int 100) p = true ->
     Percentile s p = Some (Max s)) /\
  Percentile [] p = Some (-1) /\ Min [] = -1 /\ Max [] = -1 /\ Mean [] = -1.
Proof.
  intros Hs Hpos Hsum Hne. pose proof (sorted_bounds s Hs) as Hb. split; [done |].
  assert (Hlen : 0 < zlen s) by (destruct s; [done | unfold zlen; simpl; lia]).
  assert (Hz : (zlen s =? 0) = false) by (apply Z.eqb_neq; lia).
  assert (Hmin : slice_get s 0 = Some (Min s)) by (by destruct s).
  assert (Hmax : slice_get s (zlen s - 1) = Some (Max s)).
  { unfold slice_get. destruct (Z.ltb_spec (zlen s - 1) 0); [lia |]. unfold Max.
    replace (Z.to_nat (zlen s - 1)) with (pred (length s)) by (unfold zlen; lia).
    rewrite <- last_lookup. destruct (last s) eqn:E; [done | by apply last_None in E]. }
  split.
  - unfold Mean. rewrite Hz, fold_sum, Z.add_0_l by (done || lia).
    pose proof (zsum_bounds s _ _ Hb). rewrite <- (Z.quot_mul (Min s) (zlen s)),
      <- (Z.quot_mul (Max s) (zlen s)) by lia. split; apply Z.quot_le_mono; lia.
  - unfold Percentile. rewrite Hz. split; [by intros -> |].
    split; [intros -> ->; by destruct (zlen s =? 1) |]. split; [| done].
    intros -> -> ->. simpl. destruct (Z.eqb_spec (zlen s) 1) as [E|_]; [| done].
    by rewrite E in Hmax.
Qed.

Lemma sorted_statistics_witness :
  Min [10; 20; 30] <= Mean [10; 20; 30] <= Max [10; 20; 30] /\
  Percentile [10; 20; 30] (float64_of_int 100) = Some 30.
Proof.
  destruct (sorted_statistics [10; 20; 30] (float64_of_int 100)) as (_ & Hm & _ & _ & Hp & _);
    [repeat constructor; lia | repeat constructor; lia | vm_compute; congruence | done |].
  split; [exact Hm |]. apply Hp; reflexivity.
Defined.
End RollingPercentile.
