(* ===== verification/ConcurrentBucket.v ===== *)
(** faststats/rolling_percentile.go: one [durationsBucket] with [addDuration], [appendDurations] and
    [clear] on any number of goroutines.

    RollingPercentile.v takes each of these methods as one step.  Here a [step] is one atomic operation:
    [addDuration] first takes a slot and then stores into it, [clear] loads the size, unsets slot after
    slot and resets the index, [appendDurations] loads the size and then slot after slot
    ([addDuration_runs], [clear_runs], [appendDurations_runs]).  Whatever the interleaving, a reader
    reports only durations that were added; and as long as no [clear] overlaps an addition - which is
    what [RollingBuckets] arranges, and what [g_late] counts the exceptions of - it reports none that
    was added before the last [clear] ([readers_report_no_stale_durations]), and what was added since is
    all there ([concurrent_additions_are_kept]). *)

From stdpp Require Import relations.
From S2P Require Import Prelude GoMonad RollingBuckets RollingPercentile.

Open Scope Z_scope.

Module ConcurrentBucket.
Import RollingPercentile.

(** * Calls in progress *)

Inductive task :=
| Adding (d : Duration)                              (* about to take a slot *)
| Storing (d : Duration) (slot : Z) (number : nat)   (* has the reservation of this number *)
| Sizing                                             (* clear, about to load the index *)
| Unsetting (i used : Z)
| Resetting                                          (* about to reset the index *)
| Loading                                            (* appendDurations, about to load the index *)
| Scanning (since : nat) (i size : Z) (acc : list Duration)
| Reported (since : nat) (acc : list Duration)
| Finished.

Definition storing (t : task) : bool := match t with Storing _ _ _ => true | _ => false end.
Definition clearing (t : task) : bool := match t with Unsetting _ _ | Resetting => true | _ => false end.

(** What the invariants talk about: the number of resets, the durations that took a slot since the last
    one, all that ever did with the epoch they did it in, and the overlaps of additions and clears. *)
Record ghost := mkGhost {
  g_epoch : nat;
  g_reserved : list Duration;
  g_all : list (nat * Duration);
  g_late : nat
}.

Record sys := mkSys { bucket : durationsBucket; tasks : list task; g : ghost }.

Definition reserve (ts : list task) (d : Duration) (gh : ghost) : ghost :=
  mkGhost (g_epoch gh) (g_reserved gh ++ [d]) (g_all gh ++ [(g_epoch gh, d)])
    (if existsb clearing ts then S (g_late gh) else g_late gh).

Definition start_clear (ts : list task) (gh : ghost) : ghost :=
  mkGhost (g_epoch gh) (g_reserved gh) (g_all gh) (if existsb storing ts then S (g_late gh) else g_late gh).

Definition reset (gh : ghost) : ghost := mkGhost (S (g_epoch gh)) [] (g_all gh) (g_late gh).

(** [b.currentIndex.Add(1)] and the slot it gives. *)
Definition next_index (b : durationsBucket) : Z := wrap64 (currentIndex b + 1).
Definition array_index (b : durationsBucket) : Z :=
  Z.rem (wrap64 (next_index b - 1)) (zlen (durationsSomeInvalid b)).

(** What is appended for the value of a slot. *)
Definition report (v : Z) (acc : list Duration) : list Duration :=
  if v =? unsetDuration then acc else acc ++ [decodeDuration v].

Definition is_call (t : task) : bool := match t with Adding _ | Sizing | Loading => true | _ => false end.
Definition in_range (t : task) : Prop := match t with Adding d => d <= max_int64 | _ => True end.

Inductive step : sys -> sys -> Prop :=
| StepCall b ts gh t :
    is_call t = true -> in_range t -> step (mkSys b ts gh) (mkSys b (ts ++ [t]) gh)
| StepAddNone b ts gh i d :
    ts !! i = Some (Adding d) -> zlen (durationsSomeInvalid b) = 0 ->
    step (mkSys b ts gh) (mkSys b (<[i := Finished]> ts) gh)
| StepReserve b ts gh i d :
    ts !! i = Some (Adding d) -> zlen (durationsSomeInvalid b) <> 0 ->
    step (mkSys b ts gh)
      (mkSys (mkDurationsBucket (durationsSomeInvalid b) (next_index b))
         (<[i := Storing d (array_index b) (length (g_reserved gh))]> ts) (reserve ts d gh))
| StepStore b b' ts gh i d slot number :
    ts !! i = Some (Storing d slot number) -> slot_Set slot (encodeDuration d) b = (Ret tt, b') ->
    step (mkSys b ts gh) (mkSys b' (<[i := Finished]> ts) gh)
| StepSize b ts gh i :
    ts !! i = Some Sizing ->
    step (mkSys b ts gh) (mkSys b (<[i := Unsetting 0 (size b)]> ts) (start_clear ts gh))
| StepUnset b b' ts gh i j used :
    ts !! i = Some (Unsetting j used) -> j < used -> slot_Set j unsetDuration b = (Ret tt, b') ->
    step (mkSys b ts gh) (mkSys b' (<[i := Unsetting (j + 1) used]> ts) gh)
| StepUnsetEnd b ts gh i j used :
    ts !! i = Some (Unsetting j used) -> used <= j ->
    step (mkSys b ts gh) (mkSys b (<[i := Resetting]> ts) gh)
| StepReset b ts gh i :
    ts !! i = Some Resetting ->
    step (mkSys b ts gh) (mkSys (mkDurationsBucket (durationsSomeInvalid b) 0) (<[i := Finished]> ts) (reset gh))
| StepLoad b ts gh i :
    ts !! i = Some Loading ->
    step (mkSys b ts gh) (mkSys b (<[i := Scanning (g_epoch gh) 0 (size b) []]> ts) gh)
| StepScan b ts gh i since j max acc v :
    ts !! i = Some (Scanning since j max acc) -> j < max -> slice_get (durationsSomeInvalid b) j = Some v ->
    step (mkSys b ts gh) (mkSys b (<[i := Scanning since (j + 1) max (report v acc)]> ts) gh)
| StepReport b ts gh i since j max acc :
    ts !! i = Some (Scanning since j max acc) -> max <= j ->
    step (mkSys b ts gh) (mkSys b (<[i := Reported since acc]> ts) gh).

(** A new bucket that nobody has used. *)
Definition initial (b : durationsBucket) : sys := mkSys b [] (mkGhost 0 [] [] 0).

(** ** Schedules *)

Definition next (i : nat) (s : sys) : option sys :=
  let b := bucket s in let ts := tasks s in let gh := g s in
  let go b' t gh' := Some (mkSys b' (<[i := t]> ts) gh') in
  match ts !! i with
  | Some (Adding d) =>
      if decide (zlen (durationsSomeInvalid b) = 0) then go b Finished gh
      else go (mkDurationsBucket (durationsSomeInvalid b) (next_index b))
             (Storing d (array_index b) (length (g_reserved gh))) (reserve ts d gh)
  | Some (Storing d slot number) =>
      match slot_Set slot (encodeDuration d) b with (Ret _, b') => go b' Finished gh | _ => None end
  | Some Sizing => go b (Unsetting 0 (size b)) (start_clear ts gh)
  | Some (Unsetting j used) =>
      if decide (j < used) then
        match slot_Set j unsetDuration b with (Ret _, b') => go b' (Unsetting (j + 1) used) gh | _ => None end
      else go b Resetting gh
  | Some Resetting => go (mkDurationsBucket (durationsSomeInvalid b) 0) Finished (reset gh)
  | Some Loading => go b (Scanning (g_epoch gh) 0 (size b) []) gh
  | Some (Scanning since j max acc) =>
      if decide (j < max) then
        v ← slice_get (durationsSomeInvalid b) j; go b (Scanning since (j + 1) max (report v acc)) gh
      else go b (Reported since acc) gh
  | _ => None
  end.

Fixpoint schedule (js : list nat) (s : sys) : option sys :=
  match js with
  | [] => Some s
  | j :: js' => s' ← next j s; schedule js' s'
  end.

Lemma bucket_next_step i s s' : next i s = Some s' -> step s s'.
Proof.
  destruct s as [b ts gh]. unfold next. cbn [bucket tasks g].
  destruct (ts !! i) as [[d|d j k| |j used| | |e j m acc|e acc|]|] eqn:Hi; try done.
  - destruct (decide _); intros [= <-]; [by eapply StepAddNone | by apply StepReserve].
  - destruct (slot_Set _ _ b) as [[[]| | |] b'] eqn:E; try done. intros [= <-]. by eapply StepStore.
  - intros [= <-]. by apply StepSize.
  - destruct (decide _); [| intros [= <-]; eapply StepUnsetEnd; [exact Hi | lia]].
    destruct (slot_Set _ _ b) as [[[]| | |] b'] eqn:E; try done. intros [= <-]. by eapply StepUnset.
  - intros [= <-]. by apply StepReset.
  - intros [= <-]. by apply StepLoad.
  - destruct (decide _); [| intros [= <-]; eapply StepReport; [exact Hi | lia]].
    destruct (slice_get _ _) as [v|] eqn:E; [| done]. intros [= <-]. by eapply StepScan.
Qed.

Lemma bucket_schedule_steps js s s' : schedule js s = Some s' -> rtc step s s'.
Proof.
  revert s. induction js as [|j js IH]; intros s; cbn [schedule]; [by intros [= <-] |].
  destruct (next j s) as [s1|] eqn:E; [| done]. intros H. eapply rtc_l; [by eapply bucket_next_step | by apply IH].
Qed.

(** * Lemmas *)

Definition no (p : task -> bool) (ts : list task) : Prop := forall j t, ts !! j = Some t -> p t = false.

Lemma existsb_no p ts : existsb p ts = false <-> no p ts.
Proof.
  unfold no. induction ts as [|t ts IH]; simpl; [done |]. rewrite orb_false_iff, IH. split.
  - intros [Ht H] [|j] t' E; simpl in E; [by simplify_eq | by eapply H].
  - intros H. split; [by apply (H 0%nat) | intros j; apply (H (S j))].
Qed.

Lemma no_insert p ts i t : no p ts -> p t = false -> no p (<[i := t]> ts).
Proof. intros H Ht j t' [(<- & <- & _)|(_ & E)]%list_lookup_insert_Some; [done | by eapply H]. Qed.

(** Nothing else than the task at [i] changes. *)
Lemma no_insert_inv p ts i t t' : no p (<[i := t']> ts) -> ts !! i = Some t -> (p t = true -> p t' = true) -> no p ts.
Proof.
  intros H Hi Ht j u E. destruct (decide (i = j)) as [<-|Hne].
  - destruct (p u) eqn:Eu; [| done]. rewrite E in Hi. injection Hi as ->. rewrite <- (H i t'); [symmetry; by apply Ht |].
    apply list_lookup_insert_eq. by eapply lookup_lt_Some.
  - apply (H j). by rewrite list_lookup_insert_ne.
Qed.

(** What a reader has seen so far. *)
Definition seen (t : task) : option (nat * list Duration) :=
  match t with Scanning since _ _ acc | Reported since acc => Some (since, acc) | _ => None end.

(** A reported duration was added, in epoch [since] or later. *)
Definition added (since : nat) (gh : ghost) (x : Duration) : Prop :=
  exists e d, (since <= e)%nat /\ (e, d) ∈ g_all gh /\ x = clamp d.

Lemma added_mono since since' gh gh' x :
  (since' <= since)%nat -> g_all gh ⊆ g_all gh' -> added since gh x -> added since' gh' x.
Proof. intros Hs Hg (e & d & He & Hd & ->). exists e, d. split; [lia |]. split; [by apply Hg | done]. Qed.

Lemma slot_Set_inv i v b b' :
  slot_Set i v b = (Ret tt, b') ->
  0 <= i < zlen (durationsSomeInvalid b) /\ b' = mkDurationsBucket (<[Z.to_nat i := v]> (durationsSomeInvalid b)) (currentIndex b).
Proof.
  intros H. destruct (decide (0 <= i < zlen (durationsSomeInvalid b))) as [Hi|Hi].
  - rewrite slot_Set_spec in H by done. split; [done |]. by injection H as <-.
  - unfold slot_Set in H. by rewrite slice_set_None in H.
Qed.

Lemma index_run N b :
  (0 < N)%nat -> length (durationsSomeInvalid b) = N -> 0 <= currentIndex b < max_int64 ->
  next_index b = currentIndex b + 1 /\ array_index b = Z.of_nat (Z.to_nat (currentIndex b) mod N).
Proof.
  intros HN Hl Hi. unfold array_index, next_index. rewrite wrap64_id by (unfold min_int64, max_int64 in *; lia).
  rewrite Z.add_simpl_r, wrap64_id by (unfold min_int64; lia). split; [done |].
  unfold zlen. rewrite Hl, Nat2Z.inj_mod, Z2Nat.id by lia. apply Z.rem_mod_nonneg; lia.
Qed.

Lemma late_mono s s' : step s s' -> (g_late (g s) <= g_late (g s'))%nat.
Proof. destruct 1; cbn; try done; destruct (existsb _ _); lia. Qed.

Lemma all_mono s s' : step s s' -> zlen (g_all (g s)) <= zlen (g_all (g s')).
Proof. unfold zlen. destruct 1; cbn; try rewrite length_app; lia. Qed.

(** ** The invariants *)

Section Invariants.
Context (N : nat).
Hypothesis HN : (0 < N)%nat.

Definition task_ok (gh : ghost) (t : task) : Prop :=
  match t with
  | Adding d => d <= max_int64
  | Storing d slot _ => 0 <= slot < Z.of_nat N /\ exists e, (e, d) ∈ g_all gh
  | Unsetting j used => 0 <= j /\ used <= Z.of_nat N
  | Scanning _ j max acc => 0 <= j /\ max <= Z.of_nat N /\ Forall (added 0 gh) acc
  | Reported _ acc => Forall (added 0 gh) acc
  | _ => True
  end.

(** What holds in every interleaving. *)
Record sound (s : sys) : Prop := mkSound {
  so_slots : length (durationsSomeInvalid (bucket s)) = N;
  so_index : 0 <= currentIndex (bucket s) <= zlen (g_all (g s));
  so_range : forall e d, (e, d) ∈ g_all (g s) -> d <= max_int64;
  so_values : Forall (fun v => v = unsetDuration \/ exists e d, (e, d) ∈ g_all (g s) /\ v = encodeDuration d)
                (durationsSomeInvalid (bucket s));
  so_tasks : Forall (task_ok (g s)) (tasks s)
}.

(** What holds as long as additions and clears do not overlap. *)
Record exact (s : sys) : Prop := mkExact {
  ex_index : currentIndex (bucket s) = zlen (g_reserved (g s));
  ex_slots : forall k v, durationsSomeInvalid (bucket s) !! k = Some v ->
    v = unsetDuration \/ exists num d, g_reserved (g s) !! num = Some d /\ (num mod N)%nat = k /\ v = encodeDuration d;
  ex_storing : forall i d slot num, tasks s !! i = Some (Storing d slot num) ->
    g_reserved (g s) !! num = Some d /\ slot = Z.of_nat (num mod N);
  ex_excl : no clearing (tasks s) \/ no storing (tasks s);
  ex_pending : no clearing (tasks s) -> forall num, (num < length (g_reserved (g s)))%nat ->
    durationsSomeInvalid (bucket s) !! (num mod N)%nat = Some unsetDuration ->
    exists i d slot, tasks s !! i = Some (Storing d slot num);
  ex_unsetting : forall i j used, tasks s !! i = Some (Unsetting j used) ->
    forall k v, durationsSomeInvalid (bucket s) !! k = Some v -> Z.of_nat k < j \/ used <= Z.of_nat k -> v = unsetDuration;
  ex_resetting : forall i, tasks s !! i = Some Resetting ->
    forall k v, durationsSomeInvalid (bucket s) !! k = Some v -> v = unsetDuration;
  ex_epoch : forall d, d ∈ g_reserved (g s) -> (g_epoch (g s), d) ∈ g_all (g s);
  ex_seen : forall i t since acc, tasks s !! i = Some t -> seen t = Some (since, acc) ->
    (since <= g_epoch (g s))%nat /\ Forall (added since (g s)) acc
}.

Lemma task_ok_mono gh gh' t : g_all gh ⊆ g_all gh' -> task_ok gh t -> task_ok gh' t.
Proof using.
  intros Hg. destruct t; cbn; try done.
  - intros (? & e & ?). split; [done |]. exists e. by apply Hg.
  - intros (? & ? & H). split; [done |]. split; [done |]. eapply Forall_impl; [exact H |]. intros x. by apply added_mono.
  - intros H. eapply Forall_impl; [exact H |]. intros x. by apply added_mono.
Qed.

(** The reports of a reader of a slot. *)
Lemma report_added since gh v acc :
  (forall e d, (e, d) ∈ g_all gh -> d <= max_int64) ->
  v = unsetDuration \/ (exists e d, (since <= e)%nat /\ (e, d) ∈ g_all gh /\ v = encodeDuration d) ->
  Forall (added since gh) acc -> Forall (added since gh) (report v acc).
Proof using.
  intros Hr Hv Hacc. unfold report. destruct (Z.eqb_spec v unsetDuration) as [|Hne]; [done |].
  destruct Hv as [|(e & d & He & Hd & ->)]; [done |]. apply Forall_app_2; [done |]. constructor; [| constructor].
  exists e, d. split; [done |]. split; [done |]. apply decode_encode. by eapply Hr.
Qed.

Lemma sound_step s s' : sound s -> zlen (g_all (g s)) < max_int64 -> step s s' -> sound s'.
Proof.
  intros [Hl Hidx Hr Hv Ht] Hmax Hst.
  assert (Htask : forall i t, tasks s !! i = Some t -> task_ok (g s) t) by (rewrite Forall_lookup in Ht; exact Ht).
  destruct Hst as [b ts gh t Hc Hir|b ts gh i d Ei Hn|b ts gh i d Ei Hn|b b' ts gh i d slot num Ei E|b ts gh i Ei
    |b b' ts gh i j used Ei Hj E|b ts gh i j used Ei Hj|b ts gh i Ei|b ts gh i Ei|b ts gh i since j max acc v Ei Hj Ev
    |b ts gh i since j max acc Ei Hj]; cbn [bucket tasks g] in *;
    try (specialize (Htask _ _ Ei); cbn in Htask);
    try (apply slot_Set_inv in E as [Hslot ->]).
  all: assert (Hzl : zlen (durationsSomeInvalid b) = Z.of_nat N) by (unfold zlen; lia).
  all: try (split; cbn [bucket tasks g durationsSomeInvalid currentIndex]; try rewrite length_insert; try done;
    try (apply Forall_insert; [done | cbn]); try done).
  - apply Forall_app_2; [done |]. constructor; [| constructor]. by destruct t.
  - destruct (index_run N b HN Hl) as [-> _]; [lia |]. unfold zlen in *. cbn. rewrite length_app. cbn. lia.
  - intros e d' [?|[= -> ->]%list_elem_of_singleton]%elem_of_app; [by eapply Hr | done].
  - eapply Forall_impl; [exact Hv |]. intros v [->|(e & d' & Hd & ->)]; [by left |]. right. exists e, d'. split; [apply elem_of_app; by left | done].
  - apply Forall_insert; [eapply Forall_impl; [exact Ht |]; intros t; apply task_ok_mono; by apply list_subseteq_app_l |].
    destruct (index_run N b HN Hl) as [_ ->]; [lia |]. split; [pose proof (Nat.mod_upper_bound (Z.to_nat (currentIndex b)) N); lia |].
    exists (g_epoch gh). apply elem_of_app. right. by apply list_elem_of_singleton.
  - destruct Htask as (_ & e & Hd). right. by exists e, d.
  - unfold size. lia.
  - by left.
  - lia.
  - cbn. pose proof (zlen_nonneg (g_all gh)). lia.
  - unfold size. repeat split; [lia .. | constructor].
  - destruct Htask as (Hj0 & Hm & Hacc). repeat split; [lia .. |]. apply report_added; [done | | done].
    apply slice_get_lookup in Ev as [_ Ev]. destruct (Forall_lookup_1 _ _ _ _ Hv Ev) as [|(e & d & Hd & ->)]; [by left |].
    right. exists e, d. split; [lia | done].
  - apply Htask.
Qed.

(** ** Steps that keep [exact] *)

Section Exact.
Context (b : durationsBucket) (ts : list task) (gh : ghost) (i : nat).
Hypothesis Hex : exact (mkSys b ts gh).
Abbreviation slots := (durationsSomeInvalid b).

(** What the new task at [i] has to bring. *)
Definition fits (t' : task) : Prop :=
  storing t' = false /\ (clearing t' = true -> no storing ts) /\
  (forall j used, t' = Unsetting j used ->
     forall k v, slots !! k = Some v -> Z.of_nat k < j \/ used <= Z.of_nat k -> v = unsetDuration) /\
  (t' = Resetting -> forall k v, slots !! k = Some v -> v = unsetDuration) /\
  (forall since acc, seen t' = Some (since, acc) -> (since <= g_epoch gh)%nat /\ Forall (added since gh) acc).

Lemma exact_call t : fits t -> clearing t = false -> exact (mkSys b (ts ++ [t]) gh).
Proof using Hex.
  destruct Hex as [H1 H2 H3 H4 H5 H6 H7 H8 H9]. intros (Hs & _ & _ & _ & Hseen) Hc. cbn [bucket tasks g] in *.
  assert (Hno : no clearing (ts ++ [t]) -> no clearing ts).
  { intros H j u Hj. apply (H j). by apply lookup_app_l_Some. }
  split; cbn [bucket tasks g]; try done.
  - intros j d slot num [[_ Hj]|[_ E]]%lookup_snoc_Some; [by eapply H3 | by subst t].
  - destruct H4 as [H4|H4]; [left|right]; intros j u [[_ Hj]|[_ <-]]%lookup_snoc_Some; try done; by eapply H4.
  - intros Hn num Hnum Hu. destruct (H5 (Hno Hn) num Hnum Hu) as (j & d & slot & Hj). exists j, d, slot.
    by apply lookup_app_l_Some.
  - intros j j' used [[_ Hj]|[_ E]]%lookup_snoc_Some; [by eapply H6 | by subst t].
  - intros j [[_ Hj]|[_ E]]%lookup_snoc_Some; [by eapply H7 | by subst t].
  - intros j u since acc [[_ Hj]|[_ <-]]%lookup_snoc_Some; [by eapply H9 | apply Hseen].
Qed.

Lemma exact_task t t' :
  ts !! i = Some t -> storing t = false -> (clearing t = true -> clearing t' = true) -> fits t' ->
  exact (mkSys b (<[i := t']> ts) gh).
Proof using Hex.
  destruct Hex as [H1 H2 H3 H4 H5 H6 H7 H8 H9]. intros Hi Ht Hct (Hs & Hc & Hun & Hres & Hseen). cbn [bucket tasks g] in *.
  split; cbn [bucket tasks g]; try done.
  - intros j d slot num [(_ & E & _)|(_ & Hj)]%list_lookup_insert_Some; [by subst t' | by eapply H3].
  - destruct (clearing t') eqn:Et; [right; apply no_insert; [by apply Hc | done] |].
    destruct H4 as [H4|H4]; [left | right]; by apply no_insert.
  - intros Hn num Hnum Hu. pose proof (no_insert_inv _ _ _ _ _ Hn Hi Hct) as Hn'.
    destruct (H5 Hn' num Hnum Hu) as (j & d & slot & Hj). exists j, d, slot.
    rewrite list_lookup_insert_ne; [done |]. intros ->. rewrite Hi in Hj. by injection Hj as ->.
  - intros j j' used [(_ & E & _)|(_ & Hj)]%list_lookup_insert_Some; [by eapply Hun | by eapply H6].
  - intros j [(_ & E & _)|(_ & Hj)]%list_lookup_insert_Some; [by apply Hres | by eapply H7].
  - intros j u since acc [(_ & <- & _)|(_ & Hj)]%list_lookup_insert_Some; [apply Hseen | by eapply H9].
Qed.

Hypothesis Hl : length slots = N.

Lemma exact_reserve d :
  ts !! i = Some (Adding d) -> no clearing ts -> zlen (g_all gh) < max_int64 ->
  0 <= currentIndex b <= zlen (g_all gh) ->
  exact (mkSys (mkDurationsBucket slots (next_index b))
           (<[i := Storing d (array_index b) (length (g_reserved gh))]> ts) (reserve ts d gh)).
Proof using Hex Hl HN.
  intros Hi Hno Hmax Hidx. destruct (index_run N b HN Hl) as [-> ->]; [lia |].
  destruct Hex as [H1 H2 H3 H4 H5 H6 H7 H8 H9]. cbn [bucket tasks g] in *.
  rewrite H1. assert (Hlen : Z.to_nat (zlen (g_reserved gh)) = length (g_reserved gh)) by (unfold zlen; lia). rewrite Hlen.
  assert (Hres : forall num x, g_reserved gh !! num = Some x -> (g_reserved gh ++ [d]) !! num = Some x)
    by (intros; by apply lookup_app_l_Some).
  split; cbn [bucket tasks g reserve g_reserved g_epoch g_all durationsSomeInvalid currentIndex].
  - unfold zlen. rewrite length_app. cbn. lia.
  - intros k v Hv. destruct (H2 k v Hv) as [|(num & x & Hx & ?)]; [by left | right]. exists num, x. split; [by apply Hres | done].
  - intros j x slot num [(_ & E & _)|(_ & Hj)]%list_lookup_insert_Some.
    + injection E as -> <- <-. split; [| done]. by rewrite lookup_app_r, Nat.sub_diag.
    + destruct (H3 _ _ _ _ Hj). split; [by apply Hres | done].
  - left. by apply no_insert.
  - intros _ num Hnum Hu. rewrite length_app in Hnum. cbn in Hnum.
    assert (Hlt : (i < length ts)%nat) by by eapply lookup_lt_Some.
    destruct (decide (num = length (g_reserved gh))) as [->|Hne].
    + eexists i, _, _. by apply list_lookup_insert_eq.
    + destruct (H5 Hno num ltac:(lia) Hu) as (j & x & slot & Hj). exists j, x, slot.
      rewrite list_lookup_insert_ne; [done |]. intros ->. by rewrite Hi in Hj.
  - intros j j' used [(_ & E & _)|(_ & Hj)]%list_lookup_insert_Some; [done | by eapply H6].
  - intros j [(_ & E & _)|(_ & Hj)]%list_lookup_insert_Some; [done | by eapply H7].
  - intros x [Hx|Hx%list_elem_of_singleton]%elem_of_app; apply elem_of_app; [left; by apply H8 | right; subst x; by apply list_elem_of_singleton].
  - intros j u since acc [(_ & <- & _)|(_ & Hj)]%list_lookup_insert_Some Hseen; [done |].
    destruct (H9 _ _ _ _ Hj Hseen) as [? Hacc]. split; [done |]. eapply Forall_impl; [exact Hacc |].
    intros x. apply added_mono; [done |]. cbn. by apply list_subseteq_app_l.
Qed.

Lemma exact_store d slot num :
  ts !! i = Some (Storing d slot num) -> 0 <= slot < zlen slots -> d <= max_int64 ->
  exact (mkSys (mkDurationsBucket (<[Z.to_nat slot := encodeDuration d]> slots) (currentIndex b)) (<[i := Finished]> ts) gh).
Proof using Hex Hl HN.
  intros Hi Hslot Hd. destruct Hex as [H1 H2 H3 H4 H5 H6 H7 H8 H9]. cbn [bucket tasks g] in *.
  destruct (H3 _ _ _ _ Hi) as [Hnum ->]. rewrite Nat2Z.id in *.
  assert (Hno : no clearing ts).
  { destruct H4 as [|H4]; [done |]. by specialize (H4 _ _ Hi). }
  split; cbn [bucket tasks g durationsSomeInvalid currentIndex]; try done.
  - intros k v [(<- & <- & _)|(_ & Hv)]%list_lookup_insert_Some; [right; by exists num, d | by apply H2].
  - intros j x slot num' [(_ & E & _)|(_ & Hj)]%list_lookup_insert_Some; [done | by eapply H3].
  - left. by apply no_insert.
  - intros _ num' Hlt [(_ & E & _)|(Hne & Hu)]%list_lookup_insert_Some; [by apply encode_set in E |].
    destruct (H5 Hno num' Hlt Hu) as (j & x & slot & Hj). exists j, x, slot. rewrite list_lookup_insert_ne; [done |].
    intros ->. rewrite Hi in Hj. by injection Hj as _ _ ->.
  - intros j j' used [(_ & E & _)|(_ & Hj)]%list_lookup_insert_Some; [done | by specialize (Hno _ _ Hj)].
  - intros j [(_ & E & _)|(_ & Hj)]%list_lookup_insert_Some; [done | by specialize (Hno _ _ Hj)].
  - intros j u since acc [(_ & <- & _)|(_ & Hj)]%list_lookup_insert_Some; [done | by eapply H9].
Qed.

Lemma exact_unset j used :
  ts !! i = Some (Unsetting j used) -> 0 <= j ->
  exact (mkSys (mkDurationsBucket (<[Z.to_nat j := unsetDuration]> slots) (currentIndex b)) (<[i := Unsetting (j + 1) used]> ts) gh).
Proof using Hex Hl HN.
  intros Hi Hj0. destruct Hex as [H1 H2 H3 H4 H5 H6 H7 H8 H9]. cbn [bucket tasks g] in *.
  assert (Hset : forall k v, <[Z.to_nat j := unsetDuration]> slots !! k = Some v ->
    v = unsetDuration \/ (k <> Z.to_nat j /\ slots !! k = Some v)).
  { intros k v [(_ & <- & _)|(? & Hv)]%list_lookup_insert_Some; [by left | right; by split]. }
  split; cbn [bucket tasks g durationsSomeInvalid currentIndex]; try done.
  - intros k v [|[_ Hv]]%Hset; [by left | by apply H2].
  - intros j' x slot num [(_ & E & _)|(_ & Hj)]%list_lookup_insert_Some; [done | by eapply H3].
  - destruct H4 as [H4|H4]; [by specialize (H4 _ _ Hi) | right; by apply no_insert].
  - intros Hn. exfalso. assert (Hlt : (i < length ts)%nat) by by eapply lookup_lt_Some.
    by specialize (Hn i _ (list_lookup_insert_eq _ _ _ Hlt)).
  - intros j' i' used' [(_ & E & _)|(_ & Hj)]%list_lookup_insert_Some k v [|[Hne Hv]]%Hset Hk; try done.
    + injection E as <- <-. apply (H6 _ _ _ Hi k); [done | lia].
    + by apply (H6 _ _ _ Hj k).
  - intros j' [(_ & E & _)|(_ & Hj)]%list_lookup_insert_Some k v [|[Hne Hv]]%Hset; try done. by eapply H7.
  - intros j' u since acc [(_ & <- & _)|(_ & Hj)]%list_lookup_insert_Some; [done | by eapply H9].
Qed.

Lemma exact_reset :
  ts !! i = Some Resetting -> exact (mkSys (mkDurationsBucket slots 0) (<[i := Finished]> ts) (reset gh)).
Proof using Hex Hl HN.
  intros Hi. destruct Hex as [H1 H2 H3 H4 H5 H6 H7 H8 H9]. cbn [bucket tasks g] in *.
  assert (Hno : no storing ts) by (destruct H4 as [H4|H4]; [by specialize (H4 _ _ Hi) | done]).
  split; cbn [bucket tasks g reset g_reserved g_epoch g_all durationsSomeInvalid currentIndex]; try done.
  - intros k v Hv. left. by eapply H7.
  - intros j x slot num [(_ & E & _)|(_ & Hj)]%list_lookup_insert_Some; [done | by specialize (Hno _ _ Hj)].
  - right. by apply no_insert.
  - intros _ num Hnum. cbn in Hnum. lia.
  - intros j j' used [(_ & E & _)|(_ & Hj)]%list_lookup_insert_Some; [done | by eapply H6].
  - intros j [(_ & E & _)|(_ & Hj)]%list_lookup_insert_Some; [done | by eapply H7].
  - intros x Hx. by apply elem_of_nil in Hx.
  - intros j u since acc [(_ & <- & _)|(_ & Hj)]%list_lookup_insert_Some Hseen; [done |].
    destruct (H9 _ _ _ _ Hj Hseen). split; [lia | done].
Qed.
End Exact.

(** When [clear] starts without an addition in progress, the slots past [size] are unset. *)
Lemma past_size b ts gh k v :
  exact (mkSys b ts gh) -> length (durationsSomeInvalid b) = N ->
  durationsSomeInvalid b !! k = Some v -> size b <= Z.of_nat k -> v = unsetDuration.
Proof.
  intros [H1 H2 _ _ _ _ _ _ _] Hl Hv Hk. cbn in *. unfold size, zlen in *. rewrite Hl, H1 in Hk.
  destruct (H2 k v Hv) as [|(num & d & Hnum & Hm & _)]; [done |].
  apply lookup_lt_Some in Hnum, Hv. rewrite Nat.mod_small in Hm by lia. lia.
Qed.

Lemma exact_step s s' :
  exact s -> sound s -> zlen (g_all (g s)) < max_int64 -> step s s' -> g_late (g s') = 0%nat -> exact s'.
Proof.
  intros Hex Hso Hmax Hst Hlate. pose proof Hso as [Hl Hidx Hr _ Ht].
  assert (Htask : forall i t, tasks s !! i = Some t -> task_ok (g s) t) by (rewrite Forall_lookup in Ht; exact Ht).
  pose proof Hex as [_ H2 _ _ _ H6 _ H8 H9].
  destruct Hst as [b ts gh t Hc Hir|b ts gh i d Ei Hn|b ts gh i d Ei Hn|b b' ts gh i d slot num Ei E|b ts gh i Ei
    |b b' ts gh i j used Ei Hj E|b ts gh i j used Ei Hj|b ts gh i Ei|b ts gh i Ei|b ts gh i since j max acc v Ei Hj Ev
    |b ts gh i since j max acc Ei Hj]; cbn [bucket tasks g] in *;
    try (specialize (Htask _ _ Ei); cbn in Htask);
    try (apply slot_Set_inv in E as [Hslot ->]).
  - apply exact_call; [done | | by destruct t]. by destruct t.
  - by eapply exact_task.
  - apply exact_reserve; try done. apply existsb_no. unfold reserve in Hlate. cbn in Hlate. by destruct (existsb _ _).
  - apply exact_store with num; [done .. |]. destruct Htask as (_ & e & Hd). by eapply Hr.
  - unfold start_clear in *. cbn in Hlate. destruct (existsb storing ts) eqn:En; [done |]. apply existsb_no in En.
    replace (mkGhost _ _ _ _) with gh by (by destruct gh). eapply exact_task; try done. split; [done |]. split; [done |].
    split; [| done]. intros j used [= <- <-] k v Hv [|Hk]; [lia | by eapply past_size].
  - apply exact_unset; [done .. | lia].
  - eapply exact_task; try done. split; [done |]. split.
    + intros _. destruct Hex as [_ _ _ [H4|H4] _ _ _ _ _]; [by specialize (H4 _ _ Ei) | done].
    + split; [done |]. split; [| done]. intros _ k v Hv. apply (H6 _ _ _ Ei k v Hv). lia.
  - by apply exact_reset.
  - eapply exact_task; try done. do 4 (split; [done |]). intros since acc [= <- <-]. by split.
  - eapply exact_task; try done. do 4 (split; [done |]). intros since' acc' [= <- <-].
    destruct (H9 _ _ _ _ Ei eq_refl) as [Hs Hacc]. split; [done |]. apply report_added; [done | | done].
    apply slice_get_lookup in Ev as [_ Ev]. destruct (H2 _ _ Ev) as [|(num & d & Hnum & _ & ->)]; [by left |]. right.
    exists (g_epoch gh), d. split; [done |]. split; [| done]. by eapply H8, list_elem_of_lookup_2.
  - eapply exact_task; try done. do 4 (split; [done |]). intros since' acc' [= <- <-]. apply (H9 _ _ _ _ Ei eq_refl).
Qed.

(** ** Reachable states *)

Lemma initial_sound n b : newDurationsBucket n = Ret b -> N = Z.to_nat n -> sound (initial b) /\ exact (initial b).
Proof.
  unfold newDurationsBucket. destruct (Z.ltb_spec n 0); [done |]. intros [= <-] ->. split; split; cbn; try done.
  - by rewrite length_replicate.
  - by intros e d ?%elem_of_nil.
  - apply Forall_replicate. by left.
  - intros k v [-> _]%lookup_replicate. by left.
  - by left.
  - lia.
  - by intros d ?%elem_of_nil.
Qed.

Lemma reachable_sound s0 s :
  sound s0 -> exact s0 -> rtc step s0 s -> zlen (g_all (g s)) < max_int64 ->
  sound s /\ (g_late (g s) = 0%nat -> exact s).
Proof.
  intros Hso Hex Hs. revert s Hs. apply (rtc_ind_r (fun s => zlen (g_all (g s)) < max_int64 -> sound s /\ (g_late (g s) = 0%nat -> exact s))); [done |].
  intros s s' _ Hst IH Hmax.
  pose proof (all_mono _ _ Hst) as Hle. destruct IH as [Hso1 Hex1]; [lia |].
  split; [eapply sound_step; [exact Hso1 | lia | exact Hst] |].
  intros Hlate. pose proof (late_mono _ _ Hst). eapply exact_step; [apply Hex1; lia | exact Hso1 | lia | exact Hst | exact Hlate].
Qed.

(** A sound state in which a call is in progress can go on with it. *)
Definition over (t : task) : bool := match t with Finished | Reported _ _ => true | _ => false end.

Lemma sound_next s i t :
  sound s -> tasks s !! i = Some t -> over t = false -> exists s', next i s = Some s'.
Proof.
  intros [Hl _ _ _ Ht] Hi Ho. rewrite Forall_lookup in Ht. specialize (Ht _ _ Hi).
  assert (Hzl : zlen (durationsSomeInvalid (bucket s)) = Z.of_nat N) by (unfold zlen; lia).
  unfold next. rewrite Hi. destruct t; try done; cbn in Ht.
  - destruct (decide _); by eexists.
  - rewrite slot_Set_spec by (rewrite Hzl; apply Ht). by eexists.
  - by eexists.
  - destruct (decide _); [| by eexists]. rewrite slot_Set_spec by lia. by eexists.
  - by eexists.
  - by eexists.
  - destruct (decide _); [| by eexists]. destruct (slice_get_Some (durationsSomeInvalid (bucket s)) i0) as (v & ->); [lia |]. by eexists.
Qed.

(** ** What a reader that is alone gets *)

Lemma append_slots vs acc :
  fold_left (fun acc v => if v =? unsetDuration then acc else acc ++ [decodeDuration v]) vs acc
  = fold_left (fun acc v => report v acc) vs acc.
Proof using. done. Qed.

(** Slots that are all set are all reported. *)
Lemma report_all vs ds acc :
  Forall2 (fun v d => v = encodeDuration d /\ d <= max_int64) vs ds ->
  fold_left (fun acc v => report v acc) vs acc = acc ++ (clamp <$> ds).
Proof using.
  intros H. revert acc. induction H as [|v d vs ds [-> Hd] Hvs IH]; intros acc; cbn; [by rewrite app_nil_r |].
  rewrite IH. unfold report. destruct (Z.eqb_spec (encodeDuration d) unsetDuration) as [E|_]; [by apply encode_set in E |].
  by rewrite decode_encode, <- app_assoc by done.
Qed.

Lemma read_at_rest s :
  sound s -> exact s -> (forall i t, tasks s !! i = Some t -> over t = true) ->
  exists ds, appendDurations (bucket s) [] = clamp <$> ds /\
    length ds = Nat.min N (length (g_reserved (g s))) /\
    (forall k d, ds !! k = Some d -> exists num, g_reserved (g s) !! num = Some d /\ (num mod N)%nat = k) /\
    ((length (g_reserved (g s)) <= N)%nat -> ds = g_reserved (g s)).
Proof.
  intros [Hl _ Hr _ _] [H1 H2 _ _ H5 _ _ H8 _] Hov. set (rs := g_reserved (g s)) in *.
  assert (Hno : no clearing (tasks s)) by (intros i t Hi; specialize (Hov _ _ Hi); by destruct t).
  set (m := Nat.min N (length rs)).
  assert (Hset : forall k, (k < m)%nat -> exists num d, durationsSomeInvalid (bucket s) !! k = Some (encodeDuration d)
     /\ rs !! num = Some d /\ (num mod N)%nat = k).
  { intros k Hk. destruct (lookup_lt_is_Some_2 (durationsSomeInvalid (bucket s)) k) as [v Hv]; [lia |].
    destruct (H2 k v Hv) as [->|(num & d & Hnum & Hm & ->)]; [| by exists num, d].
    destruct (H5 Hno k) as (i & d & slot & Hi); [lia | rewrite Nat.mod_small by lia; done |].
    by specialize (Hov _ _ Hi). }
  assert (Hds : exists ds, length ds = m /\ forall k d, ds !! k = Some d -> exists num,
     durationsSomeInvalid (bucket s) !! k = Some (encodeDuration d) /\ rs !! num = Some d /\ (num mod N)%nat = k).
  { clear -Hset. induction m as [|m IH]; [by exists [] |]. destruct IH as (ds & Hlen & Hds); [intros k Hk; apply Hset; lia |].
    destruct (Hset m ltac:(lia)) as (num & d & Hv & Hnum & Hm). exists (ds ++ [d]).
    rewrite length_app. split; [cbn; lia |]. intros k d' [[_ Hk]|[-> <-]]%lookup_snoc_Some; [by apply Hds |].
    exists num. by rewrite Hlen. }
  destruct Hds as (ds & Hlen & Hds). exists ds. split; [| split; [done | split]].
  - unfold appendDurations. rewrite append_slots.
    assert (Hsz : Z.to_nat (size (bucket s)) = m) by (unfold size, zlen in *; unfold m; lia). rewrite Hsz.
    rewrite (report_all _ ds []); [done |]. apply Forall2_same_length_lookup_2; [rewrite length_take; lia |].
    intros k v d Hv Hd. apply lookup_take_Some in Hv as [Hv _]. destruct (Hds k d Hd) as (num & Hv' & Hnum & _).
    split; [congruence |]. eapply Hr, H8, list_elem_of_lookup_2, Hnum.
  - intros k d Hd. destruct (Hds k d Hd) as (num & _ & ?). by exists num.
  - intros Hle. apply (list_eq_same_length _ _ (length ds)); [unfold m in Hlen; lia | done |]. intros k x y _ Hx Hy.
    destruct (Hds k x Hx) as (num & _ & Hnum & Hm). pose proof (lookup_lt_Some _ _ _ Hnum).
    rewrite Nat.mod_small in Hm by lia. subst num. fold rs in Hy. congruence.
Qed.
End Invariants.

(** ** The methods of RollingPercentile.v are runs *)

Lemma last_task (ts : list task) t t' : <[length ts := t']> (ts ++ [t]) = ts ++ [t'].
Proof. rewrite insert_app_r_alt by done. by rewrite Nat.sub_diag. Qed.

Lemma last_lookup (ts : list task) t : (ts ++ [t]) !! length ts = Some t.
Proof. by rewrite lookup_app_r, Nat.sub_diag. Qed.

(** A step of the last task. *)
Lemma last_step b b' ts gh gh' t t' s :
  step (mkSys b (ts ++ [t]) gh) (mkSys b' (<[length ts := t']> (ts ++ [t])) gh') ->
  rtc step (mkSys b' (ts ++ [t']) gh') s -> rtc step (mkSys b (ts ++ [t]) gh) s.
Proof. rewrite last_task. apply rtc_l. Qed.

Lemma addDuration_runs b b' ts gh d :
  addDuration d b = (Ret tt, b') -> d <= max_int64 ->
  exists gh', rtc step (mkSys b ts gh) (mkSys b' (ts ++ [Finished]) gh').
Proof.
  intros E Hd. unfold addDuration in E. rewrite (bind_run _ _ b b b) in E by done.
  destruct (Z.eqb_spec (zlen (durationsSomeInvalid b)) 0) as [H0|H0].
  - injection E as <-. exists gh. eapply rtc_l; [by apply (StepCall b ts gh (Adding d)) |].
    eapply last_step; [eapply StepAddNone; [apply last_lookup | done] |]. done.
  - eexists. eapply rtc_l; [by apply (StepCall b ts gh (Adding d)) |].
    eapply last_step; [eapply StepReserve; [apply last_lookup | done] |].
    eapply last_step; [eapply StepStore; [apply last_lookup | exact E] |]. done.
Qed.

Lemma unsetting_runs k j b b' ts gh :
  range_do (fun i => slot_Set i unsetDuration) (seqZ j (Z.of_nat k)) b = (Ret tt, b') ->
  rtc step (mkSys b (ts ++ [Unsetting j (j + Z.of_nat k)]) gh)
    (mkSys b' (ts ++ [Unsetting (j + Z.of_nat k) (j + Z.of_nat k)]) gh).
Proof.
  revert j b. induction k as [|k IH]; intros j b E.
  - injection E as <-. by rewrite Z.add_0_r.
  - rewrite seqZ_cons in E by lia. replace (Z.pred (Z.of_nat (S k))) with (Z.of_nat k) in E by lia.
    cbn [range_do] in E. apply bind_inv in E as ([] & b1 & E1 & E2).
    eapply last_step; [eapply StepUnset; [apply last_lookup | lia | exact E1] |].
    replace (j + Z.of_nat (S k)) with ((j + 1) + Z.of_nat k) by lia. by apply IH.
Qed.

Lemma clear_runs b b' ts gh :
  clear b = (Ret tt, b') -> exists gh', rtc step (mkSys b ts gh) (mkSys b' (ts ++ [Finished]) gh').
Proof.
  intros E. unfold clear in E. rewrite (bind_run _ _ b (size b) b) in E by done.
  apply bind_inv in E as ([] & b1 & E1 & E2). unfold set_currentIndex, modify in E2. injection E2 as <-.
  eexists. eapply rtc_l; [by apply (StepCall b ts gh Sizing) |].
  eapply last_step; [eapply StepSize, last_lookup |].
  destruct (decide (size b <= 0)) as [Hneg|Hpos].
  - rewrite seqZ_nil in E1 by lia. injection E1 as <-.
    eapply last_step; [eapply StepUnsetEnd; [apply last_lookup | done] |].
    eapply last_step; [eapply StepReset, last_lookup |]. done.
  - rewrite <- (Z2Nat.id (size b)) in E1 |- * by lia. eapply rtc_trans; [by apply (unsetting_runs _ 0) |].
    eapply last_step; [eapply StepUnsetEnd; [apply last_lookup | lia] |].
    eapply last_step; [eapply StepReset, last_lookup |]. done.
Qed.

Lemma scanning_runs k j b ts gh since acc :
  (j + k <= length (durationsSomeInvalid b))%nat ->
  rtc step (mkSys b (ts ++ [Scanning since (Z.of_nat j) (Z.of_nat (j + k)) acc]) gh)
    (mkSys b (ts ++ [Reported since (fold_left (fun acc v => report v acc) (take k (drop j (durationsSomeInvalid b))) acc)]) gh).
Proof.
  revert j acc. induction k as [|k IH]; intros j acc Hk.
  - eapply last_step; [eapply StepReport; [apply last_lookup | lia] |]. done.
  - destruct (lookup_lt_is_Some_2 (durationsSomeInvalid b) j) as [v Hv]; [lia |].
    eapply last_step; [eapply StepScan; [apply last_lookup | lia | apply slice_get_lookup; rewrite Nat2Z.id; split; [lia | exact Hv]] |].
    rewrite (drop_S _ _ _ Hv). cbn [take fold_left]. replace (Z.of_nat j + 1) with (Z.of_nat (S j)) by lia.
    replace (j + S k)%nat with (S j + k)%nat by lia. apply IH. lia.
Qed.

Lemma appendDurations_runs b ts gh :
  rtc step (mkSys b ts gh) (mkSys b (ts ++ [Reported (g_epoch gh) (appendDurations b [])]) gh).
Proof.
  eapply rtc_l; [by apply (StepCall b ts gh Loading) |]. eapply last_step; [eapply StepLoad, last_lookup |].
  unfold appendDurations. rewrite append_slots. destruct (decide (size b < 0)) as [Hneg|Hpos].
  - eapply last_step; [eapply StepReport; [apply last_lookup | lia] |]. rewrite Z2Nat.nonpos by lia. done.
  - pose proof (scanning_runs (Z.to_nat (size b)) 0 b ts gh (g_epoch gh) []) as H.
    cbn [Nat.add drop] in H. rewrite Z2Nat.id in H by lia. apply H. unfold size, zlen. lia.
Qed.

(** * Properties *)

(** The methods of a bucket, as RollingPercentile.v has them, are runs of the steps: a goroutine that
    nobody interrupts does what [addDuration], [clear] and [appendDurations] do, whatever calls of
    others are in progress. *)
Theorem bucket_methods_are_runs b ts gh :
  (forall d b', addDuration d b = (Ret tt, b') -> d <= max_int64 ->
     exists gh', rtc step (mkSys b ts gh) (mkSys b' (ts ++ [Finished]) gh')) /\
  (forall b', clear b = (Ret tt, b') -> exists gh', rtc step (mkSys b ts gh) (mkSys b' (ts ++ [Finished]) gh')) /\
  rtc step (mkSys b ts gh) (mkSys b (ts ++ [Reported (g_epoch gh) (appendDurations b [])]) gh).
Proof.
  split; [intros d b'; apply addDuration_runs |]. split; [intros b'; apply clear_runs | apply appendDurations_runs].
Qed.

(** C26: a bucket in use by any number of goroutines.  In every interleaving of the atomic operations of
    additions, clears and readers on a new bucket of [n] slots, no goroutine panics or waits: whoever is
    in a call can go on.  A reader reports nothing that was not added.  And if no addition overlapped a
    clear, it reports nothing stale: only durations that took their slot since the last clear before it
    started ([added since]), whatever is added or cleared meanwhile. *)
Theorem readers_report_no_stale_durations n b s :
  newDurationsBucket n = Ret b -> 0 < n -> rtc step (initial b) s -> zlen (g_all (g s)) < max_int64 ->
  (forall i t, tasks s !! i = Some t -> over t = false -> exists s', next i s = Some s' /\ step s s') /\
  (forall i since acc, tasks s !! i = Some (Reported since acc) ->
     Forall (added 0 (g s)) acc /\ (g_late (g s) = 0%nat -> Forall (added since (g s)) acc)).
Proof.
  intros Hb Hn Hs Hmax. assert (HN : (0 < Z.to_nat n)%nat) by lia.
  destruct (initial_sound _ HN n b Hb eq_refl) as [Hso0 Hex0].
  destruct (reachable_sound _ HN _ _ Hso0 Hex0 Hs Hmax) as [Hso Hex]. split.
  - intros i t Hi Ho. destruct (sound_next _ HN s i t Hso Hi Ho) as (s' & E). exists s'. split; [done |].
    by eapply bucket_next_step.
  - intros i since acc Hi. split.
    + destruct Hso as [_ _ _ _ Ht]. rewrite Forall_lookup in Ht. apply (Ht _ _ Hi).
    + intros Hlate. by eapply (ex_seen _ _ (Hex Hlate)).
Qed.

(** C27: concurrent additions are kept.  If no addition overlapped a clear, then when all calls have
    ended the bucket holds what was added since the last clear ([g_reserved]): all of it, in the order
    the slots were taken, if it fits into the [n] slots; else in each slot one of the durations that
    took it.  Reading it then gives exactly that. *)
Theorem concurrent_additions_are_kept n b s :
  newDurationsBucket n = Ret b -> 0 < n -> rtc step (initial b) s -> zlen (g_all (g s)) < max_int64 ->
  g_late (g s) = 0%nat -> (forall i t, tasks s !! i = Some t -> over t = true) ->
  exists ds, appendDurations (bucket s) [] = clamp <$> ds /\
    length ds = Nat.min (Z.to_nat n) (length (g_reserved (g s))) /\
    (forall k d, ds !! k = Some d -> exists num, g_reserved (g s) !! num = Some d /\ (num mod Z.to_nat n)%nat = k) /\
    ((length (g_reserved (g s)) <= Z.to_nat n)%nat -> ds = g_reserved (g s)).
Proof.
  intros Hb Hn Hs Hmax Hlate Hov. assert (HN : (0 < Z.to_nat n)%nat) by lia.
  destruct (initial_sound _ HN n b Hb eq_refl) as [Hso0 Hex0].
  destruct (reachable_sound _ HN _ _ Hso0 Hex0 Hs Hmax) as [Hso Hex]. by apply (read_at_rest _ HN); [| apply Hex |].
Qed.

(** * Witnesses *)

Module BucketSample.

(** Two additions cross: the second stores first, and a reader comes in between; then a clear, and a
    third addition. *)
Definition calls (s : sys) (ts : list task) : sys := mkSys (bucket s) (tasks s ++ ts) (g s).

Lemma calls_steps s ts :
  forallb is_call ts = true -> Forall in_range ts -> rtc step s (calls s ts).
Proof.
  destruct s as [b us gh]. revert us. induction ts as [|t ts IH]; intros us Hc Hr; cbn.
  - unfold calls. cbn. by rewrite app_nil_r.
  - apply andb_prop in Hc as [Ht Hc]. apply Forall_cons in Hr as [Hrt Hr].
    eapply rtc_l; [by apply (StepCall b us gh t) |]. specialize (IH (us ++ [t]) Hc Hr). unfold calls in *. cbn in *.
    by rewrite <- app_assoc in IH.
Qed.

Definition bucket2 : durationsBucket := mkDurationsBucket [0; 0] 0.
Definition started : sys := calls (initial bucket2) [Adding 7; Adding 9; Loading; Adding (-3); Sizing; Loading].

Definition cleared_state : sys :=
  mkSys (mkDurationsBucket [1; 0] 1) [Finished; Finished; Reported 0 [9]; Finished; Finished; Reported 1 [0]]
    (mkGhost 1 [-3] [(0%nat, 7); (0%nat, 9); (1%nat, -3)] 0).

Lemma cleared_reachable : rtc step (initial bucket2) cleared_state.
Proof.
  eapply rtc_trans; [| eapply (bucket_schedule_steps [0; 1; 1; 2; 2; 2; 2; 0; 4; 4; 4; 4; 4; 3; 3; 5; 5; 5]%nat started);
    vm_compute; reflexivity].
  apply calls_steps; [done |]. repeat (apply Forall_cons_2; [first [exact I | vm_compute; discriminate] |]). constructor.
Qed.

Lemma readers_report_no_stale_durations_witness :
  (forall i t, tasks cleared_state !! i = Some t -> over t = false -> exists s', next i cleared_state = Some s' /\ step cleared_state s') /\
  tasks cleared_state !! 5%nat = Some (Reported 1 [0]) /\ Forall (added 1 (g cleared_state)) [0].
Proof.
  destruct (readers_report_no_stale_durations 2 bucket2 cleared_state eq_refl ltac:(lia) cleared_reachable) as [H1 H2];
    [vm_compute; reflexivity |].
  split; [exact H1 |]. split; [reflexivity |]. exact (proj2 (H2 5%nat 1%nat [0] eq_refl) eq_refl).
Defined.

Lemma concurrent_additions_are_kept_witness : appendDurations (bucket cleared_state) [] = clamp <$> [-3].
Proof.
  destruct (concurrent_additions_are_kept 2 bucket2 cleared_state eq_refl ltac:(lia) cleared_reachable)
    as (ds & E & _ & _ & H); [vm_compute; reflexivity | reflexivity | |].
  - intros i t Hi. do 6 (destruct i as [|i]; [by injection Hi as <- |]). by destruct i.
  - rewrite E, H by (cbn; lia). reflexivity.
Defined.
End BucketSample.
End ConcurrentBucket.
