(* ===== verification/PercentileBounds.v ===== *)
(** faststats/rolling_percentile.go: [SortedDurations.Percentile] has a value for every list and
    every percentile, and it lies between the durations at the two positions next to that percentile:
    the interpolation neither indexes out of range, nor converts a number that is no [int64], nor is
    rounded beyond the second duration, however large they are. *)

From S2P Require Import Prelude GoMonad GoFloat GoFloatFacts RollingPercentile.

Open Scope Z_scope.

Module PercentileBounds.
Import RollingPercentile.

Lemma zlen_pos {A} (s : list A) : s <> [] -> 0 < zlen s.
Proof. destruct s; [done |]. unfold zlen. simpl. lia. Qed.

Lemma get_in_range (s : list Duration) i : 0 <= i < zlen s -> exists d, slice_get s i = Some d /\ s !! Z.to_nat i = Some d.
Proof.
  intros H. unfold slice_get. destruct (Z.ltb_spec i 0); [lia |].
  destruct (s !! Z.to_nat i) as [d|] eqn:E; [by exists d |]. apply lookup_ge_None in E. unfold zlen in H. lia.
Qed.

Lemma sorted_lookup (s : list Duration) i j d d' :
  StronglySorted Z.le s -> (i < j)%nat -> s !! i = Some d -> s !! j = Some d' -> d <= d'.
Proof.
  intros Hs. revert i j. induction Hs as [|x s Hs IH Hx]; intros i [|j] Hij Ei Ej; try (done || lia). simpl in Ej.
  destruct i as [|i]; [| by eapply (IH i j); [lia | ..]]. injection Ei as <-.
  rewrite Forall_forall in Hx. apply Hx. by eapply list_elem_of_lookup_2.
Qed.

Lemma sorted_get (s : list Duration) i j d d' :
  StronglySorted Z.le s -> 0 <= i <= j -> slice_get s i = Some d -> slice_get s j = Some d' -> d <= d'.
Proof.
  unfold slice_get. intros Hs Hij. destruct (Z.ltb_spec i 0); [lia |]. destruct (Z.ltb_spec j 0); [lia |].
  destruct (Z.eq_dec i j) as [->|Hne]; [by intros -> [= ->] |]. intros Ei Ej.
  apply (sorted_lookup s (Z.to_nat i) (Z.to_nat j)); [done | lia | done | done].
Qed.

(** The part of a difference that is added, of a weight below 1: rounding does not take it beyond the
    difference, also where integers are not floats. *)
Lemma weighted_le diff w :
  0 <= diff <= max_int64 -> is_le w below_1.1 below_1.2 ->
  exists my ey, is_le (fmul (float64_of_int diff) w) my ey /\ V my ey <= V diff 0.
Proof.
  intros Hd Hw. destruct (Z.lt_ge_cases diff (2 ^ 53)) as [Hlt|Hge].
  - exists diff, 0. split; [| done]. eapply (fmul_le _ _ diff 0 below_1.1 below_1.2); [| exact Hw | .. ];
      try (split; cbn; lia); try (cbn; lia).
    + apply float64_of_int_le; [lia | split; cbn; lia | done].
    + cbn [below_1 fst snd]. rewrite (V_scale diff 0 (0 + -53)) by (unfold K; lia). apply V_le.
      change (2 ^ (0 - (0 + -53))) with (2 ^ 53). nia.
  - destruct (digits_bounds diff ltac:(lia)) as [Hlo Hhi]. set (k := digits diff - 53).
    assert (Hk : 1 <= k <= 10).
    { unfold k. split.
      - destruct (Z.lt_ge_cases 53 (digits diff)) as [|Hle]; [lia |].
        pose proof (Z.pow_le_mono_r 2 (digits diff) 53). lia.
      - destruct (Z.le_gt_cases (digits diff) 63) as [|Hgt]; [lia |].
        pose proof (Z.pow_le_mono_r 2 63 (digits diff - 1)). unfold max_int64 in Hd. lia. }
    set (q := diff / 2 ^ k). assert (Hp : 0 < 2 ^ k) by (apply Z.pow_pos_nonneg; lia).
    pose proof (Z.div_mod diff (2 ^ k) ltac:(lia)) as Hdm. pose proof (Z.mod_pos_bound diff (2 ^ k) Hp) as Hmod. fold q in Hdm.
    assert (Hq : 2 ^ 52 <= q < 2 ^ 53).
    { unfold q. split.
      - apply Z.div_le_lower_bound; [done |]. rewrite <- Z.pow_add_r by lia. unfold k.
        replace (digits diff - 53 + 52) with (digits diff - 1) by lia. done.
      - apply Z.div_lt_upper_bound; [done |]. rewrite <- Z.pow_add_r by lia. unfold k.
        by replace (digits diff - 53 + 53) with (digits diff) by lia. }
    exists q, k. split; [| rewrite (V_scale q k 0) by (unfold K; lia); apply V_le; rewrite Z.sub_0_r; nia].
    assert (Hb : float_bound q k) by (split; lia).
    destruct (Z.eq_dec q (2 ^ 53 - 1)) as [E|E].
    + apply (fmul_near _ _ (2 ^ 52) (k + 1) below_1.1 below_1.2); try done; try (cbn; lia).
      * apply float64_of_int_le; [lia | split; lia |]. rewrite (V_scale _ (k + 1) 0) by (unfold K; lia). apply V_le.
        rewrite Z.sub_0_r, Z.pow_add_r by lia. nia.
      * cbn [below_1 fst snd]. rewrite (V_scale _ (k - 1) (k + 1 + -53)) by (unfold K; lia).
        replace (k - 1 - (k + 1 + -53)) with 51 by lia. unfold V. apply Z.mul_lt_mono_pos_r;
          [apply Z.pow_pos_nonneg; unfold K; lia | lia].
    + apply (fmul_near _ _ (q + 1) k below_1.1 below_1.2); try done; try (cbn; lia).
      * apply float64_of_int_le; [lia | split; lia |]. rewrite (V_scale _ k 0) by (unfold K; lia). apply V_le.
        rewrite Z.sub_0_r. nia.
      * cbn [below_1 fst snd]. rewrite (V_scale _ (k - 1) (k + -53)) by (unfold K; lia).
        replace (k - 1 - (k + -53)) with 52 by lia. unfold V. apply Z.mul_lt_mono_pos_r;
          [apply Z.pow_pos_nonneg; unfold K; lia | lia].
Qed.
Lemma weighted diff w :
  0 <= diff <= max_int64 -> is_le w below_1.1 below_1.2 ->
  exists x, int64_of_float (fmul (float64_of_int diff) w) = Some x /\ 0 <= x <= diff.
Proof.
  intros Hd Hw. destruct (weighted_le diff w Hd Hw) as (my & ey & Hm & HV). by eapply int64_of_float_le.
Qed.

(** The two positions between which a percentile is interpolated. *)
Definition neighbours (s : list Duration) (p : float64) : option (Z * Z) :=
  if fle p (float64_of_int 0) then Some (0, 0)
  else if fle (float64_of_int 100) p then Some (zlen s - 1, zlen s - 1)
  else
    let x := fmul (fdiv p (float64_of_int 100)) (float64_of_int (zlen s - 1)) in
    i ← int64_of_float (math_Floor x); j ← int64_of_float (math_Ceil x); Some (i, j).

Lemma positions (s : list Duration) p :
  0 < zlen s <= 2 ^ 53 -> valid p -> is_nan p = false -> fle p (float64_of_int 0) = false ->
  fle (float64_of_int 100) p = false ->
  let x := fmul (fdiv p (float64_of_int 100)) (float64_of_int (zlen s - 1)) in
  exists i j, int64_of_float (math_Floor x) = Some i /\ int64_of_float (math_Ceil x) = Some j /\
    0 <= i <= j /\ j <= i + 1 /\ j < zlen s /\ is_le (fsub x (math_Floor x)) below_1.1 below_1.2.
Proof.
  intros Hlen Hv Hn H0 H100 x.
  assert (Hx : is_le x (zlen s - 1) 0).
  { eapply (fmul_le _ _ 1 0 (zlen s - 1) 0); [by apply fdiv_100_le | | ..]; try (split; cbn; lia); try lia.
    - apply float64_of_int_le; [lia | split; cbn; lia | done].
    - by rewrite Z.mul_1_l. }
  destruct (floor_ceil x (zlen s - 1) Hx) as (f & c & Ef & Ec & Hfc & Hc1 & Hc & Hw); [lia |].
  exists f, c. rewrite Ef, Ec, !int64_of_float_of_int by lia.
  repeat (split; [done || lia |]). done.
Qed.

Lemma Percentile_between s p :
  StronglySorted Z.le s -> Forall (fun d => 0 <= d <= max_int64) s -> zlen s <= 2 ^ 53 -> valid p ->
  s <> [] -> is_nan p = false ->
  exists i j d1 d2 d, neighbours s p = Some (i, j) /\ 0 <= i <= j /\ j <= i + 1 /\ j < zlen s /\
    slice_get s i = Some d1 /\ slice_get s j = Some d2 /\
    Percentile s p = Some d /\ d1 <= d <= d2 /\ Min s <= d <= Max s.
Proof.
  intros Hs Hpos Hlen Hv Hne Hn. pose proof (zlen_pos s Hne) as Hz. pose proof (sorted_bounds s Hs) as Hb.
  rewrite Forall_forall in Hpos, Hb.
  assert (Hget : forall i, 0 <= i < zlen s -> exists d, slice_get s i = Some d /\ Min s <= d <= Max s /\ 0 <= d <= max_int64).
  { intros i Hi. destruct (get_in_range s i Hi) as (d & E & El). exists d. apply list_elem_of_lookup_2 in El. auto. }
  assert (Hplain : forall i, 0 <= i < zlen s -> neighbours s p = Some (i, i) -> Percentile s p = slice_get s i ->
    exists i j d1 d2 d, neighbours s p = Some (i, j) /\ 0 <= i <= j /\ j <= i + 1 /\ j < zlen s /\
     slice_get s i = Some d1 /\ slice_get s j = Some d2 /\ Percentile s p = Some d /\ d1 <= d <= d2 /\ Min s <= d <= Max s).
  { intros i Hi En Ep. destruct (Hget i Hi) as (d & E & Hd & _). exists i, i, d, d, d. rewrite Ep.
    repeat (split; [done || lia |]). lia. }
  unfold neighbours, Percentile in *. destruct (Z.eqb_spec (zlen s) 0) as [|_]; [lia |]. rewrite Hn in *. cbn [orb] in *.
  destruct (fle p (float64_of_int 0)) eqn:H0; [apply (Hplain 0); [lia | done | by destruct (zlen s =? 1)] |].
  destruct (fle (float64_of_int 100) p) eqn:H100.
  { apply (Hplain (zlen s - 1)); [lia | done |]. destruct (Z.eqb_spec (zlen s) 1) as [->|]; done. }
  destruct (positions s p ltac:(lia) Hv Hn H0 H100) as (i & j & Ei & Ej & Hij & Hj1 & Hj & Hw). cbv zeta in *.
  rewrite Ei, Ej in *. cbn [mbind option_bind] in *.
  destruct (Z.eqb_spec (zlen s) 1) as [H1|H1].
  { apply (Hplain 0); [lia | | done]. do 2 f_equal; lia. }
  destruct (Hget i ltac:(lia)) as (d1 & E1 & Hb1 & Hd1). destruct (Hget j ltac:(lia)) as (d2 & E2 & Hb2 & Hd2).
  pose proof (sorted_get s i j d1 d2 Hs ltac:(lia) E1 E2) as Hle. clear Hplain.
  rewrite E1, E2. cbn [mbind option_bind]. rewrite wrap64_id by (unfold min_int64; lia).
  destruct (weighted (d2 - d1) _ ltac:(lia) Hw) as (x & Ex & Hx). rewrite Ex. cbn [mbind option_bind].
  rewrite wrap64_id by (unfold min_int64; lia). exists i, j, d1, d2, (d1 + x).
  repeat (split; [done || lia |]). lia.
Qed.

(** C34: what a percentile of recorded durations is, for every [float64].  [NaN], or the percentile of no
    durations, is -1.  Otherwise - zero, negative, infinite and huge ones included, for a sorted list of
    any length that memory holds - there are two positions of the list, the same or next to each other,
    that the percentile falls between ([neighbours]: the first for 0 and less, the last for 100 and more),
    and the value is between the durations there, and so between the minimum and the maximum.  No index is
    out of range, no conversion overflows, and rounding does not leave the interval, also for durations that
    are no floating-point numbers. *)
Theorem percentiles_are_bounded s p :
  StronglySorted Z.le s -> Forall (fun d => 0 <= d <= max_int64) s -> zlen s <= 2 ^ 53 -> valid p ->
  (s = [] \/ is_nan p = true -> Percentile s p = Some (-1)) /\
  (s <> [] -> is_nan p = false ->
   exists i j d1 d2 d, neighbours s p = Some (i, j) /\ 0 <= i <= j /\ j <= i + 1 /\ j < zlen s /\
     slice_get s i = Some d1 /\ slice_get s j = Some d2 /\
     Percentile s p = Some d /\ d1 <= d <= d2 /\ Min s <= d <= Max s).
Proof.
  intros Hs Hpos Hlen Hv. split.
  - intros [->|Hn]; [done |]. unfold Percentile. by rewrite Hn, orb_true_r.
  - by apply Percentile_between.
Qed.

(** The 99.9th percentile of five durations, two of them beyond [2^53]. *)
Lemma percentiles_are_bounded_witness :
  let s := [10; 20; 30; 2 ^ 60 + 1; 2 ^ 62 + 3] in
  exists d, Percentile s (fdiv (float64_of_int 999) (float64_of_int 10)) = Some d /\ 2 ^ 60 + 1 <= d <= 2 ^ 62 + 3.
Proof.
  intros s. destruct (percentiles_are_bounded s (fdiv (float64_of_int 999) (float64_of_int 10))) as [_ H].
  - repeat constructor; lia.
  - repeat constructor; (lia || (vm_compute; discriminate)).
  - vm_compute. discriminate.
  - vm_compute. reflexivity.
  - destruct H as (i & j & d1 & d2 & d & En & _ & _ & _ & E1 & E2 & Ed & Hd & _); [done | by vm_compute |].
    exists d. split; [exact Ed |]. vm_compute in En. injection En as <- <-. injection E1 as <-. injection E2 as <-. exact Hd.
Defined.
End PercentileBounds.
