(* ===== verification/TimedCheck.v ===== *)
(** faststats/timedcheck.go: a gate that lets a configured number of events through per sleep
    window.

    The timer service ([time.AfterFunc] or the configured [TimeAfterFunc]) is the environment:
    registering a callback only records the version it captured, and the environment may run
    any registered callback at any later point ([timerFired]), also one that was stopped, since
    [Timer.Stop] cannot recall a callback that has already started.  A callback run
    synchronously by the service is the registration followed at once by [timerFired].

    [checkLocked] is the critical section of [Check]; as [Check] decides nothing outside it but
    an early [false], the concurrent behaviour is the sequences of critical sections and timer
    callbacks ([gate_event]). *)

From S2P Require Import Prelude GoMonad.

(** * Data *)

Record TimedCheck := mkTimedCheck {
  sleepDuration : Duration;
  eventCountToAllow : Z;
  isFastFail : bool;
  isFailFastVersion : Z;
  nextOpenTime : Time;
  currentlyAllowedEventCount : Z;
  lastSetTimer : option Z   (* the version captured by the callback of the timer *)
}.

Definition TimedCheck_zero : TimedCheck := mkTimedCheck 0 0 false 0 0 0 None.

(** * Operations *)

Definition SetSleepDuration (d : Duration) : M TimedCheck unit := modify (fun c =>
  mkTimedCheck d (eventCountToAllow c) (isFastFail c) (isFailFastVersion c) (nextOpenTime c)
    (currentlyAllowedEventCount c) (lastSetTimer c)).

Definition SetEventCountToAllow (n : Z) : M TimedCheck unit := modify (fun c =>
  mkTimedCheck (sleepDuration c) n (isFastFail c) (isFailFastVersion c) (nextOpenTime c)
    (currentlyAllowedEventCount c) (lastSetTimer c)).

Definition resetOpenTimeWithLock (now : Time) : M TimedCheck unit := modify (fun c =>
  let currentVersion := wrap64 (isFailFastVersion c + 1) in
  mkTimedCheck (sleepDuration c) (eventCountToAllow c) true currentVersion
    (time_Add now (sleepDuration c)) 0 (Some currentVersion)).

(** The callback [resetOpenTimeWithLock] gives to the timer, with its captured version. *)
Definition timerFired (currentVersion : Z) : M TimedCheck unit := modify (fun c =>
  if currentVersion =? isFailFastVersion c then
    mkTimedCheck (sleepDuration c) (eventCountToAllow c) false (isFailFastVersion c) (nextOpenTime c)
      (currentlyAllowedEventCount c) (lastSetTimer c)
  else c).

Definition SleepStart (now : Time) : M TimedCheck unit := resetOpenTimeWithLock now.

Definition count_event : M TimedCheck unit := modify (fun c =>
  mkTimedCheck (sleepDuration c) (eventCountToAllow c) (isFastFail c) (isFailFastVersion c)
    (nextOpenTime c) (wrap64 (currentlyAllowedEventCount c + 1)) (lastSetTimer c)).

(** The part of [Check] under the write lock. *)
Definition checkLocked (now : Time) : M TimedCheck bool :=
  let! next := gets nextOpenTime in
  if time_After next now then ret false
  else
    do! count_event;
    let! c := gets (fun c => c) in
    if eventCountToAllow c <=? currentlyAllowedEventCount c
    then do! resetOpenTimeWithLock now; ret true
    else ret true.

Definition Check (now : Time) : M TimedCheck bool :=
  let! failFast := gets isFastFail in
  if failFast then ret false
  else
    let! next := gets nextOpenTime in
    if time_After next now then ret false else checkLocked now.

(** ** JSON *)

Record marshalStruct := mkMarshalStruct {
  ms_SleepDuration : Z;
  ms_EventCountToAllow : Z;
  ms_NextOpenTime : Time;
  ms_CurrentlyAllowedEventCount : Z
}.

(** The struct [MarshalJSON] gives to the encoder, and what [UnmarshalJSON] does with the
    decoded one. *)
Definition MarshalJSON (c : TimedCheck) : marshalStruct :=
  mkMarshalStruct (sleepDuration c) (eventCountToAllow c) (nextOpenTime c)
    (currentlyAllowedEventCount c).

Definition UnmarshalJSON (into : marshalStruct) : M TimedCheck unit := modify (fun c =>
  mkTimedCheck (ms_SleepDuration into) (ms_EventCountToAllow into) (isFastFail c)
    (isFailFastVersion c) (ms_NextOpenTime into) (ms_CurrentlyAllowedEventCount into)
    (lastSetTimer c)).

(** * Concurrent behaviour *)

(** An atomic event of a gate in use: a goroutine in the critical section of [Check] or in
    [SleepStart], or a timer callback, whatever version it captured. *)
Inductive gate_event :=
| EvCheck (now : Time)
| EvSleepStart (now : Time)
| EvTimer (version : Z).

Definition gate_step (e : gate_event) : M TimedCheck (option Time) :=
  match e with
  | EvCheck now => let! ok := checkLocked now in ret (if ok : bool then Some now else None)
  | EvSleepStart now => do! SleepStart now; ret None
  | EvTimer v => do! timerFired v; ret None
  end.

(** The instants of the checks that were granted, in order. *)
Fixpoint grants (es : list gate_event) (c : TimedCheck) : list Time :=
  match es with
  | [] => []
  | e :: es' =>
      match gate_step e c with
      | (Ret (Some t), c') => t :: grants es' c'
      | (_, c') => grants es' c'
      end
  end.

Definition event_time (e : gate_event) : option Time :=
  match e with EvCheck now | EvSleepStart now => Some now | EvTimer _ => None end.

Definition check_times (es : list gate_event) : list Time := omap event_time es.

(** At most this many events per window: [eventCountToAllow], and one when it is not positive. *)
Definition window_quota (c : TimedCheck) : Z := Z.max 1 (eventCountToAllow c).

Definition gate_ok (c : TimedCheck) : Prop :=
  0 <= currentlyAllowedEventCount c < window_quota c /\ eventCountToAllow c <= max_int64.

(** * Lemmas *)

Lemma checkLocked_closed now c :
  now < nextOpenTime c -> checkLocked now c = (Ret false, c).
Proof.
  intros H. unfold checkLocked, bind, gets, time_After. zbool; [done | lia].
Qed.

(** An open gate grants; the grant either uses up the quota and starts a new window, or is
    counted against it. *)
Lemma checkLocked_open now c :
  gate_ok c -> nextOpenTime c <= now ->
  exists c', checkLocked now c = (Ret true, c') /\ gate_ok c' /\
    window_quota c' = window_quota c /\ sleepDuration c' = sleepDuration c /\
    ((nextOpenTime c' = time_Add now (sleepDuration c) /\ currentlyAllowedEventCount c' = 0) \/
     (nextOpenTime c' = nextOpenTime c /\
      currentlyAllowedEventCount c' = currentlyAllowedEventCount c + 1)).
Proof.
  unfold gate_ok, window_quota. intros [Hc Hm] H.
  unfold checkLocked, bind, gets, count_event, modify, time_After. simpl.
  destruct (Z.ltb_spec now (nextOpenTime c)); [lia |]. cbv beta.
  rewrite wrap64_id by (unfold min_int64, max_int64 in *; lia).
  destruct (Z.leb_spec (eventCountToAllow c) (currentlyAllowedEventCount c + 1)); simpl;
    eexists; (split; [reflexivity |]); simpl; (split; [lia |]); (split; [lia |]); (split; [lia |]);
    [left | right]; lia.
Qed.

Lemma timerFired_gate v c :
  exists c', timerFired v c = (Ret tt, c') /\ window_quota c' = window_quota c /\
    sleepDuration c' = sleepDuration c /\ nextOpenTime c' = nextOpenTime c /\
    currentlyAllowedEventCount c' = currentlyAllowedEventCount c /\ (gate_ok c -> gate_ok c').
Proof. unfold timerFired, modify. destruct (v =? _); eexists; split; done. Qed.

(** One event, as the abstract gate: nothing granted, or a grant at an instant not before the
    opening. *)
Lemma gate_step_spec e c :
  gate_ok c ->
  exists o c', gate_step e c = (Ret o, c') /\ gate_ok c' /\ window_quota c' = window_quota c /\
    sleepDuration c' = sleepDuration c /\
    match o with
    | None =>
        (nextOpenTime c' = nextOpenTime c /\
         currentlyAllowedEventCount c' = currentlyAllowedEventCount c) \/
        (exists t, event_time e = Some t /\ nextOpenTime c' = time_Add t (sleepDuration c) /\
         currentlyAllowedEventCount c' = 0)
    | Some t => event_time e = Some t /\ nextOpenTime c <= t /\
        ((nextOpenTime c' = time_Add t (sleepDuration c) /\ currentlyAllowedEventCount c' = 0) \/
         (nextOpenTime c' = nextOpenTime c /\
          currentlyAllowedEventCount c' = currentlyAllowedEventCount c + 1))
    end.
Proof.
  intros Hok. destruct e as [now|now|v]; simpl; unfold bind.
  - destruct (Z.lt_ge_cases now (nextOpenTime c)) as [Hlt|Hge].
    + rewrite checkLocked_closed by done. exists None, c. naive_solver.
    + destruct (checkLocked_open now c Hok Hge) as (c' & -> & ? & ? & ? & ?).
      exists (Some now), c'. naive_solver.
  - eexists None, _. split; [reflexivity |]. unfold gate_ok, window_quota in *. simpl.
    repeat split; try lia. right. by exists now.
  - destruct (timerFired_gate v c) as (c' & -> & ? & ? & ? & ? & Hok'). exists None, c'. naive_solver.
Qed.

(** Nothing is granted before the opening, nor, while later events are at or after [x],
    before a window that starts at [x] or later has passed. *)
Lemma grants_after_open es c x :
  gate_ok c -> 0 <= sleepDuration c -> x <= nextOpenTime c ->
  Forall (fun t => x <= t + sleepDuration c) (check_times es) ->
  Forall (fun t => x <= t) (grants es c).
Proof.
  revert c. induction es as [|e es IH]; intros c Hok Hd Hx Hes; simpl; [constructor |].
  destruct (gate_step_spec e c Hok) as (o & c' & -> & Hok' & Hq & Hs & Ho).
  assert (He : Forall (fun t => x <= t + sleepDuration c) (check_times es) /\
               forall t, event_time e = Some t -> x <= t + sleepDuration c).
  { revert Hes. unfold check_times. simpl. destruct (event_time e) as [t'|]; [| done].
    intros [? ?]%Forall_cons. split; [done |]. by intros t [= <-]. }
  destruct He as [Hes' He]. rewrite <- Hs in Hes', Hd. unfold time_Add in Ho.
  destruct o as [t|].
  - destruct Ho as (Ht & Hle & Hn). specialize (He t Ht). constructor; [lia |].
    apply IH; [done | lia | lia | done].
  - apply IH; [done | lia | | done].
    destruct Ho as [[-> _]|(t & Ht & -> & _)]; [done | by apply He].
Qed.

Lemma check_times_cons_inv (P : Time -> Prop) e es :
  Forall P (check_times (e :: es)) ->
  Forall P (check_times es) /\ forall t, event_time e = Some t -> P t.
Proof.
  unfold check_times. simpl. destruct (event_time e) as [t'|]; [| done].
  intros [? ?]%Forall_cons. split; [done |]. by intros t [= <-].
Qed.

Lemma count_if_zero {A} (p : A -> bool) l : (forall x, x ∈ l -> p x = false) -> count_if p l = 0.
Proof. intros H. rewrite (count_if_ext p (fun _ => false)) by done. apply count_if_false. Qed.

(** Once every later check is at or after [x], what is left of the current quota bounds the
    grants of [x, x + d). *)
Lemma grants_in_window es c x :
  gate_ok c -> 0 <= sleepDuration c -> Forall (fun t => x <= t) (check_times es) ->
  count_if (fun t => (x <=? t) && (t <? x + sleepDuration c)) (grants es c)
    <= window_quota c - currentlyAllowedEventCount c.
Proof.
  revert c. induction es as [|e es IH]; intros c Hok Hd Hx; simpl;
    [unfold gate_ok in Hok; lia |].
  apply check_times_cons_inv in Hx as [Hx He].
  destruct (gate_step_spec e c Hok) as (o & c' & -> & Hok' & Hq & Hs & Ho).
  specialize (IH c' Hok' ltac:(lia) Hx). rewrite Hq, Hs in IH.
  assert (Hlate : x + sleepDuration c <= nextOpenTime c' ->
    count_if (fun t => (x <=? t) && (t <? x + sleepDuration c)) (grants es c') = 0).
  { intros Hn. apply count_if_zero. apply Forall_forall.
    eapply Forall_impl; [apply (grants_after_open es c' (x + sleepDuration c)); [done | lia | lia |] |].
    - eapply Forall_impl; [exact Hx |]. simpl. lia.
    - simpl. intros y Hy. apply andb_false_intro2, Z.ltb_ge. lia. }
  unfold gate_ok, time_Add in *. destruct o as [t|].
  - destruct Ho as (Ht & _ & Hn). specialize (He t Ht). simpl.
    destruct Hn as [[Hn Hz]|[Hn Hz]]; [rewrite Hlate by lia |]; destruct (_ && _); lia.
  - destruct Ho as [[_ Hz]|(t & Ht & Hn & Hz)]; [lia |]. specialize (He t Ht). rewrite Hlate; lia.
Qed.

Lemma grants_rate_limit es c x :
  gate_ok c -> 0 <= sleepDuration c -> StronglySorted Z.le (check_times es) ->
  count_if (fun t => (x <=? t) && (t <? x + sleepDuration c)) (grants es c) <= window_quota c.
Proof.
  revert c. induction es as [|e es IH]; intros c Hok Hd Hs.
  - simpl. unfold gate_ok in Hok. lia.
  - destruct (match event_time e with Some t => x <=? t | None => false end) eqn:Ex.
    + assert (H : Forall (fun t => x <= t) (check_times (e :: es))).
      { revert Hs. unfold check_times. simpl. destruct (event_time e) as [t|]; [| done]. bdestr.
        intros [_ Hs]%StronglySorted_inv. constructor; [done |].
        eapply Forall_impl; [exact Hs |]. simpl. lia. }
      pose proof (grants_in_window _ c x Hok Hd H). unfold gate_ok in Hok. lia.
    + assert (Hs' : StronglySorted Z.le (check_times es)).
      { revert Hs. unfold check_times. simpl. destruct (event_time e); [by inversion 1 | done]. }
      destruct (gate_step_spec e c Hok) as (o & c' & E & Hok' & Hq & Hsl & Ho).
      simpl. rewrite E. specialize (IH c' Hok' ltac:(lia) Hs'). rewrite Hq, Hsl in IH.
      destruct o as [t|]; [| done]. destruct Ho as (He & _). rewrite He in Ex. simpl. by rewrite Ex.
Qed.

(** * Properties *)

(** The gate never lets more than its quota through per sleep window.  For every sequence
    of critical sections of [Check] and of [SleepStart], at non-decreasing instants,
    interleaved with callbacks of any (current or stale) timers, and every interval of the
    length of the sleep duration, at most [max 1 eventCountToAllow] checks are granted in the
    interval. *)
Theorem gate_rate_limit es c x :
  gate_ok c -> 0 <= sleepDuration c -> StronglySorted Z.le (check_times es) ->
  count_if (fun t => (x <=? t) && (t <? x + sleepDuration c)) (grants es c) <= window_quota c.
Proof. apply grants_rate_limit. Qed.

Lemma gate_rate_limit_witness :
  count_if (fun t => (110 <=? t) && (t <? 110 + 10))
    (grants [EvCheck 105; EvCheck 110; EvTimer 1; EvCheck 112; EvCheck 113; EvTimer 0; EvCheck 121; EvCheck 122; EvSleepStart 123; EvCheck 124]
       (mkTimedCheck 10 2 true 1 110 0 (Some 1))) <= 2 /\
  grants [EvCheck 105; EvCheck 110; EvTimer 1; EvCheck 112; EvCheck 113; EvTimer 0; EvCheck 121; EvCheck 122; EvSleepStart 123; EvCheck 124]
    (mkTimedCheck 10 2 true 1 110 0 (Some 1)) = [110; 112; 122].
Proof.
  split; [| reflexivity].
  apply (gate_rate_limit _ (mkTimedCheck 10 2 true 1 110 0 (Some 1)));
    [vm_compute; intuition congruence | vm_compute; congruence |].
  repeat constructor; vm_compute; congruence.
Defined.

(** Runs of timer callbacks, none of the version [v]. *)
Definition stale_timers (v : Z) (vs : list Z) : Prop := Forall (fun w => w <> v) vs.

Lemma stale_timers_nop vs c :
  stale_timers (isFailFastVersion c) vs -> range_do timerFired vs c = (Ret tt, c).
Proof.
  induction 1 as [|w vs Hw _ IH]; simpl; [done |].
  unfold bind, timerFired at 1, modify. by destruct (Z.eqb_spec w (isFailFastVersion c)).
Qed.

(** The fast-fail flag raised by [SleepStart] is lowered only by the callback of that
    very sleep: after callbacks of older sleeps every [Check] is still refused, whatever the
    instant; after the current callback [Check] grants exactly from the end of the window. *)
Theorem sleep_ends_by_its_own_timer now vs c t :
  gate_ok c -> stale_timers (wrap64 (isFailFastVersion c + 1)) vs ->
  exists c', (do! SleepStart now; range_do timerFired vs) c = (Ret tt, c') /\
    Check t c' = (Ret false, c') /\
    fst ((do! timerFired (isFailFastVersion c'); Check t) c')
      = Ret (time_Add now (sleepDuration c) <=? t).
Proof.
  intros Hok Hv. unfold bind at 1, SleepStart, resetOpenTimeWithLock, modify.
  set (c1 := mkTimedCheck _ _ true _ _ 0 _). exists c1.
  rewrite stale_timers_nop by done. split; [done |]. split; [done |].
  unfold bind, timerFired, modify. rewrite Z.eqb_refl. unfold Check, bind, gets. simpl.
  unfold time_After. destruct (Z.ltb_spec t (time_Add now (sleepDuration c))) as [Hlt|Hge].
  - simpl. f_equal. symmetry. by apply Z.leb_gt.
  - rewrite (proj2 (Z.leb_le _ _)) by done.
    set (c2 := mkTimedCheck _ _ false _ _ 0 _).
    destruct (checkLocked_open t c2) as (c' & -> & _); [| done | done].
    unfold gate_ok, window_quota in *. simpl. lia.
Qed.

Lemma sleep_ends_by_its_own_timer_witness :
  exists c', (do! SleepStart 100; range_do timerFired [1; 2]) (mkTimedCheck 10 1 true 2 90 0 (Some 2))
      = (Ret tt, c') /\
    Check 200 c' = (Ret false, c') /\
    fst ((do! timerFired (isFailFastVersion c'); Check 200) c') = Ret true.
Proof.
  apply (sleep_ends_by_its_own_timer 100 [1; 2] (mkTimedCheck 10 1 true 2 90 0 (Some 2)) 200).
  - vm_compute. intuition congruence.
  - repeat constructor; vm_compute; congruence.
Defined.
