(* ===== verification/GoJson.v ===== *)
(** What the library uses of encoding/json, on values: how a Go value becomes a JSON value and back.

    The text of a JSON value is left out: a [json] stands for the text [json.Marshal] makes of it
    and for every text that [json.Unmarshal] reads as it; a text that is no JSON is [None] of
    [option json] where a method is given one.  A [codec] is how a type is written and read; reading
    is an update of the value that is there, as in Go: null leaves most types alone, and a struct
    keeps the fields the object does not name.  The codecs of the atomic types are those of
    faststats/atomic.go. *)

From stdpp Require Import pretty.
From S2P Require Import Prelude.

Open Scope Z_scope.
#[local] Set Warnings "-register-all".

Module GoJson.

Inductive json :=
| JNull
| JBool (b : bool)
| JInt (z : Z)                  (* a number without fraction and exponent *)
| JReal (literal : string)      (* any other number *)
| JString (s : string)
| JArray (l : list json)
| JObject (members : list (string * json)).

(** * Codecs *)

Record codec (A : Type) := Codec {
  marshal : A -> option json;         (* None: an error *)
  unmarshal : A -> json -> option A   (* into a value; None: an error *)
}.
Arguments Codec {A} _ _.
Arguments marshal {A} _ _.
Arguments unmarshal {A} _ _ _.

(** [int], [int64] and [time.Duration] *)
Definition int64_codec : codec Z := Codec
  (fun z => Some (JInt z))
  (fun z j => match j with
              | JNull => Some z
              | JInt z' => if in_int64 z' then Some z' else None
              | _ => None
              end).

Definition bool_codec : codec bool := Codec
  (fun b => Some (JBool b))
  (fun b j => match j with JNull => Some b | JBool b' => Some b' | _ => None end).

(** A pointer: null is nil, anything else goes into the value pointed to, a new one for nil. *)
Definition pointer {A} (zero : A) (c : codec A) : codec (option A) := Codec
  (fun p => match p with None => Some JNull | Some a => marshal c a end)
  (fun p j => match j with JNull => Some None | _ => Some <$> unmarshal c (default zero p) j end).

(** A slice.  nil and the empty slice are the empty list: the one is written null, the other [], and
    both are read.  (An element's codec is given the zero value: those used here overwrite it.) *)
Definition slice {A} (zero : A) (c : codec A) : codec (list A) := Codec
  (fun l => JArray <$> mapM (marshal c) l)
  (fun _ j => match j with JNull => Some [] | JArray l => mapM (unmarshal c zero) l | _ => None end).

(** ** Structs *)

Record field (S : Type) := Field {
  f_name : string;
  f_marshal : S -> option json;
  f_unmarshal : S -> json -> option S
}.
Arguments Field {S} _ _ _.
Arguments f_name {S} _.
Arguments f_marshal {S} _ _.
Arguments f_unmarshal {S} _ _ _.

Definition field_of {S A} (name : string) (get : S -> A) (set : A -> S -> S) (c : codec A) : field S :=
  Field name (fun s => marshal c (get s)) (fun s j => (fun a => set a s) <$> unmarshal c (get s) j).

(** [foldName] on UTF-8: of the letters outside ASCII only the long s and the Kelvin sign fold to
    ASCII ones, which is all the names of fields are made of. *)
Definition fold_ascii (c : Ascii.ascii) : Ascii.ascii :=
  let n := Ascii.nat_of_ascii c in
  if (97 <=? n)%nat && (n <=? 122)%nat then Ascii.ascii_of_nat (n - 32) else c.

Fixpoint foldName (s : string) : string :=
  match s with
  | EmptyString => EmptyString
  | String c rest =>
      match Ascii.nat_of_ascii c, rest with
      | 197%nat, String c2 rest2 =>
          if (Ascii.nat_of_ascii c2 =? 191)%nat then String (Ascii.ascii_of_nat 83) (foldName rest2)
          else String c (foldName rest)
      | 226%nat, String c2 (String c3 rest3) =>
          if (Ascii.nat_of_ascii c2 =? 132)%nat && (Ascii.nat_of_ascii c3 =? 170)%nat
          then String (Ascii.ascii_of_nat 75) (foldName rest3)
          else String c (foldName rest)
      | _, _ => String (fold_ascii c) (foldName rest)
      end
  end.

(** The field of a key: its exact name, or else the first that folds to the same. *)
Definition find_field {S} (fs : list (field S)) (key : string) : option (field S) :=
  match list_find (fun f => f_name f = key) fs with
  | Some (_, f) => Some f
  | None => snd <$> list_find (fun f => foldName (f_name f) = foldName key) fs
  end.

Definition unmarshal_member {S} (fs : list (field S)) (s : S) (m : string * json) : option S :=
  match find_field fs m.1 with Some f => f_unmarshal f s m.2 | None => Some s end.

Fixpoint unmarshal_members {S} (fs : list (field S)) (s : S) (ms : list (string * json)) : option S :=
  match ms with
  | [] => Some s
  | m :: ms' => s' ← unmarshal_member fs s m; unmarshal_members fs s' ms'
  end.

Definition struct {S} (fs : list (field S)) : codec S := Codec
  (fun s => JObject <$> mapM (fun f => j ← f_marshal f s; Some (f_name f, j)) fs)
  (fun s j => match j with
              | JNull => Some s
              | JObject ms => unmarshal_members fs s ms
              | _ => None
              end).

(** * faststats/atomic.go *)

(** [AtomicInt64]: the decoder works on an [into] of its own, so null is 0. *)
Module AtomicInt64.
Definition MarshalJSON (a : Z) : option json := marshal int64_codec a.
Definition UnmarshalJSON (a : Z) (j : json) : option Z :=
  into ← unmarshal int64_codec 0 j; Some into.
Definition codec : codec Z := Codec MarshalJSON UnmarshalJSON.
(** [strconv.FormatInt(a.Get(), 10)] *)
Definition to_string (a : Z) : string := pretty a.
Definition Duration (a : Z) : Prelude.Duration := a.
End AtomicInt64.

Module AtomicBoolean.
Definition MarshalJSON (a : bool) : option json := marshal bool_codec a.
Definition UnmarshalJSON (a : bool) (j : json) : option bool :=
  into ← unmarshal bool_codec false j; Some into.
Definition codec : codec bool := Codec MarshalJSON UnmarshalJSON.
Definition to_string (a : bool) : string := if a then "true" else "false".
End AtomicBoolean.

(** * Codecs that give back what they were given *)

(** On the values of [P], whatever value is read into. *)
Class RoundTrips {A} (P : A -> Prop) (c : codec A) : Prop :=
  round_trip : forall a, P a -> exists j, marshal c a = Some j /\ j <> JNull /\ forall a0, unmarshal c a0 j = Some a.

#[export] Instance int64_round_trips : RoundTrips (fun z => in_int64 z = true) int64_codec.
Proof. intros z Hz. exists (JInt z). cbn. by rewrite Hz. Qed.

#[export] Instance bool_round_trips : RoundTrips (fun _ => True) bool_codec.
Proof. intros b _. by exists (JBool b). Qed.

#[export] Instance AtomicInt64_round_trips : RoundTrips (fun z => in_int64 z = true) AtomicInt64.codec.
Proof. intros z Hz. exists (JInt z). cbn. unfold AtomicInt64.UnmarshalJSON. cbn. by rewrite Hz. Qed.

#[export] Instance AtomicBoolean_round_trips : RoundTrips (fun _ => True) AtomicBoolean.codec.
Proof. intros b _. by exists (JBool b). Qed.

#[export] Instance pointer_round_trips {A} P (zero : A) c :
  RoundTrips P c -> RoundTrips (from_option P False) (pointer zero c).
Proof.
  intros Hc [a|] Ha; [| done]. destruct (Hc a Ha) as (j & E & Hne & Hj). exists j.
  split; [done |]. split; [done |]. intros p. destruct j; try done; cbn [pointer unmarshal]; by rewrite Hj.
Qed.

#[export] Instance slice_round_trips {A} P (zero : A) c : RoundTrips P c -> RoundTrips (Forall P) (slice zero c).
Proof.
  intros Hc l Hl. assert (H : exists js, mapM (marshal c) l = Some js /\ mapM (unmarshal c zero) js = Some l).
  { induction Hl as [|a l Ha Hl IH]; [by exists [] |]. destruct IH as (js & E & Hjs).
    destruct (Hc a Ha) as (j & Ej & _ & Hj). exists (j :: js). cbn. rewrite Ej, Hj. cbn. by rewrite E, Hjs. }
  destruct H as (js & E & Hjs). exists (JArray js). cbn [slice marshal unmarshal]. by rewrite E.
Qed.

(** ** Structs: a struct reads back what it wrote, field by field *)

(** What writing [s] and reading it into [s0] does. *)
Fixpoint copy_fields {S} (fs : list (field S)) (s s0 : S) : option S :=
  match fs with
  | [] => Some s0
  | f :: fs' => j ← f_marshal f s; s1 ← f_unmarshal f s0 j; copy_fields fs' s s1
  end.

Lemma find_field_exact {S} (fs : list (field S)) f :
  NoDup (f_name <$> fs) -> f ∈ fs -> find_field fs (f_name f) = Some f.
Proof.
  intros Hn Hf. unfold find_field.
  assert (H : exists i, list_find (fun g => f_name g = f_name f) fs = Some (i, f)); [| by destruct H as [i ->]].
  induction fs as [|g fs IH]; [by apply elem_of_nil in Hf |]. cbn in Hn. apply NoDup_cons in Hn as [Hg Hn].
  apply elem_of_cons in Hf as [->|Hf].
  - exists 0%nat. cbn. by rewrite decide_True.
  - destruct (IH Hn Hf) as [i Hi]. exists (Datatypes.S i). cbn. rewrite decide_False, Hi; [done |].
    intros E. apply Hg. rewrite E. by apply list_elem_of_fmap_2.
Qed.

Lemma struct_copies {S} (fs : list (field S)) s s0 s1 :
  NoDup (f_name <$> fs) -> copy_fields fs s s0 = Some s1 ->
  exists j, marshal (struct fs) s = Some j /\ j <> JNull /\ unmarshal (struct fs) s0 j = Some s1.
Proof.
  intros Hn H.
  assert (Hms : forall fs', (forall f, f ∈ fs' -> f ∈ fs) -> forall s0, copy_fields fs' s s0 = Some s1 ->
    exists ms, mapM (fun f => j ← f_marshal f s; Some (f_name f, j)) fs' = Some ms /\
      unmarshal_members fs s0 ms = Some s1).
  { clear s0 H. induction fs' as [|f fs' IH]; intros Hin s0 H; [by exists [] |]. cbn [copy_fields] in H.
    destruct (f_marshal f s) as [j|] eqn:Ej; [| done]. cbn in H.
    destruct (f_unmarshal f s0 j) as [s2|] eqn:Es; [| done]. cbn in H.
    destruct (IH (fun g Hg => Hin g ltac:(by right)) s2 H) as (ms & Ems & Hms).
    exists ((f_name f, j) :: ms). cbn. rewrite Ej. cbn. rewrite Ems. cbn. split; [done |].
    unfold unmarshal_member. cbn [fst snd]. rewrite find_field_exact by (done || apply Hin; left).
    by rewrite Es. }
  destruct (Hms fs (fun f Hf => Hf) s0 H) as (ms & Ems & Hs). exists (JObject ms).
  cbn [struct marshal unmarshal]. by rewrite Ems.
Qed.

Lemma struct_round_trips {S} (P : S -> Prop) (fs : list (field S)) :
  NoDup (f_name <$> fs) -> (forall s s0, P s -> copy_fields fs s s0 = Some s) -> RoundTrips P (struct fs).
Proof.
  intros Hn H s Hs. destruct (struct_copies fs s s s Hn (H s s Hs)) as (j & E & Hne & _).
  exists j. split; [done |]. split; [done |]. intros s0.
  destruct (struct_copies fs s s0 s Hn (H s s0 Hs)) as (j' & E' & _ & Hj). congruence.
Qed.

Lemma copy_field {S A} P name (get : S -> A) set c fs s s0 :
  RoundTrips P c -> P (get s) ->
  copy_fields (field_of name get set c :: fs) s s0 = copy_fields fs s (set (get s) s0).
Proof.
  intros Hc Hs. destruct (Hc (get s) Hs) as (j & E & _ & Hj). cbn. rewrite E. cbn. by rewrite Hj.
Qed.

(** What every field keeps, reading a struct keeps. *)
Lemma struct_keeps {S} (P : S -> Prop) (fs : list (field S)) s j s' :
  (forall f s j s', f ∈ fs -> P s -> f_unmarshal f s j = Some s' -> P s') ->
  P s -> unmarshal (struct fs) s j = Some s' -> P s'.
Proof.
  intros Hf Hs. destruct j as [| | | | | |ms]; cbn; try done; [by intros [= <-] |].
  revert s Hs. induction ms as [|[k v] ms IH]; intros s Hs; cbn; [by intros [= <-] |].
  destruct (unmarshal_member fs s (k, v)) as [s1|] eqn:E; cbn; [| done]. apply IH.
  unfold unmarshal_member in E. destruct (find_field fs _) as [f|] eqn:Ef; [| by injection E as <-].
  eapply (Hf f s v s1); [| done | exact E]. unfold find_field in Ef.
  destruct (list_find (fun g => f_name g = _) fs) as [[i g]|] eqn:El.
  - injection Ef as ->. apply list_find_Some in El as [El _]. by eapply list_elem_of_lookup_2.
  - destruct (list_find (fun g => foldName _ = _) fs) as [[i g]|] eqn:El2; [| done].
    injection Ef as ->. apply list_find_Some in El2 as [El2 _]. by eapply list_elem_of_lookup_2.
Qed.

(** Reading never leaves a machine integer that is none. *)
Lemma AtomicInt64_in_range a j z : unmarshal AtomicInt64.codec a j = Some z -> in_int64 z = true.
Proof.
  cbn. unfold AtomicInt64.UnmarshalJSON. destruct j; cbn; try done; [by intros [= <-] |].
  destruct (in_int64 _) eqn:E; cbn; [by intros [= <-] | done].
Qed.
End GoJson.
