(* ===== verification/CounterJson.v ===== *)
(** The JSON and string forms of faststats: [RollingCounter] (rolling_counter.go), with its
    [RollingBuckets] (rolling_bucket.go), and [TimedCheck] (timedcheck.go).

    What [MarshalJSON] writes is read back ([counter_json_round_trip]); whatever else
    [UnmarshalJSON] is given, it leaves the counter as it was and returns an error, or makes it a
    counter that cannot panic, unless the buckets are one nanosecond wide
    ([decoded_counters_are_safe], and [one_nanosecond_buckets_panic] for those). *)

From stdpp Require Import pretty.
From S2P Require Import Prelude GoMonad RollingBuckets RollingCounter TimedCheck GoJson.

#[local] Existing Instances GoJson.int64_round_trips GoJson.AtomicInt64_round_trips GoJson.slice_round_trips
  GoJson.pointer_round_trips.

Module CounterJson.
Import GoJson.

(** ** Strings *)

(** [StringAt] *)
Definition sum_of (b : list Z) : Z := fold_left (fun acc v => wrap64 (acc + v)) b 0.

Definition StringAt (now : Time) : M RollingCounter string :=
  let! b := GetBuckets now in
  let! r := gets (fun r => r) in
  ret ("rolling_sum=" +:+ pretty (sum_of b) +:+ " total_sum=" +:+ pretty (TotalSum r) +:+
       " parts=(" +:+ String.concat "," (pretty <$> b) +:+ ")").

(** ** JSON

    Instants are written as RFC 3339 text, and only those of the years 0 to 9999. *)
Section Json.
Context (format_time : Time -> option string) (parse_time : string -> option Time).

Definition time_codec : codec Time := Codec
  (fun t => JString <$> format_time t)
  (fun t j => match j with JNull => Some t | JString s => parse_time s | _ => None end).

(** The exported fields of [RollingBuckets]. *)
Definition RollingBuckets_fields : list (field RollingBuckets) :=
  [ field_of "NumBuckets" NumBuckets
      (fun n r => mkRollingBuckets n (StartTime r) (BucketWidth r) (LastAbsIndex r)) int64_codec;
    field_of "StartTime" StartTime
      (fun t r => mkRollingBuckets (NumBuckets r) t (BucketWidth r) (LastAbsIndex r)) time_codec;
    field_of "BucketWidth" BucketWidth
      (fun w r => mkRollingBuckets (NumBuckets r) (StartTime r) w (LastAbsIndex r)) int64_codec;
    field_of "LastAbsIndex" LastAbsIndex set_LastAbsIndex AtomicInt64.codec ].

Definition RollingBuckets_zero : RollingBuckets := mkRollingBuckets 0 0 0 0.

Record jsonCounter := mkJsonCounter {
  jc_Buckets : list Z;
  jc_RollingSum : option Z;
  jc_TotalSum : option Z;
  jc_RollingBucket : option RollingBuckets
}.

Definition jsonCounter_fields : list (field jsonCounter) :=
  [ field_of "Buckets" jc_Buckets
      (fun b c => mkJsonCounter b (jc_RollingSum c) (jc_TotalSum c) (jc_RollingBucket c))
      (slice 0 AtomicInt64.codec);
    field_of "RollingSum" jc_RollingSum
      (fun s c => mkJsonCounter (jc_Buckets c) s (jc_TotalSum c) (jc_RollingBucket c))
      (pointer 0 AtomicInt64.codec);
    field_of "TotalSum" jc_TotalSum
      (fun s c => mkJsonCounter (jc_Buckets c) (jc_RollingSum c) s (jc_RollingBucket c))
      (pointer 0 AtomicInt64.codec);
    field_of "RollingBucket" jc_RollingBucket
      (fun b c => mkJsonCounter (jc_Buckets c) (jc_RollingSum c) (jc_TotalSum c) b)
      (pointer RollingBuckets_zero (struct RollingBuckets_fields)) ].

Definition MarshalJSON (r : RollingCounter) : option json :=
  marshal (struct jsonCounter_fields)
    (mkJsonCounter (buckets r) (Some (sumBuckets r)) (Some (totalSum r)) (Some (rollingBucket r))).

Inductive unmarshal_error :=
| Malformed                                (* from json.Unmarshal *)
| Incomplete
| Inconsistent (len numBuckets : Z)
| Invalid (numBuckets bucketWidth lastAbsIndex : Z).

Definition UnmarshalJSON (b : option json) : M RollingCounter (option unmarshal_error) :=
  match b ≫= unmarshal (struct jsonCounter_fields) (mkJsonCounter [] None None None) with
  | None => ret (Some Malformed)
  | Some into =>
      match jc_TotalSum into, jc_RollingBucket into with
      | Some total, Some rb =>
          if negb (zlen (jc_Buckets into) =? NumBuckets rb)
          then ret (Some (Inconsistent (zlen (jc_Buckets into)) (NumBuckets rb)))
          else if validate_fails rb
          then ret (Some (Invalid (NumBuckets rb) (BucketWidth rb) (LastAbsIndex rb)))
          else
            do! modify (set_buckets (jc_Buckets into));
            do! modify (set_totalSum total);
            do! modify (fun r => upd rollingBucketL (Store rb (rollingBucket r)) r);
            ret None
      | _, _ => ret (Some Incomplete)
      end
  end.

Definition marshalStruct_fields : list (field marshalStruct) :=
  [ field_of "SleepDuration" ms_SleepDuration
      (fun x s => mkMarshalStruct x (ms_EventCountToAllow s) (ms_NextOpenTime s) (ms_CurrentlyAllowedEventCount s))
      int64_codec;
    field_of "EventCountToAllow" ms_EventCountToAllow
      (fun x s => mkMarshalStruct (ms_SleepDuration s) x (ms_NextOpenTime s) (ms_CurrentlyAllowedEventCount s))
      int64_codec;
    field_of "NextOpenTime" ms_NextOpenTime
      (fun x s => mkMarshalStruct (ms_SleepDuration s) (ms_EventCountToAllow s) x (ms_CurrentlyAllowedEventCount s))
      time_codec;
    field_of "CurrentlyAllowedEventCount" ms_CurrentlyAllowedEventCount
      (fun x s => mkMarshalStruct (ms_SleepDuration s) (ms_EventCountToAllow s) (ms_NextOpenTime s) x)
      int64_codec ].

(** [TimedCheck.MarshalJSON] and [UnmarshalJSON]; those of TimedCheck.v are their parts before and
    after the encoder. *)
Definition TimedCheck_MarshalJSON (c : TimedCheck) : option json :=
  marshal (struct marshalStruct_fields) (TimedCheck.MarshalJSON c).

Definition TimedCheck_UnmarshalJSON (b : option json) : M TimedCheck bool :=
  match b ≫= unmarshal (struct marshalStruct_fields) (mkMarshalStruct 0 0 0 0) with
  | None => ret false
  | Some into => do! TimedCheck.UnmarshalJSON into; ret true
  end.

(** * Round trips *)

(** Parsing gives back the instant that was formatted (sub-second precision included). *)
Hypothesis parse_format : forall t s, format_time t = Some s -> parse_time s = Some t.

Definition writable (t : Time) : Prop := is_Some (format_time t).

#[local] Instance time_round_trips : RoundTrips writable time_codec.
Proof using All.
  intros t [s Hs]. exists (JString s). cbn. rewrite Hs. split; [done |]. split; [done |]. intros _. by apply parse_format.
Qed.

Definition RollingBuckets_writable (r : RollingBuckets) : Prop :=
  in_int64 (NumBuckets r) = true /\ writable (StartTime r) /\ in_int64 (BucketWidth r) = true /\
  in_int64 (LastAbsIndex r) = true.

Ltac names_differ :=
  cbn; lazymatch goal with |- NoDup ?l => apply (bool_decide_eq_true_1 (NoDup l)); vm_compute; reflexivity end.

#[local] Instance RollingBuckets_round_trips : RoundTrips RollingBuckets_writable (struct RollingBuckets_fields).
Proof using All.
  apply struct_round_trips; [names_differ |]. intros r r0 (Hn & Ht & Hw & Hl).
  unfold RollingBuckets_fields.
  erewrite copy_field; [| apply _ | exact Hn]. erewrite copy_field; [| apply _ | exact Ht].
  erewrite copy_field; [| apply _ | exact Hw]. erewrite copy_field; [| apply _ | exact Hl]. by destruct r.
Qed.

Definition jsonCounter_writable (c : jsonCounter) : Prop :=
  Forall (fun z => in_int64 z = true) (jc_Buckets c) /\
  from_option (fun z => in_int64 z = true) False (jc_RollingSum c) /\
  from_option (fun z => in_int64 z = true) False (jc_TotalSum c) /\
  from_option RollingBuckets_writable False (jc_RollingBucket c).

#[local] Instance jsonCounter_round_trips : RoundTrips jsonCounter_writable (struct jsonCounter_fields).
Proof using All.
  apply struct_round_trips; [names_differ |]. intros c c0 (Hb & Hr & Ht & Hw).
  unfold jsonCounter_fields.
  erewrite copy_field; [| apply _ | exact Hb]. erewrite copy_field; [| apply _ | exact Hr].
  erewrite copy_field; [| apply _ | exact Ht]. erewrite copy_field; [| apply _ | exact Hw]. by destruct c.
Qed.

#[local] Instance marshalStruct_round_trips : RoundTrips
  (fun s => in_int64 (ms_SleepDuration s) = true /\ in_int64 (ms_EventCountToAllow s) = true /\
            writable (ms_NextOpenTime s) /\ in_int64 (ms_CurrentlyAllowedEventCount s) = true)
  (struct marshalStruct_fields).
Proof using All.
  apply struct_round_trips; [names_differ |]. intros s s0 (H1 & H2 & H3 & H4). unfold marshalStruct_fields.
  erewrite copy_field; [| apply _ | exact H1]. erewrite copy_field; [| apply _ | exact H2].
  erewrite copy_field; [| apply _ | exact H3]. erewrite copy_field; [| apply _ | exact H4]. by destruct s.
Qed.

(** A gate read back has the configuration and the quota of the one written, whatever gate it is read
    into; of that one the timer remains. *)
Theorem gate_json_round_trip c :
  in_int64 (sleepDuration c) = true -> in_int64 (eventCountToAllow c) = true -> writable (nextOpenTime c) ->
  in_int64 (currentlyAllowedEventCount c) = true ->
  exists j, TimedCheck_MarshalJSON c = Some j /\ forall c0,
    TimedCheck_UnmarshalJSON (Some j) c0
    = (Ret true, mkTimedCheck (sleepDuration c) (eventCountToAllow c) (isFastFail c0) (isFailFastVersion c0)
                   (nextOpenTime c) (currentlyAllowedEventCount c) (lastSetTimer c0)).
Proof using All.
  intros H1 H2 H3 H4. destruct (round_trip (c := struct marshalStruct_fields) (TimedCheck.MarshalJSON c))
    as (j & E & _ & Hj); [done |]. exists j. split; [exact E |]. intros c0.
  unfold TimedCheck_UnmarshalJSON. cbn [mbind option_bind]. by rewrite Hj.
Qed.

(** What counters that are in use satisfy. *)
Definition json_ready (r : RollingCounter) : Prop :=
  counter_shape r /\ RollingBuckets_writable (rollingBucket r) /\ 0 <= BucketWidth (rollingBucket r) /\
  0 <= LastAbsIndex (rollingBucket r) /\
  Forall (fun z => in_int64 z = true) (buckets r) /\ in_int64 (totalSum r) = true.

Lemma sumBuckets_in_int64 r : in_int64 (sumBuckets r) = true.
Proof using.
  unfold sumBuckets. destruct (sumBuckets_zsum (buckets r) 0) as [->|[_ ->]]; [| done]. apply wrap64_in_int64.
Qed.

(** C28: a counter that is written as JSON is read back as it was, into whatever counter it is read. *)
Theorem counter_json_round_trip r :
  json_ready r ->
  exists j, MarshalJSON r = Some j /\ forall r0, UnmarshalJSON (Some j) r0 = (Ret None, r).
Proof using All.
  intros (Hsh & Hrb & Hw & HL & Hb & Ht).
  destruct (round_trip (c := struct jsonCounter_fields)
    (mkJsonCounter (buckets r) (Some (sumBuckets r)) (Some (totalSum r)) (Some (rollingBucket r)))) as (j & E & _ & Hj).
  { split; [done |]. split; [apply sumBuckets_in_int64 |]. done. }
  exists j. split; [exact E |]. intros r0. unfold UnmarshalJSON. cbn [mbind option_bind].
  rewrite Hj. cbn [jc_TotalSum jc_RollingBucket jc_Buckets]. unfold counter_shape in Hsh.
  rewrite Hsh, Z.eqb_refl. cbn [negb].
  assert (Hv : validate_fails (rollingBucket r) = false).
  { unfold validate_fails. pose proof (zlen_nonneg (buckets r)). zbool; try done; lia. }
  rewrite Hv. unfold bind, modify, ret. by destruct r as [bs t [? ? ? ?]].
Qed.

(** The integers of a struct that was read. *)
Definition ints_in_range (rb : RollingBuckets) : Prop :=
  in_int64 (NumBuckets rb) = true /\ in_int64 (BucketWidth rb) = true /\ in_int64 (LastAbsIndex rb) = true.

Lemma RollingBuckets_read (rb rb' : RollingBuckets) j :
  ints_in_range rb ->
  unmarshal (struct RollingBuckets_fields) rb j = Some rb' -> ints_in_range rb'.
Proof using.
  apply (struct_keeps ints_in_range). intros f s v s' Hf (H1 & H2 & H3) E.
  assert (Hint : forall z z' : Z, in_int64 z = true -> unmarshal int64_codec z v = Some z' -> in_int64 z' = true).
  { intros z z' Hz. destruct v; cbn; try done; [by intros [= <-] |].
    destruct (in_int64 z0) eqn:Ez; [by intros [= <-] | done]. }
  repeat (apply elem_of_cons in Hf as [->|Hf]); [..| by apply elem_of_nil in Hf]; cbn [f_unmarshal field_of] in E;
    apply fmap_Some in E as (x & Ex & ->); cbn; try done.
  all: repeat split; cbn; try done; 
    first [exact (Hint _ _ H1 Ex) | exact (Hint _ _ H2 Ex) | exact (AtomicInt64_in_range _ _ _ Ex)].
Qed.

Lemma jsonCounter_read j into rb :
  unmarshal (struct jsonCounter_fields) (mkJsonCounter [] None None None) j = Some into ->
  jc_RollingBucket into = Some rb -> ints_in_range rb.
Proof using.
  intros E. revert rb. apply (struct_keeps (fun c => forall rb, jc_RollingBucket c = Some rb -> ints_in_range rb)
    jsonCounter_fields (mkJsonCounter [] None None None) j into); [| done | exact E].
  clear. intros f s v s' Hf Hs E.
  repeat (apply elem_of_cons in Hf as [->|Hf]); [..| by apply elem_of_nil in Hf]; cbn [f_unmarshal field_of] in E;
    apply fmap_Some in E as (x & Ex & ->); cbn; try done.
  intros rb ->. assert (Hd : forall z, jc_RollingBucket s = z -> ints_in_range (default RollingBuckets_zero z)).
  { intros [z|] Ez; [by apply Hs | done]. }
  destruct v; cbn [pointer unmarshal] in Ex; try done; apply fmap_Some in Ex as (rb' & Ex & [= ->]);
    by eapply RollingBuckets_read, Ex; apply Hd.
Qed.

(** C29: whatever it is given, [UnmarshalJSON] returns: with an error and the counter as it was; or
    without, and then the counter is well formed and no sequence of calls on it panics, unless its
    buckets are one nanosecond wide. *)
Theorem decoded_counters_are_safe b r0 :
  exists e r, UnmarshalJSON b r0 = (Ret e, r) /\
    match e with
    | Some _ => r = r0
    | None =>
        counter_shape r /\ validate_fails (rollingBucket r) = false /\
        (BucketWidth (rollingBucket r) <> 1 ->
         (forall cs, exists vs r', run_counter cs r = (Ret vs, r')) /\
         (forall now, exists vs r', GetBuckets now r = (Ret vs, r')))
    end.
Proof using.
  unfold UnmarshalJSON.
  destruct (b ≫= _) as [into|] eqn:E; [| by exists (Some Malformed), r0].
  destruct (jc_TotalSum into) as [total|]; [| by exists (Some Incomplete), r0].
  destruct (jc_RollingBucket into) as [rb|] eqn:Erb; [| by exists (Some Incomplete), r0].
  destruct (Z.eqb_spec (zlen (jc_Buckets into)) (NumBuckets rb)) as [Hlen|]; cbn [negb]; [| by eexists (Some _), r0].
  destruct (validate_fails rb) eqn:Hv; [by eexists (Some _), r0 |].
  eexists None, _. split; [by unfold bind, modify, ret |]. cbn.
  split; [exact Hlen |]. split; [exact Hv |]. intros Hw.
  destruct b as [j|]; [| done]. destruct (jsonCounter_read j into rb E Erb) as (Hn & Hw' & HL).
  unfold validate_fails in Hv. apply in_int64_spec in Hn, Hw', HL. bdestr.
  assert (Hok : counter_ok (mkRollingCounter (jc_Buckets into) total (Store rb (rollingBucket r0)))).
  { split; [exact Hlen |]. split; [cbn; lia |]. cbn.
    destruct (decide (NumBuckets rb <= 0 \/ BucketWidth rb <= 0)) as [Hi|Hi]; [by right; left |].
    right; right. repeat split; cbn; lia. }
  split.
  - intros cs. destruct (run_counter_safe cs _ Hok) as (vs & r' & Er & _). by exists vs, r'.
  - intros now. destruct (GetBuckets_safe now _ Hok) as (vs & r' & Er & _). by exists vs, r'.
Qed.
End Json.

(** * Examples *)

Module JsonSample.

(** The texts of the zero time, for the witnesses. *)
Definition format_time (t : Time) : option string := if t =? 0 then Some "0001-01-01T00:00:00Z" else None.
Definition parse_time (s : string) : option Time := if decide (s = "0001-01-01T00:00:00Z") then Some 0 else None.

Lemma parse_format t s : format_time t = Some s -> parse_time s = Some t.
Proof. unfold format_time. destruct (Z.eqb_spec t 0) as [->|]; [| done]. by intros [= <-]. Qed.

Definition counter : RollingCounter := mkRollingCounter [4; 0; 3] 12 (mkRollingBuckets 3 0 1000 7).

Example counter_as_json :
  MarshalJSON format_time parse_time counter
  = Some (JObject [("Buckets", JArray [JInt 4; JInt 0; JInt 3]); ("RollingSum", JInt 7); ("TotalSum", JInt 12);
      ("RollingBucket", JObject [("NumBuckets", JInt 3); ("StartTime", JString "0001-01-01T00:00:00Z");
         ("BucketWidth", JInt 1000); ("LastAbsIndex", JInt 7)])]).
Proof. vm_compute. reflexivity. Qed.

Example counter_as_string :
  fst (StringAt 7500 counter) = Ret "rolling_sum=7 total_sum=12 parts=(0,4,3)".
Proof. vm_compute. reflexivity. Qed.

(** Keys are matched without regard to case, unknown ones ignored, the last of two counts; the errors
    leave the counter alone. *)
Example other_texts :
  let read j := UnmarshalJSON format_time parse_time (Some j) counter in
  let window := ("rollingbucket", JObject [("NUMBUCKETS", JInt 1); ("BucketWidth", JInt 5)]) in
  read (JObject [("buckets", JArray [JNull]); ("TotalSum", JInt 1); ("totalsum", JInt 2); window; ("x", JReal "0.5")])
    = (Ret None, mkRollingCounter [0] 2 (mkRollingBuckets 1 0 5 0)) /\
  read (JObject [("Buckets", JArray [JInt 1]); window]) = (Ret (Some Incomplete), counter) /\
  read (JObject [("Buckets", JArray []); ("TotalSum", JInt 1); window]) = (Ret (Some (Inconsistent 0 1)), counter) /\
  read (JObject [("Buckets", JArray [JInt (2 ^ 63)]); ("TotalSum", JInt 1); window]) = (Ret (Some Malformed), counter) /\
  read (JObject [("Buckets", JArray []); ("TotalSum", JInt 1);
    ("RollingBucket", JObject [("BucketWidth", JInt (-5))])]) = (Ret (Some (Invalid 0 (-5) 0)), counter).
Proof. vm_compute. auto. Qed.

(** A text that passes every check, with buckets of one nanosecond and no start time: in 2028 the
    time since the start is the largest [time.Duration], the loop of [rollForward] runs past the
    largest [int64], and the index of the bucket to clear is negative. *)
Definition one_nanosecond : json :=
  JObject [("Buckets", JArray [JInt 0; JInt 0; JInt 0]); ("TotalSum", JInt 0);
    ("RollingBucket", JObject [("NumBuckets", JInt 3); ("BucketWidth", JInt 1); ("LastAbsIndex", JInt (2 ^ 63 - 4))])].

Example one_nanosecond_buckets_panic :
  let '(e, r) := UnmarshalJSON format_time parse_time (Some one_nanosecond) counter in
  e = Ret None /\ fst (RollingSumAt 64000000000000000000 r) = Panic IndexOutOfRange.
Proof. vm_compute. auto. Qed.

Lemma counter_json_round_trip_witness :
  exists j, MarshalJSON format_time parse_time counter = Some j /\
    forall r0, UnmarshalJSON format_time parse_time (Some j) r0 = (Ret None, counter).
Proof.
  apply (counter_json_round_trip format_time parse_time parse_format).
  split; [done |]. split; [split; [done |]; split; [by exists "0001-01-01T00:00:00Z" | done] |].
  split; [done |]. split; [done |]. split; [by repeat constructor | done].
Defined.

Lemma gate_json_round_trip_at :
  exists j, TimedCheck_MarshalJSON format_time parse_time (mkTimedCheck 50 2 true 4 0 1 None) = Some j.
Proof.
  destruct (gate_json_round_trip format_time parse_time parse_format (mkTimedCheck 50 2 true 4 0 1 None)) as (j & E & _);
    [done | done | by exists "0001-01-01T00:00:00Z" | done |]. by exists j.
Qed.
End JsonSample.
End CounterJson.
