(* ===== verification/Errors.v ===== *)
(** errors.go: the library's own errors and the classification of bad requests.

    A non-nil [error] value is one of the package's two types or a user's error; of a user's
    error the package only uses which of the optional methods it has and what they return.
    A nil error is [None] of [option error]. *)

From S2P Require Import Prelude.

Open Scope Z_scope.

(** * Data *)

#[local] Set Warnings "-register-all".

Inductive error :=
| circuitError (concurrencyLimitReached circuitOpen : bool) (msg : string)
| SimpleBadRequest (Err : option error)
| userError
    (msg : string)             (* Error() *)
    (badRequest : option bool) (* BadRequest() bool, when it has the method *)
    (asMethod : option bool)   (* As(any) bool accepts a BadRequest target: what its
                                  BadRequest() then returns *)
    (unwrap : unwrapping)
with unwrapping :=
| NoUnwrap
| Unwrap1 (e : option error)   (* Unwrap() error *)
| UnwrapN (es : errors)        (* Unwrap() []error *)
with errors :=
| errors_nil
| errors_cons (e : option error) (es : errors).

(** [context.Canceled] and [context.DeadlineExceeded] have none of the methods. *)
Definition errCanceled : error := userError "context canceled" None None NoUnwrap.
Definition errDeadlineExceeded : error := userError "context deadline exceeded" None None NoUnwrap.

(** * Operations *)

Definition format_bool (b : bool) : string := if b then "true" else "false".

(** [(&circuitError{...}).withMsg(msg)]; the receiver's own message is overwritten. *)
Definition withMsg (concurrencyLimitReached circuitOpen : bool) (msg : string) : error :=
  circuitError concurrencyLimitReached circuitOpen
    (msg +:+ ": concurrencyReached=" +:+ format_bool concurrencyLimitReached
         +:+ " circuitOpen=" +:+ format_bool circuitOpen).

Definition errThrottledConcurrentCommands : error :=
  withMsg true false "throttling connections to command".
Definition errThrottledConcurrentFallbacks : error :=
  withMsg true false "throttling concurrency to fallbacks".
Definition errCircuitOpen : error := withMsg false true "circuit is open".

(** [ConcurrencyLimitReached()] and [CircuitOpen()] of the interface [Error]: the library's own
    errors are its only implementation here. *)
Definition ConcurrencyLimitReached (e : error) : option bool :=
  match e with circuitError b _ _ => Some b | _ => None end.
Definition CircuitOpen (e : error) : option bool :=
  match e with circuitError _ b _ => Some b | _ => None end.

(** [Error()] *)
Fixpoint Error (e : error) : string :=
  match e with
  | circuitError _ _ msg => msg
  | SimpleBadRequest None => "bad request"
  | SimpleBadRequest (Some e') => Error e'
  | userError msg _ _ _ => msg
  end.

(** The methods [Cause] and [Unwrap] of [SimpleBadRequest]; [None] when an error of the package has no
    such method. *)
Definition Cause (e : error) : option (option error) :=
  match e with SimpleBadRequest Err => Some Err | _ => None end.
Definition Unwrap (e : error) : option (option error) :=
  match e with SimpleBadRequest Err => Some Err | _ => None end.

(** [errors.As(e, &br)] for a target [br] of interface type [BadRequest]: what
    [br.BadRequest()] returns when an error of the chain matches.  The chain is walked in
    pre-order: the error itself, its [As] method, then what it unwraps to, skipping nil
    elements of a list. *)
Fixpoint errors_As (e : error) : option bool :=
  match e with
  | circuitError _ _ _ => None
  | SimpleBadRequest _ => Some true
  | userError _ (Some b) _ _ => Some b
  | userError _ None (Some b) _ => Some b
  | userError _ None None u => unwrap_As u
  end
with unwrap_As (u : unwrapping) : option bool :=
  match u with
  | NoUnwrap => None
  | Unwrap1 None => None
  | Unwrap1 (Some e) => errors_As e
  | UnwrapN es => errors_list_As es
  end
with errors_list_As (es : errors) : option bool :=
  match es with
  | errors_nil => None
  | errors_cons None es' => errors_list_As es'
  | errors_cons (Some e) es' =>
      match errors_As e with
      | Some b => Some b
      | None => errors_list_As es'
      end
  end.

Definition as_and_bad (e : error) : bool :=
  match errors_As e with Some b => b | None => false end.

(** Whether the error has one of the methods of the third case of the type switch. *)
Definition unwraps (asMethod : option bool) (u : unwrapping) : bool :=
  match asMethod, u with None, NoUnwrap => false | _, _ => true end.

Definition IsBadRequest (err : option error) : bool :=
  match err with
  | None => false
  | Some (circuitError _ _ _) => false
  | Some (SimpleBadRequest _) => true
  | Some (userError _ (Some b) _ _) => b
  | Some (userError _ None am u as e) => if unwraps am u then as_and_bad e else false
  end.

(** [err] marked as a bad request [n + 1] times. *)
Fixpoint marked (n : nat) (err : option error) : error :=
  match n with O => SimpleBadRequest err | S n => SimpleBadRequest (Some (marked n err)) end.

(** * Lemmas *)

Lemma library_errors_not_bad e b1 b2 msg : e = withMsg b1 b2 msg -> IsBadRequest (Some e) = false.
Proof. by intros ->. Qed.

Lemma IsBadRequest_spec e : IsBadRequest (Some e) = as_and_bad e.
Proof.
  destruct e as [| |msg [b|] am u]; try done.
  simpl. unfold as_and_bad, unwraps. simpl. by destruct am as [[]|], u as [|[]|].
Qed.

Fixpoint errors_app (es es' : errors) : errors :=
  match es with
  | errors_nil => es'
  | errors_cons e es0 => errors_cons e (errors_app es0 es')
  end.

Lemma errors_list_As_app es es' :
  errors_list_As (errors_app es es')
  = match errors_list_As es with Some b => Some b | None => errors_list_As es' end.
Proof.
  induction es as [|[e|] es IH]; simpl; [done | | done]. destruct (errors_As e); [done | apply IH].
Qed.

(** * Properties *)

(** The fast paths of [IsBadRequest] do not change its meaning: for every error it answers
    what [errors.As] followed by [BadRequest()] answers, it sees through one level of
    wrapping, and in a joined error an earlier branch that matches decides. *)
Theorem IsBadRequest_is_errors_As :
  (forall e, IsBadRequest (Some e) = match errors_As e with Some b => b | None => false end) /\
  IsBadRequest None = false /\
  (forall msg e, IsBadRequest (Some (userError msg None None (Unwrap1 (Some e)))) = IsBadRequest (Some e)) /\
  (forall msg es e es', errors_list_As es = None ->
     IsBadRequest (Some (userError msg None None (UnwrapN (errors_app es (errors_cons (Some e) es')))))
     = match errors_As e with
       | Some b => b
       | None => IsBadRequest (Some (userError msg None None (UnwrapN es')))
       end) /\
  IsBadRequest (Some errCircuitOpen) = false /\
  IsBadRequest (Some errThrottledConcurrentCommands) = false /\
  IsBadRequest (Some errThrottledConcurrentFallbacks) = false.
Proof.
  split; [intros e; apply IsBadRequest_spec |]. split; [done |]. split.
  { intros msg e. by rewrite !IsBadRequest_spec. }
  split; [| by repeat split]. intros msg es e es' H.
  rewrite !IsBadRequest_spec. unfold as_and_bad. simpl. rewrite errors_list_As_app, H. simpl.
  by destruct (errors_As e).
Qed.

(** Marking an error as a bad request loses nothing: any number of marks deep, unwrapping gives the
    error back, and the message is that of the innermost error, or a fixed one when that is nil. *)
Theorem marks_lose_nothing n err :
  IsBadRequest (Some (marked n err)) = true /\
  Error (marked n err) = match err with Some e => Error e | None => "bad request"%string end /\
  Unwrap (marked 0 err) = Some err /\ Unwrap (marked (S n) err) = Some (Some (marked n err)) /\
  Cause (marked n err) = Unwrap (marked n err).
Proof.
  split; [by destruct n |]. split; [| by destruct n]. induction n as [|n IH]; [by destruct err | exact IH].
Qed.
