(* ===== verification/Metrics.v ===== *)
(** metrics.go: the interfaces a circuit reports to, and their collections.

    An interface value is the record of its methods, as computations over a state [St] in which
    the implementation lives.  The interfaces are type classes, so that the open/close logic
    of a circuit is found by its state type; a collection is built from a list of values. *)

From S2P Require Import Prelude GoMonad.

(** [context.Context]: a user's context, or the one [context.WithDeadline] derives from it.
    [Background] is the user's context number 0. *)
Inductive Context :=
| UserContext (id : nat)
| WithDeadline (parent : Context) (deadline : Time).

Definition Background : Context := UserContext 0.

(** * Interfaces *)

Class RunMetrics (St : Type) := {
  Success : Context -> Time -> Duration -> M St unit;
  ErrFailure : Context -> Time -> Duration -> M St unit;
  ErrTimeout : Context -> Time -> Duration -> M St unit;
  ErrBadRequest : Context -> Time -> Duration -> M St unit;
  ErrInterrupt : Context -> Time -> Duration -> M St unit;
  ErrConcurrencyLimitReject : Context -> Time -> M St unit;
  ErrShortCircuit : Context -> Time -> M St unit
}.

Class FallbackMetrics (St : Type) := {
  FallbackSuccess : Context -> Time -> Duration -> M St unit;
  FallbackErrFailure : Context -> Time -> Duration -> M St unit;
  FallbackErrConcurrencyLimitReject : Context -> Time -> M St unit
}.

Class Metrics (St : Type) := {
  Closed : Context -> Time -> M St unit;
  Opened : Context -> Time -> M St unit
}.

Arguments Success {St} _ _ _ _.
Arguments ErrFailure {St} _ _ _ _.
Arguments ErrTimeout {St} _ _ _ _.
Arguments ErrBadRequest {St} _ _ _ _.
Arguments ErrInterrupt {St} _ _ _ _.
Arguments ErrConcurrencyLimitReject {St} _ _ _.
Arguments ErrShortCircuit {St} _ _ _.
Arguments FallbackSuccess {St} _ _ _ _.
Arguments FallbackErrFailure {St} _ _ _ _.
Arguments FallbackErrConcurrencyLimitReject {St} _ _ _.
Arguments Closed {St} _ _ _.
Arguments Opened {St} _ _ _.

(** * Collections *)

Definition RunMetricsCollection {St} (r : list (RunMetrics St)) : RunMetrics St := {|
  Success ctx now d := range_do (fun c => Success c ctx now d) r;
  ErrFailure ctx now d := range_do (fun c => ErrFailure c ctx now d) r;
  ErrTimeout ctx now d := range_do (fun c => ErrTimeout c ctx now d) r;
  ErrBadRequest ctx now d := range_do (fun c => ErrBadRequest c ctx now d) r;
  ErrInterrupt ctx now d := range_do (fun c => ErrInterrupt c ctx now d) r;
  ErrConcurrencyLimitReject ctx now := range_do (fun c => ErrConcurrencyLimitReject c ctx now) r;
  ErrShortCircuit ctx now := range_do (fun c => ErrShortCircuit c ctx now) r
|}.

Definition FallbackMetricsCollection {St} (r : list (FallbackMetrics St)) : FallbackMetrics St := {|
  FallbackSuccess ctx now d := range_do (fun c => FallbackSuccess c ctx now d) r;
  FallbackErrFailure ctx now d := range_do (fun c => FallbackErrFailure c ctx now d) r;
  FallbackErrConcurrencyLimitReject ctx now :=
    range_do (fun c => FallbackErrConcurrencyLimitReject c ctx now) r
|}.

Definition MetricsCollection {St} (r : list (Metrics St)) : Metrics St := {|
  Closed ctx now := range_do (fun c => Closed c ctx now) r;
  Opened ctx now := range_do (fun c => Opened c ctx now) r
|}.

(** * Calls as data

    The seven methods of [RunMetrics] and the three of [FallbackMetrics], to state what was
    reported without repeating a statement per method. *)

Inductive run_kind :=
| KSuccess | KErrFailure | KErrTimeout | KErrBadRequest | KErrInterrupt
| KErrConcurrencyLimitReject | KErrShortCircuit.

#[export] Instance run_kind_eq_dec : EqDecision run_kind.
Proof. solve_decision. Defined.

(** The duration is not a parameter of the last two methods. *)
Definition run_call {St} (R : RunMetrics St) (k : run_kind) (ctx : Context) (now : Time) (d : Duration)
    : M St unit :=
  match k with
  | KSuccess => Success R ctx now d
  | KErrFailure => ErrFailure R ctx now d
  | KErrTimeout => ErrTimeout R ctx now d
  | KErrBadRequest => ErrBadRequest R ctx now d
  | KErrInterrupt => ErrInterrupt R ctx now d
  | KErrConcurrencyLimitReject => ErrConcurrencyLimitReject R ctx now
  | KErrShortCircuit => ErrShortCircuit R ctx now
  end.

(** A method of a component's interface value, run inside its owner. *)
Definition RunMetrics_zoom {St T} (f : forall A, M T A -> M St A) (R : RunMetrics T) : RunMetrics St := {|
  Success ctx now d := f _ (Success R ctx now d);
  ErrFailure ctx now d := f _ (ErrFailure R ctx now d);
  ErrTimeout ctx now d := f _ (ErrTimeout R ctx now d);
  ErrBadRequest ctx now d := f _ (ErrBadRequest R ctx now d);
  ErrInterrupt ctx now d := f _ (ErrInterrupt R ctx now d);
  ErrConcurrencyLimitReject ctx now := f _ (ErrConcurrencyLimitReject R ctx now);
  ErrShortCircuit ctx now := f _ (ErrShortCircuit R ctx now)
|}.

(** * Lemmas *)

Lemma run_call_collection {St} (r : list (RunMetrics St)) k ctx now d :
  run_call (RunMetricsCollection r) k ctx now d =~ range_do (fun c => run_call c k ctx now d) r.
Proof. by destruct k. Qed.

Lemma run_call_zoom {St T} (f : forall A, M T A -> M St A) (R : RunMetrics T) k ctx now d :
  run_call (RunMetrics_zoom f R) k ctx now d =~ f _ (run_call R k ctx now d).
Proof. by destruct k. Qed.

(** Every method of the interface keeps an invariant, or keeps it without panicking. *)
Definition run_stable {St} (I : St -> Prop) (R : RunMetrics St) : Prop :=
  forall k ctx now d, stable I (run_call R k ctx now d).
Definition run_safe {St} (I : St -> Prop) (R : RunMetrics St) : Prop :=
  forall k ctx now d, safe I (run_call R k ctx now d).

Lemma run_stable_collection {St} (I : St -> Prop) (r : list (RunMetrics St)) :
  (forall R, R ∈ r -> run_stable I R) -> run_stable I (RunMetricsCollection r).
Proof.
  intros H k ctx now d. rewrite run_call_collection. apply stable_range_do.
  intros R HR. by apply H.
Qed.

Lemma run_safe_collection {St} (I : St -> Prop) (r : list (RunMetrics St)) :
  (forall R, R ∈ r -> run_safe I R) -> run_safe I (RunMetricsCollection r).
Proof.
  intros H k ctx now d. rewrite run_call_collection. apply safe_range_do.
  intros R HR. by apply H.
Qed.
