(* ===== verification/Expvar.v ===== *)
(** expvar: what a component publishes about itself, and how it is read (internal/evar/evar.go), with
    the exporters of the metrics collections (metrics.go).

    [expvar.Func] is a function that is called when the variable is read; the value it returns is an
    [interface{}], here [any].  Such a value may hold pointers to live objects, whose [MarshalJSON]
    runs when the value is encoded and not when it was made: they are the constructor [Marshaler], a
    computation over the store [St].  [Marshal] is [json.Marshal] on these values: elements in order,
    the members of a map in the order of their keys, and no text after the first error.  Of the
    Standard Library's texts the three that depend on more than this are the class [Texts]. *)

From Stdlib Require Import String.
From S2P Require Import Prelude GoMonad GoFloat GoJson Metrics.

Open Scope Z_scope.
#[local] Set Warnings "-register-all".

Module Expvar.
Import GoJson.

(** The texts of instants (which are also read) and of floating point numbers, and the JSON a text
    stands for.  [None]: no RFC 3339 text has this instant, the number is not finite, the text is no
    JSON. *)
Class Texts := {
  format_time : Time -> option string;
  parse_time : string -> option Time;
  json_of_float : float64 -> option json;
  json_of_text : string -> option json
}.

Inductive any (St : Type) :=
| Nil
| Value (j : json)                 (* a plain value: a number, a string, a struct of these; a RawMessage *)
| Float (f : float64)
| Slice (l : list (any St))
| Map (members : list (string * any St))
| Marshaler (MarshalJSON : M St (option json)).

Arguments Nil {St}.
Arguments Value {St} j.
Arguments Float {St} f.
Arguments Slice {St} l.
Arguments Map {St} members.
Arguments Marshaler {St} MarshalJSON.

Definition is_Nil {St} (v : any St) : bool := match v with Nil => true | _ => false end.

(** ** json.Marshal *)

Section Keys.
Context {A : Type}.

(** The keys of an object are written in order. *)
Fixpoint insert_key (m : string * A) (l : list (string * A)) : list (string * A) :=
  match l with
  | [] => [m]
  | m' :: l' => if String.leb m.1 m'.1 then m :: l else m' :: insert_key m l'
  end.

Fixpoint sort_keys (l : list (string * A)) : list (string * A) :=
  match l with
  | [] => []
  | m :: l' => insert_key m (sort_keys l')
  end.
End Keys.

(** One after the other, until an error. *)
Fixpoint in_order {St A} (ms : list (M St (option A))) : M St (option (list A)) :=
  match ms with
  | [] => ret (Some [])
  | m :: ms' =>
      let! o := m in
      match o with
      | None => ret None
      | Some a => let! os := in_order ms' in ret (cons a <$> os)
      end
  end.

Definition with_key {St} (m : string * M St (option json)) : M St (option (string * json)) :=
  let! o := m.2 in ret (pair m.1 <$> o).

Section Marshal.
Context {St : Type} {texts : Texts}.

Fixpoint Marshal (v : any St) : M St (option json) :=
  match v with
  | Nil => ret (Some JNull)
  | Value j => ret (Some j)
  | Float f => ret (json_of_float f)
  | Slice l => let! js := in_order (map Marshal l) in ret (JArray <$> js)
  | Map m =>
      let! ms := in_order (map with_key (sort_keys (map (fun kv => (kv.1, Marshal kv.2)) m))) in
      ret (JObject <$> ms)
  | Marshaler f => f
  end.
End Marshal.

(** ** expvar.Var

    The interface has the method [String]; [Func] and the other variables of the package also have
    [Value].  A nil interface is [None] of [option Var]. *)

Inductive Var (St : Type) :=
| Func (Value : M St (any St))
| OnlyString (to_string : M St string).

Arguments Func {St} Value.
Arguments OnlyString {St} to_string.

(** What calling [Value] does; a variable that has none is read by its text instead. *)
Definition Value_of {St} (v : Var St) : M St (any St) :=
  match v with Func f => f | OnlyString _ => ret Nil end.

(** [Func.String]: the text of the encoding; the error is dropped, and the text is empty then (None). *)
Definition Func_String {St} {texts : Texts} (f : M St (any St)) : M St (option json) :=
  let! v := f in Marshal v.

(** * internal/evar/evar.go *)

Definition ExpvarToVal {St} {texts : Texts} (in_ : option (Var St)) : M St (any St) :=
  match in_ with
  | None => ret Nil
  | Some (Func rawVal) => rawVal
  | Some (OnlyString to_string) =>
      let! asStr := to_string in
      match json_of_text asStr with
      | None => ret (Value (JString asStr))
      | Some j => ret (Value j)
      end
  end.

(** A value that is given to [ForExpvar]: it has a method [Var] or it has not. *)
Inductive exported (St : Type) :=
| HasVar (Var : M St (option (Var St)))
| NoVar (v : any St).

Arguments HasVar {St} Var.
Arguments NoVar {St} v.

Definition ForExpvar {St} {texts : Texts} (in_ : exported St) : M St (any St) :=
  match in_ with
  | HasVar var => let! v := var in ExpvarToVal v
  | NoVar v => ret v
  end.

(** * The collections of metrics.go

    A collector is [varable] or not: its method [Var], if it has one. *)

Definition varable (St : Type) : Type := option (M St (option (Var St))).

Fixpoint collect {St} {texts : Texts} (r : list (varable St)) (acc : list (any St)) : M St (list (any St)) :=
  match r with
  | [] => ret acc
  | None :: r' => collect r' acc
  | Some var :: r' =>
      let! v := var in
      let! asVal := ExpvarToVal v in
      collect r' (if is_Nil asVal then acc else acc ++ [asVal])
  end.

Definition RunMetricsCollection_Var {St} {texts : Texts} (r : list (varable St)) : Var St :=
  Func (let! l := collect r [] in ret (Slice l)).

Definition FallbackMetricsCollection_Var {St} {texts : Texts} (r : list (varable St)) : Var St :=
  Func (let! l := collect r [] in ret (Slice l)).

(** * What is found in a document *)

(** The member of an object, down a path of keys. *)
Definition member (k : string) (j : json) : option json :=
  match j with
  | JObject ms => (fun m => m.2.2) <$> list_find (fun m => m.1 = k) ms
  | _ => None
  end.

Fixpoint at_path (path : list string) (j : json) : option json :=
  match path with
  | [] => Some j
  | k :: path' => j' ← member k j; at_path path' j'
  end.

(** * A component inside its owner

    [f] runs a method of the component in the owner. *)

Section Inside.
Context {St T : Type} (f : forall A, M T A -> M St A).

Fixpoint any_in (v : any T) : any St :=
  match v with
  | Nil => Nil
  | Value j => Value j
  | Float x => Float x
  | Slice vs => Slice (map any_in vs)
  | Map m => Map (map (fun kv => (kv.1, any_in kv.2)) m)
  | Marshaler g => Marshaler (f _ g)
  end.

Definition Var_in (v : Var T) : Var St :=
  match v with
  | Func g => Func (let! x := f _ g in ret (any_in x))
  | OnlyString g => OnlyString (f _ g)
  end.
End Inside.

(** * Lemmas *)

(** ** Induction on values *)

Section AnyInd.
Context {St : Type} (P : any St -> Prop).
Hypothesis (HNil : P Nil) (HValue : forall j, P (Value j)) (HFloat : forall f, P (Float f)).
Hypothesis HSlice : forall l, Forall P l -> P (Slice l).
Hypothesis HMap : forall m, Forall (fun kv => P kv.2) m -> P (Map m).
Hypothesis HMarshaler : forall f, P (Marshaler f).

Fixpoint any_nested (v : any St) : P v :=
  match v with
  | Nil => HNil
  | Value j => HValue j
  | Float f => HFloat f
  | Slice l => HSlice l (list_ind (Forall P) (Forall_nil_2 P) (fun x l H => Forall_cons_2 P x l (any_nested x) H) l)
  | Map m => HMap m ((fix go m : Forall (fun kv => P kv.2) m :=
      match m with
      | [] => Forall_nil_2 _
      | kv :: m' => Forall_cons_2 _ kv m' (any_nested kv.2) (go m')
      end) m)
  | Marshaler f => HMarshaler f
  end.
End AnyInd.

(** ** Keys *)

Lemma insert_key_permutation {A} (m : string * A) l : insert_key m l ≡ₚ m :: l.
Proof.
  induction l as [|m' l IH]; cbn [insert_key]; [done |]. destruct (String.leb _ _); [done |].
  rewrite IH. apply Permutation_swap.
Qed.

Lemma sort_keys_permutation {A} (l : list (string * A)) : sort_keys l ≡ₚ l.
Proof. induction l as [|m l IH]; cbn [sort_keys]; [done |]. by rewrite insert_key_permutation, IH. Qed.

(** Only keys are compared. *)
Lemma sort_keys_Forall2 {A B} (R : A -> B -> Prop) l l' :
  Forall2 (fun a b => a.1 = b.1 /\ R a.2 b.2) l l' ->
  Forall2 (fun a b => a.1 = b.1 /\ R a.2 b.2) (sort_keys l) (sort_keys l').
Proof.
  induction 1 as [|a b l l' [Hk HR] _ IH]; cbn [sort_keys]; [done |].
  induction IH as [|a' b' s s' [Hk' HR'] IHs IH']; cbn [insert_key]; [by repeat constructor |].
  rewrite Hk, Hk'. destruct (String.leb _ _); repeat constructor; done.
Qed.

Lemma member_first (ms : list (string * json)) k j :
  NoDup ms.*1 -> (k, j) ∈ ms -> member k (JObject ms) = Some j.
Proof.
  intros Hn Hin. cbn [member].
  assert (H : exists i, list_find (fun x : string * json => x.1 = k) ms = Some (i, (k, j))); [| by destruct H as [i ->]].
  induction ms as [|[k' j'] ms IH]; [by apply elem_of_nil in Hin |]. cbn in Hn. apply NoDup_cons in Hn as [Hk Hn].
  apply elem_of_cons in Hin as [[= <- <-]|Hin].
  - exists 0%nat. cbn. by rewrite decide_True.
  - destruct (IH Hn Hin) as [i Hi]. exists (S i). cbn. rewrite decide_False, Hi; [done |].
    intros ->. apply Hk. apply list_elem_of_fmap. by exists (k, j).
Qed.

(** The keys of an object, looked up. *)
Lemma member_found (m : list (string * json)) k j :
  NoDup m.*1 -> (k, j) ∈ m -> member k (JObject (sort_keys m)) = Some j.
Proof. intros Hn Hin. apply member_first; by rewrite sort_keys_permutation. Qed.

(** ** Values that are read *)

Section Reads.
Context {St : Type} {texts : Texts}.
Implicit Types (v : any St) (s : St).

(** Encoding [v] gives [j] and leaves the store as it was. *)
Definition reads_as v s (j : json) : Prop := Marshal v s = (Ret (Some j), s).

Lemma in_order_reads {A} (ms : list (M St (option A))) s as_ :
  Forall2 (fun m a => m s = (Ret (Some a), s)) ms as_ -> in_order ms s = (Ret (Some as_), s).
Proof.
  induction 1 as [|m a ms as_ E _ IH]; [done |]. cbn [in_order]. rewrite (bind_run _ _ _ _ _ E).
  by rewrite (bind_run _ _ _ _ _ IH).
Qed.

Lemma reads_Slice l s js : Forall2 (fun v j => reads_as v s j) l js -> reads_as (Slice l) s (JArray js).
Proof.
  intros H. unfold reads_as. cbn [Marshal]. rewrite (bind_run _ _ s (Some js) s); [done |].
  apply in_order_reads. by apply Forall2_fmap_l.
Qed.

Lemma reads_Map m s ms :
  Forall2 (fun kv kj => kv.1 = kj.1 /\ reads_as kv.2 s kj.2) m ms -> reads_as (Map m) s (JObject (sort_keys ms)).
Proof.
  intros H. unfold reads_as. cbn [Marshal].
  rewrite (bind_run _ _ s (Some (sort_keys ms)) s); [done |]. apply in_order_reads, Forall2_fmap_l.
  assert (H' : Forall2 (fun (a : string * M St (option json)) b => a.1 = b.1 /\ a.2 s = (Ret (Some b.2), s))
    (sort_keys (map (fun kv => (kv.1, Marshal kv.2)) m)) (sort_keys ms)).
  { apply (sort_keys_Forall2 (fun (a : M St (option json)) b => a s = (Ret (Some b), s))). by apply Forall2_fmap_l. }
  eapply Forall2_impl; [exact H' |]. intros [k f] [k' j]. cbn. intros [-> E].
  unfold with_key. cbn. by rewrite (bind_run _ _ _ _ _ E).
Qed.

End Reads.

(** ** Values that are encoded while the store changes

    From a store of [I], encoding [v] succeeds with a JSON value of [R] and keeps [I]. *)

Section Encodes.
Context {St : Type} {texts : Texts} (I : St -> Prop).

Definition yields {A} (R : A -> Prop) (m : M St (option A)) : Prop :=
  forall s, I s -> exists a s', m s = (Ret (Some a), s') /\ I s' /\ R a.

Definition encodes (R : json -> Prop) (v : any St) : Prop := yields R (Marshal v).

(** Making the value keeps [I], and so does encoding it later, in any store of [I]. *)
Definition publishes (R : json -> Prop) (f : M St (any St)) : Prop :=
  forall s, I s -> exists v s', f s = (Ret v, s') /\ I s' /\ encodes R v.

Lemma encodes_impl (R R' : json -> Prop) v : (forall j, R j -> R' j) -> encodes R v -> encodes R' v.
Proof. intros H Hv s Hs. destruct (Hv s Hs) as (j & s' & E & Hs' & Hj). exists j, s'. eauto. Qed.

Lemma publishes_String R f s :
  publishes R f -> I s -> exists j s', Func_String f s = (Ret (Some j), s') /\ I s' /\ R j.
Proof.
  intros Hf Hs. destruct (Hf s Hs) as (v & s1 & E & Hs1 & Hv). unfold Func_String.
  rewrite (bind_run _ _ _ _ _ E). by apply Hv.
Qed.

Lemma in_order_yields {A} (ms : list (M St (option A))) (Rs : list (A -> Prop)) :
  Forall2 (fun m R => yields R m) ms Rs -> yields (fun l => Forall2 (fun a (R : A -> Prop) => R a) l Rs) (in_order ms).
Proof.
  induction 1 as [|m R ms Rs Hm _ IH]; intros s Hs; [by exists [], s |].
  destruct (Hm s Hs) as (a & s1 & E & Hs1 & Ha). destruct (IH s1 Hs1) as (l & s2 & E2 & Hs2 & Hl).
  exists (a :: l), s2. cbn [in_order]. rewrite (bind_run _ _ _ _ _ E), (bind_run _ _ _ _ _ E2).
  split; [done |]. split; [done |]. by constructor.
Qed.

Lemma encodes_Value j : encodes (eq j) (Value j).
Proof. intros s Hs. by exists j, s. Qed.

Lemma encodes_Slice R l :
  Forall (encodes R) l -> encodes (fun doc => exists js, doc = JArray js /\ length js = length l /\ Forall R js) (Slice l).
Proof.
  intros H s Hs. destruct (in_order_yields (map Marshal l) (replicate (length l) R)) with s as (js & s' & E & Hs' & Hj).
  - clear s Hs. induction H; constructor; done.
  - done.
  - exists (JArray js), s'. cbn [Marshal]. rewrite (bind_run _ _ _ _ _ E). split; [done |]. split; [done |].
    exists js. split; [done |]. apply Forall2_length in Hj as Hl. rewrite length_replicate in Hl. split; [done |].
    apply Forall_forall. intros j Hin. apply list_elem_of_lookup in Hin as [i Hi].
    destruct (Forall2_lookup_l _ _ _ _ _ Hj Hi) as (R' & HR & HR'). apply lookup_replicate in HR as [-> _]. exact HR'.
Qed.

(** An object with the keys of the map, each with a value of its relation. *)
Definition object_of (keys : list string) (R : string -> json -> Prop) (doc : json) : Prop :=
  forall k, (k ∈ keys -> exists j, member k doc = Some j /\ R k j) /\ (k ∉ keys -> member k doc = None).

Lemma member_none k ms : k ∉ ms.*1 -> member k (JObject ms) = None.
Proof using.
  clear. intros H. cbn [member]. assert (E : list_find (fun m : string * json => m.1 = k) ms = None); [| by rewrite E].
  apply list_find_None. apply Forall_forall. intros m Hm <-. apply H. by apply list_elem_of_fmap_2.
Qed.

Lemma with_key_yields R k m : yields R m -> yields (fun kj : string * json => kj.1 = k /\ R kj.2) (with_key (k, m)).
Proof.
  intros H s Hs. destruct (H s Hs) as (j & s' & E & Hs' & Hj). exists (k, j), s'. unfold with_key. cbn [fst snd].
  by rewrite (bind_run _ _ _ _ _ E).
Qed.

Lemma encodes_Map (R : string -> json -> Prop) m :
  NoDup m.*1 -> (forall k v, (k, v) ∈ m -> encodes (R k) v) -> encodes (object_of m.*1 R) (Map m).
Proof.
  intros Hn H s Hs. set (ks := sort_keys (map (fun kv => (kv.1, Marshal kv.2)) m)).
  assert (Hp : ks.*1 ≡ₚ m.*1).
  { unfold ks. rewrite (fmap_Permutation fst _ _ (sort_keys_permutation _)). rewrite <- list_fmap_compose. done. }
  assert (Hks : forall k f, (k, f) ∈ ks -> yields (R k) f).
  { intros k f Hin. unfold ks in Hin. rewrite sort_keys_permutation in Hin.
    apply list_elem_of_fmap in Hin as ([k' v] & [= -> ->] & Hin). by apply H. }
  destruct (in_order_yields (map with_key ks) (map (fun kf => fun kj => kj.1 = kf.1 /\ R kf.1 kj.2) ks)) with s
    as (ms & s' & E & Hs' & Hms); [| done |].
  { apply Forall2_fmap, Forall_Forall2_diag, Forall_forall. intros [k f] Hin. apply with_key_yields. by apply Hks. }
  exists (JObject ms), s'. cbn [Marshal]. fold ks. rewrite (bind_run _ _ _ _ _ E). split; [done |]. split; [done |].
  apply Forall2_fmap_r in Hms.
  assert (Hkeys : ms.*1 = ks.*1) by (clear -Hms; induction Hms as [|kj kf ? ? [E _] _ IH]; cbn; [done | by rewrite E, IH]).
  intros k. rewrite <- Hp, <- Hkeys. split; [| apply member_none].
  intros Hk. apply list_elem_of_fmap in Hk as ([k' j] & -> & Hin). exists j. split.
  - assert (Hnd : NoDup ms.*1) by (rewrite Hkeys, Hp; exact Hn). by apply member_first.
  - apply list_elem_of_lookup in Hin as [i Hi]. destruct (Forall2_lookup_l _ _ _ _ _ Hms Hi) as ([k2 f] & _ & [Ek HR]).
    cbn in *. by subst k2.
Qed.

(** The collectors that have something to say. *)
Lemma collect_publishes R (r : list (varable St)) :
  (forall var, Some var ∈ r -> publishes R (let! x := var in ExpvarToVal x)) ->
  forall acc, Forall (encodes R) acc -> forall s, I s ->
  exists l s', collect r acc s = (Ret l, s') /\ I s' /\ Forall (encodes R) l.
Proof.
  induction r as [|[var|] r IH]; intros H acc Hacc s Hs; cbn [collect]; [by exists acc, s | |].
  - destruct (H var ltac:(left) s Hs) as (v & s2 & E & Hs2 & Hv). apply bind_inv in E as (x & s1 & E1 & E2).
    rewrite (bind_run _ _ _ _ _ E1), (bind_run _ _ _ _ _ E2). apply IH; [| | done].
    + intros var' Hin. apply H. by right.
    + destruct (is_Nil v); [done |]. apply Forall_app. split; [done |]. by repeat constructor.
  - apply IH; try done. intros var Hin. apply H. by right.
Qed.

Lemma collection_publishes R (r : list (varable St)) :
  (forall var, Some var ∈ r -> publishes R (let! x := var in ExpvarToVal x)) ->
  publishes (fun doc => exists js, doc = JArray js /\ Forall R js) (Value_of (RunMetricsCollection_Var r)).
Proof.
  intros H s Hs. destruct (collect_publishes R r H [] ltac:(constructor) s Hs) as (l & s' & E & Hs' & Hl).
  exists (Slice l), s'. cbn [Value_of RunMetricsCollection_Var]. rewrite (bind_run _ _ _ _ _ E). split; [done |].
  split; [done |]. eapply encodes_impl; [| by apply encodes_Slice]. intros j (js & -> & _ & Hjs). by exists js.
Qed.
End Encodes.

(** ** Encoding a component inside its owner

    [f] runs what it is given in the owner, step by step, in the stores of [P]. *)

Section InsideFacts.
Context {St T : Type} {texts : Texts} (f : forall A, M T A -> M St A) (P : St -> Prop).
Hypothesis f_ret : forall A (a : A) s, P s -> f A (ret a) s = (Ret a, s).
Hypothesis f_bind : forall A B (m : M T A) (k : A -> M T B), f B (bind m k) =~ bind (f A m) (fun a => f B (k a)).
Hypothesis f_keeps : forall A (m : M T A) s, P s -> P (f A m s).2.

Lemma f_bind_run {A B} (m : M T A) (k : A -> M T B) (m' : M St A) (k' : A -> M St B) s :
  P s -> m' s = f A m s -> (forall a s', P s' -> k' a s' = f B (k a) s') -> bind m' k' s = f B (bind m k) s.
Proof.
  intros Hs Hm Hk. rewrite (f_bind _ _ m k s). unfold bind. rewrite Hm. pose proof (f_keeps _ m s Hs) as Hs'.
  destruct (f A m s) as [[a| | |] s']; try done. by apply Hk.
Qed.

Lemma in_order_in {A} (ms : list (M T (option A))) (ms' : list (M St (option A))) s :
  Forall2 (fun m m' => forall s, P s -> m' s = f _ m s) ms ms' -> P s -> in_order ms' s = f _ (in_order ms) s.
Proof.
  intros H. revert s. induction H as [|m m' ms ms' E _ IH]; intros s Hs; cbn [in_order]; [by rewrite f_ret |].
  apply f_bind_run; [done | by apply E |]. intros [a|] s' Hs'; [| by rewrite f_ret].
  apply f_bind_run; [done | by apply IH |]. intros os s2 Hs2. by rewrite f_ret.
Qed.

Lemma Marshal_in (v : any T) s : P s -> Marshal (any_in f v) s = f _ (Marshal v) s.
Proof.
  revert s. induction v as [|j|x|vs IH|m IH|g] using any_nested; intros s Hs; cbn [any_in Marshal];
    try (by rewrite f_ret); try done.
  - apply f_bind_run; [done | | intros js s' Hs'; by rewrite f_ret]. apply in_order_in; [| done].
    rewrite map_map. apply Forall2_fmap. induction IH; constructor; done.
  - apply f_bind_run; [done | | intros js s' Hs'; by rewrite f_ret]. apply in_order_in; [| done]. apply Forall2_fmap.
    eapply Forall2_impl.
    + apply (sort_keys_Forall2 (fun (a : M T (option json)) b => forall s, P s -> b s = f _ a s)).
      rewrite map_map. apply Forall2_fmap. induction IH as [|kv m Hkv _ IHm]; constructor; done.
    + intros [k g] [k' g']. cbn. intros [-> E] s2 Hs2. unfold with_key. cbn. apply f_bind_run; [done | by apply E |].
      intros o s3 Hs3. by rewrite f_ret.
Qed.
End InsideFacts.
End Expvar.
