(* ===== verification/Closers.v ===== *)
(** closers.go: the interfaces of the open/close logic of a circuit, the default logic that
    never opens and never closes, and what a circuit may rely on ([ClosedToOpenLaws],
    [OpenToClosedLaws]: on states of an invariant every method returns normally and keeps the
    invariant).  The two laws classes are what the implementations of HystrixOpener.v,
    HystrixCloser.v and SimpleLogic.v discharge and what the theorems about circuits use. *)

From S2P Require Import Prelude GoMonad Metrics.

(** * Interfaces *)

Class ClosedToOpen (S : Type) := {
  opener_run :: RunMetrics S;
  opener_metrics :: Metrics S;
  ShouldOpen : Context -> Time -> M S bool;
  Prevent : Context -> Time -> M S bool
}.

Class OpenToClosed (S : Type) := {
  closer_run :: RunMetrics S;
  closer_metrics :: Metrics S;
  ShouldClose : Context -> Time -> M S bool;
  Allow : Context -> Time -> M S bool
}.

(** * What the implementations promise *)

Class ClosedToOpenLaws (S : Type) `{!ClosedToOpen S} (inv : S -> Prop) : Prop := {
  opener_run_safe : run_safe inv opener_run;
  opener_Opened_safe : forall ctx now, safe inv (Opened opener_metrics ctx now);
  opener_Closed_safe : forall ctx now, safe inv (Closed opener_metrics ctx now);
  ShouldOpen_safe : forall ctx now, safe inv (ShouldOpen ctx now);
  Prevent_safe : forall ctx now, safe inv (Prevent ctx now)
}.

Class OpenToClosedLaws (S : Type) `{!OpenToClosed S} (inv : S -> Prop) : Prop := {
  closer_run_safe : run_safe inv closer_run;
  closer_Opened_safe : forall ctx now, safe inv (Opened closer_metrics ctx now);
  closer_Closed_safe : forall ctx now, safe inv (Closed closer_metrics ctx now);
  ShouldClose_safe : forall ctx now, safe inv (ShouldClose ctx now);
  Allow_safe : forall ctx now, safe inv (Allow ctx now)
}.

(** * What the logic of a circuit is told

    The result of a command, or a transition of its circuit. *)

Inductive told :=
| Reported (k : run_kind) (t : Time) (d : Duration)
| Transitioned (open : bool) (t : Time).

Definition told_time (x : told) : Time :=
  match x with Reported _ t _ => t | Transitioned _ t => t end.

Definition tell_opener {S} `{!ClosedToOpen S} (x : told) : M S unit :=
  match x with
  | Reported k t d => run_call opener_run k Background t d
  | Transitioned true t => Opened opener_metrics Background t
  | Transitioned false t => Closed opener_metrics Background t
  end.

Definition tell_closer {S} `{!OpenToClosed S} (x : told) : M S unit :=
  match x with
  | Reported k t d => run_call closer_run k Background t d
  | Transitioned true t => Opened closer_metrics Background t
  | Transitioned false t => Closed closer_metrics Background t
  end.

(** * The default logic *)

Inductive neverOpens : Set := neverOpens_value.
Inductive neverCloses : Set := neverCloses_value.

Definition never_run (S : Type) : RunMetrics S := {|
  Success _ _ _ := ret tt;
  ErrFailure _ _ _ := ret tt;
  ErrTimeout _ _ _ := ret tt;
  ErrBadRequest _ _ _ := ret tt;
  ErrInterrupt _ _ _ := ret tt;
  ErrConcurrencyLimitReject _ _ := ret tt;
  ErrShortCircuit _ _ := ret tt
|}.

Definition never_metrics (S : Type) : Metrics S := {|
  Closed _ _ := ret tt;
  Opened _ _ := ret tt
|}.

#[export] Instance neverOpens_ClosedToOpen : ClosedToOpen neverOpens := {|
  opener_run := never_run neverOpens;
  opener_metrics := never_metrics neverOpens;
  ShouldOpen _ _ := ret false;
  Prevent _ _ := ret false
|}.

#[export] Instance neverCloses_OpenToClosed : OpenToClosed neverCloses := {|
  closer_run := never_run neverCloses;
  closer_metrics := never_metrics neverCloses;
  ShouldClose _ _ := ret false;
  Allow _ _ := ret false
|}.

#[export] Instance neverOpens_laws : ClosedToOpenLaws neverOpens (fun _ => True).
Proof. split; intros; try apply safe_ret. intros k ctx now d. destruct k; apply safe_ret. Qed.

#[export] Instance neverCloses_laws : OpenToClosedLaws neverCloses (fun _ => True).
Proof. split; intros; try apply safe_ret. intros k ctx now d. destruct k; apply safe_ret. Qed.
