(* ===== verification/Config.v ===== *)
(** config.go: the configuration of a circuit and its merging.

    Function-valued fields are [option]s of what the function does: a clock or a factory is a
    computation over the environment [U] of the program (everything outside the circuit), a
    classification of errors is a function.  Of [GoLostErrors] and [AfterFunc] only the identity
    matters here, as it does for the user's metrics objects: they are numbered.  A nil map or
    function is [None].  The types are parameterised by the open/close logic [OS] and [CS]. *)

From S2P Require Import Prelude GoMonad Errors.

(** * Data *)

Section Config.
Context {OS CS U : Type}.

Record TimeKeeper := mkTimeKeeper {
  Now : option (M U Time);
  AfterFunc : option nat
}.

Record ExecutionConfig := mkExecutionConfig {
  Timeout : Duration;
  MaxConcurrentRequests : Z;
  IgnoreInterrupts : bool;
  IsErrInterrupt : option (error -> bool)
}.

Record FallbackConfig := mkFallbackConfig {
  Fallback_Disabled : bool;
  Fallback_MaxConcurrentRequests : Z
}.

Record MetricsCollectors := mkMetricsCollectors {
  Metrics_Run : list nat;
  Metrics_Fallback : list nat;
  Metrics_Circuit : list nat
}.

Record GeneralConfig := mkGeneralConfig {
  Disabled : bool;
  ForceOpen : bool;
  ForcedClosed : bool;
  GoLostErrors : option nat;
  ClosedToOpenFactory : option (M U OS);
  OpenToClosedFactory : option (M U CS);
  CustomConfig : option (gmap nat nat);
  General_TimeKeeper : TimeKeeper
}.

Record Config := mkConfig {
  General : GeneralConfig;
  Execution : ExecutionConfig;
  Fallback : FallbackConfig;
  Metrics_ : MetricsCollectors
}.

(** The atomic mirror of the settings that are read during calls. *)
Record atomicCircuitConfig := mkAtomicCircuitConfig {
  a_ExecutionTimeout : Duration;
  a_MaxConcurrentRequests : Z;
  a_Fallback_Disabled : bool;
  a_Fallback_MaxConcurrentRequests : Z;
  a_ForceOpen : bool;
  a_ForcedClosed : bool;
  a_Disabled : bool;
  a_IgnoreInterrupts : bool
}.

(** * Merging *)

(** [if c.f == nil { c.f = other.f }] and [if c.f == 0 { c.f = other.f }] *)
Definition merge_nil {A} (c other : option A) : option A :=
  match c with None => other | Some _ => c end.
Definition merge_zero (c other : Z) : Z := if c =? 0 then other else c.
(** [if !c.f { c.f = other.f }] *)
Definition merge_flag (c other : bool) : bool := if negb c then other else c.

Definition TimeKeeper_merge (t other : TimeKeeper) : TimeKeeper :=
  mkTimeKeeper (merge_nil (Now t) (Now other)) (merge_nil (AfterFunc t) (AfterFunc other)).

Definition ExecutionConfig_merge (c other : ExecutionConfig) : ExecutionConfig :=
  mkExecutionConfig
    (merge_zero (Timeout c) (Timeout other))
    (merge_zero (MaxConcurrentRequests c) (MaxConcurrentRequests other))
    (merge_flag (IgnoreInterrupts c) (IgnoreInterrupts other))
    (merge_nil (IsErrInterrupt c) (IsErrInterrupt other)).

Definition FallbackConfig_merge (c other : FallbackConfig) : FallbackConfig :=
  mkFallbackConfig
    (merge_flag (Fallback_Disabled c) (Fallback_Disabled other))
    (merge_zero (Fallback_MaxConcurrentRequests c) (Fallback_MaxConcurrentRequests other)).

(** The loop adds the keys of [other] that [g] does not have: a left-biased union. *)
Definition mergeCustomConfig (g other : option (gmap nat nat)) : option (gmap nat nat) :=
  match other with
  | Some o => if decide (o = ∅) then g else Some (default ∅ g ∪ o)
  | None => g
  end.

Definition GeneralConfig_merge (g other : GeneralConfig) : GeneralConfig :=
  mkGeneralConfig
    (merge_flag (Disabled g) (Disabled other))
    (merge_flag (ForceOpen g) (ForceOpen other))
    (merge_flag (ForcedClosed g) (ForcedClosed other))
    (merge_nil (GoLostErrors g) (GoLostErrors other))
    (merge_nil (ClosedToOpenFactory g) (ClosedToOpenFactory other))
    (merge_nil (OpenToClosedFactory g) (OpenToClosedFactory other))
    (mergeCustomConfig (CustomConfig g) (CustomConfig other))
    (TimeKeeper_merge (General_TimeKeeper g) (General_TimeKeeper other)).

Definition MetricsCollectors_merge (m other : MetricsCollectors) : MetricsCollectors :=
  mkMetricsCollectors
    (Metrics_Run m ++ Metrics_Run other)
    (Metrics_Fallback m ++ Metrics_Fallback other)
    (Metrics_Circuit m ++ Metrics_Circuit other).

Definition Merge (c other : Config) : Config :=
  mkConfig
    (GeneralConfig_merge (General c) (General other))
    (ExecutionConfig_merge (Execution c) (Execution other))
    (FallbackConfig_merge (Fallback c) (Fallback other))
    (MetricsCollectors_merge (Metrics_ c) (Metrics_ other)).

(** The zero value [Config{}]. *)
Definition Config_zero : Config :=
  mkConfig
    (mkGeneralConfig false false false None None None None (mkTimeKeeper None None))
    (mkExecutionConfig 0 0 false None)
    (mkFallbackConfig false 0)
    (mkMetricsCollectors [] [] []).

(** [a.reset(config)] overwrites every field. *)
Definition reset (config : Config) : atomicCircuitConfig :=
  mkAtomicCircuitConfig
    (Timeout (Execution config))
    (MaxConcurrentRequests (Execution config))
    (Fallback_Disabled (Fallback config))
    (Fallback_MaxConcurrentRequests (Fallback config))
    (ForceOpen (General config))
    (ForcedClosed (General config))
    (Disabled (General config))
    (IgnoreInterrupts (Execution config)).

(** The package defaults: the default open/close logic, the wall clock [wall] and the real
    timer service, which has number [0]. *)
Definition defaultExecutionConfig : ExecutionConfig := mkExecutionConfig Second 10 false None.

Definition defaultFallbackConfig : FallbackConfig := mkFallbackConfig false 10.

Definition defaultGoSpecificConfig (opens : M U OS) (closes : M U CS) (wall : M U Time) : GeneralConfig :=
  mkGeneralConfig false false false None (Some opens) (Some closes) None
    (mkTimeKeeper (Some wall) (Some 0%nat)).

Definition defaultCommandProperties (opens : M U OS) (closes : M U CS) (wall : M U Time) : Config :=
  mkConfig (defaultGoSpecificConfig opens closes wall) defaultExecutionConfig defaultFallbackConfig
    (mkMetricsCollectors [] [] []).
End Config.

Arguments TimeKeeper U : clear implicits.
Arguments GeneralConfig OS CS U : clear implicits.
Arguments Config OS CS U : clear implicits.

(** * Lemmas *)

Lemma merge_nil_assoc {A} (a b c : option A) :
  merge_nil (merge_nil a b) c = merge_nil a (merge_nil b c).
Proof. by destruct a. Qed.

Lemma merge_zero_assoc a b c : merge_zero (merge_zero a b) c = merge_zero a (merge_zero b c).
Proof. unfold merge_zero. by destruct (Z.eqb_spec a 0) as [|H%Z.eqb_neq]; rewrite ?H. Qed.

Lemma merge_flag_assoc a b c : merge_flag (merge_flag a b) c = merge_flag a (merge_flag b c).
Proof. by destruct a. Qed.

Lemma mergeCustomConfig_assoc a b c :
  mergeCustomConfig (mergeCustomConfig a b) c = mergeCustomConfig a (mergeCustomConfig b c).
Proof.
  unfold mergeCustomConfig. destruct c as [c|]; [| done].
  destruct (decide (c = ∅)) as [->|Hc]; [done |].
  destruct (decide (default ∅ b ∪ c = ∅)) as [He|_].
  - pose proof (map_positive_l _ _ He) as Hb. rewrite Hb, (left_id_L ∅ (∪)) in He. done.
  - destruct b as [b|]; simpl.
    + destruct (decide (b = ∅)) as [->|]; simpl; [by rewrite (left_id_L ∅ (∪)) | by rewrite (assoc_L (∪))].
    + by rewrite (left_id_L ∅ (∪)).
Qed.

Create Rewrite HintDb go_merge.
#[export] Hint Rewrite @merge_nil_assoc merge_zero_assoc merge_flag_assoc mergeCustomConfig_assoc
  @app_assoc : go_merge.

(** * Properties *)

(** [Merge] is associative, so the order in which a chain of configurations is folded into
    one does not matter, only their order of precedence; and merging the package defaults into
    any configuration leaves no clock and no factory unset and keeps every field that was
    set. *)
Theorem Merge_assoc_and_defaults {OS CS U : Type} (a b c : Config OS CS U) opens closes wall :
  Merge (Merge a b) c = Merge a (Merge b c) /\
  let d := Merge a (defaultCommandProperties opens closes wall) in
  is_Some (Now (General_TimeKeeper (General d))) /\
  is_Some (ClosedToOpenFactory (General d)) /\ is_Some (OpenToClosedFactory (General d)) /\
  (forall t, Now (General_TimeKeeper (General a)) = Some t -> Now (General_TimeKeeper (General d)) = Some t) /\
  Timeout (Execution d) = (if Timeout (Execution a) =? 0 then Second else Timeout (Execution a)) /\
  MaxConcurrentRequests (Execution d)
    = (if MaxConcurrentRequests (Execution a) =? 0 then 10 else MaxConcurrentRequests (Execution a)) /\
  (forall k, CustomConfig (General d) = Some k <-> CustomConfig (General a) = Some k) /\
  Metrics_ d = Metrics_ a.
Proof.
  split.
  - unfold Merge, GeneralConfig_merge, ExecutionConfig_merge, FallbackConfig_merge,
      MetricsCollectors_merge, TimeKeeper_merge. simpl. by autorewrite with go_merge.
  - destruct a as [g e f m], g as [? ? ? ? [|] [|] ? [[|] ?]], m; simpl;
      unfold MetricsCollectors_merge; simpl; rewrite ?app_nil_r; repeat split; eauto; try done.
Qed.
