(* ===== verification/Circuit.v ===== *)
(** circuit.go: the circuit breaker.

    A method of [*Circuit] is a computation over a [World]: the circuit and the environment [U]
    of the program.  User code (the metrics objects, run and fallback functions, the clock) is
    given by arbitrary computations, the functions that receive control over the whole world:
    they may change anything, call back into the circuit, panic, and stand for what other
    goroutines do meanwhile.

    Configuration holds functions over [U] only; the user's metrics objects are numbered and
    their methods found in [UserCode], so a circuit can be stored in the world its listeners
    act on.  Both mutexes are modelled: locking one that this goroutine holds is [Deadlock].
    The loop of [deliverPendingTransitions] runs on [fuel], since listeners may cause
    transitions forever; [deliver_enough_fuel] says how much is enough when they do not. *)

From S2P Require Import Prelude GoMonad Errors Metrics Closers Config.

(** * Data *)

(** [transition]: a queued Opened ([open = true]) or Closed notification. *)
Record transition := mkTransition {
  t_open : bool;
  t_ctx : Context;
  t_now : Time
}.

(** An element of [CmdMetricCollector]: the circuit's own logic, or a user's object. *)
Inductive run_ref :=
| RefOpenToClose
| RefClosedToOpen
| RefUser (id : nat).

Section Data.
Context {OS CS U : Type}.

Record Circuit := mkCircuit {
  CmdMetricCollector : list run_ref;
  FallbackMetricCollector : list nat;
  CircuitMetricsCollector : list nat;
  lostErrors : option nat;
  name : string;
  notThreadSafeConfig : Config OS CS U;
  notThreadSafeConfigMu : bool;
  threadSafeConfig : atomicCircuitConfig;
  isOpen : bool;
  ClosedToOpenLogic : option OS;
  OpenToClose : option CS;
  timeNow : option (M U Time);
  transitionMu : bool;
  pendingTransitions : list transition;
  deliveringTransitions : bool;
  concurrentCommands : Z;
  concurrentFallbacks : Z
}.

Record World := mkWorld { circ : Circuit; env : U }.

Definition envL : lens World U := Lens env (fun u w => mkWorld (circ w) u).

Definition CmdMetricCollectorL : lens World (list run_ref) :=
  Lens (fun w => CmdMetricCollector (circ w)) (fun v w => let c := circ w in mkWorld (
    mkCircuit v (FallbackMetricCollector c) (CircuitMetricsCollector c) (lostErrors c) (name c)
      (notThreadSafeConfig c) (notThreadSafeConfigMu c) (threadSafeConfig c) (isOpen c)
      (ClosedToOpenLogic c) (OpenToClose c) (timeNow c) (transitionMu c) (pendingTransitions c)
      (deliveringTransitions c) (concurrentCommands c) (concurrentFallbacks c)) (env w)).

Definition FallbackMetricCollectorL : lens World (list nat) :=
  Lens (fun w => FallbackMetricCollector (circ w)) (fun v w => let c := circ w in mkWorld (
    mkCircuit (CmdMetricCollector c) v (CircuitMetricsCollector c) (lostErrors c) (name c)
      (notThreadSafeConfig c) (notThreadSafeConfigMu c) (threadSafeConfig c) (isOpen c)
      (ClosedToOpenLogic c) (OpenToClose c) (timeNow c) (transitionMu c) (pendingTransitions c)
      (deliveringTransitions c) (concurrentCommands c) (concurrentFallbacks c)) (env w)).

Definition CircuitMetricsCollectorL : lens World (list nat) :=
  Lens (fun w => CircuitMetricsCollector (circ w)) (fun v w => let c := circ w in mkWorld (
    mkCircuit (CmdMetricCollector c) (FallbackMetricCollector c) v (lostErrors c) (name c)
      (notThreadSafeConfig c) (notThreadSafeConfigMu c) (threadSafeConfig c) (isOpen c)
      (ClosedToOpenLogic c) (OpenToClose c) (timeNow c) (transitionMu c) (pendingTransitions c)
      (deliveringTransitions c) (concurrentCommands c) (concurrentFallbacks c)) (env w)).

Definition lostErrorsL : lens World (option nat) :=
  Lens (fun w => lostErrors (circ w)) (fun v w => let c := circ w in mkWorld (
    mkCircuit (CmdMetricCollector c) (FallbackMetricCollector c) (CircuitMetricsCollector c) v
      (name c) (notThreadSafeConfig c) (notThreadSafeConfigMu c) (threadSafeConfig c) (isOpen c)
      (ClosedToOpenLogic c) (OpenToClose c) (timeNow c) (transitionMu c) (pendingTransitions c)
      (deliveringTransitions c) (concurrentCommands c) (concurrentFallbacks c)) (env w)).

Definition notThreadSafeConfigL : lens World (Config OS CS U) :=
  Lens (fun w => notThreadSafeConfig (circ w)) (fun v w => let c := circ w in mkWorld (
    mkCircuit (CmdMetricCollector c) (FallbackMetricCollector c) (CircuitMetricsCollector c)
      (lostErrors c) (name c) v (notThreadSafeConfigMu c) (threadSafeConfig c) (isOpen c)
      (ClosedToOpenLogic c) (OpenToClose c) (timeNow c) (transitionMu c) (pendingTransitions c)
      (deliveringTransitions c) (concurrentCommands c) (concurrentFallbacks c)) (env w)).

Definition notThreadSafeConfigMuL : lens World (bool) :=
  Lens (fun w => notThreadSafeConfigMu (circ w)) (fun v w => let c := circ w in mkWorld (
    mkCircuit (CmdMetricCollector c) (FallbackMetricCollector c) (CircuitMetricsCollector c)
      (lostErrors c) (name c) (notThreadSafeConfig c) v (threadSafeConfig c) (isOpen c)
      (ClosedToOpenLogic c) (OpenToClose c) (timeNow c) (transitionMu c) (pendingTransitions c)
      (deliveringTransitions c) (concurrentCommands c) (concurrentFallbacks c)) (env w)).

Definition threadSafeConfigL : lens World (atomicCircuitConfig) :=
  Lens (fun w => threadSafeConfig (circ w)) (fun v w => let c := circ w in mkWorld (
    mkCircuit (CmdMetricCollector c) (FallbackMetricCollector c) (CircuitMetricsCollector c)
      (lostErrors c) (name c) (notThreadSafeConfig c) (notThreadSafeConfigMu c) v (isOpen c)
      (ClosedToOpenLogic c) (OpenToClose c) (timeNow c) (transitionMu c) (pendingTransitions c)
      (deliveringTransitions c) (concurrentCommands c) (concurrentFallbacks c)) (env w)).

Definition isOpenL : lens World (bool) :=
  Lens (fun w => isOpen (circ w)) (fun v w => let c := circ w in mkWorld (
    mkCircuit (CmdMetricCollector c) (FallbackMetricCollector c) (CircuitMetricsCollector c)
      (lostErrors c) (name c) (notThreadSafeConfig c) (notThreadSafeConfigMu c)
      (threadSafeConfig c) v (ClosedToOpenLogic c) (OpenToClose c) (timeNow c) (transitionMu c)
      (pendingTransitions c) (deliveringTransitions c) (concurrentCommands c)
      (concurrentFallbacks c)) (env w)).

Definition ClosedToOpenLogicL : lens World (option OS) :=
  Lens (fun w => ClosedToOpenLogic (circ w)) (fun v w => let c := circ w in mkWorld (
    mkCircuit (CmdMetricCollector c) (FallbackMetricCollector c) (CircuitMetricsCollector c)
      (lostErrors c) (name c) (notThreadSafeConfig c) (notThreadSafeConfigMu c)
      (threadSafeConfig c) (isOpen c) v (OpenToClose c) (timeNow c) (transitionMu c)
      (pendingTransitions c) (deliveringTransitions c) (concurrentCommands c)
      (concurrentFallbacks c)) (env w)).

Definition OpenToCloseL : lens World (option CS) :=
  Lens (fun w => OpenToClose (circ w)) (fun v w => let c := circ w in mkWorld (
    mkCircuit (CmdMetricCollector c) (FallbackMetricCollector c) (CircuitMetricsCollector c)
      (lostErrors c) (name c) (notThreadSafeConfig c) (notThreadSafeConfigMu c)
      (threadSafeConfig c) (isOpen c) (ClosedToOpenLogic c) v (timeNow c) (transitionMu c)
      (pendingTransitions c) (deliveringTransitions c) (concurrentCommands c)
      (concurrentFallbacks c)) (env w)).

Definition timeNowL : lens World (option (M U Time)) :=
  Lens (fun w => timeNow (circ w)) (fun v w => let c := circ w in mkWorld (
    mkCircuit (CmdMetricCollector c) (FallbackMetricCollector c) (CircuitMetricsCollector c)
      (lostErrors c) (name c) (notThreadSafeConfig c) (notThreadSafeConfigMu c)
      (threadSafeConfig c) (isOpen c) (ClosedToOpenLogic c) (OpenToClose c) v (transitionMu c)
      (pendingTransitions c) (deliveringTransitions c) (concurrentCommands c)
      (concurrentFallbacks c)) (env w)).

Definition transitionMuL : lens World (bool) :=
  Lens (fun w => transitionMu (circ w)) (fun v w => let c := circ w in mkWorld (
    mkCircuit (CmdMetricCollector c) (FallbackMetricCollector c) (CircuitMetricsCollector c)
      (lostErrors c) (name c) (notThreadSafeConfig c) (notThreadSafeConfigMu c)
      (threadSafeConfig c) (isOpen c) (ClosedToOpenLogic c) (OpenToClose c) (timeNow c) v
      (pendingTransitions c) (deliveringTransitions c) (concurrentCommands c)
      (concurrentFallbacks c)) (env w)).

Definition pendingTransitionsL : lens World (list transition) :=
  Lens (fun w => pendingTransitions (circ w)) (fun v w => let c := circ w in mkWorld (
    mkCircuit (CmdMetricCollector c) (FallbackMetricCollector c) (CircuitMetricsCollector c)
      (lostErrors c) (name c) (notThreadSafeConfig c) (notThreadSafeConfigMu c)
      (threadSafeConfig c) (isOpen c) (ClosedToOpenLogic c) (OpenToClose c) (timeNow c)
      (transitionMu c) v (deliveringTransitions c) (concurrentCommands c) (concurrentFallbacks c)) (env w)).

Definition deliveringTransitionsL : lens World (bool) :=
  Lens (fun w => deliveringTransitions (circ w)) (fun v w => let c := circ w in mkWorld (
    mkCircuit (CmdMetricCollector c) (FallbackMetricCollector c) (CircuitMetricsCollector c)
      (lostErrors c) (name c) (notThreadSafeConfig c) (notThreadSafeConfigMu c)
      (threadSafeConfig c) (isOpen c) (ClosedToOpenLogic c) (OpenToClose c) (timeNow c)
      (transitionMu c) (pendingTransitions c) v (concurrentCommands c) (concurrentFallbacks c)) (env w)).

Definition concurrentCommandsL : lens World (Z) :=
  Lens (fun w => concurrentCommands (circ w)) (fun v w => let c := circ w in mkWorld (
    mkCircuit (CmdMetricCollector c) (FallbackMetricCollector c) (CircuitMetricsCollector c)
      (lostErrors c) (name c) (notThreadSafeConfig c) (notThreadSafeConfigMu c)
      (threadSafeConfig c) (isOpen c) (ClosedToOpenLogic c) (OpenToClose c) (timeNow c)
      (transitionMu c) (pendingTransitions c) (deliveringTransitions c) v (concurrentFallbacks c)) (env w)).

Definition concurrentFallbacksL : lens World (Z) :=
  Lens (fun w => concurrentFallbacks (circ w)) (fun v w => let c := circ w in mkWorld (
    mkCircuit (CmdMetricCollector c) (FallbackMetricCollector c) (CircuitMetricsCollector c)
      (lostErrors c) (name c) (notThreadSafeConfig c) (notThreadSafeConfigMu c)
      (threadSafeConfig c) (isOpen c) (ClosedToOpenLogic c) (OpenToClose c) (timeNow c)
      (transitionMu c) (pendingTransitions c) (deliveringTransitions c) (concurrentCommands c) v) (env w)).

End Data.

Arguments Circuit OS CS U : clear implicits.
Arguments World OS CS U : clear implicits.

(** ** User code *)

(** The optional [Configurable] methods of an open/close logic. *)
Record Configurable (S Cfg U : Type) := mkConfigurable {
  SetConfigThreadSafe_ : Cfg -> M S unit;
  SetConfigNotThreadSafe_ : Cfg -> M S unit
}.

Arguments SetConfigThreadSafe_ {S Cfg U} _ _.
Arguments SetConfigNotThreadSafe_ {S Cfg U} _ _.

Class UserCode (OS CS U : Type) := {
  user_run : nat -> RunMetrics (World OS CS U);
  user_fallback : nat -> FallbackMetrics (World OS CS U);
  user_metrics : nat -> Metrics (World OS CS U);
  (** [ctx.Err()], and the cancel function of a derived context *)
  ctx_Err : Context -> U -> option error;
  ctx_cancel : Context -> U -> U;
  opener_Configurable : option (Configurable OS (Config OS CS U) U);
  closer_Configurable : option (Configurable CS (Config OS CS U) U);
  (** the package defaults that come from elsewhere *)
  neverOpensFactory : M U OS;
  neverClosesFactory : M U CS;
  time_Now : M U Time
}.

(** A method receiver: nil, or the circuit of the world. *)
Inductive circuit_ptr := nilCircuit | theCircuit.

(** * Operations *)

Section Methods.
Context {OS CS U : Type} `{!ClosedToOpen OS} `{!OpenToClosed CS} `{!UserCode OS CS U}.
Context (fuel : nat).

Abbreviation W := (World OS CS U).
Implicit Types (ctx : Context) (w : W).

(** [fieldL.Set(v)] and reads of fields. *)
Definition set {T} (l : lens W T) (v : T) : M W unit := modify (upd l v).
Definition get {T} (l : lens W T) : M W T := gets (view l).

Definition lock (mu : lens W bool) : M W unit := fun w =>
  if view mu w then (Deadlock, w) else (Ret tt, upd mu true w).
Definition unlock (mu : lens W bool) : M W unit := fun w =>
  if view mu w then (Ret tt, upd mu false w) else (Panic UnlockOfUnlocked, w).

(** [counter.Add(d)] of an [AtomicInt64] field: the new value is returned. *)
Definition atomic_Add (l : lens W Z) (d : Z) : M W Z :=
  let! v := get l in do! set l (wrap64 (v + d)); ret (wrap64 (v + d)).

(** The methods of the open/close logic, called through the interface fields. *)
Definition with_opener {A} (m : M OS A) : M W A := zoom_ptr ClosedToOpenLogicL m.
Definition with_closer {A} (m : M CS A) : M W A := zoom_ptr OpenToCloseL m.

Definition deref_run (r : run_ref) : RunMetrics W :=
  match r with
  | RefOpenToClose => RunMetrics_zoom (@with_closer) closer_run
  | RefClosedToOpen => RunMetrics_zoom (@with_opener) opener_run
  | RefUser id => user_run id
  end.

(** [c.CmdMetricCollector.F(...)], and the same of the other two collections *)
Definition cmd_metrics (k : run_kind) ctx (now : Time) (d : Duration) : M W unit :=
  let! r := get CmdMetricCollectorL in
  run_call (RunMetricsCollection (map deref_run r)) k ctx now d.
Definition fallback_metrics : M W (FallbackMetrics W) :=
  let! r := get FallbackMetricCollectorL in ret (FallbackMetricsCollection (map user_fallback r)).
Definition circuit_metrics : M W (Metrics W) :=
  let! r := get CircuitMetricsCollectorL in ret (MetricsCollection (map user_metrics r)).

Definition now : M W Time :=
  let! f := get timeNowL in
  match f with
  | Some m => zoom envL m
  | None => throw NilDereference
  end.

(** ** Transitions *)

Definition notifyStateMachines ctx (now : Time) (open : bool) : M W unit :=
  if open then
    do! with_closer (Opened closer_metrics ctx now);
    with_opener (Opened opener_metrics ctx now)
  else
    do! with_closer (Closed closer_metrics ctx now);
    with_opener (Closed opener_metrics ctx now).

(** The body of [commitTransition], with the lock held. *)
Definition commit_locked ctx (now0 : Time) (open : bool)
    (recheck : option (Context -> Time -> M W bool)) : M W bool :=
  let! o := get isOpenL in
  if Bool.eqb o open then ret false
  else
    let! ok := match recheck with Some f => f ctx now0 | None => ret true end in
    if negb ok then ret false
    else
      do! set isOpenL open;
      let! flipped := now in
      let now1 := if time_After flipped now0 then flipped else now0 in
      do! notifyStateMachines ctx now1 open;
      let! q := get pendingTransitionsL in
      do! set pendingTransitionsL (q ++ [mkTransition open ctx now1]);
      ret true.

Definition commitTransition ctx (now0 : Time) (open : bool)
    (recheck : option (Context -> Time -> M W bool)) : M W bool :=
  do! lock transitionMuL;
  defer (unlock transitionMuL) (commit_locked ctx now0 open recheck).

Definition notifyListeners (t : transition) : M W unit :=
  let! ms := circuit_metrics in
  if t_open t then Opened ms (t_ctx t) (t_now t) else Closed ms (t_ctx t) (t_now t).

(** The first critical section of [deliverPendingTransitions]: take the deliverer role, and
    keep the lock, unless somebody has the role. *)
Definition deliver_enter : M W bool :=
  do! lock transitionMuL;
  let! busy := get deliveringTransitionsL in
  if busy then do! unlock transitionMuL; ret false
  else do! set deliveringTransitionsL true; ret true.

(** The head of its loop, with the lock held: pop the next transition, or give up the role. *)
Definition deliver_pop : M W (option transition) :=
  let! q := get pendingTransitionsL in
  match q with
  | next :: rest =>
      do! set pendingTransitionsL rest;
      do! unlock transitionMuL;
      ret (Some next)
  | [] =>
      do! set deliveringTransitionsL false;
      do! unlock transitionMuL;
      ret None
  end.

Fixpoint deliver_loop (fuel : nat) : M W unit :=
  match fuel with
  | O => fun w => (OutOfFuel, w)
  | S fuel' =>
      let! next := deliver_pop in
      match next with
      | None => ret tt
      | Some t =>
          do! notifyListeners t;
          do! lock transitionMuL;
          deliver_loop fuel'
      end
  end.

(** The deferred function of an abnormal exit, up to its recursive call. *)
Definition deliver_abort : M W unit :=
  do! lock transitionMuL;
  do! set deliveringTransitionsL false;
  unlock transitionMuL.

Fixpoint deliver (fuel : nat) : M W unit :=
  match fuel with
  | O => fun w => (OutOfFuel, w)
  | S fuel' =>
      let! role := deliver_enter in
      if negb role then ret tt
      else fun w =>
        match deliver_loop fuel w with
        | (Panic p, w') => (do! deliver_abort; do! deliver fuel'; throw p) w'
        | r => r
        end
  end.

Definition deliverPendingTransitions : M W unit := deliver fuel.

Definition transitionTo ctx (now0 : Time) (open : bool)
    (recheck : option (Context -> Time -> M W bool)) : M W unit :=
  let! o := get isOpenL in
  if Bool.eqb o open then ret tt
  else
    let! committed := commitTransition ctx now0 open recheck in
    if committed then deliverPendingTransitions else ret tt.

Definition CloseCircuit ctx : M W unit :=
  let! t := now in transitionTo ctx t false None.

Definition OpenCircuit ctx : M W unit :=
  let! t := now in transitionTo ctx t true None.

(** ** Reading the circuit *)

Definition ConcurrentCommands : M W Z := get concurrentCommandsL.
Definition ConcurrentFallbacks : M W Z := get concurrentFallbacksL.

Definition IsOpen (c : circuit_ptr) : M W bool :=
  match c with
  | nilCircuit => ret false
  | theCircuit =>
      let! cfg := get threadSafeConfigL in
      if a_ForceOpen cfg then ret true
      else if a_ForcedClosed cfg then ret false
      else get isOpenL
  end.

Definition Name (c : circuit_ptr) : M W string :=
  match c with
  | nilCircuit => ret ""
  | theCircuit => gets (fun w => name (circ w))
  end.

Definition GetConfig : M W (Config OS CS U) :=
  do! lock notThreadSafeConfigMuL;
  defer (unlock notThreadSafeConfigMuL) (get notThreadSafeConfigL).

Definition isEmptyOrNil (c : circuit_ptr) : M W bool :=
  match c with
  | nilCircuit => ret true
  | theCircuit => let! l := get OpenToCloseL in
      ret (match l with Some _ => false | None => true end)
  end.

(** ** Deciding *)

Definition allowNewRun ctx (t : Time) (maxConcurrent : Z) : M W bool :=
  let! cfg := get threadSafeConfigL in
  if a_ForceOpen cfg then ret false
  else
    let! o := get isOpenL in
    if a_ForcedClosed cfg || negb o then ret true
    else
      let! running := get concurrentCommandsL in
      if (0 <=? maxConcurrent) && (maxConcurrent <=? running) then ret false
      else with_closer (Allow ctx t).

Definition attemptToOpen ctx (t : Time) : M W unit :=
  let! cfg := get threadSafeConfigL in
  if a_ForcedClosed cfg then ret tt
  else
    let! o := get isOpenL in
    if o : bool then ret tt
    else
      let! should := with_opener (ShouldOpen ctx t) in
      if should : bool
      then transitionTo ctx t true (Some (fun ctx t => with_opener (ShouldOpen ctx t)))
      else ret tt.

Definition checkSuccess ctx (runFuncDoneTime : Time) (totalCmdTime : Duration) : M W unit :=
  do! cmd_metrics KSuccess ctx runFuncDoneTime totalCmdTime;
  let! o := get isOpenL in
  let! cfg := get threadSafeConfigL in
  if negb o || a_ForceOpen cfg then ret tt
  else
    let! should := with_closer (ShouldClose ctx runFuncDoneTime) in
    if should : bool
    then transitionTo ctx runFuncDoneTime false (Some (fun ctx t => with_closer (ShouldClose ctx t)))
    else ret tt.

Definition checkErrInterrupt ctx (originalContext : Context) (r : option error)
    (runFuncDoneTime : Time) (totalCmdTime : Duration) : M W bool :=
  let! originalErr := gets (fun w => ctx_Err originalContext (env w)) in
  match r, originalErr with
  | Some _, Some e =>
      do! lock notThreadSafeConfigMuL;
      let! cfg := get notThreadSafeConfigL in
      do! unlock notThreadSafeConfigMuL;
      let isErrInterrupt := default (fun _ => true) (IsErrInterrupt (Execution cfg)) in
      let! a := get threadSafeConfigL in
      if negb (a_IgnoreInterrupts a) && isErrInterrupt e then
        do! cmd_metrics KErrInterrupt ctx runFuncDoneTime totalCmdTime;
        ret true
      else ret false
  | _, _ => ret false
  end.

Definition checkErrBadRequest ctx (r : option error) (runFuncDoneTime : Time)
    (totalCmdTime : Duration) : M W bool :=
  if IsBadRequest r then
    do! cmd_metrics KErrBadRequest ctx runFuncDoneTime totalCmdTime;
    ret true
  else ret false.

(** The common end of [checkErrFailure] and [checkErrTimeout]. *)
Definition attempt_if_closed ctx (t : Time) : M W unit :=
  let! o := get isOpenL in if negb o then attemptToOpen ctx t else ret tt.

Definition checkErrFailure ctx (r : option error) (runFuncDoneTime : Time)
    (totalCmdTime : Duration) : M W bool :=
  match r with
  | Some _ =>
      do! cmd_metrics KErrFailure ctx runFuncDoneTime totalCmdTime;
      do! attempt_if_closed ctx runFuncDoneTime;
      ret true
  | None => ret false
  end.

Definition checkErrTimeout ctx (expectedDoneBy runFuncDoneTime : Time)
    (totalCmdTime : Duration) : M W bool :=
  if negb (time_IsZero expectedDoneBy) && time_Before expectedDoneBy runFuncDoneTime then
    do! cmd_metrics KErrTimeout ctx runFuncDoneTime totalCmdTime;
    do! attempt_if_closed ctx runFuncDoneTime;
    ret true
  else ret false.

(** ** Running a command *)

(** The end of [run], after [runFunc] returned [r]. *)
Definition classify ctx (originalContext : Context) (r : option error)
    (expectedDoneBy runFuncDoneTime : Time) (totalCmdTime : Duration) : M W (option error) :=
  let! bad := checkErrBadRequest ctx r runFuncDoneTime totalCmdTime in
  if bad : bool then ret r
  else
    let! timeout := checkErrTimeout ctx expectedDoneBy runFuncDoneTime totalCmdTime in
    if timeout : bool then ret r
    else
      let! interrupted := checkErrInterrupt ctx originalContext r runFuncDoneTime totalCmdTime in
      if interrupted : bool then ret r
      else
        let! failed := checkErrFailure ctx r runFuncDoneTime totalCmdTime in
        if failed : bool then ret r
        else
          do! checkSuccess ctx runFuncDoneTime totalCmdTime;
          ret None.

Definition run_and_classify ctx (originalContext : Context) (startTime expectedDoneBy : Time)
    (runFunc : Context -> M W (option error)) : M W (option error) :=
  let! r := runFunc ctx in
  let! runFuncDoneTime := now in
  classify ctx originalContext r expectedDoneBy runFuncDoneTime (time_Sub runFuncDoneTime startTime).

(** The part of [run] below the deferred decrement of [concurrentCommands]. *)
Definition run_counted ctx (startTime : Time) (maxConcurrent currentCommandCount : Z)
    (runFunc : Context -> M W (option error)) : M W (option error) :=
  if (0 <=? maxConcurrent) && (maxConcurrent <? currentCommandCount) then
    do! cmd_metrics KErrConcurrencyLimitReject ctx startTime 0;
    ret (Some errThrottledConcurrentCommands)
  else
    let! cfg := get threadSafeConfigL in
    let timeout := a_ExecutionTimeout cfg in
    if 0 <? timeout then
      let expectedDoneBy := time_Add startTime timeout in
      let derived := WithDeadline ctx expectedDoneBy in
      defer (modify (fun w => upd envL (ctx_cancel derived (env w)) w))
        (run_and_classify derived ctx startTime expectedDoneBy runFunc)
    else run_and_classify ctx ctx startTime 0 runFunc.

Definition run ctx (runFunc : Context -> M W (option error)) : M W (option error) :=
  let! startTime := now in
  let! cfg := get threadSafeConfigL in
  let maxConcurrent := a_MaxConcurrentRequests cfg in
  let! allowed := allowNewRun ctx startTime maxConcurrent in
  if negb allowed then
    do! cmd_metrics KErrShortCircuit ctx startTime 0;
    ret (Some errCircuitOpen)
  else
    let! prevented := with_opener (Prevent ctx startTime) in
    if prevented : bool then ret (Some errCircuitOpen)
    else
      let! currentCommandCount := atomic_Add concurrentCommandsL 1 in
      defer (let! _ := atomic_Add concurrentCommandsL (-1) in ret tt)
        (run_counted ctx startTime maxConcurrent currentCommandCount runFunc).

(** The part of [fallback] below the deferred decrement of [concurrentFallbacks]. *)
Definition fallback_counted ctx (err : error) (currentFallbackCount : Z)
    (fallbackFunc : Context -> error -> M W (option error)) : M W (option error) :=
  let! cfg := get threadSafeConfigL in
  let maxFallback := a_Fallback_MaxConcurrentRequests cfg in
  let! startTime := now in
  if (0 <=? maxFallback) && (maxFallback <? currentFallbackCount) then
    let! fm := fallback_metrics in
    do! FallbackErrConcurrencyLimitReject fm ctx startTime;
    ret (Some errThrottledConcurrentFallbacks)
  else
    let! retErr := fallbackFunc ctx err in
    let! endTime := now in
    let totalCmdTime := time_Sub endTime startTime in
    let! fm := fallback_metrics in
    match retErr with
    | Some _ => do! FallbackErrFailure fm ctx startTime totalCmdTime; ret retErr
    | None => do! FallbackSuccess fm ctx startTime totalCmdTime; ret None
    end.

Definition fallback ctx (err : error)
    (fallbackFunc : option (Context -> error -> M W (option error))) : M W (option error) :=
  let! cfg := get threadSafeConfigL in
  match fallbackFunc with
  | Some f =>
      if a_Fallback_Disabled cfg then ret (Some err)
      else
        let! currentFallbackCount := atomic_Add concurrentFallbacksL 1 in
        defer (let! _ := atomic_Add concurrentFallbacksL (-1) in ret tt)
          (fallback_counted ctx err currentFallbackCount f)
  | None => ret (Some err)
  end.

Definition Execute (c : circuit_ptr) ctx (runFunc : option (Context -> M W (option error)))
    (fallbackFunc : option (Context -> error -> M W (option error))) : M W (option error) :=
  match runFunc with
  | None => ret None
  | Some f =>
      let! empty := isEmptyOrNil c in
      let! cfg := get threadSafeConfigL in
      if empty || a_Disabled cfg then f ctx
      else
        let! err := run ctx f in
        match err with
        | None => ret None
        | Some e =>
            if IsBadRequest err then ret err else fallback ctx e fallbackFunc
        end
  end.

Definition Run (c : circuit_ptr) ctx (runFunc : option (Context -> M W (option error)))
    : M W (option error) :=
  Execute c ctx runFunc None.

(** ** Configuration *)

Definition SetConfigThreadSafe (config : Config OS CS U) : M W unit :=
  do! lock notThreadSafeConfigMuL;
  defer (unlock notThreadSafeConfigMuL)
    (do! set notThreadSafeConfigL config;
     let! stored := get notThreadSafeConfigL in
     do! set threadSafeConfigL (reset stored);
     do! match closer_Configurable with
         | Some cfg => with_closer (SetConfigThreadSafe_ cfg config)
         | None => ret tt
         end;
     match opener_Configurable with
     | Some cfg => with_opener (SetConfigThreadSafe_ cfg config)
     | None => ret tt
     end).

(** A call of a function-valued field, which panics when it is nil. *)
Definition call_factory {A} (f : option (M U A)) : M W A :=
  match f with
  | Some m => zoom envL m
  | None => throw NilDereference
  end.

Definition SetConfigNotThreadSafe (config : Config OS CS U) : M W unit :=
  do! lock notThreadSafeConfigMuL;
  do! set notThreadSafeConfigL config;
  do! unlock notThreadSafeConfigMuL;
  do! set lostErrorsL (GoLostErrors (General config));
  do! set timeNowL (Now (General_TimeKeeper (General config)));
  let! closer := call_factory (OpenToClosedFactory (General config)) in
  do! set OpenToCloseL (Some closer);
  let! opener := call_factory (ClosedToOpenFactory (General config)) in
  do! set ClosedToOpenLogicL (Some opener);
  do! match closer_Configurable with
      | Some cfg => with_closer (SetConfigNotThreadSafe_ cfg config)
      | None => ret tt
      end;
  do! match opener_Configurable with
      | Some cfg => with_opener (SetConfigNotThreadSafe_ cfg config)
      | None => ret tt
      end;
  do! set CmdMetricCollectorL
    (RefOpenToClose :: RefClosedToOpen :: map RefUser (Metrics_Run (Metrics_ config)));
  do! set FallbackMetricCollectorL (Metrics_Fallback (Metrics_ config));
  do! set CircuitMetricsCollectorL (Metrics_Circuit (Metrics_ config));
  do! SetConfigThreadSafe config;
  let! o := get isOpenL in
  if o : bool then
    let! t := now in notifyStateMachines Background t true
  else ret tt.

(** The zero value [Circuit{}] with a name and a configuration stored. *)
Definition Circuit_zero (nm : string) (config : Config OS CS U) : Circuit OS CS U :=
  mkCircuit [] [] [] None nm config false (mkAtomicCircuitConfig 0 0 false 0 false false false false)
    false None None None false [] false 0 0.

(** [NewCircuitFromConfig]: the new circuit, and the environment its factories leave. *)
Definition NewCircuitFromConfig (nm : string) (config : Config OS CS U) : M U (Circuit OS CS U) := fun u =>
  let config := Merge config (defaultCommandProperties neverOpensFactory neverClosesFactory time_Now) in
  match SetConfigNotThreadSafe config (mkWorld (Circuit_zero nm config) u) with
  | (Ret _, w) => (Ret (circ w), env w)
  | (Panic p, w) => (Panic p, env w)
  | (Deadlock, w) => (Deadlock, env w)
  | (OutOfFuel, w) => (OutOfFuel, env w)
  end.
End Methods.
