(* ===== verification/CircuitFrames.v ===== *)
(** What the calls of circuit.go leave alone: frame lemmas of every method of [Execute] and of
    the transitions, for invariants of the world given by what they do not depend on.  User code
    keeps the invariant by hypothesis ([UserKeeps], [ListenersKeep]). *)

From S2P Require Import Prelude GoMonad Errors Metrics Closers Config Circuit.

Section Frames.
Context {OS CS U : Type} `{!ClosedToOpen OS} `{!OpenToClosed CS} `{!UserCode OS CS U}.
Abbreviation W := (World OS CS U).
Implicit Types w : W.

Class Framed (I : W -> Prop) : Prop := {
  framed_now : stable I now;
  framed_opener : forall (os : OS) w, I w -> I (upd ClosedToOpenLogicL (Some os) w);
  framed_closer : forall (cs : CS) w, I w -> I (upd OpenToCloseL (Some cs) w)
}.

(** It outlives the derived context of a call and the lock of the configuration. *)
Class FramedCalls (I : W -> Prop) : Prop := {
  framed_cancel : forall ctx w, I w -> I (upd envL (ctx_cancel ctx (env w)) w);
  framed_cfgmu : forall b w, I w -> I (upd notThreadSafeConfigMuL b w)
}.

(** The clock changes the environment alone. *)
Lemma env_now (I : W -> Prop) : (forall u w, I w -> I (upd envL u w)) -> stable I now.
Proof.
  intros He w Hw. unfold now, bind, get, gets. destruct (view timeNowL w) as [m|]; [| done].
  unfold zoom. destruct (m (view envL w)). by apply He.
Qed.

(** It does not depend on the concurrency counters. *)
Class FramedCounters (I : W -> Prop) : Prop := {
  framed_commands : forall n w, I w -> I (upd concurrentCommandsL n w);
  framed_fallbacks : forall n w, I w -> I (upd concurrentFallbacksL n w)
}.

(** It does not depend on what a transition changes. *)
Class FramedTransitions (I : W -> Prop) : Prop := {
  framed_isOpen : forall b w, I w -> I (upd isOpenL b w);
  framed_transitionMu : forall b w, I w -> I (upd transitionMuL b w);
  framed_pending : forall q w, I w -> I (upd pendingTransitionsL q w);
  framed_delivering : forall b w, I w -> I (upd deliveringTransitionsL b w)
}.

(** User code keeps the invariant: metrics objects, and a command or fallback given to [Execute]. *)
Class UserKeeps (I : W -> Prop) : Prop := {
  user_run_keeps : forall id, run_stable I (user_run id);
  user_FallbackSuccess_keeps : forall id ctx t d, stable I (FallbackSuccess (user_fallback id) ctx t d);
  user_FallbackErrFailure_keeps : forall id ctx t d,
    stable I (FallbackErrFailure (user_fallback id) ctx t d);
  user_FallbackReject_keeps : forall id ctx t,
    stable I (FallbackErrConcurrencyLimitReject (user_fallback id) ctx t)
}.

(** Only those of fallbacks do. *)
Class FallbacksKeep (I : W -> Prop) : Prop := {
  fallback_Success_keeps : forall id ctx t d, stable I (FallbackSuccess (user_fallback id) ctx t d);
  fallback_ErrFailure_keeps : forall id ctx t d, stable I (FallbackErrFailure (user_fallback id) ctx t d);
  fallback_Reject_keeps : forall id ctx t, stable I (FallbackErrConcurrencyLimitReject (user_fallback id) ctx t)
}.

#[export] Instance user_fallbacks_keep I : UserKeeps I -> FallbacksKeep I.
Proof. by intros []. Qed.

(** So do the listeners of transitions. *)
Class ListenersKeep (I : W -> Prop) : Prop := {
  user_Opened_keeps : forall id ctx t, stable I (Opened (user_metrics id) ctx t);
  user_Closed_keeps : forall id ctx t, stable I (Closed (user_metrics id) ctx t)
}.

Section Fallbacks.
Context (I : W -> Prop) `{!Framed I} `{!FallbacksKeep I}.

Lemma atomic_Add_framed (l : lens W Z) d :
  (forall n w, I w -> I (upd l n w)) -> stable I (atomic_Add l d).
Proof.
  intros H. unfold atomic_Add. stable_go idtac; [apply stable_gets |].
  apply stable_modify. intros w. apply H.
Qed.

Lemma fallback_metrics_framed {A} (k : FallbackMetrics W -> M W A) :
  (forall ids, stable I (k (FallbackMetricsCollection (map user_fallback ids)))) ->
  stable I (let! fm := fallback_metrics in k fm).
Proof. intros Hk w Hw. unfold fallback_metrics. unfold bind at 1 2, get, gets, ret. by apply Hk. Qed.

Lemma fallback_counted_framed ctx e n g :
  (forall ctx e, stable I (g ctx e)) -> stable I (fallback_counted ctx e n g).
Proof.
  intros Hg. unfold fallback_counted. apply stable_bind; [apply stable_gets | intros cfg]. cbv zeta.
  apply stable_bind; [apply framed_now | intros t].
  assert (Hrange : forall (k : FallbackMetrics W -> M W unit) ids,
    (forall id, stable I (k (user_fallback id))) -> stable I (range_do k (map user_fallback ids))).
  { intros k ids Hk. apply stable_range_do. intros R HR.
    by apply list_elem_of_fmap in HR as (id & -> & _). }
  destruct (_ && _).
  - apply fallback_metrics_framed. intros ids. apply stable_bind; [| intros _; apply stable_ret].
    apply (Hrange (fun R => FallbackErrConcurrencyLimitReject R ctx t)).
    intros id. apply fallback_Reject_keeps.
  - apply stable_bind; [apply Hg | intros r]. apply stable_bind; [apply framed_now | intros t'].
    apply fallback_metrics_framed. intros ids.
    destruct r; (apply stable_bind; [| intros _; apply stable_ret]).
    + apply (Hrange (fun R => FallbackErrFailure R ctx t (time_Sub t' t))).
      intros id. apply fallback_ErrFailure_keeps.
    + apply (Hrange (fun R => FallbackSuccess R ctx t (time_Sub t' t))).
      intros id. apply fallback_Success_keeps.
Qed.

Lemma fallback_framed `{!FramedCounters I} ctx e f :
  (forall g ctx e, f = Some g -> stable I (g ctx e)) -> stable I (fallback ctx e f).
Proof.
  intros Hf. unfold fallback. apply stable_bind; [apply stable_gets | intros cfg].
  destruct f as [g|]; [| apply stable_ret]. destruct (a_Fallback_Disabled cfg); [apply stable_ret |].
  apply stable_bind; [apply atomic_Add_framed, framed_fallbacks | intros n]. apply stable_defer.
  - apply stable_bind; [apply atomic_Add_framed, framed_fallbacks | intros ?; apply stable_ret].
  - apply fallback_counted_framed; eauto.
Qed.
End Fallbacks.

Section Framed.
Context (I : W -> Prop) `{!Framed I} `{!UserKeeps I}.

Lemma with_opener_framed {A} (m : M OS A) : stable I (with_opener m).
Proof.
  intros w Hw. unfold with_opener, zoom_ptr. destruct (view ClosedToOpenLogicL w) as [os|]; [| done].
  destruct (m os). by apply framed_opener.
Qed.

Lemma with_closer_framed {A} (m : M CS A) : stable I (with_closer m).
Proof.
  intros w Hw. unfold with_closer, zoom_ptr. destruct (view OpenToCloseL w) as [cs|]; [| done].
  destruct (m cs). by apply framed_closer.
Qed.

Lemma cmd_metrics_framed k ctx t d : stable I (cmd_metrics k ctx t d).
Proof.
  unfold cmd_metrics. apply stable_bind; [apply stable_gets | intros r].
  apply run_stable_collection. intros R HR. apply list_elem_of_fmap in HR as (ref & -> & _).
  intros k' ctx' t' d'. destruct ref as [| |id]; simpl; rewrite ?run_call_zoom.
  - apply with_closer_framed.
  - apply with_opener_framed.
  - apply user_run_keeps.
Qed.

Lemma set_framed {T} (l : lens W T) v : (forall w, I w -> I (upd l v w)) -> stable I (set l v).
Proof. apply stable_modify. Qed.

Context `{!FramedCalls I}.

Lemma lock_cfg_framed : stable I (lock notThreadSafeConfigMuL).
Proof. intros w Hw. unfold lock. destruct (view _ w); [done |]. by apply framed_cfgmu. Qed.

Lemma unlock_cfg_framed : stable I (unlock notThreadSafeConfigMuL).
Proof. intros w Hw. unfold unlock. destruct (view _ w); [| done]. by apply framed_cfgmu. Qed.

Lemma checkErrInterrupt_framed ctx orig r t d : stable I (checkErrInterrupt ctx orig r t d).
Proof.
  unfold checkErrInterrupt.
  stable_go ltac:(first [apply stable_gets | apply lock_cfg_framed | apply unlock_cfg_framed
    | apply cmd_metrics_framed]).
Qed.

(** A call keeps the invariant if its two places that may transition do. *)
Context (fuel : nat).
Hypothesis attempt_keeps : forall ctx t, stable I (attempt_if_closed fuel ctx t).
Hypothesis success_keeps : forall ctx t d, stable I (checkSuccess fuel ctx t d).

Lemma classify_framed ctx orig r exp done tot : stable I (classify fuel ctx orig r exp done tot).
Proof.
  unfold classify, checkErrBadRequest, checkErrTimeout, checkErrFailure.
  stable_go ltac:(first [apply cmd_metrics_framed | apply checkErrInterrupt_framed
    | apply attempt_keeps | apply success_keeps]).
Qed.

Lemma run_and_classify_framed ctx orig t0 exp f :
  (forall ctx, stable I (f ctx)) -> stable I (run_and_classify fuel ctx orig t0 exp f).
Proof.
  intros Hf. unfold run_and_classify.
  stable_go ltac:(first [apply Hf | apply framed_now | apply classify_framed]).
Qed.

Lemma run_framed `{!FramedCounters I} ctx f : (forall ctx, stable I (f ctx)) -> stable I (run fuel ctx f).
Proof.
  intros Hf. unfold run, allowNewRun, run_counted.
  stable_go ltac:(first [apply stable_gets | apply framed_now | apply with_opener_framed
    | apply with_closer_framed | apply cmd_metrics_framed
    | apply atomic_Add_framed, framed_commands | by apply run_and_classify_framed
    | apply stable_modify; intros ? ?; by apply framed_cancel]).
Qed.

Lemma Execute_framed `{!FramedCounters I} c ctx f fb :
  (forall g ctx, f = Some g -> stable I (g ctx)) ->
  (forall g ctx e, fb = Some g -> stable I (g ctx e)) -> stable I (Execute fuel c ctx f fb).
Proof.
  intros Hf Hfb. destruct f as [g|]; [| apply stable_ret]. unfold Execute, isEmptyOrNil.
  destruct c;
    stable_go ltac:(first [apply stable_gets | by apply (Hf g) | apply run_framed; by eauto
      | apply fallback_framed; solve [apply _ | eauto]]).
Qed.
End Framed.

(** ** Transitions *)

Section FramedTransitions.
Context (I : W -> Prop) `{!Framed I} `{!UserKeeps I} `{!FramedTransitions I} `{!ListenersKeep I}.

Lemma lock_framed : stable I (lock transitionMuL).
Proof. intros w Hw. unfold lock. destruct (view _ w); [done |]. by apply framed_transitionMu. Qed.

Lemma unlock_framed : stable I (unlock transitionMuL).
Proof. intros w Hw. unfold unlock. destruct (view _ w); [| done]. by apply framed_transitionMu. Qed.

Ltac transition_leaf :=
  first [apply stable_gets | apply lock_framed | apply unlock_framed | apply framed_now
    | apply with_opener_framed; apply _ | apply with_closer_framed; apply _
    | apply set_framed; intros ? ?;
      first [by apply framed_isOpen | by apply framed_pending | by apply framed_delivering]].

Lemma commitTransition_framed ctx t o recheck :
  (forall f ctx t, recheck = Some f -> stable I (f ctx t)) ->
  stable I (commitTransition ctx t o recheck).
Proof.
  intros Hr. unfold commitTransition, commit_locked, notifyStateMachines.
  stable_go ltac:(first [transition_leaf | by eapply Hr; eauto]).
Qed.

Lemma notifyListeners_framed tr : stable I (notifyListeners tr).
Proof.
  intros w Hw. unfold notifyListeners, circuit_metrics, bind at 1 2, get, gets, ret.
  revert w Hw. change (stable I (let! ids := get CircuitMetricsCollectorL in
    (if t_open tr then Opened (MetricsCollection (map user_metrics ids)) (t_ctx tr) (t_now tr)
     else Closed (MetricsCollection (map user_metrics ids)) (t_ctx tr) (t_now tr)))).
  apply stable_bind; [apply stable_gets | intros ids].
  destruct (t_open tr); apply stable_range_do; intros R HR;
    apply list_elem_of_fmap in HR as (id & -> & _); [apply user_Opened_keeps | apply user_Closed_keeps].
Qed.

Lemma deliver_loop_framed n : stable I (deliver_loop n).
Proof.
  induction n as [|n IH]; [by intros w Hw |]. cbn [deliver_loop]. unfold deliver_pop.
  stable_go ltac:(first [transition_leaf | apply notifyListeners_framed | apply IH]).
Qed.

Lemma deliver_framed n : stable I (deliver n).
Proof.
  induction n as [|n IH]; [by intros w Hw |]. cbn [deliver]. apply stable_bind.
  { unfold deliver_enter. stable_go transition_leaf. }
  intros role. destruct (negb role); [apply stable_ret |]. intros w Hw.
  pose proof (deliver_loop_framed (S n) w Hw) as Hl. destruct (deliver_loop (S n) w) as [[] w']; try done.
  revert w' Hl. change (stable I (do! deliver_abort; do! deliver n; @throw W unit p)).
  unfold deliver_abort. stable_go ltac:(first [transition_leaf | apply IH]).
Qed.

Lemma transitionTo_framed fuel ctx t o recheck :
  (forall f ctx t, recheck = Some f -> stable I (f ctx t)) ->
  stable I (transitionTo fuel ctx t o recheck).
Proof.
  intros Hr. unfold transitionTo.
  stable_go ltac:(first [transition_leaf | by apply commitTransition_framed | apply deliver_framed]).
Qed.

Lemma attempt_if_closed_framed fuel ctx t : stable I (attempt_if_closed fuel ctx t).
Proof.
  unfold attempt_if_closed, attemptToOpen.
  stable_go ltac:(first [transition_leaf | apply transitionTo_framed; intros ? ? ? [= <-];
    apply with_opener_framed; apply _]).
Qed.

Lemma checkSuccess_framed fuel ctx t d : stable I (checkSuccess fuel ctx t d).
Proof.
  unfold checkSuccess.
  stable_go ltac:(first [transition_leaf | apply cmd_metrics_framed; apply _
    | apply transitionTo_framed; intros ? ? ? [= <-]; apply with_closer_framed; apply _]).
Qed.
End FramedTransitions.
End Frames.
