(* ===== verification/CircuitFacts.v ===== *)
(** Properties of circuit.go, of one goroutine's calls (Transitions.v has the interleavings).

    - [classify_verdict]: what a command is reported as, as a decision table over the state in which
      the decision is taken.
    - [Execute_leaves]: with lawful open/close logic, every call returns (or lets exactly the
      user's panic through), leaves no mutex held, no notification undelivered, and the concurrency
      counters as before, but for the calls its functions have left in progress.
    - overrides, bad requests and fallbacks; the commit of a transition. *)

From S2P Require Import Prelude GoMonad Errors Metrics Closers Config Circuit.

(** * Specification *)

Section Spec.
Context {OS CS U : Type} `{!ClosedToOpen OS} `{!OpenToClosed CS} `{!UserCode OS CS U}.

Abbreviation W := (World OS CS U).

(** What a finished command counts as: the decision table of the Hystrix event types. *)
Definition verdict (w : W) (originalContext : Context) (r : option error)
    (expectedDoneBy done : Time) : run_kind :=
  let cfg := threadSafeConfig (circ w) in
  let isErrInterrupt :=
    default (fun _ => true) (IsErrInterrupt (Execution (notThreadSafeConfig (circ w)))) in
  if IsBadRequest r then KErrBadRequest
  else if negb (expectedDoneBy =? 0) && (expectedDoneBy <? done) then KErrTimeout
  else
    match r, ctx_Err originalContext (env w) with
    | None, _ => KSuccess
    | Some _, Some e =>
        if negb (a_IgnoreInterrupts cfg) && isErrInterrupt e then KErrInterrupt else KErrFailure
    | Some _, None => KErrFailure
    end.

(** What the circuit does about it: only failures and timeouts may open it, only a success may
    close it. *)
Definition after_verdict (fuel : nat) (k : run_kind) (ctx : Context) (done : Time) : M W unit :=
  match k with
  | KErrTimeout | KErrFailure => attempt_if_closed fuel ctx done
  | KSuccess =>
      let! o := get isOpenL in
      let! cfg := get threadSafeConfigL in
      if negb o || a_ForceOpen cfg then ret tt
      else
        let! should := with_closer (ShouldClose ctx done) in
        if should : bool
        then transitionTo fuel ctx done false (Some (fun ctx t => with_closer (ShouldClose ctx t)))
        else ret tt
  | _ => ret tt
  end.

(** Whether a command may start, before the closer is asked. *)
Inductive admission := Admit | Reject | AskCloser.

Definition admission_of (c : Circuit OS CS U) : admission :=
  let cfg := threadSafeConfig c in
  let maxConcurrent := a_MaxConcurrentRequests cfg in
  if a_ForceOpen cfg then Reject
  else if a_ForcedClosed cfg || negb (isOpen c) then Admit
  else if (0 <=? maxConcurrent) && (maxConcurrent <=? concurrentCommands c) then Reject
  else AskCloser.

(** The end of a rejected command, and what is left of an admitted one. *)
Definition run_rejected (ctx : Context) (t : Time) : M W (option error) :=
  do! cmd_metrics KErrShortCircuit ctx t 0; ret (Some errCircuitOpen).

Definition run_admitted (fuel : nat) (ctx : Context) (t : Time) (maxConcurrent : Z)
    (runFunc : Context -> M W (option error)) : M W (option error) :=
  let! prevented := with_opener (Prevent ctx t) in
  if prevented : bool then ret (Some errCircuitOpen)
  else
    let! n := atomic_Add concurrentCommandsL 1 in
    defer (let! _ := atomic_Add concurrentCommandsL (-1) in ret tt)
      (run_counted fuel ctx t maxConcurrent n runFunc).

(** [run] as a decision on the circuit at its start. *)
Definition run_by_admission (fuel : nat) (ctx : Context) (runFunc : Context -> M W (option error))
    : M W (option error) :=
  let! t := now in
  let! c := gets circ in
  let maxConcurrent := a_MaxConcurrentRequests (threadSafeConfig c) in
  match admission_of c with
  | Admit => run_admitted fuel ctx t maxConcurrent runFunc
  | Reject => run_rejected ctx t
  | AskCloser =>
      let! allowed := with_closer (Allow ctx t) in
      if allowed : bool then run_admitted fuel ctx t maxConcurrent runFunc else run_rejected ctx t
  end.

(** User code that leaves the circuit alone: it returns, and only the environment changes. *)
Definition quiet {A} (m : M W A) : Prop :=
  forall w, exists a u, m w = (Ret a, mkWorld (circ w) u).

(** The same, but it may panic, with a panic of [E]. *)
Definition tame {A} (E : panic -> Prop) (m : M W A) : Prop :=
  forall w, (exists a u, m w = (Ret a, mkWorld (circ w) u)) \/
            (exists p u, m w = (Panic p, mkWorld (circ w) u) /\ E p).

Class QuietUserCode : Prop := {
  quiet_run : forall id k ctx now d, quiet (run_call (user_run id) k ctx now d);
  quiet_FallbackSuccess : forall id ctx now d, quiet (FallbackSuccess (user_fallback id) ctx now d);
  quiet_FallbackErrFailure : forall id ctx now d, quiet (FallbackErrFailure (user_fallback id) ctx now d);
  quiet_FallbackReject : forall id ctx now,
    quiet (FallbackErrConcurrencyLimitReject (user_fallback id) ctx now);
  quiet_Opened : forall id ctx now, quiet (Opened (user_metrics id) ctx now);
  quiet_Closed : forall id ctx now, quiet (Closed (user_metrics id) ctx now)
}.

(** A clock that returns. *)
Definition clock_ok (m : M U Time) : Prop := forall u, exists t u', m u = (Ret t, u').

(** A configured circuit whose logic satisfies the invariants of its laws. *)
Definition configured (oinv : OS -> Prop) (cinv : CS -> Prop) (c : Circuit OS CS U) : Prop :=
  (exists os, ClosedToOpenLogic c = Some os /\ oinv os) /\
  (exists cs, OpenToClose c = Some cs /\ cinv cs) /\
  (exists m, timeNow c = Some m /\ clock_ok m) /\
  notThreadSafeConfigMu c = false.

(** The parts of a circuit that calls change: the mutex, the queue, the role, the counters. *)
Definition moving (c : Circuit OS CS U) : bool * list transition * bool * Z * Z :=
  (transitionMu c, pendingTransitions c, deliveringTransitions c, concurrentCommands c,
   concurrentFallbacks c).

Definition phase (oinv : OS -> Prop) (cinv : CS -> Prop) mv (w : W) : Prop :=
  configured oinv cinv (circ w) /\ moving (circ w) = mv.

(** Between calls: nothing locked, nothing queued, nobody delivering. *)
Definition at_rest (oinv : OS -> Prop) (cinv : CS -> Prop) (cmds fbs : Z) : W -> Prop :=
  phase oinv cinv (false, [], false, cmds, fbs).
End Spec.

Arguments QuietUserCode OS CS U {_}.

(** * Decision tables *)

Section Decisions.
Context {OS CS U : Type} `{!ClosedToOpen OS} `{!OpenToClosed CS} `{!UserCode OS CS U}.
Abbreviation W := (World OS CS U).
Implicit Types w : W.

Lemma now_spec w :
  now w = match timeNow (circ w) with
          | Some m => let '(o, u) := m (env w) in (o, mkWorld (circ w) u)
          | None => (Panic NilDereference, w)
          end.
Proof. unfold now, bind, get, gets. simpl. by destruct (timeNow (circ w)). Qed.

Lemma now_circ w o w' : now w = (o, w') -> circ w' = circ w.
Proof.
  rewrite now_spec. destruct (timeNow (circ w)) as [m|]; [destruct (m (env w)) |];
    by intros [= <- <-].
Qed.

Lemma unlock_lock_cfg w :
  notThreadSafeConfigMu (circ w) = false ->
  (do! lock notThreadSafeConfigMuL; do! unlock notThreadSafeConfigMuL; ret tt) w = (Ret tt, w).
Proof.
  intros H. unfold bind, lock, unlock. destruct w as [c u]. simpl in *. rewrite H. simpl.
  destruct c. simpl in H. by subst.
Qed.

Lemma checkErrInterrupt_spec ctx orig r done tot w :
  notThreadSafeConfigMu (circ w) = false ->
  checkErrInterrupt ctx orig r done tot w
  = match r, ctx_Err orig (env w) with
    | Some _, Some e =>
        if negb (a_IgnoreInterrupts (threadSafeConfig (circ w))) &&
           default (fun _ => true) (IsErrInterrupt (Execution (notThreadSafeConfig (circ w)))) e
        then (do! cmd_metrics KErrInterrupt ctx done tot; ret true) w
        else (Ret false, w)
    | _, _ => (Ret false, w)
    end.
Proof.
  intros H. unfold checkErrInterrupt, bind, gets, get, lock, unlock.
  destruct r as [e|]; [| done]. destruct (ctx_Err orig (env w)) as [e'|]; [| done].
  destruct w as [c u]. simpl in *. rewrite H. simpl.
  assert (E : mkWorld (mkCircuit (CmdMetricCollector c) (FallbackMetricCollector c)
     (CircuitMetricsCollector c) (lostErrors c) (name c) (notThreadSafeConfig c) false
     (threadSafeConfig c) (isOpen c) (ClosedToOpenLogic c) (OpenToClose c) (timeNow c)
     (transitionMu c) (pendingTransitions c) (deliveringTransitions c) (concurrentCommands c)
     (concurrentFallbacks c)) u = mkWorld c u) by (destruct c; simpl in *; by subst).
  rewrite E. by destruct (_ && _).
Qed.

(** The cascade of checks at the end of [run] is the decision table. *)
Lemma classify_spec fuel ctx orig r exp done tot w :
  notThreadSafeConfigMu (circ w) = false ->
  let k := verdict w orig r exp done in
  classify fuel ctx orig r exp done tot w
  = (do! cmd_metrics k ctx done tot; do! after_verdict fuel k ctx done; ret r) w.
Proof.
  intros H. unfold classify, verdict, checkErrBadRequest.
  destruct (IsBadRequest r) eqn:Ebad.
  - unfold bind, ret, after_verdict.
    by destruct (cmd_metrics KErrBadRequest ctx done tot w) as [[] w'].
  - unfold bind at 1, ret at 1. unfold checkErrTimeout, time_IsZero, time_Before.
    destruct (_ && _).
    + unfold after_verdict, bind, ret.
      destruct (cmd_metrics KErrTimeout ctx done tot w) as [[] w1]; try done.
      by destruct (attempt_if_closed fuel ctx done w1) as [[] w2].
    + unfold bind at 1, ret at 1. unfold bind at 1. rewrite checkErrInterrupt_spec by done.
      destruct r as [e|].
      * assert (Hfail : (let! failed := checkErrFailure fuel ctx (Some e) done tot in
            if failed : bool then ret (Some e) else do! checkSuccess fuel ctx done tot; ret None) w
          = (do! cmd_metrics KErrFailure ctx done tot; do! attempt_if_closed fuel ctx done; ret (Some e)) w).
        { cbn [checkErrFailure]. unfold bind, ret.
          by destruct (cmd_metrics KErrFailure ctx done tot w) as [[] w1];
            try destruct (attempt_if_closed fuel ctx done w1) as [[] w2]. }
        destruct (ctx_Err orig (env w)) as [e'|]; [| exact Hfail].
        destruct (_ && _); [| exact Hfail]. unfold bind, ret, after_verdict.
        by destruct (cmd_metrics KErrInterrupt ctx done tot w) as [[] w1].
      * cbn [checkErrFailure]. unfold checkSuccess, bind, ret, after_verdict, get, gets. simpl.
        by destruct (cmd_metrics KSuccess ctx done tot w) as [[] w1].
Qed.

(** The commands of one state are all decided alike. *)
Lemma allowNewRun_spec ctx t w :
  allowNewRun ctx t (a_MaxConcurrentRequests (threadSafeConfig (circ w))) w
  = match admission_of (circ w) with
    | Admit => (Ret true, w)
    | Reject => (Ret false, w)
    | AskCloser => with_closer (Allow ctx t) w
    end.
Proof.
  unfold allowNewRun, admission_of, bind, get, gets. simpl.
  destruct (a_ForceOpen _); [done |]. destruct (_ || _); [done |]. by destruct (_ && _).
Qed.

Lemma run_by_admission_spec fuel ctx f : run fuel ctx f =~ run_by_admission fuel ctx f.
Proof.
  unfold run, run_by_admission. apply bind_proper; [done |]. intros t w.
  unfold run_admitted, run_rejected. unfold bind, get, gets. simpl view.
  rewrite allowNewRun_spec. destruct (admission_of (circ w)); [done | done |].
  by destruct (with_closer (Allow ctx t) w) as [[[]| | |] w2].
Qed.
End Decisions.

(** * Total correctness of a call *)

Section Total.
Context {OS CS U : Type} `{!ClosedToOpen OS} `{!OpenToClosed CS} `{!UserCode OS CS U}.
Context (oinv : OS -> Prop) (cinv : CS -> Prop).
Context `{!ClosedToOpenLaws OS oinv} `{!OpenToClosedLaws CS cinv} `{!QuietUserCode OS CS U}.
Abbreviation W := (World OS CS U).
Abbreviation Phase := (phase (U:=U) oinv cinv).
Implicit Types w : W.

Lemma phase_quiet {A} mv (m : M W A) : quiet m -> safe (Phase mv) m.
Proof. intros Hq w Hw. destruct (Hq w) as (a & u & ->). by exists a, (mkWorld (circ w) u). Qed.

Lemma phase_tame {A} E mv (m : M W A) : tame E m -> total E (Phase mv) m.
Proof.
  intros Ht w Hw. unfold wp. destruct (Ht w) as [(a & u & ->)|(p & u & -> & HE)]; [done |].
  by split.
Qed.

Lemma phase_now mv : safe (Phase mv) now.
Proof.
  intros w Hw. rewrite now_spec. pose proof Hw as [(_ & _ & (m & Hm' & Hclk) & _) _]. rewrite Hm'.
  destruct (Hclk (env w)) as (t & u & ->). by exists t, (mkWorld (circ w) u).
Qed.

Lemma phase_with_opener {A} mv (m : M OS A) : safe oinv m -> safe (Phase mv) (with_opener m).
Proof.
  intros Hs w [((os & Ho & Hi) & Hrest) Hm]. destruct (Hs os Hi) as (a & os' & E & Hi').
  unfold with_opener, zoom_ptr. simpl. rewrite Ho, E. eexists _, _. split; [done |].
  split; [| done]. split; [| done]. by exists os'.
Qed.

Lemma phase_with_closer {A} mv (m : M CS A) : safe cinv m -> safe (Phase mv) (with_closer m).
Proof.
  intros Hs w [(Hop & (cs & Hc & Hi) & Hrest) Hm]. destruct (Hs cs Hi) as (a & cs' & E & Hi').
  unfold with_closer, zoom_ptr. simpl. rewrite Hc, E. eexists _, _. split; [done |].
  split; [| done]. split; [done |]. split; [by exists cs' | done].
Qed.

Lemma phase_set_isOpen mv b : safe (Phase mv) (set isOpenL b).
Proof. by apply safe_modify. Qed.

Lemma phase_cmd_metrics mv k ctx t d : safe (Phase mv) (cmd_metrics k ctx t d).
Proof.
  unfold cmd_metrics. apply safe_bind; [apply safe_gets |]. intros r.
  apply run_safe_collection. intros R HR. apply list_elem_of_fmap in HR as (ref & -> & _).
  intros k' ctx' t' d'. destruct ref as [| |id]; simpl.
  - rewrite run_call_zoom. apply phase_with_closer, closer_run_safe.
  - rewrite run_call_zoom. apply phase_with_opener, opener_run_safe.
  - apply phase_quiet, quiet_run.
Qed.

Lemma phase_notifyStateMachines mv ctx t o : safe (Phase mv) (notifyStateMachines ctx t o).
Proof.
  destruct o; (apply safe_bind; [apply phase_with_closer | intros _; apply phase_with_opener]).
  - apply closer_Opened_safe.
  - apply opener_Opened_safe.
  - apply closer_Closed_safe.
  - apply opener_Closed_safe.
Qed.

Lemma phase_notifyListeners mv t : safe (Phase mv) (notifyListeners t).
Proof.
  unfold notifyListeners, circuit_metrics. intros w Hw. unfold bind at 1 2, get, gets, ret.
  revert w Hw. cbn beta iota. intros w. generalize (view CircuitMetricsCollectorL w) as ids.
  revert w. intros w ids Hw.
  destruct (t_open t); revert w Hw; apply safe_range_do; intros R HR;
    apply list_elem_of_fmap in HR as (id & -> & _); apply phase_quiet;
    [apply quiet_Opened | apply quiet_Closed].
Qed.

(** ** Critical sections *)

Lemma lock_phase q d k1 k2 w :
  Phase (false, q, d, k1, k2) w ->
  exists w', lock transitionMuL w = (Ret tt, w') /\ Phase (true, q, d, k1, k2) w'.
Proof.
  intros [Hc Hm]. injection Hm as Hmu ? ? ? ?. unfold lock. simpl. rewrite Hmu.
  eexists. split; [done |]. split; [done |]. unfold moving in *. simpl. congruence.
Qed.

Lemma unlock_phase q d k1 k2 w :
  Phase (true, q, d, k1, k2) w ->
  exists w', unlock transitionMuL w = (Ret tt, w') /\ Phase (false, q, d, k1, k2) w'.
Proof.
  intros [Hc Hm]. injection Hm as Hmu ? ? ? ?. unfold unlock. simpl. rewrite Hmu.
  eexists. split; [done |]. split; [done |]. unfold moving in *. simpl. congruence.
Qed.

(** A field of [moving] set inside a critical section. *)
Lemma set_queue_phase mu q d k1 k2 q' w :
  Phase (mu, q, d, k1, k2) w ->
  exists w', set pendingTransitionsL q' w = (Ret tt, w') /\ Phase (mu, q', d, k1, k2) w'.
Proof.
  intros [Hc Hm]. injection Hm as ? ? ? ? ?. eexists. split; [done |]. split; [done |].
  unfold moving in *. simpl. congruence.
Qed.

Lemma set_role_phase mu q d k1 k2 d' w :
  Phase (mu, q, d, k1, k2) w ->
  exists w', set deliveringTransitionsL d' w = (Ret tt, w') /\ Phase (mu, q, d', k1, k2) w'.
Proof.
  intros [Hc Hm]. injection Hm as ? ? ? ? ?. eexists. split; [done |]. split; [done |].
  unfold moving in *. simpl. congruence.
Qed.

(** [recheck] is lawful in every phase. *)
Definition recheck_ok (recheck : option (Context -> Time -> M W bool)) : Prop :=
  forall f mv ctx t, recheck = Some f -> safe (Phase mv) (f ctx t).

(** The queue after an attempt to commit: one more entry exactly when it committed. *)
Definition queue_after (b : bool) (q q' : list transition) : Prop :=
  if b then exists tr, q' = q ++ [tr] else q' = q.

Lemma commit_locked_spec q d k1 k2 ctx t o recheck w :
  recheck_ok recheck -> Phase (true, q, d, k1, k2) w ->
  exists b w' q', commit_locked ctx t o recheck w = (Ret b, w') /\
    Phase (true, q', d, k1, k2) w' /\ queue_after b q q'.
Proof.
  intros Hre Hw. unfold commit_locked, bind at 1, get at 1, gets at 1.
  destruct (Bool.eqb (view isOpenL w) o); [by exists false, w, q |].
  assert (Hok : exists ok w2, match recheck with Some f => f ctx t | None => ret true end w
    = (Ret ok, w2) /\ Phase (true, q, d, k1, k2) w2).
  { destruct recheck as [f|]; [by apply (Hre f) | by exists true, w]. }
  destruct Hok as (ok & w2 & E2 & Hw2). unfold bind at 1. rewrite E2.
  destruct ok; cbn [negb]; [| by exists false, w2, q].
  destruct (phase_set_isOpen _ o w2 Hw2) as ([] & w3 & E3 & Hw3).
  destruct (phase_now _ w3 Hw3) as (fl & w4 & E4 & Hw4).
  unfold bind at 1. rewrite E3. unfold bind at 1. rewrite E4. cbv zeta.
  set (t1 := if time_After fl t then fl else t).
  destruct (phase_notifyStateMachines _ ctx t1 o w4 Hw4) as ([] & w5 & E5 & Hw5).
  unfold bind at 1. rewrite E5. unfold bind at 1, get, gets.
  assert (Hq : view pendingTransitionsL w5 = q) by (destruct Hw5 as [_ Hm]; injection Hm; done).
  rewrite Hq. set (tr := mkTransition o ctx t1).
  destruct (set_queue_phase _ _ _ _ _ (q ++ [tr]) w5 Hw5) as (w6 & E6 & Hw6).
  unfold bind. rewrite E6. exists true, w6, (q ++ [tr]). split; [done |]. split; [done |]. by exists tr.
Qed.

Lemma commitTransition_spec q d k1 k2 ctx t o recheck w :
  recheck_ok recheck -> Phase (false, q, d, k1, k2) w ->
  exists b w' q', commitTransition ctx t o recheck w = (Ret b, w') /\
    Phase (false, q', d, k1, k2) w' /\ queue_after b q q'.
Proof.
  intros Hre Hw. destruct (lock_phase _ _ _ _ _ Hw) as (w1 & E1 & Hw1).
  destruct (commit_locked_spec _ _ _ _ ctx t o recheck w1 Hre Hw1) as (b & w2 & q' & E2 & Hw2 & Hq).
  destruct (unlock_phase _ _ _ _ _ Hw2) as (w3 & E3 & Hw3).
  exists b, w3, q'. split; [| done]. unfold commitTransition, bind at 1, defer. rewrite E1, E2.
  unfold bind. by rewrite E3.
Qed.

(** ** Delivery *)

Lemma deliver_pop_spec q d k1 k2 w :
  Phase (true, q, d, k1, k2) w ->
  exists o w', deliver_pop w = (Ret o, w') /\
    match q with
    | [] => o = None /\ Phase (false, [], false, k1, k2) w'
    | tr :: q' => o = Some tr /\ Phase (false, q', d, k1, k2) w'
    end.
Proof.
  intros Hw. unfold deliver_pop, bind at 1, get, gets.
  assert (Hq : view pendingTransitionsL w = q) by (destruct Hw as [_ Hm]; injection Hm; done).
  rewrite Hq. destruct q as [|tr q'].
  - destruct (set_role_phase _ _ _ _ _ false w Hw) as (w1 & E1 & Hw1).
    destruct (unlock_phase _ _ _ _ _ Hw1) as (w2 & E2 & Hw2).
    exists None, w2. split; [| done]. unfold bind. by rewrite E1, E2.
  - destruct (set_queue_phase _ _ _ _ _ q' w Hw) as (w1 & E1 & Hw1).
    destruct (unlock_phase _ _ _ _ _ Hw1) as (w2 & E2 & Hw2).
    exists (Some tr), w2. split; [| done]. unfold bind. by rewrite E1, E2.
Qed.

Lemma deliver_loop_spec fuel q k1 k2 w :
  (length q < fuel)%nat -> Phase (true, q, true, k1, k2) w ->
  exists w', deliver_loop fuel w = (Ret tt, w') /\ Phase (false, [], false, k1, k2) w'.
Proof.
  revert q w. induction fuel as [|fuel IH]; intros q w Hf Hw; [lia |]. simpl.
  destruct (deliver_pop_spec _ _ _ _ _ Hw) as (o & w1 & E1 & Ho). unfold bind at 1. rewrite E1.
  destruct q as [|tr q']; destruct Ho as [-> Hw1]; [by exists w1 |].
  destruct (phase_notifyListeners _ tr w1 Hw1) as ([] & w2 & E2 & Hw2).
  destruct (lock_phase _ _ _ _ _ Hw2) as (w3 & E3 & Hw3).
  unfold bind. rewrite E2, E3. apply (IH q'); [simpl in Hf; lia | done].
Qed.

(** With listeners that return and do not cause transitions, one more unit of fuel than
    queued transitions is enough, and everything queued is delivered. *)
Lemma deliver_enough_fuel fuel q k1 k2 w :
  (length q < fuel)%nat -> Phase (false, q, false, k1, k2) w ->
  exists w', deliver fuel w = (Ret tt, w') /\ Phase (false, [], false, k1, k2) w'.
Proof.
  destruct fuel as [|fuel]; [lia |]. intros Hf Hw. cbn [deliver].
  destruct (lock_phase _ _ _ _ _ Hw) as (w1 & E1 & Hw1).
  destruct (set_role_phase _ _ _ _ _ true w1 Hw1) as (w2 & E2 & Hw2).
  assert (E : deliver_enter w = (Ret true, w2)).
  { unfold deliver_enter, bind. rewrite E1. unfold get, gets.
    assert (Hd : view deliveringTransitionsL w1 = false) by (destruct Hw1 as [_ Hm]; injection Hm; done).
    rewrite Hd. by rewrite E2. }
  unfold bind at 1. rewrite E. cbn [negb].
  destruct (deliver_loop_spec (S fuel) q k1 k2 w2 Hf Hw2) as (w3 & E3 & Hw3).
  exists w3. by rewrite E3.
Qed.

(** ** Calls between which the circuit is at rest *)

Abbreviation Rest := (at_rest (U:=U) oinv cinv).

(** One call commits at most one transition, so two units of fuel are enough. *)
Lemma transitionTo_rest fuel k1 k2 ctx t o recheck :
  (2 <= fuel)%nat -> recheck_ok recheck -> safe (Rest k1 k2) (transitionTo fuel ctx t o recheck).
Proof.
  intros Hf Hre. unfold transitionTo. apply safe_bind; [apply safe_gets |]. intros b.
  destruct (Bool.eqb b o); [apply safe_ret |]. intros w Hw.
  destruct (commitTransition_spec _ _ _ _ ctx t o recheck w Hre Hw) as (c & w1 & q & E & Hw1 & Hq).
  unfold bind. rewrite E. destruct c; simpl in Hq.
  - destruct Hq as [tr ->].
    destruct (deliver_enough_fuel fuel [tr] _ _ w1 ltac:(simpl; lia) Hw1) as (w2 & E2 & Hw2).
    by exists tt, w2.
  - subst q. by exists tt, w1.
Qed.

Lemma recheck_ok_None : recheck_ok None.
Proof. by intros f mv ctx t [=]. Qed.

Lemma recheck_ok_ShouldOpen : recheck_ok (Some (fun ctx t => with_opener (ShouldOpen ctx t))).
Proof. intros f mv ctx t [= <-]. apply phase_with_opener, ShouldOpen_safe. Qed.

Lemma recheck_ok_ShouldClose : recheck_ok (Some (fun ctx t => with_closer (ShouldClose ctx t))).
Proof. intros f mv ctx t [= <-]. apply phase_with_closer, ShouldClose_safe. Qed.

Lemma attemptToOpen_rest fuel k1 k2 ctx t :
  (2 <= fuel)%nat -> safe (Rest k1 k2) (attemptToOpen fuel ctx t).
Proof.
  intros Hf. unfold attemptToOpen. safe_go idtac; try apply safe_gets.
  - apply phase_with_opener, ShouldOpen_safe.
  - apply transitionTo_rest; [done |]. apply recheck_ok_ShouldOpen.
Qed.

Lemma after_verdict_rest fuel k k1 k2 ctx t :
  (2 <= fuel)%nat -> safe (Rest k1 k2) (after_verdict fuel k ctx t).
Proof.
  intros Hf. destruct k; simpl; try apply safe_ret; unfold attempt_if_closed; safe_go idtac;
    try apply safe_gets; try by apply attemptToOpen_rest.
  - apply phase_with_closer, ShouldClose_safe.
  - apply transitionTo_rest; [done |]. apply recheck_ok_ShouldClose.
Qed.

Lemma classify_rest fuel k1 k2 ctx orig r exp done tot :
  (2 <= fuel)%nat -> safe (Rest k1 k2) (classify fuel ctx orig r exp done tot).
Proof.
  intros Hf w Hw. rewrite classify_spec by (destruct Hw as [(_ & _ & _ & H) _]; exact H).
  revert w Hw. intros w. generalize (verdict w orig r exp done) as k. intros k. revert w.
  apply safe_bind; [apply phase_cmd_metrics | intros _].
  apply safe_bind; [by apply after_verdict_rest | intros _; apply safe_ret].
Qed.

(** User code that, called while the circuit is at rest, returns with it at rest and with the
    counters as they were, or panics so, with a panic of [E].  It may call the circuit. *)
Definition well_behaved {A} (E : panic -> Prop) (m : M W A) : Prop :=
  forall k1 k2, in_int64 k1 = true -> in_int64 k2 = true -> total E (Rest k1 k2) m.

Lemma tame_well_behaved {A} E (m : M W A) : tame E m -> well_behaved E m.
Proof. intros H k1 k2 _ _. by apply phase_tame. Qed.

(** More generally, calls may still be in progress when it ends: it leaves the circuit at rest, with
    the counters raised by the numbers of the calls that goroutines it started have not finished,
    some [n] commands and [m] fallbacks with [L n m], if any. *)
Definition busy (L : Z -> Z -> Prop) (k1 k2 : Z) (w : W) : Prop :=
  exists n m, (n = 0 /\ m = 0 \/ L n m) /\ Rest (wrap64 (k1 + n)) (wrap64 (k2 + m)) w.

Definition leaves {A} (L : Z -> Z -> Prop) (E : panic -> Prop) (m : M W A) : Prop :=
  forall k1 k2 w, in_int64 k1 = true -> in_int64 k2 = true -> Rest k1 k2 w ->
  wp m (fun _ => busy L k1 k2) (fun p w' => E p /\ busy L k1 k2 w') w.

(** What either of two, or both of them, leave. *)
Definition both (L L' : Z -> Z -> Prop) (n m : Z) : Prop :=
  L n m \/ L' n m \/ exists n1 m1 n2 m2, L n1 m1 /\ L' n2 m2 /\ n = n1 + n2 /\ m = m1 + m2.

Definition nothing (n m : Z) : Prop := False.

Lemma rest_busy L k1 k2 w : in_int64 k1 = true -> in_int64 k2 = true -> Rest k1 k2 w -> busy L k1 k2 w.
Proof.
  intros H1 H2 Hw. exists 0, 0. split; [by left |]. rewrite !Z.add_0_r.
  by rewrite !wrap64_id by (by apply in_int64_spec).
Qed.

Lemma busy_mono (L L' : Z -> Z -> Prop) k1 k2 w : (forall n m, L n m -> L' n m) -> busy L k1 k2 w -> busy L' k1 k2 w.
Proof. intros HL (n & m & Hnm & Hw). exists n, m. split; [| done]. destruct Hnm; [by left | right; by apply HL]. Qed.

Lemma busy_nothing L k1 k2 w :
  (forall n m, ~ L n m) -> in_int64 k1 = true -> in_int64 k2 = true -> busy L k1 k2 w -> Rest k1 k2 w.
Proof.
  intros HL H1 H2 (n & m & [[-> ->]|Hnm] & Hw); [| by destruct (HL n m)].
  rewrite !Z.add_0_r, !wrap64_id in Hw by (by apply in_int64_spec). done.
Qed.

(** One after the other. *)
Lemma busy_both (L L' : Z -> Z -> Prop) k1 k2 n m w :
  (n = 0 /\ m = 0 \/ L n m) -> busy L' (wrap64 (k1 + n)) (wrap64 (k2 + m)) w -> busy (both L L') k1 k2 w.
Proof.
  intros Hnm (n' & m' & Hnm' & Hw). rewrite !wrap64_add_l, <- !Z.add_assoc in Hw. exists (n + n'), (m + m').
  split; [| done]. unfold both. destruct Hnm as [[-> ->]|Hnm], Hnm' as [[-> ->]|Hnm']; rewrite ?Z.add_0_r; auto.
  right. right. right. by exists n, m, n', m'.
Qed.

Lemma well_behaved_leaves {A} E (m : M W A) : well_behaved E m -> leaves nothing E m.
Proof.
  intros Hm k1 k2 w H1 H2 Hw. eapply wp_mono; [by apply (Hm k1 k2 H1 H2) | |].
  - intros ? w' ?. by apply rest_busy.
  - intros p w' [HE Hw']. split; [done | by apply rest_busy].
Qed.

Lemma leaves_well_behaved {A} L E (m : M W A) : (forall n k, ~ L n k) -> leaves L E m -> well_behaved E m.
Proof.
  intros HL Hm k1 k2 H1 H2 w Hw. eapply wp_mono; [by apply (Hm k1 k2 w H1 H2) | |].
  - intros ? w' ?. by eapply busy_nothing.
  - intros p w' [HE Hw']. split; [done | by eapply busy_nothing].
Qed.

Lemma leaves_mono {A} (L L' : Z -> Z -> Prop) E (m : M W A) :
  (forall n k, L n k -> L' n k) -> leaves L E m -> leaves L' E m.
Proof.
  intros HL Hm k1 k2 w H1 H2 Hw. eapply wp_mono; [by apply (Hm k1 k2 w H1 H2) | |].
  - intros ? w' ?. by eapply busy_mono.
  - intros p w' [HE Hw']. split; [done | by eapply busy_mono].
Qed.

Lemma leaves_safe {A} L E (m : M W A) : (forall k1 k2, safe (Rest k1 k2) m) -> leaves L E m.
Proof.
  intros Hm k1 k2 w H1 H2 Hw. destruct (Hm k1 k2 w Hw) as (a & w' & E1 & Hw'). unfold wp. rewrite E1. by apply rest_busy.
Qed.

Lemma leaves_bind {A B} L L' E (m : M W A) (f : A -> M W B) :
  leaves L E m -> (forall a, leaves L' E (f a)) -> leaves (both L L') E (bind m f).
Proof.
  intros Hm Hf k1 k2 w H1 H2 Hw. apply wp_bind. eapply wp_mono; [by apply (Hm k1 k2 w H1 H2) | |].
  - intros a w' (n & k & Hnk & Hw'). eapply wp_mono; [apply (Hf a _ _ w' (wrap64_in_int64 _) (wrap64_in_int64 _) Hw') | |].
    + intros ? w2 ?. by eapply busy_both.
    + intros p w2 [HE Hw2]. split; [done | by eapply busy_both].
  - intros p w' [HE Hw']. split; [done |]. eapply busy_mono; [| exact Hw']. by left.
Qed.

(** Only one of them leaves something. *)
Lemma leaves_then {A B} L E (m : M W A) (f : A -> M W B) :
  leaves L E m -> (forall a k1 k2, safe (Rest k1 k2) (f a)) -> leaves L E (bind m f).
Proof.
  intros Hm Hf. eapply leaves_mono; [| apply (leaves_bind L nothing); [exact Hm | intros a; apply leaves_safe, Hf]].
  intros n k [H|[[]|(n1 & m1 & n2 & m2 & _ & [] & _)]]. exact H.
Qed.

Lemma leaves_after {A B} L E (m : M W A) (f : A -> M W B) :
  (forall k1 k2, safe (Rest k1 k2) m) -> (forall a, leaves L E (f a)) -> leaves L E (bind m f).
Proof.
  intros Hm Hf. eapply leaves_mono; [| apply (leaves_bind nothing L); [by apply leaves_safe | exact Hf]].
  intros n k [[]|[H|(n1 & m1 & n2 & m2 & [] & _)]]. exact H.
Qed.

(** The clean-up keeps what there is. *)
Lemma leaves_defer {A} L E c (m : M W A) :
  (forall k1 k2, safe (Rest k1 k2) c) -> leaves L E m -> leaves L E (defer c m).
Proof.
  intros Hc Hm k1 k2 w H1 H2 Hw. apply (wp_defer_total E _ (busy L k1 k2)); [by apply (Hm k1 k2 w) |].
  intros w' (n & k & Hnk & Hw'). destruct (Hc _ _ w' Hw') as ([] & w2 & E2 & Hw2). exists w2. split; [done |]. by exists n, k.
Qed.

Lemma run_and_classify_leaves fuel L E ctx orig t0 exp f :
  (2 <= fuel)%nat -> (forall ctx, leaves L E (f ctx)) ->
  leaves L E (run_and_classify fuel ctx orig t0 exp f).
Proof.
  intros Hf Huser. apply leaves_then; [by apply Huser | intros r k1 k2].
  apply safe_bind; [apply phase_now | intros t]. by apply classify_rest.
Qed.

Lemma phase_cancel mv ctx :
  safe (Phase mv) (modify (fun w => upd envL (ctx_cancel ctx (env w)) w)).
Proof. by apply safe_modify. Qed.

Lemma run_counted_leaves fuel L E ctx t n maxc f :
  (2 <= fuel)%nat -> (forall ctx, leaves L E (f ctx)) ->
  leaves L E (run_counted fuel ctx t maxc n f).
Proof.
  intros Hf Huser. unfold run_counted. destruct (_ && _).
  - apply leaves_safe. intros k1 k2. apply safe_bind; [apply phase_cmd_metrics | intros _; apply safe_ret].
  - apply leaves_after; [intros k1 k2; apply safe_gets | intros cfg].
    destruct (0 <? _); [| by apply run_and_classify_leaves].
    apply leaves_defer; [intros k1 k2; apply phase_cancel | by apply run_and_classify_leaves].
Qed.

(** The counters are restored by the deferred decrements, also across the wrap-around. *)
Lemma counter_restored k : in_int64 k = true -> wrap64 (wrap64 (k + 1) + -1) = k.
Proof.
  intros H. rewrite wrap64_add_l. replace (k + 1 + -1) with k by lia.
  by apply wrap64_id, in_int64_spec.
Qed.

Lemma counter_left k n : wrap64 (wrap64 (wrap64 (k + 1) + n) + -1) = wrap64 (k + n).
Proof. rewrite wrap64_add_l, <- Z.add_assoc, wrap64_add_l. f_equal. lia. Qed.

Lemma phase_atomic_Add_commands k1 k2 d w :
  Rest k1 k2 w -> exists w', atomic_Add concurrentCommandsL d w = (Ret (wrap64 (k1 + d)), w') /\
    Rest (wrap64 (k1 + d)) k2 w'.
Proof.
  intros [Hc Hm]. injection Hm as ? ? ? <- ?. eexists. split; [done |]. split; [done |].
  unfold moving in *. simpl. congruence.
Qed.

Lemma phase_atomic_Add_fallbacks k1 k2 d w :
  Rest k1 k2 w -> exists w', atomic_Add concurrentFallbacksL d w = (Ret (wrap64 (k2 + d)), w') /\
    Rest k1 (wrap64 (k2 + d)) w'.
Proof.
  intros [Hc Hm]. injection Hm as ? ? ? ? <-. eexists. split; [done |]. split; [done |].
  unfold moving in *. simpl. congruence.
Qed.

(** A command is counted while it runs, and so is a fallback. *)
Lemma leaves_counted_command {A} L E (m : Z -> M W A) :
  (forall n, leaves L E (m n)) ->
  leaves L E (let! n := atomic_Add concurrentCommandsL 1 in
              defer (let! _ := atomic_Add concurrentCommandsL (-1) in ret tt) (m n)).
Proof.
  intros Hm k1 k2 w H1 H2 Hw. destruct (phase_atomic_Add_commands _ _ 1 w Hw) as (w1 & E1 & Hw1).
  apply wp_bind. unfold wp at 1. rewrite E1.
  apply (wp_defer_total E _ (busy L (wrap64 (k1 + 1)) k2)); [by apply Hm; eauto with go_ints |].
  intros w2 (n & k & Hnk & Hw2). destruct (phase_atomic_Add_commands _ _ (-1) w2 Hw2) as (w3 & E3 & Hw3).
  exists w3. unfold bind. rewrite E3. split; [done |]. exists n, k. split; [done |].
  by rewrite counter_left in Hw3.
Qed.

Lemma leaves_counted_fallback {A} L E (m : Z -> M W A) :
  (forall n, leaves L E (m n)) ->
  leaves L E (let! n := atomic_Add concurrentFallbacksL 1 in
              defer (let! _ := atomic_Add concurrentFallbacksL (-1) in ret tt) (m n)).
Proof.
  intros Hm k1 k2 w H1 H2 Hw. destruct (phase_atomic_Add_fallbacks _ _ 1 w Hw) as (w1 & E1 & Hw1).
  apply wp_bind. unfold wp at 1. rewrite E1.
  apply (wp_defer_total E _ (busy L k1 (wrap64 (k2 + 1)))); [by apply Hm; eauto with go_ints |].
  intros w2 (n & k & Hnk & Hw2). destruct (phase_atomic_Add_fallbacks _ _ (-1) w2 Hw2) as (w3 & E3 & Hw3).
  exists w3. unfold bind. rewrite E3. split; [done |]. exists n, k. split; [done |].
  by rewrite counter_left in Hw3.
Qed.

Lemma run_admitted_leaves fuel L E ctx t maxc f :
  (2 <= fuel)%nat -> (forall ctx, leaves L E (f ctx)) ->
  leaves L E (run_admitted fuel ctx t maxc f).
Proof.
  intros Hf Huser. unfold run_admitted.
  apply leaves_after; [intros k1 k2; apply phase_with_opener, Prevent_safe | intros p].
  destruct p; [apply leaves_safe; intros k1 k2; apply safe_ret |].
  apply leaves_counted_command. intros n. by apply run_counted_leaves.
Qed.

Lemma run_rejected_rest k1 k2 ctx t : safe (Rest k1 k2) (run_rejected ctx t).
Proof. apply safe_bind; [apply phase_cmd_metrics | intros _; apply safe_ret]. Qed.

Lemma run_leaves fuel L E ctx f :
  (2 <= fuel)%nat -> (forall ctx, leaves L E (f ctx)) -> leaves L E (run fuel ctx f).
Proof.
  intros Hf Huser. assert (H : leaves L E (run_by_admission fuel ctx f)).
  { apply leaves_after; [intros k1 k2; apply phase_now | intros t].
    apply leaves_after; [intros k1 k2; apply safe_gets | intros c]. cbv zeta.
    destruct (admission_of c); [by apply run_admitted_leaves | apply leaves_safe; intros; apply run_rejected_rest |].
    apply leaves_after; [intros k1 k2; apply phase_with_closer, Allow_safe | intros b].
    destruct b; [by apply run_admitted_leaves | apply leaves_safe; intros; apply run_rejected_rest]. }
  intros k1 k2 w H1 H2 Hw. unfold wp. rewrite (run_by_admission_spec fuel ctx f w). by apply H.
Qed.

Lemma fallback_metrics_safe {A} mv (g : FallbackMetrics W -> M W A) :
  (forall ids, safe (Phase mv) (g (FallbackMetricsCollection (map user_fallback ids)))) ->
  safe (Phase mv) (let! fm := fallback_metrics in g fm).
Proof.
  intros H w Hw. unfold fallback_metrics. unfold bind at 1 2, get, gets, ret. by apply H.
Qed.

(** What the calls of a user's fallback metrics share. *)
Lemma fallback_range_safe {A} mv (g : FallbackMetrics W -> M W unit) (l : list nat) (a : A) :
  (forall id, quiet (g (user_fallback id))) ->
  safe (Phase mv) (do! range_do g (map user_fallback l); ret a).
Proof.
  intros Hq. apply safe_bind; [| intros _; apply safe_ret].
  apply safe_range_do. intros R HR. apply list_elem_of_fmap in HR as (id & -> & _).
  by apply phase_quiet.
Qed.

Lemma fallback_counted_leaves L E ctx e n f :
  (forall ctx e, leaves L E (f ctx e)) -> leaves L E (fallback_counted ctx e n f).
Proof.
  intros Huser. unfold fallback_counted.
  apply leaves_after; [intros k1 k2; apply safe_gets | intros cfg]. cbv zeta.
  apply leaves_after; [intros k1 k2; apply phase_now | intros t]. destruct (_ && _).
  - apply leaves_safe. intros k1 k2. apply fallback_metrics_safe. intros ids.
    apply (fallback_range_safe _ (fun R => FallbackErrConcurrencyLimitReject R ctx t)).
    intros id. apply quiet_FallbackReject.
  - apply leaves_then; [by apply Huser | intros r k1 k2].
    apply safe_bind; [apply phase_now | intros t'].
    apply fallback_metrics_safe. intros ids. destruct r.
    + apply (fallback_range_safe _ (fun R => FallbackErrFailure R ctx t (time_Sub t' t))).
      intros id. apply quiet_FallbackErrFailure.
    + apply (fallback_range_safe _ (fun R => FallbackSuccess R ctx t (time_Sub t' t))).
      intros id. apply quiet_FallbackSuccess.
Qed.

Lemma fallback_leaves L E ctx e f :
  (forall g ctx e, f = Some g -> leaves L E (g ctx e)) -> leaves L E (fallback ctx e f).
Proof.
  intros Huser. unfold fallback.
  apply leaves_after; [intros k1 k2; apply safe_gets | intros cfg].
  destruct f as [g|]; [| apply leaves_safe; intros; apply safe_ret].
  destruct (a_Fallback_Disabled cfg); [apply leaves_safe; intros; apply safe_ret |].
  apply leaves_counted_fallback. intros n. apply fallback_counted_leaves. eauto.
Qed.

(** The command runs at most once, and the fallback after it. *)
Lemma Execute_leaves fuel L L' E c ctx f fb :
  (2 <= fuel)%nat -> (forall g ctx, f = Some g -> leaves L E (g ctx)) ->
  (forall g ctx e, fb = Some g -> leaves L' E (g ctx e)) ->
  leaves (both L L') E (Execute fuel c ctx f fb).
Proof.
  intros Hf Hrun Hfb. destruct f as [g|]; [| apply leaves_safe; intros; apply safe_ret].
  unfold Execute. apply leaves_after; [intros k1 k2; destruct c | intros b].
  { apply safe_ret. }
  { apply safe_bind; [apply safe_gets | intros ?; apply safe_ret]. }
  apply leaves_after; [intros k1 k2; apply safe_gets | intros cfg].
  destruct (b || _); [apply (leaves_mono L); [by left | by apply (Hrun g)] |].
  apply leaves_bind; [apply run_leaves; eauto | intros r].
  destruct r as [e|]; [| apply leaves_safe; intros; apply safe_ret].
  destruct (IsBadRequest _); [apply leaves_safe; intros; apply safe_ret |].
  by apply fallback_leaves.
Qed.

Lemma Execute_well_behaved fuel E c ctx f fb :
  (2 <= fuel)%nat -> (forall g ctx, f = Some g -> well_behaved E (g ctx)) ->
  (forall g ctx e, fb = Some g -> well_behaved E (g ctx e)) ->
  well_behaved E (Execute fuel c ctx f fb).
Proof.
  intros Hf Hrun Hfb. apply (leaves_well_behaved (both nothing nothing)).
  { by intros n k [[]|[[]|(? & ? & ? & ? & [] & _)]]. }
  apply Execute_leaves; [done | |]; intros; apply well_behaved_leaves; eauto.
Qed.
End Total.
