(* ===== verification/CircuitTheorems.v ===== *)
(** What circuit.go promises to its users, one goroutine at a time: total correctness of
    [Execute], the classification of results, the overrides, bad requests and fallbacks, and
    the commit of a transition.  The lemmas are those of CircuitFacts.v. *)

From S2P Require Import Prelude GoMonad Errors Metrics Closers Config Circuit CircuitFrames CircuitFacts.

(** * A concrete program, for the witnesses

    The default logic, a clock that ticks, listeners and metrics objects that count. *)
Module Sample.
  (** The environment: the clock, the calls of metrics objects, the transitions heard. *)
Record Env := mkEnv { clock : Z; calls : Z; heard : list bool }.

Abbreviation C := (Circuit neverOpens neverCloses Env).
Abbreviation W := (World neverOpens neverCloses Env).

Definition tick : M Env Time := fun u =>
  (Ret (clock u + 1), mkEnv (clock u + 1) (calls u) (heard u)).

Definition count : M W unit := modify (fun w =>
  mkWorld (circ w) (mkEnv (clock (env w)) (calls (env w) + 1) (heard (env w)))).

Definition hear (b : bool) : M W unit := modify (fun w =>
  mkWorld (circ w) (mkEnv (clock (env w)) (calls (env w)) (heard (env w) ++ [b]))).

#[export] Instance code : UserCode neverOpens neverCloses Env := {|
  user_run _ := {|
    Success _ _ _ := count; ErrFailure _ _ _ := count; ErrTimeout _ _ _ := count;
    ErrBadRequest _ _ _ := count; ErrInterrupt _ _ _ := count;
    ErrConcurrencyLimitReject _ _ := count; ErrShortCircuit _ _ := count |};
  user_fallback _ := {|
    FallbackSuccess _ _ _ := count; FallbackErrFailure _ _ _ := count;
    FallbackErrConcurrencyLimitReject _ _ := count |};
  user_metrics _ := {| Closed _ _ := hear false; Opened _ _ := hear true |};
  ctx_Err _ _ := None;
  ctx_cancel _ u := u;
  opener_Configurable := None;
  closer_Configurable := None;
  neverOpensFactory := ret neverOpens_value;
  neverClosesFactory := ret neverCloses_value;
  time_Now := tick
|}.

#[export] Instance quiet_code : QuietUserCode neverOpens neverCloses Env.
Proof.
  split; intros; try (intros w; eexists _, _; reflexivity).
  intros w. destruct k; eexists _, _; reflexivity.
Qed.

(** The circuit [NewCircuitFromConfig] builds from a configuration with one metrics object of
    each kind, then opened or not, with [n] commands counted. *)
Definition world (forceOpen forcedClosed opened : bool) (n maxc : Z) : W :=
  mkWorld (mkCircuit [RefOpenToClose; RefClosedToOpen; RefUser 0] [0%nat] [0%nat] None "sample"
    Config_zero false
    (mkAtomicCircuitConfig 1000 maxc false 10 forceOpen forcedClosed false false)
    opened (Some neverOpens_value) (Some neverCloses_value) (Some tick) false [] false n 0)
  (mkEnv 0 0 []).

Lemma tick_ok : clock_ok tick.
Proof. intros u. by eexists _, _. Qed.

Lemma world_at_rest a b c n m :
  at_rest (fun _ => True) (fun _ => True) n 0 (world a b c n m).
Proof.
  split; [| done]. split; [by eexists |]. split; [by eexists |]. split; [| done].
  exists tick. split; [done | apply tick_ok].
Qed.
End Sample.

(** * Frames

    A method of the open/close logic changes nothing of the circuit but its own state. *)

Section Frames.
Context {OS CS U : Type} `{!ClosedToOpen OS} `{!OpenToClosed CS} `{!UserCode OS CS U}.
Abbreviation W := (World OS CS U).
Implicit Types w : W.

(** What the commit of a transition must account for. *)
Definition commit_view (c : Circuit OS CS U) : bool * bool * list transition * bool :=
  (transitionMu c, isOpen c, pendingTransitions c, deliveringTransitions c).

Lemma with_opener_view {A} (m : M OS A) w :
  commit_view (circ (snd (with_opener m w))) = commit_view (circ w).
Proof.
  unfold with_opener, zoom_ptr. simpl. destruct (ClosedToOpenLogic (circ w)) as [os|]; [| done].
  by destruct (m os).
Qed.

Lemma with_closer_view {A} (m : M CS A) w :
  commit_view (circ (snd (with_closer m w))) = commit_view (circ w).
Proof.
  unfold with_closer, zoom_ptr. simpl. destruct (OpenToClose (circ w)) as [cs|]; [| done].
  by destruct (m cs).
Qed.

Lemma now_view w : commit_view (circ (snd (now w))) = commit_view (circ w).
Proof. destruct (now w) as [o w'] eqn:E. cbn [snd]. by rewrite (now_circ _ _ _ E). Qed.

Lemma stable_view {A} (m : M W A) v :
  (forall w, commit_view (circ (snd (m w))) = commit_view (circ w)) ->
  stable (fun w => commit_view (circ w) = v) m.
Proof. intros H w Hw. by rewrite H. Qed.

Lemma notifyStateMachines_view v ctx t o :
  stable (fun w => commit_view (circ w) = v) (notifyStateMachines ctx t o).
Proof.
  destruct o; (apply stable_bind; [| intros _]); apply stable_view;
    intros w; first [apply with_opener_view | apply with_closer_view].
Qed.

(** The rechecks that circuit.go passes to [transitionTo]. *)
Definition own_recheck (recheck : option (Context -> Time -> M W bool)) : Prop :=
  recheck = None \/
  recheck = Some (fun ctx t => with_opener (ShouldOpen ctx t)) \/
  recheck = Some (fun ctx t => with_closer (ShouldClose ctx t)).

Lemma own_recheck_view recheck v ctx t :
  own_recheck recheck ->
  stable (fun w => commit_view (circ w) = v)
    (match recheck with Some f => f ctx t | None => ret true end).
Proof.
  intros [->|[->| ->]]; [apply stable_ret | |]; apply stable_view; intros w;
    [apply with_opener_view | apply with_closer_view].
Qed.

(** The critical section: what it does to the circuit in each of its outcomes. *)
Lemma commit_locked_view ctx t o recheck w out w' :
  own_recheck recheck -> commit_locked ctx t o recheck w = (out, w') ->
  let c := circ w in
  match out with
  | Ret true => isOpen c = negb o /\ exists t1, t <= t1 /\
      commit_view (circ w') = (transitionMu c, o, pendingTransitions c ++ [mkTransition o ctx t1],
                               deliveringTransitions c)
  | Ret false => commit_view (circ w') = commit_view c /\ (recheck = None -> isOpen c = o)
  | _ => transitionMu (circ w') = transitionMu c
  end.
Proof.
  intros Hre. unfold commit_locked, bind at 1, get at 1, gets at 1.
  change (view isOpenL w) with (isOpen (circ w)).
  destruct (Bool.eqb_spec (isOpen (circ w)) o) as [|Hne]; [by intros [= <- <-] |].
  assert (Ho : isOpen (circ w) = negb o) by (by destruct (isOpen (circ w)), o).
  unfold bind at 1. pose proof (own_recheck_view recheck (commit_view (circ w)) ctx t Hre w eq_refl) as H1.
  set (rc := match recheck with Some f => f ctx t | None => ret true end) in *.
  destruct (rc w) as [[ok| | |] w1] eqn:Erc; simpl in H1;
    try (intros [= <- <-]; unfold commit_view in *; congruence).
  destruct ok; cbn [negb].
  2:{ intros [= <- <-]. split; [done |]. intros ->. done. }
  unfold bind at 1, set at 1, modify at 1. set (w2 := upd isOpenL o w1).
  assert (H2 : commit_view (circ w2) = (transitionMu (circ w), o, pendingTransitions (circ w),
    deliveringTransitions (circ w))) by (unfold commit_view in *; simpl; congruence).
  clearbody w2 rc. clear H1.
  unfold bind at 1. pose proof (now_view w2) as H3. rewrite H2 in H3.
  destruct (now w2) as [[fl| | |] w3]; simpl in H3;
    try (intros [= <- <-]; unfold commit_view in *; congruence).
  cbv zeta. set (t1 := if time_After fl t then fl else t).
  assert (Ht1 : t <= t1) by (unfold t1, time_After; zbool; lia).
  unfold bind at 1. pose proof (notifyStateMachines_view (commit_view (circ w3)) ctx t1 o w3 eq_refl) as H4.
  rewrite H3 in H4.
  destruct (notifyStateMachines ctx t1 o w3) as [[[]| | |] w4]; simpl in H4;
    try (intros [= <- <-]; unfold commit_view in *; congruence).
  unfold bind, get, gets, set, modify, ret. intros [= <- <-].
  split; [done |]. exists t1. split; [done |]. unfold commit_view in *. simpl in *. congruence.
Qed.
Lemma commitTransition_view ctx t o recheck w out w' :
  own_recheck recheck -> transitionMu (circ w) = false ->
  commitTransition ctx t o recheck w = (out, w') ->
  let c := circ w in let c' := circ w' in
  match out with
  | Ret true => isOpen c = negb o /\ isOpen c' = o /\ transitionMu c' = false /\
      exists t1, t <= t1 /\ pendingTransitions c' = pendingTransitions c ++ [mkTransition o ctx t1]
  | Ret false => isOpen c' = isOpen c /\ pendingTransitions c' = pendingTransitions c /\
      transitionMu c' = false /\ (recheck = None -> isOpen c = o)
  | Panic _ => transitionMu c' = false
  | _ => True
  end.
Proof.
  intros Hre Hmu. unfold commitTransition, bind at 1, lock.
  change (view transitionMuL w) with (transitionMu (circ w)). rewrite Hmu.
  set (w1 := upd transitionMuL true w). unfold defer.
  destruct (commit_locked ctx t o recheck w1) as [out1 w2] eqn:E.
  pose proof (commit_locked_view _ _ _ _ _ _ _ Hre E) as H. simpl in H.
  destruct out1 as [b| | |].
  - assert (Hmu2 : transitionMu (circ w2) = true).
    { destruct b; [destruct H as (_ & t1 & _ & H) | destruct H as [H _]];
        unfold commit_view in H; simpl in H; congruence. }
    unfold bind, unlock. change (view transitionMuL w2) with (transitionMu (circ w2)). rewrite Hmu2. intros [= <- <-]. simpl. destruct b.
    + destruct H as (Ho & t1 & Ht & H). unfold commit_view in H. injection H as ? ? ? ?.
      repeat split; try done. by exists t1.
    + destruct H as [H Hno]. unfold commit_view in H. simpl in H. injection H as ? ? ? ?. done.
  - unfold bind, unlock. change (view transitionMuL w2) with (transitionMu (circ w2)). rewrite H. intros [= <- <-]. done.
  - by intros [= <- <-].
  - by intros [= <- <-].
Qed.
End Frames.

(** * Overrides *)

Section Overrides.
Context {OS CS U : Type} `{!ClosedToOpen OS} `{!OpenToClosed CS} `{!UserCode OS CS U}.
Abbreviation W := (World OS CS U).
Implicit Types w : W.

Definition forced_closed w : Prop :=
  a_ForcedClosed (threadSafeConfig (circ w)) = true /\ isOpen (circ w) = false.

#[export] Instance forced_closed_framed : Framed forced_closed.
Proof. split; [by apply env_now | done ..]. Qed.

#[export] Instance forced_closed_calls : FramedCalls forced_closed.
Proof. by split. Qed.

#[export] Instance forced_closed_counters : FramedCounters forced_closed.
Proof. split; intros; done. Qed.

(** Reading a field and going on: the value read is that of the state. *)
Lemma stable_get {T A} (I : W -> Prop) (l : lens W T) (k : T -> M W A) :
  (forall w, I w -> I (snd (k (view l w) w))) -> stable I (let! x := get l in k x).
Proof. intros H w Hw. by apply H. Qed.

Lemma forced_closed_attempt fuel ctx t : stable forced_closed (attempt_if_closed fuel ctx t).
Proof.
  apply stable_get. intros w [Hf Ho]. change (view isOpenL w) with (isOpen (circ w)). rewrite Ho.
  cbn [negb]. unfold attemptToOpen, bind at 1, get, gets.
  change (view threadSafeConfigL w) with (threadSafeConfig (circ w)). by rewrite Hf.
Qed.

Lemma forced_closed_success `{!UserKeeps forced_closed} fuel ctx t d :
  stable forced_closed (checkSuccess fuel ctx t d).
Proof.
  apply stable_bind; [apply cmd_metrics_framed; apply _ | intros _].
  apply stable_get. intros w [Hf Ho]. change (view isOpenL w) with (isOpen (circ w)). by rewrite Ho.
Qed.
End Overrides.

(** * The fallback *)

Section FallbackFacts.
Context {OS CS U : Type} `{!ClosedToOpen OS} `{!OpenToClosed CS} `{!UserCode OS CS U}.
Context {oinv : OS -> Prop} {cinv : CS -> Prop}.
Context `{!ClosedToOpenLaws OS oinv} `{!OpenToClosedLaws CS cinv} `{!QuietUserCode OS CS U}.
Abbreviation W := (World OS CS U).
Implicit Types w : W.

Lemma Execute_after_run fuel ctx f fb w r w1 :
  OpenToClose (circ w) <> None -> a_Disabled (threadSafeConfig (circ w)) = false ->
  run fuel ctx f w = (Ret r, w1) ->
  Execute fuel theCircuit ctx (Some f) fb w
  = match r with
    | None => (Ret None, w1)
    | Some e => if IsBadRequest (Some e) then (Ret (Some e), w1) else fallback ctx e fb w1
    end.
Proof.
  intros Hne Hdis Hrun. unfold Execute, isEmptyOrNil, bind at 1 2, get at 1, gets at 1, ret at 1.
  change (view OpenToCloseL w) with (OpenToClose (circ w)).
  unfold bind at 1, get at 1, gets at 1. change (view threadSafeConfigL w) with (threadSafeConfig (circ w)).
  rewrite Hdis. destruct (OpenToClose (circ w)); [| done]. cbn [orb].
  rewrite (bind_run _ _ _ _ _ Hrun). destruct r as [e|]; [| done]. by destruct (IsBadRequest _).
Qed.

(** The way into a fallback, up to the test of its limit. *)
Lemma fallback_enter cmds fbs ctx e g w1 :
  at_rest oinv cinv cmds fbs w1 -> min_int64 <= fbs < max_int64 ->
  a_Fallback_Disabled (threadSafeConfig (circ w1)) = false ->
  exists w2, at_rest oinv cinv cmds (fbs + 1) w2 /\ threadSafeConfig (circ w2) = threadSafeConfig (circ w1) /\
    fallback ctx e (Some g) w1 = defer (let! _ := atomic_Add concurrentFallbacksL (-1) in ret tt)
      (fallback_counted ctx e (fbs + 1) g) w2.
Proof.
  intros Hw1 Hfbs Hdis.
  destruct (phase_atomic_Add_fallbacks oinv cinv _ _ 1 w1 Hw1) as (w2 & E2 & Hw2).
  assert (Hcfg : threadSafeConfig (circ w2) = threadSafeConfig (circ w1)) by (injection E2 as _ <-; done).
  rewrite wrap64_id in E2, Hw2 by lia.
  exists w2. split; [done |]. split; [done |].
  unfold fallback, bind at 1, get, gets. change (view threadSafeConfigL w1) with (threadSafeConfig (circ w1)).
  rewrite Hdis. by rewrite (bind_run _ _ _ _ _ E2).
Qed.

(** The way out, after the body returned with the circuit at rest. *)
Lemma fallback_leave cmds fbs (m : M W (option error)) r w2 w3 :
  m w2 = (Ret r, w3) -> at_rest oinv cinv cmds (fbs + 1) w3 -> min_int64 <= fbs < max_int64 ->
  exists w4, defer (let! _ := atomic_Add concurrentFallbacksL (-1) in ret tt) m w2 = (Ret r, w4) /\
    at_rest oinv cinv cmds fbs w4.
Proof.
  intros E3 Hw3 Hfbs. destruct (phase_atomic_Add_fallbacks oinv cinv _ _ (-1) w3 Hw3) as (w4 & E4 & Hw4).
  replace (fbs + 1 + -1) with fbs in * by lia. rewrite wrap64_id in Hw4 by lia.
  exists w4. split; [| done]. unfold defer. rewrite E3. unfold bind, ret. by rewrite E4.
Qed.

Lemma fallback_over_limit cmds fbs ctx e g w1 :
  let maxFallback := a_Fallback_MaxConcurrentRequests (threadSafeConfig (circ w1)) in
  at_rest oinv cinv cmds fbs w1 -> min_int64 <= fbs < max_int64 ->
  a_Fallback_Disabled (threadSafeConfig (circ w1)) = false ->
  (0 <=? maxFallback) && (maxFallback <=? fbs) = true ->
  exists w2, fallback ctx e (Some g) w1 = (Ret (Some errThrottledConcurrentFallbacks), w2) /\
    at_rest oinv cinv cmds fbs w2.
Proof.
  intros maxFallback Hw1 Hfbs Hdis Hlim.
  destruct (fallback_enter cmds fbs ctx e g w1 Hw1 Hfbs Hdis) as (w2 & Hw2 & Hcfg & ->).
  destruct (phase_now oinv cinv _ w2 Hw2) as (t & w3 & E3 & Hw3).
  destruct (fallback_metrics_safe oinv cinv _ (fun fm => do! FallbackErrConcurrencyLimitReject fm ctx t;
    ret (Some errThrottledConcurrentFallbacks)) (fun ids => fallback_range_safe oinv cinv _
    (fun R => FallbackErrConcurrencyLimitReject R ctx t) ids _ (fun id => quiet_FallbackReject id ctx t)) w3 Hw3)
    as (r & w4 & E4 & Hw4).
  assert (r = Some errThrottledConcurrentFallbacks) as ->.
  { revert E4. unfold bind, ret. destruct (fallback_metrics w3) as [[fm| | |] w5]; try done.
    destruct (FallbackErrConcurrencyLimitReject fm ctx t w5) as [[] w6]; by intros [= <- _]. }
  apply (fallback_leave cmds fbs _ _ _ w4); [| done | done].
  unfold fallback_counted, bind at 1, get, gets.
  change (view threadSafeConfigL w2) with (threadSafeConfig (circ w2)). rewrite Hcfg. cbv zeta. fold maxFallback.
  rewrite (bind_run _ _ _ _ _ E3).
  replace ((0 <=? maxFallback) && (maxFallback <? fbs + 1)) with true; [done |].
  symmetry. bdestr. apply andb_true_iff. split; zbool; by try lia.
Qed.

Lemma fallback_under_limit cmds fbs ctx e g w1 :
  let maxFallback := a_Fallback_MaxConcurrentRequests (threadSafeConfig (circ w1)) in
  at_rest oinv cinv cmds fbs w1 -> min_int64 <= fbs < max_int64 ->
  a_Fallback_Disabled (threadSafeConfig (circ w1)) = false ->
  (0 <=? maxFallback) && (maxFallback <=? fbs) = false -> (forall ctx e, quiet (g ctx e)) ->
  exists wf r w2, at_rest oinv cinv cmds (fbs + 1) wf /\ fst (g ctx e wf) = Ret r /\
    fallback ctx e (Some g) w1 = (Ret r, w2) /\ at_rest oinv cinv cmds fbs w2.
Proof.
  intros maxFallback Hw1 Hfbs Hdis Hlim Hq.
  destruct (fallback_enter cmds fbs ctx e g w1 Hw1 Hfbs Hdis) as (w2 & Hw2 & Hcfg & ->).
  destruct (phase_now oinv cinv _ w2 Hw2) as (t & w3 & E3 & Hw3).
  destruct (phase_quiet oinv cinv _ _ (Hq ctx e) w3 Hw3) as (r & w4 & E4 & Hw4).
  destruct (phase_now oinv cinv _ w4 Hw4) as (t' & w5 & E5 & Hw5).
  set (report := fun fm : FallbackMetrics W => match r with
    | Some _ => do! FallbackErrFailure fm ctx t (time_Sub t' t); ret r
    | None => do! FallbackSuccess fm ctx t (time_Sub t' t); ret None end).
  assert (Hrep : exists w6, (let! fm := fallback_metrics in report fm) w5 = (Ret r, w6) /\
    at_rest oinv cinv cmds (fbs + 1) w6).
  { assert (Hs : safe (at_rest (U:=U) oinv cinv cmds (fbs + 1)) (let! fm := fallback_metrics in report fm)).
    { apply fallback_metrics_safe. intros ids. unfold report. destruct r.
      - apply (fallback_range_safe _ _ _ (fun R => FallbackErrFailure R ctx t (time_Sub t' t))).
        intros id. apply quiet_FallbackErrFailure.
      - apply (fallback_range_safe _ _ _ (fun R => FallbackSuccess R ctx t (time_Sub t' t))).
        intros id. apply quiet_FallbackSuccess. }
    destruct (Hs w5 Hw5) as (r' & w6 & E6 & Hw6). exists w6. split; [| done].
    rewrite E6. do 2 f_equal. revert E6. unfold report, bind, ret.
    destruct (fallback_metrics w5) as [[fm| | |] w7]; try done.
    destruct r; [destruct (FallbackErrFailure fm ctx t (time_Sub t' t) w7) as [[] w8]
      | destruct (FallbackSuccess fm ctx t (time_Sub t' t) w7) as [[] w8]]; by intros [= <- _]. }
  destruct Hrep as (w6 & E6 & Hw6).
  exists w3, r. destruct (fallback_leave cmds fbs (fallback_counted ctx e (fbs + 1) g) r w2 w6)
    as (w7 & E7 & Hw7); [| done | done |].
  - unfold fallback_counted, bind at 1, get, gets.
    change (view threadSafeConfigL w2) with (threadSafeConfig (circ w2)). rewrite Hcfg. cbv zeta. fold maxFallback.
    rewrite (bind_run _ _ _ _ _ E3).
    replace ((0 <=? maxFallback) && (maxFallback <? fbs + 1)) with false.
    + rewrite (bind_run _ _ _ _ _ E4), (bind_run _ _ _ _ _ E5). exact E6.
    + symmetry. apply andb_false_iff. apply andb_false_iff in Hlim as [H|H]; [by left | right].
      bdestr. apply Z.ltb_ge. lia.
  - exists w7. rewrite E4. done.
Qed.
End FallbackFacts.

(** * Manual transitions *)

Section Manual.
Context {OS CS U : Type} `{!ClosedToOpen OS} `{!OpenToClosed CS} `{!UserCode OS CS U}.
Context {oinv : OS -> Prop} {cinv : CS -> Prop}.
Context `{!ClosedToOpenLaws OS oinv} `{!OpenToClosedLaws CS cinv} `{!QuietUserCode OS CS U}.
Abbreviation W := (World OS CS U).
Implicit Types w : W.

Definition open_is (o : bool) w : Prop := isOpen (circ w) = o.

(** Listeners that leave the circuit alone: delivery does not change the state. *)
Lemma listeners_open o tr ids :
  stable (open_is o) (let ms := MetricsCollection (map user_metrics ids) in
    if t_open tr then Opened ms (t_ctx tr) (t_now tr) else Closed ms (t_ctx tr) (t_now tr)).
Proof.
  destruct (t_open tr); apply stable_range_do; intros R HR; apply list_elem_of_fmap in HR as (id & -> & _);
    intros w Hw; [destruct (quiet_Opened id (t_ctx tr) (t_now tr) w) as (a & u & ->)
      | destruct (quiet_Closed id (t_ctx tr) (t_now tr) w) as (a & u & ->)]; done.
Qed.

Lemma notifyListeners_open o tr : stable (open_is o) (notifyListeners tr).
Proof.
  intros w Hw. unfold notifyListeners, circuit_metrics, bind at 1 2, get, gets, ret.
  by apply listeners_open.
Qed.

Lemma lock_open o : stable (open_is o) (lock transitionMuL).
Proof. intros w Hw. unfold lock. by destruct (view transitionMuL w). Qed.

Lemma unlock_open o : stable (open_is o) (unlock transitionMuL).
Proof. intros w Hw. unfold unlock. by destruct (view transitionMuL w). Qed.

Lemma set_role_open o d : stable (open_is o) (set deliveringTransitionsL d).
Proof. by intros w Hw. Qed.

Lemma set_queue_open o q : stable (open_is o) (set pendingTransitionsL q).
Proof. by intros w Hw. Qed.

Ltac open_go := stable_go ltac:(first [apply stable_gets | apply lock_open | apply unlock_open
  | apply set_role_open | apply set_queue_open | apply notifyListeners_open]).

Lemma deliver_loop_open o fuel : stable (open_is o) (deliver_loop fuel).
Proof.
  induction fuel as [|fuel IH]; simpl; [by intros w Hw |].
  unfold deliver_pop. open_go. done.
Qed.

Lemma deliver_open o fuel : stable (open_is o) (deliver fuel).
Proof.
  induction fuel as [|fuel IH]; [by intros w Hw |]. cbn [deliver].
  apply stable_bind; [unfold deliver_enter; open_go |]. intros role.
  destruct (negb role); [apply stable_ret |]. intros w Hw.
  pose proof (deliver_loop_open o (S fuel) w Hw) as H1.
  destruct (deliver_loop (S fuel) w) as [[] w1]; try done.
  revert w1 H1. cbn [snd].
  change (stable (open_is o) (do! deliver_abort; do! deliver fuel; @throw W unit p)).
  unfold deliver_abort. open_go. done.
Qed.

(** An unconditional transition reaches its target and leaves the circuit at rest. *)
Lemma transitionTo_target fuel k1 k2 ctx t o w :
  (2 <= fuel)%nat -> at_rest oinv cinv k1 k2 w ->
  exists w', transitionTo fuel ctx t o None w = (Ret tt, w') /\ at_rest oinv cinv k1 k2 w' /\
    isOpen (circ w') = o.
Proof.
  intros Hf Hw.
  destruct (transitionTo_rest oinv cinv fuel k1 k2 ctx t o None Hf (recheck_ok_None oinv cinv) w Hw)
    as ([] & w' & E & Hw').
  exists w'. split; [done |]. split; [done |]. revert E.
  unfold transitionTo, bind at 1, get, gets. change (view isOpenL w) with (isOpen (circ w)).
  destruct (Bool.eqb_spec (isOpen (circ w)) o) as [Heq|Hne]; [by intros [= <-] |].
  destruct (commitTransition_spec oinv cinv _ _ _ _ ctx t o None w (recheck_ok_None oinv cinv) Hw)
    as (b & w1 & q' & E1 & Hw1 & _).
  assert (Hmu : transitionMu (circ w) = false) by (destruct Hw as [_ Hm]; injection Hm; done).
  pose proof (commitTransition_view ctx t o None w _ _ (or_introl eq_refl) Hmu E1) as Hc.
  rewrite (bind_run _ _ _ _ _ E1). simpl in Hc. destruct b.
  - destruct Hc as (_ & Ho & _). intros E. change (open_is o w').
    replace w' with (snd (deliverPendingTransitions fuel w1)) by (by rewrite E).
    by apply deliver_open.
  - by destruct Hc as (_ & _ & _ & Hc); specialize (Hc eq_refl).
Qed.
End Manual.

(** * Rejections *)

Section Rejections.
Context {OS CS U : Type} `{!ClosedToOpen OS} `{!OpenToClosed CS} `{!UserCode OS CS U}.
Context (oinv : OS -> Prop) (cinv : CS -> Prop).
Context `{!ClosedToOpenLaws OS oinv} `{!OpenToClosedLaws CS cinv} `{!QuietUserCode OS CS U}.
Abbreviation W := (World OS CS U).
Implicit Types w : W.

Lemma run_rejected_open cmds fbs ctx t w :
  at_rest oinv cinv cmds fbs w ->
  exists w', run_rejected ctx t w = (Ret (Some errCircuitOpen), w') /\ at_rest oinv cinv cmds fbs w'.
Proof.
  intros Hw. destruct (run_rejected_rest oinv cinv _ _ ctx t w Hw) as (r & w' & E & Hw').
  exists w'. split; [| done]. rewrite E. revert E. unfold run_rejected, bind, ret.
  destruct (cmd_metrics KErrShortCircuit ctx t 0 w) as [[] ?]; by intros [= <- _].
Qed.

(** A command the circuit admitted is turned away when the opener prevents it, or when as many
    commands run as are allowed. *)
Lemma run_admitted_over_limit fuel cmds fbs ctx t m w :
  0 <= m <= cmds -> cmds < max_int64 -> at_rest oinv cinv cmds fbs w ->
  exists err w', (forall f, run_admitted fuel ctx t m f w = (Ret (Some err), w')) /\
    (err = errCircuitOpen \/ err = errThrottledConcurrentCommands) /\
    at_rest oinv cinv cmds fbs w'.
Proof.
  intros Hm Hmax Hw. unfold run_admitted.
  destruct (phase_with_opener oinv cinv _ (Prevent ctx t) (Prevent_safe ctx t) w Hw)
    as (p & w3 & E3 & Hw3).
  destruct p.
  - exists errCircuitOpen, w3. split; [| by split; [left |]]. intros f. unfold bind. by rewrite E3.
  - destruct (phase_atomic_Add_commands oinv cinv _ _ 1 w3 Hw3) as (w4 & E4 & Hw4).
    rewrite wrap64_id in E4, Hw4 by (unfold min_int64; lia).
    destruct (phase_cmd_metrics oinv cinv _ KErrConcurrencyLimitReject ctx t 0 w4 Hw4)
      as ([] & w5 & E5 & Hw5).
    destruct (phase_atomic_Add_commands oinv cinv _ _ (-1) w5 Hw5) as (w6 & E6 & Hw6).
    rewrite wrap64_id in E6, Hw6 by (unfold min_int64; lia).
    replace (cmds + 1 + -1) with cmds in Hw6 by lia.
    exists errThrottledConcurrentCommands, w6. split; [| by split; [right |]]. intros f.
    unfold bind at 1. rewrite E3. unfold bind at 1. rewrite E4. unfold defer, run_counted.
    replace ((0 <=? m) && (m <? cmds + 1)) with true by (zbool; simpl; by try lia).
    unfold bind, ret. by rewrite E5, E6.
Qed.
End Rejections.

(** * Total correctness *)

Section Theorems.
Context {OS CS U : Type} `{!ClosedToOpen OS} `{!OpenToClosed CS} `{!UserCode OS CS U}.
Context (oinv : OS -> Prop) (cinv : CS -> Prop).
Abbreviation W := (World OS CS U).
Implicit Types w : W.

(** C1: with open/close logic that satisfies its laws and user code that leaves the circuit at
    rest (it may call the same circuit again) or panics with a panic of [E], [Execute] is total:
    it returns, or lets exactly such a panic through; it never deadlocks or loops; and either
    way the mutexes are free, every notification was delivered and both concurrency counters
    have their old values. *)
Theorem Execute_total `{!ClosedToOpenLaws OS oinv} `{!OpenToClosedLaws CS cinv}
    `{!QuietUserCode OS CS U} (fuel : nat) (E : panic -> Prop) c ctx runFunc fallbackFunc cmds fbs w :
  (2 <= fuel)%nat ->
  (forall f ctx, runFunc = Some f -> well_behaved oinv cinv E (f ctx)) ->
  (forall f ctx e, fallbackFunc = Some f -> well_behaved oinv cinv E (f ctx e)) ->
  in_int64 cmds = true -> in_int64 fbs = true -> at_rest oinv cinv cmds fbs w ->
  match Execute fuel c ctx runFunc fallbackFunc w with
  | (Ret _, w') => at_rest oinv cinv cmds fbs w'
  | (Panic p, w') => E p /\ at_rest oinv cinv cmds fbs w'
  | _ => False
  end.
Proof.
  intros Hf Hrun Hfb H1 H2 Hw.
  exact (Execute_well_behaved oinv cinv fuel E c ctx runFunc fallbackFunc Hf Hrun Hfb
    cmds fbs H1 H2 w Hw).
Qed.

(** The commit of a transition, with arbitrary (even panicking) open/close logic and clock:
    it happens only when the state really changes (and without a recheck it then does), flips it,
    and queues exactly one notification,
    stamped no earlier than the caller's time; when it does not happen nothing of the state or the
    queue changes; and the transition lock is released on every exit, panics included. *)
Theorem commitTransition_commits ctx t o recheck w out w' :
  own_recheck recheck -> transitionMu (circ w) = false ->
  commitTransition ctx t o recheck w = (out, w') ->
  let c := circ w in let c' := circ w' in
  match out with
  | Ret true => isOpen c = negb o /\ isOpen c' = o /\ transitionMu c' = false /\
      exists t1, t <= t1 /\ pendingTransitions c' = pendingTransitions c ++ [mkTransition o ctx t1]
  | Ret false => isOpen c' = isOpen c /\ pendingTransitions c' = pendingTransitions c /\
      transitionMu c' = false /\ (recheck = None -> isOpen c = o)
  | Panic _ => transitionMu c' = false
  | _ => True
  end.
Proof. apply commitTransition_view. Qed.

(** C11: how a result is classified: after [runFunc] returned [r], exactly one event is reported,
    the one the decision table [verdict] gives; then the circuit may open (failures and timeouts)
    or close (successes); and [r] itself is what [run] returns.  A timeout that returned nil is
    reported as a timeout and still returned as nil. *)
Theorem run_and_classify_reports_verdict fuel ctx orig t0 exp runFunc w r w1 done w2 :
  runFunc ctx w = (Ret r, w1) -> now w1 = (Ret done, w2) -> notThreadSafeConfigMu (circ w2) = false ->
  run_and_classify fuel ctx orig t0 exp runFunc w
  = (do! cmd_metrics (verdict w2 orig r exp done) ctx done (time_Sub done t0);
     do! after_verdict fuel (verdict w2 orig r exp done) ctx done;
     ret r) w2.
Proof.
  intros E1 E2 Hmu. unfold run_and_classify, bind at 1. rewrite E1. unfold bind at 1. rewrite E2.
  by apply classify_spec.
Qed.

(** The concurrency limit: with [MaxConcurrentRequests = m >= 0] and at least [m] commands
    running, the command function is not called (no function changes what happens), and the
    caller gets the throttling error or the open-circuit error. *)
Theorem run_enforces_limit `{!ClosedToOpenLaws OS oinv} `{!OpenToClosedLaws CS cinv}
    `{!QuietUserCode OS CS U} fuel ctx cmds fbs w :
  let m := a_MaxConcurrentRequests (threadSafeConfig (circ w)) in
  0 <= m <= cmds -> cmds < max_int64 -> at_rest oinv cinv cmds fbs w ->
  exists err w', (forall runFunc, run fuel ctx runFunc w = (Ret (Some err), w')) /\
    (err = errCircuitOpen \/ err = errThrottledConcurrentCommands) /\
    at_rest oinv cinv cmds fbs w'.
Proof.
  intros m Hm Hmax Hw.
  destruct (phase_now oinv cinv _ w Hw) as (t & w1 & E1 & Hw1).
  assert (Hcirc : circ w1 = circ w) by exact (now_circ _ _ _ E1).
  assert (Hrun : forall f, run fuel ctx f w = run_by_admission fuel ctx f w)
    by (intros f; apply run_by_admission_spec).
  setoid_rewrite Hrun. unfold run_by_admission, bind at 1. rewrite E1.
  unfold bind at 1, gets. rewrite Hcirc. fold m. cbv zeta. destruct (admission_of (circ w)).
  - by apply run_admitted_over_limit with (oinv := oinv) (cinv := cinv).
  - destruct (run_rejected_open oinv cinv cmds fbs ctx t w1 Hw1) as (w2 & E2 & Hw2).
    exists errCircuitOpen, w2. split; [done | by split; [left |]].
  - destruct (phase_with_closer oinv cinv _ (Allow ctx t) (Allow_safe ctx t) w1 Hw1)
      as (b & w3 & E3 & Hw3).
    unfold bind at 1. rewrite E3. destruct b; [by apply run_admitted_over_limit with (oinv := oinv) (cinv := cinv) |].
    destruct (run_rejected_open oinv cinv cmds fbs ctx t w3 Hw3) as (w4 & E4 & Hw4).
    exists errCircuitOpen, w4. split; [done | by split; [left |]].
Qed.

(** Forced open: [IsOpen] answers true whatever the other settings, and every command is
    rejected without being called and without asking the open/close logic, with one
    ErrShortCircuit event. *)
Theorem ForceOpen_rejects_everything fuel ctx runFunc w :
  a_ForceOpen (threadSafeConfig (circ w)) = true ->
  IsOpen theCircuit w = (Ret true, w) /\
  run fuel ctx runFunc w
  = (let! t := now in do! cmd_metrics KErrShortCircuit ctx t 0; ret (Some errCircuitOpen)) w.
Proof.
  intros H. split.
  - unfold IsOpen, bind, get, gets. change (view threadSafeConfigL w) with (threadSafeConfig (circ w)).
    by rewrite H.
  - rewrite (run_by_admission_spec fuel ctx runFunc w). unfold run_by_admission.
    destruct (now w) as [[t| | |] w1] eqn:E; [| by unfold bind; rewrite E ..].
    rewrite !(bind_run _ _ _ _ _ E). unfold bind at 1, gets. cbv zeta. rewrite (now_circ _ _ _ E). unfold admission_of. by rewrite H.
Qed.

(** Forced closed: with user code that keeps the setting and does not itself open the
    circuit, no [Execute] ever opens it, whatever it returns or panics with, and whatever the
    open/close logic answers. *)
Theorem ForcedClosed_never_opens `{!UserKeeps forced_closed} fuel c ctx runFunc fallbackFunc w :
  (forall f ctx, runFunc = Some f -> stable forced_closed (f ctx)) ->
  (forall f ctx e, fallbackFunc = Some f -> stable forced_closed (f ctx e)) ->
  a_ForcedClosed (threadSafeConfig (circ w)) = true -> isOpen (circ w) = false ->
  isOpen (circ (snd (Execute fuel c ctx runFunc fallbackFunc w))) = false.
Proof.
  intros Hf Hfb H1 H2. eapply (Execute_framed forced_closed); try done.
  - intros; apply forced_closed_attempt.
  - intros; by apply forced_closed_success.
Qed.

(** C37: what [Execute] does with the outcome of [run]: nil is returned; a bad request is returned
    without consulting the fallback; any other error goes to the fallback, unless there is none,
    it is disabled ([err] itself is returned), or it is over its own limit (the throttling error
    is returned, whatever the fallback is); otherwise the fallback is called once, with that
    error, and its result is the result.  The fallback counter is back where it was. *)
Theorem Execute_fallback_table `{!ClosedToOpenLaws OS oinv} `{!OpenToClosedLaws CS cinv}
    `{!QuietUserCode OS CS U} fuel ctx f fb w r w1 cmds fbs :
  let cfg := threadSafeConfig (circ w1) in
  let maxFallback := a_Fallback_MaxConcurrentRequests cfg in
  OpenToClose (circ w) <> None -> a_Disabled (threadSafeConfig (circ w)) = false ->
  run fuel ctx f w = (Ret r, w1) -> at_rest oinv cinv cmds fbs w1 ->
  0 <= fbs < max_int64 -> (forall g ctx e, fb = Some g -> quiet (g ctx e)) ->
  exists r' w2, Execute fuel theCircuit ctx (Some f) fb w = (Ret r', w2) /\
    at_rest oinv cinv cmds fbs w2 /\
    match r, fb with
    | None, _ => r' = None /\ w2 = w1
    | Some e, None => r' = Some e /\ w2 = w1
    | Some e, Some g =>
        if IsBadRequest r || a_Fallback_Disabled cfg then r' = Some e /\ w2 = w1
        else if (0 <=? maxFallback) && (maxFallback <=? fbs)
        then r' = Some errThrottledConcurrentFallbacks
        else exists wf, at_rest oinv cinv cmds (fbs + 1) wf /\ fst (g ctx e wf) = Ret r'
    end.
Proof.
  intros cfg maxFallback Hne Hdis Hrun Hw1 Hfbs Hquiet.
  rewrite (Execute_after_run _ _ _ _ _ _ _ Hne Hdis Hrun).
  destruct r as [e|]; [| by exists None, w1].
  destruct (IsBadRequest (Some e)) eqn:Ebad.
  { exists (Some e), w1. split; [done |]. split; [done |]. by destruct fb. }
  destruct fb as [g|]; [| by exists (Some e), w1]. cbn [orb].
  destruct (a_Fallback_Disabled cfg) eqn:Edis.
  { exists (Some e), w1. split; [| done]. unfold fallback, bind, get, gets.
    change (view threadSafeConfigL w1) with cfg. by rewrite Edis. }
  destruct ((0 <=? maxFallback) && (maxFallback <=? fbs)) eqn:Elim.
  - destruct (fallback_over_limit cmds fbs ctx e g w1 Hw1 ltac:(unfold min_int64; lia) Edis Elim) as (w2 & E2 & Hw2).
    by exists (Some errThrottledConcurrentFallbacks), w2.
  - destruct (fallback_under_limit cmds fbs ctx e g w1 Hw1 ltac:(unfold min_int64; lia) Edis Elim (fun c e => Hquiet g c e eq_refl))
      as (wf & r' & w2 & Hwf & Hr & E2 & Hw2).
    exists r', w2. split; [done |]. split; [done |]. by exists wf.
Qed.

(** [OpenCircuit] and [CloseCircuit] reach their state from any circuit at rest, whatever the
    overrides and the logic's opinion, deliver the notification and leave the circuit at rest;
    on a circuit already there they change nothing but the clock's environment. *)
Theorem manual_transitions `{!ClosedToOpenLaws OS oinv} `{!OpenToClosedLaws CS cinv}
    `{!QuietUserCode OS CS U} fuel ctx cmds fbs (o : bool) w :
  (2 <= fuel)%nat -> at_rest oinv cinv cmds fbs w ->
  exists w', (if o then OpenCircuit fuel ctx else CloseCircuit fuel ctx) w = (Ret tt, w') /\
    at_rest oinv cinv cmds fbs w' /\ isOpen (circ w') = o /\
    (isOpen (circ w) = o -> circ w' = circ w).
Proof.
  intros Hf Hw. destruct (phase_now oinv cinv _ w Hw) as (t & w1 & E1 & Hw1).
  destruct (transitionTo_target fuel _ _ ctx t o w1 Hf Hw1) as (w2 & E2 & Hw2 & Ho).
  exists w2. split; [| split; [done |]; split; [done |]].
  - unfold OpenCircuit, CloseCircuit. destruct o; by rewrite (bind_run _ _ _ _ _ E1).
  - intros Hsame. rewrite <- (now_circ _ _ _ E1) in Hsame |- *. revert E2.
    unfold transitionTo, bind at 1, get, gets. change (view isOpenL w1) with (isOpen (circ w1)).
    rewrite Hsame, Bool.eqb_reflx. by intros [= <-].
Qed.
End Theorems.

(** * The theorems at concrete inputs *)

Module SampleRuns.
  Import Sample.

Definition anyOpener : neverOpens -> Prop := fun _ => True.
Definition anyCloser : neverCloses -> Prop := fun _ => True.

(** A command that panics, as [tame] allows. *)
Definition panics (ctx : Context) : M W (option error) := throw (PanicValue 7).

(** A command that fails, and one that fails after a while. *)
Definition failure : error := userError "failed" None None NoUnwrap.
Definition fails (ctx : Context) : M W (option error) := ret (Some failure).
Definition slow (ctx : Context) : M W (option error) := fun w =>
  (Ret None, mkWorld (circ w) (mkEnv (clock (env w) + 5000) (calls (env w)) (heard (env w)))).

#[export] Instance keeps : UserKeeps forced_closed.
Proof. split; intros; try (by intros w Hw). intros k ctx t d. by destruct k; intros w Hw. Qed.
End SampleRuns.

Import Sample SampleRuns.

Lemma Execute_total_witness :
  match Execute 2 theCircuit Background (Some panics) None (world false false false 3 10) with
  | (Ret _, w') => at_rest anyOpener anyCloser 3 0 w'
  | (Panic p, w') => p = PanicValue 7 /\ at_rest anyOpener anyCloser 3 0 w'
  | _ => False
  end.
Proof.
  apply (Execute_total anyOpener anyCloser 2 (fun p => p = PanicValue 7)); [lia | | done | done | done |].
  - intros f ctx [= <-]. apply tame_well_behaved. intros w. right. by eexists _, (env w); destruct w.
  - apply world_at_rest.
Defined.

Lemma commitTransition_commits_witness :
  match fst (commitTransition Background 5 true None (world false false false 0 10)) with
  | Ret true => True
  | _ => False
  end /\
  transitionMu (circ (snd (commitTransition Background 5 true None (world false false false 0 10)))) = false.
Proof.
  split; [done |].
  pose proof (commitTransition_commits Background 5 true None (world false false false 0 10) _ _
    (or_introl eq_refl) eq_refl eq_refl) as H. apply H.
Defined.

Lemma run_and_classify_reports_verdict_witness :
  let w := world false false false 1 10 in
  let w1 := snd (slow Background w) in
  let w2 := snd (now w1) in
  verdict w2 Background None 1001 5001 = KErrTimeout /\
  run_and_classify 2 Background Background 1 1001 slow w
  = (do! cmd_metrics (verdict w2 Background None 1001 5001) Background 5001 (time_Sub 5001 1);
     do! after_verdict 2 (verdict w2 Background None 1001 5001) Background 5001;
     ret None) w2.
Proof.
  intros w w1 w2. split; [reflexivity |].
  apply (run_and_classify_reports_verdict 2 Background Background 1 1001 slow w None w1 5001 w2);
    reflexivity.
Defined.

Lemma run_enforces_limit_witness :
  exists err w', (forall f, run 2 Background f (world false false false 10 10) = (Ret (Some err), w')) /\
    (err = errCircuitOpen \/ err = errThrottledConcurrentCommands) /\
    at_rest anyOpener anyCloser 10 0 w'.
Proof.
  apply (run_enforces_limit anyOpener anyCloser 2 Background 10 0 (world false false false 10 10)).
  - simpl. lia.
  - reflexivity.
  - apply world_at_rest.
Defined.

Lemma ForceOpen_rejects_everything_witness :
  let w := world true true false 0 10 in
  calls (env (snd (run 2 Background fails w))) = 1 /\
  IsOpen theCircuit w = (Ret true, w) /\
  run 2 Background fails w
  = (let! t := now in do! cmd_metrics KErrShortCircuit Background t 0; ret (Some errCircuitOpen)) w.
Proof.
  intros w. split; [reflexivity |].
  apply (ForceOpen_rejects_everything 2 Background fails w). reflexivity.
Defined.

Lemma ForcedClosed_never_opens_witness :
  isOpen (circ (snd (Execute 2 theCircuit Background (Some fails) None (world false true false 0 10)))) = false.
Proof.
  apply (ForcedClosed_never_opens 2 theCircuit Background (Some fails) None); try done.
  intros f ctx [= <-]. by intros w Hw.
Defined.

Lemma Execute_fallback_table_witness :
  let g := (fun _ _ => ret None) : Context -> error -> M W (option error) in
  let w := world false false false 0 10 in
  let w1 := snd (run 2 Background fails w) in
  exists r' w2, Execute 2 theCircuit Background (Some fails) (Some g) w = (Ret r', w2) /\
    at_rest anyOpener anyCloser 0 0 w2 /\
    exists wf, at_rest anyOpener anyCloser 0 1 wf /\ fst (g Background failure wf) = Ret r'.
Proof.
  intros g w w1.
  destruct (Execute_fallback_table anyOpener anyCloser 2 Background fails (Some g) w (Some failure) w1 0 0)
    as (r' & w2 & HE & Hr & Hwf).
  - discriminate.
  - reflexivity.
  - reflexivity.
  - split; [| reflexivity]. apply (world_at_rest false false false 0 10).
  - split; [lia | reflexivity].
  - intros g' ctx e [= <-] wf. exists None, (env wf). by destruct wf.
  - by exists r', w2.
Defined.

Lemma manual_transitions_witness :
  exists w', OpenCircuit 2 Background (world false false false 0 10) = (Ret tt, w') /\
    at_rest anyOpener anyCloser 0 0 w' /\ isOpen (circ w') = true /\
    (false = true -> circ w' = circ (world false false false 0 10)).
Proof.
  apply (manual_transitions anyOpener anyCloser 2 Background 0 0 true (world false false false 0 10)).
  - lia.
  - apply world_at_rest.
Defined.
