(* ===== verification/CircuitSpec.v ===== *)
(** What a circuit does, as a small machine: the abstract specification of circuit.go's [run] and
    [Run] for one goroutine.

    The state of the machine is whether the circuit is open and the states of its opener and
    closer; there are no mutexes, queue, counters or deferred calls in it.  All its dealings with
    the program around it are [interaction]s, which it consumes in order: it reads the clock, has
    the command run in a given context, asks a context for its error, has the user's metrics
    objects told of a result and its listeners of a transition, cancels a context.  What these do
    to the environment is [performs].  [run_refines] shows that the code implements the machine:
    every call of [run] on a circuit at rest, whatever its configuration, performs exactly the
    interactions that the machine asks for, and leaves the circuit at rest in its state. *)

From S2P Require Import Prelude GoMonad Errors Metrics Closers Config Circuit CircuitFacts CircuitTheorems.

Module CircuitSpec.

(** * The machine *)

(** What the machine says, and all it does and reads. *)
Inductive signal :=
| Reports (k : run_kind) (ctx : Context) (t : Time) (d : Duration)  (* to the user's metrics objects *)
| Announces (open : bool) (ctx : Context) (t : Time)                (* to the listeners *)
| Cancels (ctx : Context).                         (* calls the cancel function of a derived context *)

Inductive interaction :=
| ReadClock (t : Time)                             (* the clock says [t] *)
| ReadResult (ctx : Context) (r : option error)    (* the command runs in [ctx] and returns [r] *)
| ReadCtxErr (ctx : Context) (e : option error)    (* [ctx.Err()] is [e] *)
| Emits (s : signal).

#[export] Instance Context_eq_dec : EqDecision Context.
Proof. solve_decision. Defined.
#[export] Instance signal_eq_dec : EqDecision signal.
Proof. solve_decision. Defined.

Section Machine.
Context {OS CS U : Type} `{!ClosedToOpen OS} `{!OpenToClosed CS}.

Record abs := mkAbs { a_open : bool; a_opener : OS; a_closer : CS }.

(** The machine with the interactions still to come. *)
Record machine := mkMachine { m_abs : abs; m_rest : list interaction }.

Definition openerL : lens machine OS := Lens (fun m => a_opener (m_abs m)) (fun os m =>
  mkMachine (mkAbs (a_open (m_abs m)) os (a_closer (m_abs m))) (m_rest m)).
Definition closerL : lens machine CS := Lens (fun m => a_closer (m_abs m)) (fun cs m =>
  mkMachine (mkAbs (a_open (m_abs m)) (a_opener (m_abs m)) cs) (m_rest m)).
Definition openL : lens machine bool := Lens (fun m => a_open (m_abs m)) (fun b m =>
  mkMachine (mkAbs b (a_opener (m_abs m)) (a_closer (m_abs m))) (m_rest m)).

(** Other interactions than the one that the machine is at do not occur. *)
Definition consume {A} (accepts : interaction -> option A) : M machine A := fun m =>
  match m_rest m with
  | i :: rest =>
      match accepts i with
      | Some x => (Ret x, mkMachine (m_abs m) rest)
      | None => (OutOfFuel, m)
      end
  | [] => (OutOfFuel, m)
  end.

Definition read_clock : M machine Time :=
  consume (fun i => match i with ReadClock t => Some t | _ => None end).
Definition read_result (ctx : Context) : M machine (option error) :=
  consume (fun i => match i with ReadResult ctx' r => if decide (ctx' = ctx) then Some r else None | _ => None end).
Definition read_ctx_err (ctx : Context) : M machine (option error) :=
  consume (fun i => match i with ReadCtxErr ctx' e => if decide (ctx' = ctx) then Some e else None | _ => None end).
Definition emit (s : signal) : M machine unit :=
  consume (fun i => match i with Emits s' => if decide (s' = s) then Some tt else None | _ => None end).

Implicit Types (ctx : Context).

(** The logic hears of a result or a transition: first the closer, then the opener; of a result
    the user's metrics objects hear next. *)
Definition report (k : run_kind) ctx (t : Time) (d : Duration) : M machine unit :=
  do! zoom closerL (run_call closer_run k ctx t d);
  do! zoom openerL (run_call opener_run k ctx t d);
  emit (Reports k ctx t d).

Definition announce (open : bool) ctx (t : Time) : M machine unit :=
  if open then
    do! zoom closerL (Opened closer_metrics ctx t);
    zoom openerL (Opened opener_metrics ctx t)
  else
    do! zoom closerL (Closed closer_metrics ctx t);
    zoom openerL (Closed opener_metrics ctx t).

(** The decision is asked for twice, before and under the lock; the transition is announced at
    the clock's time, but not before [t], to the logic and then to the listeners. *)
Definition change (open : bool) (should : M machine bool) ctx (t : Time) : M machine unit :=
  let! first := should in
  if negb first then ret tt
  else
    let! again := should in
    if negb again then ret tt
    else
      do! modify (upd openL open);
      let! flipped := read_clock in
      let at_ := if time_After flipped t then flipped else t in
      do! announce open ctx at_;
      emit (Announces open ctx at_).

(** The configuration and the number of commands running, both constant during a call. *)
Section Run.
Context (cfg : atomicCircuitConfig) (isErrInterrupt : error -> bool) (running : Z).

Definition may_open ctx (t : Time) : M machine unit :=
  let! o := gets (view openL) in
  if a_ForcedClosed cfg || o then ret tt
  else change true (zoom openerL (ShouldOpen ctx t)) ctx t.

Definition may_close ctx (t : Time) : M machine unit :=
  let! o := gets (view openL) in
  if negb o || a_ForceOpen cfg then ret tt
  else change false (zoom closerL (ShouldClose ctx t)) ctx t.

Definition kind_of (r ctxErr : option error) (expectedDoneBy done : Time) : run_kind :=
  if IsBadRequest r then KErrBadRequest
  else if negb (expectedDoneBy =? 0) && (expectedDoneBy <? done) then KErrTimeout
  else
    match r, ctxErr with
    | None, _ => KSuccess
    | Some _, Some e => if negb (a_IgnoreInterrupts cfg) && isErrInterrupt e then KErrInterrupt else KErrFailure
    | Some _, None => KErrFailure
    end.

Definition react (k : run_kind) ctx (t : Time) : M machine unit :=
  match k with
  | KErrTimeout | KErrFailure => may_open ctx t
  | KSuccess => may_close ctx t
  | _ => ret tt
  end.

(** The command runs, in a context that ends with the timeout if there is one; it is the caller's
    context that is asked for its error. *)
Definition abs_command ctx (t : Time) : M machine (option error) :=
  let timeout := a_ExecutionTimeout cfg in
  let expectedDoneBy := if 0 <? timeout then time_Add t timeout else 0 in
  let ctx' := if 0 <? timeout then WithDeadline ctx expectedDoneBy else ctx in
  let! r := read_result ctx' in
  let! done := read_clock in
  let! e := read_ctx_err ctx in
  let k := kind_of r e expectedDoneBy done in
  do! report k ctx' done (time_Sub done t);
  do! react k ctx' done;
  do! if 0 <? timeout then emit (Cancels ctx') else ret tt;
  ret r.

Definition abs_admit ctx (t : Time) : M machine bool :=
  let max := a_MaxConcurrentRequests cfg in
  let! o := gets (view openL) in
  if a_ForceOpen cfg then ret false
  else if a_ForcedClosed cfg || negb o then ret true
  else if (0 <=? max) && (max <=? running) then ret false
  else zoom closerL (Allow ctx t).

Definition abs_run ctx : M machine (option error) :=
  let max := a_MaxConcurrentRequests cfg in
  let! t := read_clock in
  let! admitted := abs_admit ctx t in
  if negb admitted then
    do! report KErrShortCircuit ctx t 0; ret (Some errCircuitOpen)
  else
    let! prevented := zoom openerL (Prevent ctx t) in
    if prevented : bool then ret (Some errCircuitOpen)
    else if (0 <=? max) && (max <? wrap64 (running + 1)) then
      do! report KErrConcurrencyLimitReject ctx t 0;
      ret (Some errThrottledConcurrentCommands)
    else abs_command ctx t.
End Run.
End Machine.

Arguments abs OS CS : clear implicits.
Arguments machine OS CS : clear implicits.

(** * The interactions of a circuit *)

Section Performs.
Context {OS CS U : Type} `{!UserCode OS CS U}.
Abbreviation W := (World OS CS U).

(** A call of user code that changes the environment from [u] to [u'], in a world whose circuit
    is [c]. *)
Definition calls {A} (m : M W A) (c : Circuit OS CS U) (x : A) (u u' : U) : Prop :=
  transitionMu c = false /\ m (mkWorld c u) = (Ret x, mkWorld c u').

(** One interaction of a call on the circuit [c0], with the command [f] and the metrics objects
    [users].  No user code is called with the mutex held, and the command while it is counted. *)
Definition interacts (users : list nat) (c0 : Circuit OS CS U) (f : Context -> M W (option error))
    (i : interaction) (u u' : U) : Prop :=
  match i with
  | ReadClock t => match timeNow c0 with Some clk => clk u = (Ret t, u') | None => False end
  | ReadResult ctx r => exists c, calls (f ctx) c r u u' /\
      concurrentCommands c = wrap64 (concurrentCommands c0 + 1)
  | ReadCtxErr ctx e => e = ctx_Err ctx u /\ u' = u
  | Emits (Reports k ctx t d) => exists c,
      calls (range_do (fun id => run_call (user_run id) k ctx t d) users) c tt u u'
  | Emits (Announces open ctx t) => exists c,
      calls (range_do (fun id => if open then Opened (user_metrics id) ctx t else Closed (user_metrics id) ctx t)
               (CircuitMetricsCollector c0)) c tt u u'
  | Emits (Cancels ctx) => u' = ctx_cancel ctx u
  end.

Inductive performs (users : list nat) (c0 : Circuit OS CS U) (f : Context -> M W (option error)) :
  U -> list interaction -> U -> Prop :=
| performs_nil u : performs users c0 f u [] u
| performs_cons i rs u u1 u2 :
    interacts users c0 f i u u1 -> performs users c0 f u1 rs u2 -> performs users c0 f u (i :: rs) u2.

Lemma performs_one users c0 f i u u' : interacts users c0 f i u u' -> performs users c0 f u [i] u'.
Proof. intros H. eapply performs_cons; [exact H | constructor]. Qed.

Lemma performs_cons_inv users c0 f i rs u u2 :
  performs users c0 f u (i :: rs) u2 -> exists u1, interacts users c0 f i u u1 /\ performs users c0 f u1 rs u2.
Proof. inversion 1; subst. by eexists. Qed.

Lemma performs_app users c0 f rs rs' u u1 u2 :
  performs users c0 f u rs u1 -> performs users c0 f u1 rs' u2 -> performs users c0 f u (rs ++ rs') u2.
Proof.
  induction 1 as [|i rs u u0 u1 Hi _ IH]; intros H; [done |]. eapply performs_cons; [exact Hi | by apply IH].
Qed.
End Performs.

(** * The refinement *)

Section Refinement.
Context {OS CS U : Type} `{!ClosedToOpen OS} `{!OpenToClosed CS} `{!UserCode OS CS U}.
Context (oinv : OS -> Prop) (cinv : CS -> Prop).
Context `{!ClosedToOpenLaws OS oinv} `{!OpenToClosedLaws CS cinv} `{!QuietUserCode OS CS U}.
Abbreviation W := (World OS CS U).
Implicit Types (w : W) (a : abs OS CS).

(** The circuit [c0] with the state of [a] in it, and the mutex, the queue, the role and the
    counters of [mv]. *)
Definition plug (c0 : Circuit OS CS U) (mv : bool * list transition * bool * Z * Z) a : Circuit OS CS U :=
  let '(mu, q, role, k1, k2) := mv in
  mkCircuit (CmdMetricCollector c0) (FallbackMetricCollector c0) (CircuitMetricsCollector c0)
    (lostErrors c0) (name c0) (notThreadSafeConfig c0) false (threadSafeConfig c0)
    (a_open a) (Some (a_opener a)) (Some (a_closer a)) (timeNow c0) mu q role k1 k2.

Context (c0 : Circuit OS CS U) (users : list nat) (clk : M U Time) (f0 : Context -> M W (option error)).

(** What [SetConfigNotThreadSafe] sets up. *)
Hypothesis Hcollectors : CmdMetricCollector c0 = RefOpenToClose :: RefClosedToOpen :: map RefUser users.
Hypothesis Hclk : timeNow c0 = Some clk.
Hypothesis Hclk_ok : clock_ok clk.

Definition shows mv a w : Prop :=
  circ w = plug c0 mv a /\ oinv (a_opener a) /\ cinv (a_closer a).

(** The code [m] does what the machine [ma] does, in the interactions that its environment performs. *)
Abbreviation performs := (performs users c0 f0).

Definition sim_at {A} mv' (m : M W A) (ma : M (machine OS CS) A) w a : Prop :=
  exists b w' a' rs, m w = (Ret b, w') /\ shows mv' a' w' /\ performs (env w) rs (env w') /\
    forall rest, ma (mkMachine a (rs ++ rest)) = (Ret b, mkMachine a' rest).

Definition sim {A} mv mv' (m : M W A) (ma : M (machine OS CS) A) : Prop :=
  forall w a, shows mv a w -> sim_at mv' m ma w a.

Lemma sim_ret {A} mv (x : A) : sim mv mv (ret x) (ret x).
Proof. intros w a H. exists x, w, a, []. split; [done |]. split; [done |]. by split; [constructor |]. Qed.

Lemma sim_at_bind {A B} mv2 mv3 (m : M W A) ma (f : A -> M W B) fa w a :
  sim_at mv2 m ma w a ->
  (forall x w1 a1 rs, m w = (Ret x, w1) -> shows mv2 a1 w1 ->
     ma (mkMachine a rs) = (Ret x, mkMachine a1 []) -> sim_at mv3 (f x) (fa x) w1 a1) ->
  sim_at mv3 (bind m f) (bind ma fa) w a.
Proof.
  intros (x & w1 & a1 & rs1 & E1 & H1 & P1 & M1) Hf.
  destruct (Hf x w1 a1 (rs1 ++ []) E1 H1 (M1 [])) as (y & w2 & a2 & rs2 & E2 & H2 & P2 & M2).
  exists y, w2, a2, (rs1 ++ rs2). split; [by rewrite (bind_run _ _ _ _ _ E1) |]. split; [done |].
  split; [by eapply performs_app |].
  intros rest. rewrite <- app_assoc, (bind_run _ _ _ _ _ (M1 (rs2 ++ rest))). apply M2.
Qed.

Lemma sim_bind {A B} mv1 mv2 mv3 (m : M W A) ma (f : A -> M W B) fa :
  sim mv1 mv2 m ma -> (forall x, sim mv2 mv3 (f x) (fa x)) -> sim mv1 mv3 (bind m f) (bind ma fa).
Proof. intros Hm Hf w a H. eapply sim_at_bind; [by apply Hm |]. intros x w1 a1 _ _ H1 _. by apply Hf. Qed.

Lemma sim_ext {A} mv mv' (m m' : M W A) ma ma' :
  meq m m' -> meq ma ma' -> sim mv mv' m' ma' -> sim mv mv' m ma.
Proof.
  intros E E' H w a Hw. destruct (H w a Hw) as (b & w' & a' & rs & Em & Hs & Hp & Ma).
  exists b, w', a', rs. rewrite E. repeat (split; [done |]). intros rest. by rewrite E'.
Qed.

(** Code that reads: the value is known. *)
Lemma sim_gets {A B} mv mv' (g : W -> A) (f : A -> M W B) fa :
  (forall w a, shows mv a w -> sim mv mv' (f (g w)) fa) -> sim mv mv' (bind (gets g) f) fa.
Proof. intros H w a Hw. apply (H w a Hw w a Hw). Qed.

(** An interaction: the code changes the environment only, as the interaction does. *)
Lemma sim_step {A} mv (m : M W A) (accepts : interaction -> option A) :
  (forall w a, shows mv a w -> exists x u i, m w = (Ret x, mkWorld (circ w) u) /\
     interacts users c0 f0 i (env w) u /\ accepts i = Some x) ->
  sim mv mv m (consume accepts).
Proof.
  intros H w a Hw. destruct (H w a Hw) as (x & u & i & E & Hi & Ha).
  exists x, (mkWorld (circ w) u), a, [i]. split; [done |]. split; [by destruct Hw; split |].
  split; [by eapply performs_one |]. intros rest. unfold consume. cbn [m_rest app]. by rewrite Ha.
Qed.

Lemma sim_now mv : sim mv mv now read_clock.
Proof.
  apply sim_step. intros w a [Hc _]. rewrite now_spec. assert (Ht : timeNow (circ w) = Some clk)
    by (rewrite Hc; by destruct mv as [[[[? ?] ?] ?] ?]).
  rewrite Ht. destruct (Hclk_ok (env w)) as (t & u & E). rewrite E. exists t, u, (ReadClock t).
  split; [done |]. split; [| done]. unfold interacts. by rewrite Hclk.
Qed.

Lemma sim_opener {A} mv (m : M OS A) : safe oinv m -> sim mv mv (with_opener m) (zoom openerL m).
Proof.
  intros Hs w a (Hc & Ho & Hcl). destruct (Hs (a_opener a) Ho) as (x & os & E & Ho').
  exists x, (upd ClosedToOpenLogicL (Some os) w), (mkAbs (a_open a) os (a_closer a)), [].
  assert (Hv : view ClosedToOpenLogicL w = Some (a_opener a))
    by (simpl; rewrite Hc; by destruct mv as [[[[? ?] ?] ?] ?]).
  unfold with_opener, zoom_ptr. rewrite Hv, E. split; [done |]. split; [| split; [constructor |]].
  - split; [| done]. simpl. rewrite Hc. by destruct mv as [[[[? ?] ?] ?] ?].
  - intros rest. unfold zoom. simpl. by rewrite E.
Qed.

Lemma sim_closer {A} mv (m : M CS A) : safe cinv m -> sim mv mv (with_closer m) (zoom closerL m).
Proof.
  intros Hs w a (Hc & Ho & Hcl). destruct (Hs (a_closer a) Hcl) as (x & cs & E & Hcl').
  exists x, (upd OpenToCloseL (Some cs) w), (mkAbs (a_open a) (a_opener a) cs), [].
  assert (Hv : view OpenToCloseL w = Some (a_closer a))
    by (simpl; rewrite Hc; by destruct mv as [[[[? ?] ?] ?] ?]).
  unfold with_closer, zoom_ptr. rewrite Hv, E. split; [done |]. split; [| split; [constructor |]].
  - split; [| done]. simpl. rewrite Hc. by destruct mv as [[[[? ?] ?] ?] ?].
  - intros rest. unfold zoom. simpl. by rewrite E.
Qed.

(** A method of every user's object. *)
Lemma quiet_range {A} (f : A -> M W unit) l : (forall x, x ∈ l -> quiet (f x)) -> quiet (range_do f l).
Proof.
  induction l as [|x l IH]; intros Hq w; [by exists tt, (env w); destruct w |].
  destruct (Hq x ltac:(left) w) as ([] & u & E).
  destruct (IH (fun y Hy => Hq y ltac:(by right)) (mkWorld (circ w) u)) as ([] & u' & E').
  exists tt, u'. cbn [range_do]. by rewrite (bind_run _ _ _ _ _ E).
Qed.

Lemma range_do_map {S A B} (f : B -> M S unit) (g : A -> B) l : range_do f (map g l) = range_do (fun x => f (g x)) l.
Proof. induction l as [|x l IH]; [done |]. cbn [map range_do]. by rewrite IH. Qed.

Lemma sim_users q role k1 k2 k ctx t d :
  sim (false, q, role, k1, k2) (false, q, role, k1, k2)
    (range_do (fun id => run_call (user_run id) k ctx t d) users) (emit (Reports k ctx t d)).
Proof.
  apply sim_step. intros w a [Hc _].
  assert (Hq : quiet (range_do (fun id => run_call (user_run id) k ctx t d) users))
    by (apply quiet_range; intros id _; apply quiet_run).
  destruct (Hq w) as ([] & u & E). exists tt, u, (Emits (Reports k ctx t d)). split; [done |].
  rewrite decide_True by done. split; [| done]. exists (circ w). split; [by rewrite Hc |]. by destruct w.
Qed.

Lemma sim_report q role k1 k2 k ctx t d :
  sim (false, q, role, k1, k2) (false, q, role, k1, k2) (cmd_metrics k ctx t d) (report k ctx t d).
Proof.
  unfold cmd_metrics. apply sim_gets. intros w a [Hc _].
  assert (Hr : view CmdMetricCollectorL w = RefOpenToClose :: RefClosedToOpen :: map RefUser users)
    by (simpl; by rewrite Hc).
  rewrite Hr. clear w a Hc Hr. cbn [map deref_run]. unfold report.
  eapply sim_ext; [apply run_call_collection | reflexivity |].
  cbn [range_do]. rewrite map_map, range_do_map. eapply sim_bind.
  { eapply sim_ext; [apply (run_call_zoom (@with_closer _ _ _)) | reflexivity |].
    apply sim_closer, closer_run_safe. }
  intros _. eapply sim_bind.
  { eapply sim_ext; [apply (run_call_zoom (@with_opener _ _ _)) | reflexivity |].
    apply sim_opener, opener_run_safe. }
  intros _. apply sim_users.
Qed.

(** ** Transitions *)

Abbreviation at_rest_mv k1 k2 := (false, @nil transition, false, k1, k2).

Lemma notifyListeners_does tr w :
  transitionMu (circ w) = false -> CircuitMetricsCollector (circ w) = CircuitMetricsCollector c0 ->
  exists u, notifyListeners tr w = (Ret tt, mkWorld (circ w) u) /\
    interacts users c0 f0 (Emits (Announces (t_open tr) (t_ctx tr) (t_now tr))) (env w) u.
Proof.
  intros Hmu Hl. unfold notifyListeners, circuit_metrics, bind at 1 2, get, gets, ret. cbn [view CircuitMetricsCollectorL].
  rewrite Hl. set (g id := if t_open tr then Opened (user_metrics id) (t_ctx tr) (t_now tr)
                           else Closed (user_metrics id) (t_ctx tr) (t_now tr) : M W unit).
  assert (Hq : quiet (range_do g (CircuitMetricsCollector c0)))
    by (apply quiet_range; intros id _; unfold g; destruct (t_open tr); [apply quiet_Opened | apply quiet_Closed]).
  destruct (Hq w) as ([] & u & E). exists u. split.
  - rewrite <- E. unfold g. destruct (t_open tr); cbn; by rewrite range_do_map.
  - exists (circ w). split; [done |]. destruct w. exact E.
Qed.

Lemma deliver_S fuel w :
  deliver (S fuel) w
  = (let! role := deliver_enter in
     if negb role then ret tt
     else fun w => match deliver_loop (S fuel) w with
                   | (Panic p, w') => (do! deliver_abort; do! deliver fuel; throw p) w'
                   | r => r
                   end) w.
Proof. done. Qed.

(** Delivering one notification. *)
Lemma deliver_one fuel tr k1 k2 a w :
  (2 <= fuel)%nat -> shows (false, [tr], false, k1, k2) a w ->
  exists w', deliver fuel w = (Ret tt, w') /\ shows (at_rest_mv k1 k2) a w' /\
    interacts users c0 f0 (Emits (Announces (t_open tr) (t_ctx tr) (t_now tr))) (env w) (env w').
Proof.
  intros Hf [Hc Hi]. destruct fuel as [|[|fuel]]; [lia | lia |]. destruct w as [c u]. simpl in Hc. subst c.
  set (at_ mu q d u := mkWorld (plug c0 (mu, q, d, k1, k2) a) u).
  assert (E1 : deliver_enter (at_ false [tr] false u) = (Ret true, at_ true [tr] true u)) by done.
  assert (E2 : deliver_pop (at_ true [tr] true u) = (Ret (Some tr), at_ false [] true u)) by done.
  destruct (notifyListeners_does tr (at_ false [] true u) eq_refl eq_refl) as (u' & E3 & Hint).
  assert (E4 : lock transitionMuL (at_ false [] true u') = (Ret tt, at_ true [] true u')) by done.
  assert (E5 : deliver_pop (at_ true [] true u') = (Ret None, at_ false [] false u')) by done.
  exists (at_ false [] false u'). split; [| by split].
  assert (E6 : deliver_loop (S (S fuel)) (at_ true [tr] true u) = (Ret tt, at_ false [] false u')).
  { cbn [deliver_loop]. rewrite (bind_run _ _ _ _ _ E2), (bind_run _ _ _ _ _ E3).
    change (mkWorld (circ (at_ false [] true u)) u') with (at_ false [] true u').
    rewrite (bind_run _ _ _ _ _ E4). cbn [deliver_loop]. by rewrite (bind_run _ _ _ _ _ E5). }
  change (deliver (S (S fuel)) (at_ false [tr] false u) = (Ret tt, at_ false [] false u')).
  rewrite deliver_S. rewrite (bind_run _ _ _ _ _ E1). cbn [negb]. by rewrite E6.
Qed.

Lemma sim_set_open mv o : sim mv mv (set isOpenL o) (modify (upd openL o)).
Proof.
  intros w a (Hc & Hi). exists tt, (upd isOpenL o w), (mkAbs o (a_opener a) (a_closer a)), [].
  split; [done |]. split; [| split; [constructor | done]]. split; [| done]. simpl. rewrite Hc.
  by destruct mv as [[[[? ?] ?] ?] ?].
Qed.

Lemma sim_announce mv o ctx t : sim mv mv (notifyStateMachines ctx t o) (announce o ctx t).
Proof.
  unfold notifyStateMachines, announce.
  destruct o; (eapply sim_bind; [apply sim_closer | intros _; apply sim_opener]).
  - apply closer_Opened_safe.
  - apply opener_Opened_safe.
  - apply closer_Closed_safe.
  - apply opener_Closed_safe.
Qed.

(** What [commitTransition] does when the circuit is in the other state: the machine's answer
    says whether it committed, and then one notification is queued. *)
Section Change.
Context (o : bool) (should : Context -> Time -> M W bool) (sa : M (machine OS CS) bool).
Context (ctx : Context) (t : Time).
Hypothesis Hshould : forall mv, sim mv mv (should ctx t) sa.
Hypothesis Hopen : forall m x m', sa m = (x, m') -> a_open (m_abs m') = a_open (m_abs m).

Definition again : M (machine OS CS) (option Time) :=
  let! again := sa in
  if negb again then ret None
  else
    do! modify (upd openL o);
    let! flipped := read_clock in
    let at_ := if time_After flipped t then flipped else t in
    do! announce o ctx at_;
    ret (Some at_).

Lemma commit_sim k1 k2 w a :
  shows (at_rest_mv k1 k2) a w -> a_open a = negb o ->
  exists c w' a' rs, commitTransition ctx t o (Some should) w = (Ret (if c is Some _ then true else false), w') /\
    shows (false, if c is Some at_ then [mkTransition o ctx at_] else [], false, k1, k2) a' w' /\
    performs (env w) rs (env w') /\
    (forall rest, again (mkMachine a (rs ++ rest)) = (Ret c, mkMachine a' rest)).
Proof.
  intros Hw Ho. destruct w as [c u]. pose proof Hw as [Hc Hi]. simpl in Hc. subst c.
  set (w1 := mkWorld (plug c0 (true, [], false, k1, k2) a) u).
  assert (Hw1 : shows (true, [], false, k1, k2) a w1) by by split.
  unfold commitTransition. rewrite (bind_run _ _ _ tt w1) by done. unfold defer, commit_locked.
  rewrite (bind_run _ _ w1 (negb o) w1) by (unfold get, gets; simpl; by rewrite Ho).
  replace (Bool.eqb (negb o) o) with false by by destruct o.
  destruct (Hshould _ w1 a Hw1) as (b1 & w2 & a2 & rs2 & E2 & Hw2 & P2 & M2).
  rewrite (bind_run _ _ _ _ _ E2). destruct b1; cbn [negb].
  - assert (Hrest : sim (true, [], false, k1, k2) (true, [], false, k1, k2)
      (do! set isOpenL o; let! flipped := now in
       let now1 := if time_After flipped t then flipped else t in
       do! notifyStateMachines ctx now1 o; ret now1)
      (do! modify (upd openL o); let! flipped := read_clock in
       let now1 := if time_After flipped t then flipped else t in
       do! announce o ctx now1; ret now1)).
    { eapply sim_bind; [apply sim_set_open | intros _].
      eapply sim_bind; [apply sim_now | intros fl]. cbv zeta.
      eapply sim_bind; [apply sim_announce | intros _; apply sim_ret]. }
    destruct (Hrest w2 a2 Hw2) as (t1 & w3 & a3 & rs3 & E3 & [Hc3 Hi3] & P3 & M3).
    exists (Some t1), (mkWorld (plug c0 (false, [mkTransition o ctx t1], false, k1, k2) a3) (env w3)), a3, (rs2 ++ rs3).
    split; [| split; [by split | split; [by eapply performs_app |]]].
    + assert (Ebody : (do! set isOpenL o; let! flipped := now in
        let now1 := if time_After flipped t then flipped else t in
        do! notifyStateMachines ctx now1 o; let! q := get pendingTransitionsL in
        do! set pendingTransitionsL (q ++ [mkTransition o ctx now1]); ret true) w2
        = (Ret true, mkWorld (plug c0 (true, [mkTransition o ctx t1], false, k1, k2) a3) (env w3))).
      { destruct w3 as [c3 u3]. simpl in Hc3. subst c3.
        transitivity ((let! now1 := (do! set isOpenL o; let! flipped := now in
          let now1 := if time_After flipped t then flipped else t in
          do! notifyStateMachines ctx now1 o; ret now1) in
          let! q := get pendingTransitionsL in
          do! set pendingTransitionsL (q ++ [mkTransition o ctx now1]); ret true) w2);
          [| by rewrite (bind_run _ _ _ _ _ E3)].
        unfold bind, ret. destruct (set isOpenL o w2) as [[[]| | |] w4]; try done.
        destruct (now w4) as [[fl| | |] w5]; try done.
        by destruct (notifyStateMachines _ _ _ w5) as [[[]| | |] w6]. }
      cbv zeta in Ebody |- *. by rewrite Ebody.
    + intros rest. rewrite <- app_assoc. unfold again. rewrite (bind_run _ _ _ _ _ (M2 (rs3 ++ rest))).
      cbn [negb]. specialize (M3 rest). revert M3. cbv zeta. unfold bind, ret, modify.
      destruct (read_clock _) as [[fl| | |] m4]; try done.
      destruct (announce _ _ _ m4) as [[[]| | |] m5]; try done. congruence.
  - exists None, (mkWorld (plug c0 (at_rest_mv k1 k2) a2) (env w2)), a2, rs2.
    destruct w2 as [c2 u2]. destruct Hw2 as [Hc2 Hi2]. simpl in Hc2. subst c2.
    split; [done |]. split; [by split |]. split; [done |]. intros rest. unfold again.
    by rewrite (bind_run _ _ _ _ _ (M2 rest)).
Qed.

Lemma change_again :
  change o sa ctx t =~ (let! first := sa in
    if negb first then ret tt
    else let! c := again in match c with Some at_ => emit (Announces o ctx at_) | None => ret tt end).
Proof.
  unfold change. apply bind_proper; [done |]. intros first. destruct (negb first); [done |].
  intros m. unfold again, bind, ret. destruct (sa m) as [[b| | |] m1]; try done. destruct (negb b); [done |].
  destruct (modify (upd openL o) m1) as [[[]| | |] m2]; try done.
  destruct (read_clock m2) as [[fl| | |] m3]; try done. by destruct (announce _ _ _ m3) as [[[]| | |] m4].
Qed.

Lemma change_sim fuel k1 k2 w a :
  (2 <= fuel)%nat -> shows (at_rest_mv k1 k2) a w -> a_open a = negb o ->
  sim_at (at_rest_mv k1 k2)
    (let! first := should ctx t in
     if first : bool then transitionTo fuel ctx t o (Some should) else ret tt)
    (change o sa ctx t) w a.
Proof.
  intros Hf Hw Ho.
  cut (sim_at (at_rest_mv k1 k2)
    (let! first := should ctx t in
     if first : bool then transitionTo fuel ctx t o (Some should) else ret tt)
    (let! first := sa in
     if negb first then ret tt
     else let! c := again in match c with Some at_ => emit (Announces o ctx at_) | None => ret tt end) w a).
  { intros (b & w' & a' & rs & E & Hs & Hp & Hm). exists b, w', a', rs. repeat (split; [done |]).
    intros rest. by rewrite change_again. }
  eapply sim_at_bind; [by apply Hshould |]. intros first w1 a1 rs1 _ Hw1 M1.
  destruct first; cbn [negb]; [| by apply sim_ret].
  assert (Ho1 : a_open a1 = negb o) by (rewrite <- Ho; exact (Hopen _ _ _ M1)).
  destruct (commit_sim k1 k2 w1 a1 Hw1 Ho1) as (c & w2 & a2 & rs2 & E2 & Hw2 & P2 & M2).
  assert (Ecode : transitionTo fuel ctx t o (Some should) w1 = (if c is Some _ then deliver fuel else ret tt) w2).
  { unfold transitionTo. rewrite (bind_run _ _ w1 (negb o) w1)
      by (unfold get, gets; destruct Hw1 as [Hc1 _]; simpl; by rewrite Hc1, <- Ho1).
    replace (Bool.eqb (negb o) o) with false by by destruct o.
    rewrite (bind_run _ _ _ _ _ E2). by destruct c. }
  unfold sim_at. rewrite Ecode. destruct c as [at_|].
  - destruct (deliver_one fuel _ k1 k2 a2 w2 Hf Hw2) as (w3 & E3 & Hw3 & Hi). cbn [t_open t_ctx t_now] in Hi.
    exists tt, w3, a2, (rs2 ++ [Emits (Announces o ctx at_)]). split; [done |]. split; [done |].
    split; [eapply performs_app; [exact P2 | by apply performs_one] |].
    intros rest. rewrite <- app_assoc, (bind_run _ _ _ _ _ (M2 _)). unfold emit, consume. cbn [m_rest app].
    by rewrite decide_True.
  - exists tt, w2, a2, rs2. split; [done |]. split; [done |]. split; [done |].
    intros rest. by rewrite (bind_run _ _ _ _ _ (M2 rest)).
Qed.
End Change.

(** ** A call *)

Abbreviation cfg0 := (threadSafeConfig c0).
Abbreviation interrupt0 := (default (fun _ => true) (IsErrInterrupt (Execution (notThreadSafeConfig c0)))).

Lemma shows_cfg mv a w : shows mv a w ->
  threadSafeConfig (circ w) = cfg0 /\ isOpen (circ w) = a_open a /\
  notThreadSafeConfig (circ w) = notThreadSafeConfig c0 /\ notThreadSafeConfigMu (circ w) = false /\
  concurrentCommands (circ w) = (let '(_, _, _, k1, _) := mv in k1).
Proof. intros [Hc _]. rewrite Hc. by destruct mv as [[[[? ?] ?] ?] ?]. Qed.

Lemma zoom_opener_open {A} (m : M OS A) (s : machine OS CS) x s' :
  zoom openerL m s = (x, s') -> a_open (m_abs s') = a_open (m_abs s).
Proof. unfold zoom. destruct (m _) as [o os]. by intros [= _ <-]. Qed.

Lemma zoom_closer_open {A} (m : M CS A) (s : machine OS CS) x s' :
  zoom closerL m s = (x, s') -> a_open (m_abs s') = a_open (m_abs s).
Proof. unfold zoom. destruct (m _) as [o cs]. by intros [= _ <-]. Qed.

(** Reading a field of the code's circuit, or of the machine. *)
Lemma sim_at_code_get {T A} mv' (l : lens W T) v (f : T -> M W A) ma w a :
  view l w = v -> sim_at mv' (f v) ma w a -> sim_at mv' (bind (get l) f) ma w a.
Proof. by intros <-. Qed.

Lemma sim_at_open {A} mv' (m : M W A) (fa : bool -> M (machine OS CS) A) w a :
  sim_at mv' m (fa (a_open a)) w a -> sim_at mv' m (bind (gets (view openL)) fa) w a.
Proof. done. Qed.

Lemma sim_may_open fuel k1 k2 ctx t :
  (2 <= fuel)%nat -> sim (at_rest_mv k1 k2) (at_rest_mv k1 k2)
    (attempt_if_closed fuel ctx t) (may_open cfg0 ctx t).
Proof.
  intros Hf w a Hw. destruct (shows_cfg _ _ _ Hw) as (Hcfg & Ho & _). unfold attempt_if_closed, attemptToOpen, may_open.
  apply sim_at_open. apply (sim_at_code_get _ isOpenL (a_open a)); [done |].
  destruct (a_open a) eqn:Ea; cbn [negb]; [rewrite orb_true_r; by apply sim_ret |].
  apply (sim_at_code_get _ threadSafeConfigL cfg0); [done |].
  destruct (a_ForcedClosed cfg0); cbn [orb]; [by apply sim_ret |].
  apply (sim_at_code_get _ isOpenL false); [done |].
  apply (change_sim true (fun ctx t => with_opener (ShouldOpen ctx t))); try done; [|].
  - intros mv. apply sim_opener, ShouldOpen_safe.
  - intros m x m'. apply zoom_opener_open.
Qed.

Lemma sim_may_close fuel k1 k2 ctx t :
  (2 <= fuel)%nat -> sim (at_rest_mv k1 k2) (at_rest_mv k1 k2)
    (after_verdict fuel KSuccess ctx t) (may_close cfg0 ctx t).
Proof.
  intros Hf w a Hw. destruct (shows_cfg _ _ _ Hw) as (Hcfg & Ho & _). unfold after_verdict, may_close.
  apply sim_at_open. apply (sim_at_code_get _ isOpenL (a_open a)); [done |].
  apply (sim_at_code_get _ threadSafeConfigL cfg0); [done |].
  destruct (a_open a) eqn:Ea; cbn [negb orb]; [| by apply sim_ret].
  destruct (a_ForceOpen cfg0); [by apply sim_ret |].
  apply (change_sim false (fun ctx t => with_closer (ShouldClose ctx t))); try done; [|].
  - intros mv. apply sim_closer, ShouldClose_safe.
  - intros m x m'. apply zoom_closer_open.
Qed.

Lemma sim_react fuel k k1 k2 ctx t :
  (2 <= fuel)%nat -> sim (at_rest_mv k1 k2) (at_rest_mv k1 k2)
    (after_verdict fuel k ctx t) (react cfg0 k ctx t).
Proof.
  intros Hf. destruct k; try apply sim_ret; [by apply sim_may_close | by apply sim_may_open ..].
Qed.

Lemma sim_ctx_err {B} mv mv' orig (m : option error -> M W B) fa :
  (forall w a, shows mv a w -> sim mv mv' (m (ctx_Err orig (env w))) (fa (ctx_Err orig (env w)))) ->
  sim mv mv' (fun w => m (ctx_Err orig (env w)) w) (bind (read_ctx_err orig) fa).
Proof.
  intros H w a Hw. destruct (H w a Hw w a Hw) as (b & w' & a' & rs & E & Hs & Hp & Hm).
  exists b, w', a', (ReadCtxErr orig (ctx_Err orig (env w)) :: rs). split; [done |]. split; [done |].
  split; [by eapply performs_cons |]. intros rest. cbn [app]. unfold bind at 1, read_ctx_err, consume.
  cbn [m_rest m_abs]. rewrite decide_True by done. apply Hm.
Qed.

Lemma sim_classify fuel k1 k2 ctx orig r exp done tot :
  (2 <= fuel)%nat -> sim (at_rest_mv k1 k2) (at_rest_mv k1 k2)
    (classify fuel ctx orig r exp done tot)
    (let! e := read_ctx_err orig in
     let k := kind_of cfg0 interrupt0 r e exp done in
     do! report k ctx done tot; do! react cfg0 k ctx done; ret r).
Proof.
  intros Hf w a Hw. unfold sim_at. destruct (shows_cfg _ _ _ Hw) as (Hcfg & _ & Hnts & Hmu & _).
  rewrite classify_spec by done.
  assert (Hk : verdict w orig r exp done = kind_of cfg0 interrupt0 r (ctx_Err orig (env w)) exp done)
    by (unfold verdict, kind_of; by rewrite Hcfg, Hnts).
  rewrite Hk.
  apply (sim_ctx_err (at_rest_mv k1 k2) (at_rest_mv k1 k2) orig
    (fun e => let k := kind_of cfg0 interrupt0 r e exp done in
      do! cmd_metrics k ctx done tot; do! after_verdict fuel k ctx done; ret r)); [| done].
  intros w0 a0 _. cbv zeta. eapply sim_bind; [apply sim_report | intros _].
  eapply sim_bind; [by apply sim_react | intros _; apply sim_ret].
Qed.

(** The command is called when the call is counted. *)
Abbreviation running_mv k2 := (at_rest_mv (wrap64 (concurrentCommands c0 + 1)) k2).

(** The user's function: it returns, and changes the environment only. *)
Lemma sim_command k2 ctx :
  (forall ctx, quiet (f0 ctx)) -> sim (running_mv k2) (running_mv k2) (f0 ctx) (read_result ctx).
Proof.
  intros Hq. apply sim_step. intros w a [Hc _]. destruct (Hq ctx w) as (r & u & E).
  exists r, u, (ReadResult ctx r). split; [done |]. rewrite decide_True by done. split; [| done].
  exists (circ w). rewrite Hc. split; [split; [done |] | done]. rewrite <- Hc. by destruct w.
Qed.

(** The deferred cancellation of the context that the command ran in. *)
Lemma sim_defer_cancel {A} mv mv' ctx (m : M W A) ma :
  sim mv mv' m ma ->
  sim mv mv' (defer (modify (fun w => upd envL (ctx_cancel ctx (env w)) w)) m)
    (let! r := ma in do! emit (Cancels ctx); ret r).
Proof.
  intros H w a Hw. destruct (H w a Hw) as (b & w' & a' & rs & E & [Hc Hi] & Hp & Hm).
  exists b, (mkWorld (circ w') (ctx_cancel ctx (env w'))), a', (rs ++ [Emits (Cancels ctx)]).
  split; [unfold defer; by rewrite E |]. split; [by split |].
  split; [eapply performs_app; [exact Hp | by apply performs_one] |]. intros rest.
  rewrite <- app_assoc, (bind_run _ _ _ _ _ (Hm _)). unfold bind, emit, consume. cbn [m_rest app].
  by rewrite decide_True.
Qed.

Lemma sim_run_and_classify fuel k2 ctx orig t exp :
  (2 <= fuel)%nat -> (forall ctx, quiet (f0 ctx)) -> sim (running_mv k2) (running_mv k2)
    (run_and_classify fuel ctx orig t exp f0)
    (let! r := read_result ctx in let! done := read_clock in let! e := read_ctx_err orig in
     let k := kind_of cfg0 interrupt0 r e exp done in
     do! report k ctx done (time_Sub done t); do! react cfg0 k ctx done; ret r).
Proof.
  intros Hf Hq. unfold run_and_classify. eapply sim_bind; [by apply sim_command | intros r].
  eapply sim_bind; [apply sim_now | intros d]. by apply sim_classify.
Qed.

(** The cancellation comes last. *)
Lemma cancel_last ctx orig t exp :
  (let! r := read_result ctx in let! done := read_clock in let! e := read_ctx_err orig in
   let k := kind_of cfg0 interrupt0 r e exp done in
   do! report k ctx done (time_Sub done t); do! react cfg0 k ctx done; do! emit (Cancels ctx); ret r)
  =~ (let! r := (let! r := read_result ctx in let! done := read_clock in let! e := read_ctx_err orig in
        let k := kind_of cfg0 interrupt0 r e exp done in
        do! report k ctx done (time_Sub done t); do! react cfg0 k ctx done; ret r) in
      do! emit (Cancels ctx); ret r :> M (machine OS CS) (option error)).
Proof.
  intros m. unfold bind. cbv zeta. unfold ret. destruct (read_result ctx m) as [[r| | |] m1]; try done.
  destruct (read_clock m1) as [[d| | |] m2]; try done. destruct (read_ctx_err orig m2) as [[e| | |] m3]; try done.
  destruct (report _ _ _ _ m3) as [[[]| | |] m4]; try done. by destruct (react _ _ _ _ m4) as [[[]| | |] m5].
Qed.

Lemma sim_run_counted fuel k2 ctx t n :
  (2 <= fuel)%nat -> (forall ctx, quiet (f0 ctx)) ->
  let max := a_MaxConcurrentRequests cfg0 in
  sim (running_mv k2) (running_mv k2)
    (run_counted fuel ctx t max n f0)
    (if (0 <=? max) && (max <? n) then
       do! report KErrConcurrencyLimitReject ctx t 0; ret (Some errThrottledConcurrentCommands)
     else abs_command cfg0 interrupt0 ctx t).
Proof.
  intros Hf Hq max. unfold run_counted. destruct (_ && _).
  { eapply sim_bind; [apply sim_report | intros _; apply sim_ret]. }
  intros w a Hw. destruct (shows_cfg _ _ _ Hw) as (Hcfg & _).
  apply (sim_at_code_get _ threadSafeConfigL cfg0); [done |].
  unfold abs_command. cbv zeta. destruct (0 <? a_ExecutionTimeout cfg0).
  - eapply sim_ext; [reflexivity | apply cancel_last | | exact Hw].
    by apply sim_defer_cancel, sim_run_and_classify.
  - by apply (sim_run_and_classify fuel k2 ctx ctx t 0 Hf Hq).
Qed.

(** The part below the admission: the increment and its deferred decrement. *)
Lemma sim_counted fuel k2 ctx t :
  let k1 := concurrentCommands c0 in
  (2 <= fuel)%nat -> in_int64 k1 = true -> (forall ctx, quiet (f0 ctx)) ->
  let max := a_MaxConcurrentRequests cfg0 in
  sim (at_rest_mv k1 k2) (at_rest_mv k1 k2)
    (let! n := atomic_Add concurrentCommandsL 1 in
     defer (let! _ := atomic_Add concurrentCommandsL (-1) in ret tt) (run_counted fuel ctx t max n f0))
    (if (0 <=? max) && (max <? wrap64 (k1 + 1)) then
       do! report KErrConcurrencyLimitReject ctx t 0; ret (Some errThrottledConcurrentCommands)
     else abs_command cfg0 interrupt0 ctx t).
Proof.
  intros k1 Hf Hk Hq max w a [Hc Hi]. destruct w as [c u]. simpl in Hc. subst c.
  set (w1 := mkWorld (plug c0 (running_mv k2) a) u).
  assert (Hw1 : shows (running_mv k2) a w1) by by split.
  destruct (sim_run_counted fuel k2 ctx t (wrap64 (k1 + 1)) Hf Hq w1 a Hw1)
    as (r & w2 & a2 & rs & E & [Hc2 Hi2] & Hp & Hm).
  destruct w2 as [c2 u2]. simpl in Hc2. subst c2.
  exists r, (mkWorld (plug c0 (at_rest_mv k1 k2) a2) u2), a2, rs. split; [| by split; [split |]].
  rewrite (bind_run _ _ _ (wrap64 (k1 + 1)) w1) by done. unfold defer. fold max in E. rewrite E.
  unfold bind, ret, atomic_Add, bind, get, gets, set, modify, ret. simpl. by rewrite counter_restored.
Qed.

Lemma sim_run fuel k2 ctx :
  let k1 := concurrentCommands c0 in
  (2 <= fuel)%nat -> in_int64 k1 = true -> (forall ctx, quiet (f0 ctx)) ->
  sim (at_rest_mv k1 k2) (at_rest_mv k1 k2) (run fuel ctx f0) (abs_run cfg0 interrupt0 k1 ctx).
Proof.
  intros k1 Hf Hk Hq.
  unfold run, abs_run. eapply sim_bind; [apply sim_now | intros t]. cbv zeta.
  intros w a Hw. destruct (shows_cfg _ _ _ Hw) as (Hcfg & _).
  apply (sim_at_code_get _ threadSafeConfigL cfg0); [done |].
  apply (sim_at_bind (at_rest_mv k1 k2)).
  { destruct (shows_cfg _ _ _ Hw) as (_ & Ho & _ & _ & Hrun). unfold allowNewRun, abs_admit.
    apply (sim_at_code_get _ threadSafeConfigL cfg0); [done |]. apply sim_at_open.
    destruct (a_ForceOpen cfg0); [by apply sim_ret |].
    apply (sim_at_code_get _ isOpenL (a_open a)); [done |].
    destruct (_ || _); [by apply sim_ret |].
    apply (sim_at_code_get _ concurrentCommandsL k1); [done |].
    destruct (_ && _); [by apply sim_ret |].
    exact (sim_closer (at_rest_mv k1 k2) _ (Allow_safe ctx t) w a Hw). }
  intros admitted w1 a1 _ _ Hw1 _. destruct (negb admitted).
  { refine (sim_bind _ (at_rest_mv k1 k2) _ _ _ _ _ _ _ w1 a1 Hw1); [apply sim_report | intros _; apply sim_ret]. }
  refine (sim_bind _ (at_rest_mv k1 k2) _ _ _ _ _ _ _ w1 a1 Hw1); [apply sim_opener, Prevent_safe |].
  intros prevented. destruct prevented; [apply sim_ret |]. by apply sim_counted.
Qed.
End Refinement.

(** * The theorem *)

Section Calls.
Context {OS CS U : Type} `{!ClosedToOpen OS} `{!OpenToClosed CS} `{!UserCode OS CS U}.
Abbreviation W := (World OS CS U).
Implicit Types w : W.

(** The circuit's own logic is told of commands, before [users]' metrics objects: what
    [SetConfigNotThreadSafe] sets up. *)
Definition wired (users : list nat) (c : Circuit OS CS U) : Prop :=
  CmdMetricCollector c = RefOpenToClose :: RefClosedToOpen :: map RefUser users.

(** The state of the machine that a circuit shows. *)
Definition abstracts (c : Circuit OS CS U) (a : abs OS CS) : Prop :=
  isOpen c = a_open a /\ ClosedToOpenLogic c = Some (a_opener a) /\ OpenToClose c = Some (a_closer a).

Definition interrupts (c : Circuit OS CS U) : error -> bool :=
  default (fun _ => true) (IsErrInterrupt (Execution (notThreadSafeConfig c))).

Lemma run_shows (oinv : OS -> Prop) (cinv : CS -> Prop) `{!ClosedToOpenLaws OS oinv}
    `{!OpenToClosedLaws CS cinv} `{!QuietUserCode OS CS U} fuel users cmds fbs ctx f w a :
  (2 <= fuel)%nat -> in_int64 cmds = true -> (forall ctx, quiet (f ctx)) ->
  at_rest oinv cinv cmds fbs w -> wired users (circ w) -> abstracts (circ w) a ->
  exists r w' a' rs,
    run fuel ctx f w = (Ret r, w') /\
    performs users (circ w) f (env w) rs (env w') /\
    (forall rest, abs_run (threadSafeConfig (circ w)) (interrupts (circ w)) cmds ctx (mkMachine a (rs ++ rest))
                  = (Ret r, mkMachine a' rest)) /\
    at_rest oinv cinv cmds fbs w' /\ wired users (circ w') /\ abstracts (circ w') a' /\
    threadSafeConfig (circ w') = threadSafeConfig (circ w) /\ interrupts (circ w') = interrupts (circ w) /\
    (a_Disabled (threadSafeConfig (circ w)) = false -> Run fuel theCircuit ctx (Some f) w = (Ret r, w')).
Proof.
  intros Hf Hk Hq [(Hos & Hcs & (clk & Hclk & Hclk_ok) & Hmu) Hmv] Hwired (Ho & Ha & Hc).
  destruct Hos as (os & Eos & Hos). destruct Hcs as (cs & Ecs & Hcs).
  assert (os = a_opener a) as -> by congruence. assert (cs = a_closer a) as -> by congruence.
  assert (Hn : concurrentCommands (circ w) = cmds) by (unfold moving in Hmv; by injection Hmv). subst cmds.
  assert (Hshow : shows oinv cinv (circ w) (false, [], false, concurrentCommands (circ w), fbs) a w).
  { split; [| done]. unfold plug. unfold moving in Hmv. destruct w as [c u]. destruct c. simpl in *. by simplify_eq. }
  destruct (sim_run oinv cinv (circ w) users clk f Hwired Hclk Hclk_ok fuel fbs ctx Hf Hk Hq w a Hshow)
    as (r & w' & a' & rs & E & (Hc' & Hos' & Hcs') & Hp & Hm).
  exists r, w', a', rs. split; [done |]. split; [exact Hp |]. split; [done |].
  unfold wired, abstracts, at_rest, phase, interrupts.
  rewrite Hc'. split; [| split; [done | split; [done | split; [done | split; [done |]]]]].
  - split; [| done]. split; [by eexists | split; [by eexists | split; [by eexists | done]]].
  - intros Hd. unfold Run, Execute, isEmptyOrNil.
    unfold bind, get, gets, ret. simpl. rewrite Hc. rewrite Hd. cbn [orb]. rewrite E.
    destruct r as [e|]; [| done]. destruct (IsBadRequest (Some e)); [done |].
    by unfold fallback, bind, get, gets, ret.
Qed.

(** C2: the circuit implements its specification.  For every configuration, with open/close
    logic that satisfies its laws and user code that leaves the circuit alone, a call of [run] on
    a circuit at rest returns.  What it does to the environment is a sequence of interactions -
    readings of the clock, the call of the command [f] in its context while the call is counted,
    the question to the caller's context, one round of reports to the user's metrics objects and of
    announcements to the listeners with the mutex free, the cancellation - and the machine does the
    same interactions in the same order, returns the same, and ends in the state that the circuit
    is left in, at rest, wired and configured as before.  Unless the circuit is disabled, [Run] is
    that call. *)
Theorem run_refines (oinv : OS -> Prop) (cinv : CS -> Prop) `{!ClosedToOpenLaws OS oinv}
    `{!OpenToClosedLaws CS cinv} `{!QuietUserCode OS CS U} fuel users cmds fbs ctx f w a :
  (2 <= fuel)%nat -> in_int64 cmds = true -> (forall ctx, quiet (f ctx)) ->
  at_rest oinv cinv cmds fbs w -> wired users (circ w) -> abstracts (circ w) a ->
  exists r w' a' rs,
    run fuel ctx f w = (Ret r, w') /\
    performs users (circ w) f (env w) rs (env w') /\
    (forall rest, abs_run (threadSafeConfig (circ w)) (interrupts (circ w)) cmds ctx (mkMachine a (rs ++ rest))
                  = (Ret r, mkMachine a' rest)) /\
    at_rest oinv cinv cmds fbs w' /\ wired users (circ w') /\ abstracts (circ w') a' /\
    threadSafeConfig (circ w') = threadSafeConfig (circ w) /\ interrupts (circ w') = interrupts (circ w) /\
    (a_Disabled (threadSafeConfig (circ w)) = false -> Run fuel theCircuit ctx (Some f) w = (Ret r, w')).
Proof. intros. by eapply (run_shows oinv cinv). Qed.
End Calls.

(** * Witness *)

Module SpecSample.
#[local] Existing Instance Sample.code.
#[local] Existing Instance Sample.quiet_code.

(** A command that fails on a closed circuit. *)
Lemma run_refines_witness :
  let w := Sample.world false false false 3 10 in
  let f := fun _ : Context => ret (Some errCanceled) in
  exists r w' a' rs,
    run 2 Background f w = (Ret r, w') /\ performs [0%nat] (circ w) f (env w) rs (env w') /\
    abs_run (threadSafeConfig (circ w)) (interrupts (circ w)) 3 Background
      (mkMachine (mkAbs false neverOpens_value neverCloses_value) (rs ++ []))
    = (Ret r, mkMachine a' []) /\ isOpen (circ w') = a_open a'.
Proof.
  intros w f.
  destruct (run_refines (fun _ : neverOpens => True) (fun _ : neverCloses => True) 2 [0%nat] 3 0 Background
    f w (mkAbs false neverOpens_value neverCloses_value))
    as (r & w' & a' & rs & E & Hp & Hm & _ & _ & (Ho & _) & _).
  - lia.
  - reflexivity.
  - intros ctx w0. by exists (Some errCanceled), (env w0); destruct w0.
  - apply Sample.world_at_rest.
  - reflexivity.
  - by split.
  - exists r, w', a', rs. split; [exact E |]. split; [exact Hp |]. split; [apply Hm | exact Ho].
Defined.
End SpecSample.
End CircuitSpec.
