(* ===== verification/Bulkhead.v ===== *)
(** circuit.go: the limits of concurrent commands and fallbacks, with calls of [Execute] on any
    number of goroutines.

    [concurrentCommands] is an atomic counter that [run] increments, compares with
    [MaxConcurrentRequests] and decrements when it returns; [fallback] does the same with
    [concurrentFallbacks].  A [step] is one atomic operation of one call on the counter, or one
    of its reads and decisions, or anything the rest of the program does ([step_other]).
    A call made from inside a command is a call of its own.  [run] and [fallback] of Circuit.v
    are runs of this relation ([calls_are_bulkhead_runs]). *)

From stdpp Require Import relations.
From S2P Require Import Prelude GoMonad Errors Metrics Closers Config Circuit CircuitFrames CircuitTheorems.

Module Bulkhead.

(** * The steps of calls *)

(** Where a call of [run] or [fallback] is. *)
Inductive call_at :=
| Outside
| Deciding (max : Z)                    (* the limit is read, the circuit decides *)
| Counted (max : option Z) (n : Z)      (* the increment returned [n] *)
| Running                               (* in the user's function, or reporting on it *)
| Rejecting                             (* over the limit *)
| Leaving.                              (* about to decrement *)

#[export] Instance call_at_eq_dec : EqDecision call_at.
Proof. solve_decision. Defined.

Section System.
Context {OS CS U : Type} `{!ClosedToOpen OS} `{!OpenToClosed CS} `{!UserCode OS CS U}.
Abbreviation W := (World OS CS U).
Implicit Types w : W.

(** A counter and its limit; [run] reads the limit before the increment, [fallback] after. *)
Record bulkhead := mkBulkhead {
  counter : lens W Z;
  limit : atomicCircuitConfig -> Z;
  early : bool
}.

Definition commands : bulkhead := mkBulkhead concurrentCommandsL a_MaxConcurrentRequests true.
Definition fallbacks : bulkhead := mkBulkhead concurrentFallbacksL a_Fallback_MaxConcurrentRequests false.

Record sys := mkSys { calls : list call_at; world : W }.

Definition limit_now (b : bulkhead) (w : W) : Z := limit b (threadSafeConfig (circ w)).

(** The test of [run_counted] and of [fallback_counted]. *)
Definition over (max n : Z) : bool := (0 <=? max) && (max <? n).

(** The limit may be reconfigured at any time, within 0 and [most]. *)
Definition bounded (b : bulkhead) (most : Z) (w : W) : Prop := 0 <= limit_now b w <= most.

Section Step.
Context (b : bulkhead) (most : Z).

Inductive step : sys -> sys -> Prop :=
| step_limit cs i w :
    early b = true -> cs !! i = Some Outside ->
    step (mkSys cs w) (mkSys (<[i := Deciding (limit_now b w)]> cs) w)
(** the circuit is open, its opener prevents the call, or their code panics *)
| step_turned_away cs i m w :
    cs !! i = Some (Deciding m) -> step (mkSys cs w) (mkSys (<[i := Outside]> cs) w)
| step_enter cs i m n w w' :
    cs !! i = Some (Deciding m) -> atomic_Add (counter b) 1 w = (Ret n, w') ->
    step (mkSys cs w) (mkSys (<[i := Counted (Some m) n]> cs) w')
| step_enter_late cs i n w w' :
    early b = false -> cs !! i = Some Outside -> atomic_Add (counter b) 1 w = (Ret n, w') ->
    step (mkSys cs w) (mkSys (<[i := Counted None n]> cs) w')
| step_limit_late cs i n w :
    cs !! i = Some (Counted None n) ->
    step (mkSys cs w) (mkSys (<[i := Counted (Some (limit_now b w)) n]> cs) w)
| step_decide cs i m n w :
    cs !! i = Some (Counted (Some m) n) ->
    step (mkSys cs w) (mkSys (<[i := if over m n then Rejecting else Running]> cs) w)
(** the function and the reports are done, or something panicked: the deferred calls run *)
| step_end cs i c w :
    cs !! i = Some c -> c <> Outside -> (forall m, c <> Deciding m) ->
    step (mkSys cs w) (mkSys (<[i := Leaving]> cs) w)
| step_leave cs i n w w' :
    cs !! i = Some Leaving -> atomic_Add (counter b) (-1) w = (Ret n, w') ->
    step (mkSys cs w) (mkSys (<[i := Outside]> cs) w')
(** a call begins, and one that is over is forgotten *)
| step_begin cs w : step (mkSys cs w) (mkSys (cs ++ [Outside]) w)
| step_forget cs w : step (mkSys (cs ++ [Outside]) w) (mkSys cs w)
(** whatever else happens in the program *)
| step_other cs w w' :
    view (counter b) w' = view (counter b) w -> bounded b most w' ->
    step (mkSys cs w) (mkSys cs w').

(** Fewer than 2^63 calls at any time. *)
Definition few (s : sys) : Prop := zlen (calls s) <= max_int64.

Definition few_step (s s' : sys) : Prop := step s s' /\ few s'.
End Step.

(** * The invariant *)

Definition inside (c : call_at) : bool :=
  match c with Outside | Deciding _ => false | _ => true end.

Definition running (c : call_at) : bool :=
  match c with Running => true | _ => false end.

(** Running, or about to: the increment left the counter within the limit. *)
Definition taking (most : Z) (c : call_at) : bool :=
  match c with Running => true | Counted _ n => n <=? most | _ => false end.

Definition read_ok (most : Z) (c : call_at) : Prop :=
  match c with Deciding m | Counted (Some m) _ => 0 <= m <= most | _ => True end.

Record bulkhead_inv (b : bulkhead) (most : Z) (s : sys) : Prop := {
  inv_few : few s;
  inv_bounded : bounded b most (world s);
  inv_counter : view (counter b) (world s) = count_if inside (calls s);
  inv_taking : count_if (taking most) (calls s) <= most;
  inv_read : Forall (read_ok most) (calls s)
}.
End System.

Arguments bulkhead OS CS U : clear implicits.
Arguments sys OS CS U : clear implicits.

(** The two bulkheads of a circuit. *)
Class IsBulkhead {OS CS U} (b : bulkhead OS CS U) : Prop := {
  counter_view : forall n w, view (counter b) (upd (counter b) n w) = n;
  counter_config : forall n w,
    threadSafeConfig (circ (upd (counter b) n w)) = threadSafeConfig (circ w)
}.

#[export] Instance commands_bulkhead {OS CS U} : IsBulkhead (@commands OS CS U).
Proof. by split. Qed.

#[export] Instance fallbacks_bulkhead {OS CS U} : IsBulkhead (@fallbacks OS CS U).
Proof. by split. Qed.

Section Invariant.
Context {OS CS U : Type} `{!ClosedToOpen OS} `{!OpenToClosed CS} `{!UserCode OS CS U}.
Context (b : bulkhead OS CS U) `{!IsBulkhead b} (most : Z).
Implicit Types s : sys OS CS U.

Lemma add_run d w n w' :
  atomic_Add (counter b) d w = (Ret n, w') ->
  n = wrap64 (view (counter b) w + d) /\ view (counter b) w' = n /\ limit_now b w' = limit_now b w.
Proof.
  unfold atomic_Add, bind, get, gets, set, modify, ret. intros [= <- <-]. unfold limit_now.
  by rewrite counter_view, counter_config.
Qed.

Lemma taking_inside c : taking most c = true -> inside c = true.
Proof. by destruct c. Qed.

(** A call that is not inside leaves room for one more. *)
Lemma room cs i c :
  zlen cs <= max_int64 -> cs !! i = Some c -> inside c = false -> 0 <= count_if inside cs < max_int64.
Proof.
  intros Hf Hi Hc. pose proof (count_if_nonneg inside cs).
  pose proof (count_if_insert inside cs i c Running Hi) as E. rewrite Hc in E. cbn [inside] in E.
  pose proof (count_if_le_length inside (<[i := Running]> cs)) as L. rewrite zlen_insert in L. lia.
Qed.

(** A move of call [i] that neither counts it nor lets it run beyond the limit. *)
Lemma inv_move cs i c c' w w' :
  bulkhead_inv b most (mkSys cs w) -> cs !! i = Some c -> bounded b most w' -> read_ok most c' ->
  view (counter b) w'
    = view (counter b) w - (if inside c then 1 else 0) + (if inside c' then 1 else 0) ->
  (taking most c' = true -> taking most c = true \/
    count_if (taking most) cs - (if taking most c then 1 else 0) < most) ->
  bulkhead_inv b most (mkSys (<[i := c']> cs) w').
Proof.
  intros [Hf Hb Hc Ht Hr] Hi Hb' Hr' Hc' Ht'. unfold few in *. cbn [calls world] in *.
  split; unfold few; cbn [calls world]; [by rewrite zlen_insert | done | | |].
  - rewrite (count_if_insert _ _ _ _ _ Hi). lia.
  - rewrite (count_if_insert _ _ _ _ _ Hi).
    destruct (taking most c'); [destruct Ht' as [->|Ht']; [done | |] | destruct (taking most c)]; lia.
  - by apply Forall_insert.
Qed.

(** Being counted: the increment is exact, and the call may run only if there was room. *)
Lemma inv_enter cs i c m n w w' :
  bulkhead_inv b most (mkSys cs w) -> cs !! i = Some c -> inside c = false ->
  read_ok most (Counted m n) -> atomic_Add (counter b) 1 w = (Ret n, w') ->
  bulkhead_inv b most (mkSys (<[i := Counted m n]> cs) w').
Proof.
  intros HI Hi Hc Hr Hadd. pose proof HI as [Hf Hb Hcnt Ht _]. unfold few in Hf. cbn [calls world] in *.
  destruct (add_run _ _ _ _ Hadd) as (-> & Hv & Hl).
  pose proof (room cs i c Hf Hi Hc). rewrite Hcnt in *.
  rewrite wrap64_id in * by (unfold min_int64; lia).
  apply (inv_move cs i c _ w w'); try done.
  - unfold bounded in *. by rewrite Hl.
  - rewrite Hv, Hcnt, Hc. cbn [inside]. lia.
  - intros Htk. right. cbn [taking] in Htk. apply Z.leb_le in Htk.
    pose proof (count_if_mono (taking most) inside cs taking_inside).
    destruct (taking most c) eqn:E; [by rewrite (taking_inside _ E) in Hc | lia].
Qed.

Lemma inv_lookup s i c : bulkhead_inv b most s -> calls s !! i = Some c -> read_ok most c.
Proof. intros HI Hi. by apply (Forall_lookup_1 _ _ _ _ (inv_read _ _ _ HI) Hi). Qed.

Lemma inv_step s s' : bulkhead_inv b most s -> few_step b most s s' -> bulkhead_inv b most s'.
Proof.
  intros HI [Hs Hfew]. pose proof HI as [Hf Hb Hc Ht Hr]. destruct Hs; cbn [calls world] in *.
  - by apply (inv_move _ _ _ _ _ _ HI H0); cbn [inside]; try done; lia.
  - by apply (inv_move _ _ _ _ _ _ HI H); cbn [inside]; try done; lia.
  - by eapply (inv_enter _ _ _ _ _ _ _ HI H); [| apply (inv_lookup _ _ _ HI H) |].
  - by eapply (inv_enter _ _ _ _ _ _ _ HI H0).
  - apply (inv_move _ _ _ _ _ _ HI H); cbn [inside taking]; try done; [lia | by left].
  - pose proof (inv_lookup _ _ _ HI H) as Hm. cbn [read_ok] in Hm.
    apply (inv_move _ _ _ _ _ _ HI H); try (by destruct (over m n)).
    + destruct (over m n); cbn [inside]; lia.
    + unfold over. intros Htk. left. cbn [taking]. apply Z.leb_le.
      destruct (Z.leb_spec 0 m), (Z.ltb_spec m n); simpl in Htk; try done; lia.
  - apply (inv_move _ _ _ _ _ _ HI H); try done. destruct c; try done; cbn [inside]; try lia. by destruct (H1 max).
  - destruct (add_run _ _ _ _ H0) as (-> & Hv & Hl).
    apply (inv_move _ _ _ _ _ _ HI H); try done.
    + unfold bounded in *. by rewrite Hl.
    + rewrite Hv, Hc. cbn [inside].
      pose proof (count_if_insert inside cs i _ Outside H) as E. cbn [inside] in E.
      pose proof (count_if_nonneg inside (<[i := Outside]> cs)).
      pose proof (count_if_le_length inside cs). unfold few in Hf. cbn [calls] in Hf.
      rewrite wrap64_id by (unfold min_int64, max_int64 in *; lia). lia.
  - split; cbn [calls world]; rewrite ?count_if_app; cbn [count_if inside taking]; try done; try lia.
    by apply Forall_app_2; [| by constructor].
  - rewrite count_if_app in Hc, Ht. apply Forall_app in Hr as [Hr _].
    cbn [count_if inside taking] in Hc, Ht.
    split; cbn [calls world]; try done; lia.
  - split; cbn [calls world]; try done. by rewrite H.
Qed.

Lemma inv_reachable s s' :
  bulkhead_inv b most s -> rtc (few_step b most) s s' -> bulkhead_inv b most s'.
Proof. intros HI. induction 1; eauto using inv_step. Qed.

Lemma running_taking c : running c = true -> taking most c = true.
Proof. by destruct c. Qed.
End Invariant.

(** * Calls as runs of the relation *)

(** The counter is [k] and the limit is in range: what everything but the counting keeps. *)
Definition kept {OS CS U} (b : bulkhead OS CS U) (most k : Z) (w : World OS CS U) : Prop :=
  view (counter b) w = k /\ bounded b most w.

#[export] Instance commands_framed {OS CS U} `{!UserCode OS CS U} most k : Framed (kept (@commands OS CS U) most k).
Proof. split; [by apply env_now | done ..]. Qed.

#[export] Instance commands_calls {OS CS U} `{!UserCode OS CS U} most k : FramedCalls (kept (@commands OS CS U) most k).
Proof. by split. Qed.

#[export] Instance commands_transitions {OS CS U} most k :
  FramedTransitions (kept (@commands OS CS U) most k).
Proof. split; intros; done. Qed.

#[export] Instance fallbacks_framed {OS CS U} `{!UserCode OS CS U} most k : Framed (kept (@fallbacks OS CS U) most k).
Proof. split; [by apply env_now | done ..]. Qed.

#[export] Instance fallbacks_calls {OS CS U} `{!UserCode OS CS U} most k : FramedCalls (kept (@fallbacks OS CS U) most k).
Proof. by split. Qed.

#[export] Instance fallbacks_transitions {OS CS U} most k :
  FramedTransitions (kept (@fallbacks OS CS U) most k).
Proof. split; intros; done. Qed.

Section Leads.
Context {OS CS U : Type} `{!ClosedToOpen OS} `{!OpenToClosed CS} `{!UserCode OS CS U}.
Context (b : bulkhead OS CS U) `{!IsBulkhead b} (most : Z).
Abbreviation W := (World OS CS U).

(** [m], run by a call at [p], is a run of the relation that leads the call to [Q a] when it
    returns [a], and to [E] when it panics. *)
Definition leads {A} (p : call_at) (m : M W A) (Q : A -> call_at) (E : call_at) : Prop :=
  forall cs i w, cs !! i = Some p -> bounded b most w ->
  match m w with
  | (Ret a, w') => rtc (step b most) (mkSys cs w) (mkSys (<[i := Q a]> cs) w') /\ bounded b most w'
  | (Panic _, w') => rtc (step b most) (mkSys cs w) (mkSys (<[i := E]> cs) w') /\ bounded b most w'
  | _ => True
  end.

(** A step of the call that leaves the world alone. *)
Definition silent (p q : call_at) : Prop :=
  forall cs i w, cs !! i = Some p -> step b most (mkSys cs w) (mkSys (<[i := q]> cs) w).

Lemma leads_bind {A B} p (m : M W A) (f : A -> M W B) Q R E :
  leads p m Q E -> (forall a, leads (Q a) (f a) R E) -> leads p (bind m f) R E.
Proof.
  intros Hm Hf cs i w Hi Hw. specialize (Hm cs i w Hi Hw). unfold bind.
  destruct (m w) as [[a|e| |] w1]; try done. destruct Hm as [H1 Hw1].
  specialize (Hf a (<[i := Q a]> cs) i w1). rewrite list_lookup_insert_eq in Hf
    by (by apply lookup_lt_Some in Hi).
  specialize (Hf eq_refl Hw1).
  destruct (f a w1) as [[c|e| |] w2]; try done; destruct Hf as [H2 Hw2]; rewrite list_insert_insert_eq in H2;
    split; try done; by etransitivity.
Qed.

Lemma leads_ret {A} p (a : A) E : leads p (ret a) (fun _ => p) E.
Proof. intros cs i w Hi Hw. simpl. rewrite list_insert_id by done. by split. Qed.

Lemma leads_kept {A} p (m : M W A) : (forall k, stable (kept b most k) m) -> leads p m (fun _ => p) p.
Proof.
  intros Hm cs i w Hi Hw. destruct (Hm _ w (conj eq_refl Hw)) as [Hk Hw'].
  destruct (m w) as [[a|e| |] w']; try done; rewrite list_insert_id by done;
    (split; [by apply rtc_once, step_other | done]).
Qed.

Lemma leads_pre {A} p q (m : M W A) Q E : silent p q -> leads q m Q E -> leads p m Q E.
Proof.
  intros Hs Hm cs i w Hi Hw. specialize (Hm (<[i := q]> cs) i w). rewrite list_lookup_insert_eq in Hm
    by (by apply lookup_lt_Some in Hi).
  specialize (Hm eq_refl Hw).
  destruct (m w) as [[a|e| |] w']; try done; rewrite list_insert_insert_eq in Hm; destruct Hm;
    (split; [eapply rtc_l; [by apply Hs | done] | done]).
Qed.

(** A silent step at the end, on either exit. *)
Lemma leads_post {A} p (m : M W A) Q E Q' E' :
  leads p m Q E -> (forall a, Q a = Q' a \/ silent (Q a) (Q' a)) -> (E = E' \/ silent E E') ->
  leads p m Q' E'.
Proof.
  intros Hm HQ HE cs i w Hi Hw. specialize (Hm cs i w Hi Hw).
  assert (Hpost : forall q q' w', q = q' \/ silent q q' ->
    rtc (step b most) (mkSys cs w) (mkSys (<[i := q]> cs) w') ->
    rtc (step b most) (mkSys cs w) (mkSys (<[i := q']> cs) w')).
  { intros q q' w' [<-|Hs] Hrun; [done |]. eapply rtc_r; [done |].
    specialize (Hs (<[i := q]> cs) i w'). rewrite list_insert_insert_eq in Hs. apply Hs.
    apply list_lookup_insert_eq. by apply lookup_lt_Some in Hi. }
  destruct (m w) as [[a|e| |] w']; try done; destruct Hm; split; eauto.
Qed.

(** The deferred call runs on both exits. *)
Lemma leads_defer {A} p (c : M W unit) (m : M W A) Q E R F :
  leads p m Q E -> (forall a, leads (Q a) c (fun _ => R a) F) -> leads E c (fun _ => F) F ->
  leads p (defer c m) R F.
Proof.
  intros Hm Hc HcE cs i w Hi Hw. specialize (Hm cs i w Hi Hw). unfold defer, bind, ret, throw.
  assert (Hlen : (i < length cs)%nat) by (by apply lookup_lt_Some in Hi).
  destruct (m w) as [[a|e| |] w1]; try done; destruct Hm as [H1 Hw1].
  - specialize (Hc a (<[i := Q a]> cs) i w1 (list_lookup_insert_eq _ _ _ Hlen) Hw1).
    destruct (c w1) as [[[]|e| |] w2]; try done; rewrite list_insert_insert_eq in Hc; destruct Hc;
      (split; [by etransitivity | done]).
  - specialize (HcE (<[i := E]> cs) i w1 (list_lookup_insert_eq _ _ _ Hlen) Hw1).
    destruct (c w1) as [[[]|e'| |] w2]; try done; rewrite list_insert_insert_eq in HcE; destruct HcE;
      (split; [by etransitivity | done]).
Qed.

(** Code that calls the circuit again, as a call of its own. *)
Lemma leads_nested {A} p (m : M W A) :
  leads Outside m (fun _ => Outside) Outside -> leads p m (fun _ => p) p.
Proof.
  intros Hm cs i w Hi Hw.
  assert (Hj : (cs ++ [Outside]) !! length cs = Some Outside) by (by apply list_lookup_middle).
  specialize (Hm (cs ++ [Outside]) (length cs) w Hj Hw).
  destruct (m w) as [[a|e| |] w']; try done; destruct Hm as [Hm Hw'];
    rewrite (list_insert_id _ _ _ Hj) in Hm; rewrite list_insert_id by done;
    (split; [| done]; eapply rtc_l; [apply step_begin |]; eapply rtc_r; [done | apply step_forget]).
Qed.

(** The operations on the counter. *)
Lemma leads_leave F :
  leads Leaving (let! _ := atomic_Add (counter b) (-1) in ret tt) (fun _ => Outside) F.
Proof.
  intros cs i w Hi Hw.
  destruct (atomic_Add (counter b) (-1) w) as [o w'] eqn:E. pose proof E as E'.
  unfold atomic_Add, bind, get, gets, set, modify, ret in E'. injection E' as <- _.
  unfold bind. rewrite E. split; [by eapply rtc_once, step_leave |].
  destruct (add_run b _ _ _ _ E) as (_ & _ & Hl). unfold bounded in *. by rewrite Hl.
Qed.

Lemma leads_enter m E :
  leads (Deciding m) (atomic_Add (counter b) 1) (Counted (Some m)) E.
Proof.
  intros cs i w Hi Hw. destruct (atomic_Add (counter b) 1 w) as [o w'] eqn:Eq. pose proof Eq as E'.
  unfold atomic_Add, bind, get, gets, set, modify, ret in E'. injection E' as <- _.
  split; [by eapply rtc_once, step_enter |].
  destruct (add_run b _ _ _ _ Eq) as (_ & _ & Hl). unfold bounded in *. by rewrite Hl.
Qed.

Lemma leads_enter_late E :
  early b = false -> leads Outside (atomic_Add (counter b) 1) (Counted None) E.
Proof.
  intros Hb cs i w Hi Hw. destruct (atomic_Add (counter b) 1 w) as [o w'] eqn:Eq. pose proof Eq as E'.
  unfold atomic_Add, bind, get, gets, set, modify, ret in E'. injection E' as <- _.
  split; [by eapply rtc_once, step_enter_late |].
  destruct (add_run b _ _ _ _ Eq) as (_ & _ & Hl). unfold bounded in *. by rewrite Hl.
Qed.

Lemma leads_limit E :
  early b = true -> leads Outside (get threadSafeConfigL) (fun cfg => Deciding (limit b cfg)) E.
Proof. intros Hb cs i w Hi Hw. split; [by apply rtc_once, step_limit | done]. Qed.

Lemma leads_limit_late n E :
  leads (Counted None n) (get threadSafeConfigL) (fun cfg => Counted (Some (limit b cfg)) n) E.
Proof. intros cs i w Hi Hw. split; [by apply rtc_once, step_limit_late | done]. Qed.

Lemma silent_end c : c <> Outside -> (forall m, c <> Deciding m) -> silent c Leaving.
Proof. intros Hc Hd cs i w Hi. by eapply step_end. Qed.

Lemma leads_end {A} c (m : M W A) :
  c = Rejecting \/ c = Running -> leads c m (fun _ => c) c -> leads c m (fun _ => Leaving) Leaving.
Proof.
  intros Hc Hm. assert (silent c Leaving) by (apply silent_end; by destruct Hc as [->| ->]).
  eapply leads_post; [done | by right | by right].
Qed.

(** A panic of code that leaves the counter alone. *)
Lemma leads_kept_or {A} p E (m : M W A) :
  p = E \/ silent p E -> (forall k, stable (kept b most k) m) -> leads p m (fun _ => p) E.
Proof. intros HE Hm. eapply leads_post; [by apply leads_kept | by left | done]. Qed.

Lemma silent_decide m n : silent (Counted (Some m) n) (if over m n then Rejecting else Running).
Proof. intros cs i w Hi. by apply step_decide. Qed.

Lemma silent_turned_away m : silent (Deciding m) Outside.
Proof. intros cs i w Hi. by eapply step_turned_away. Qed.
End Leads.

(** ** [run] and [fallback] *)

Section Calls.
Context {OS CS U : Type} `{!ClosedToOpen OS} `{!OpenToClosed CS} `{!UserCode OS CS U}.
Context (most : Z) (fuel : nat).
Abbreviation W := (World OS CS U).

Section Commands.
Context `{!forall k, UserKeeps (kept (@commands OS CS U) most k)}
        `{!forall k, ListenersKeep (kept (@commands OS CS U) most k)}.
Abbreviation leads := (leads (@commands OS CS U) most).

(** What [run] does besides counting keeps the counter. *)
Ltac commands_leaf :=
  first [apply stable_gets | apply framed_now | apply with_opener_framed; apply _
    | apply with_closer_framed; apply _ | apply cmd_metrics_framed; apply _
    | apply classify_framed; first [apply _ | intros; apply attempt_if_closed_framed; apply _
                                    | intros; apply checkSuccess_framed; apply _]
    | apply stable_modify; intros ? ?; by apply framed_cancel].

Lemma run_and_classify_leads ctx orig t0 exp f :
  (forall ctx, leads Running (f ctx) (fun _ => Running) Running) ->
  leads Running (run_and_classify fuel ctx orig t0 exp f) (fun _ => Running) Running.
Proof.
  intros Hf. unfold run_and_classify. eapply leads_bind; [apply Hf | intros r]. cbn beta.
  apply leads_kept. intros k. apply stable_bind; [commands_leaf | intros t]. commands_leaf.
Qed.

Lemma run_counted_leads ctx t m n f :
  (forall ctx, leads Running (f ctx) (fun _ => Running) Running) ->
  leads (Counted (Some m) n) (run_counted fuel ctx t m n f) (fun _ => Leaving) Leaving.
Proof.
  intros Hf. unfold run_counted. eapply leads_pre; [apply silent_decide |]. fold (over m n).
  destruct (over m n).
  - apply leads_end; [by left |]. apply leads_kept. intros k. stable_go commands_leaf.
  - apply leads_end; [by right |].
    eapply leads_bind; [apply leads_kept; intros k; commands_leaf | intros cfg]. cbv zeta.
    destruct (0 <? _); [| by apply run_and_classify_leads].
    eapply leads_defer; [by apply run_and_classify_leads | intros a | ];
      apply leads_kept; intros k; commands_leaf.
Qed.

Lemma run_leads ctx f :
  (forall ctx, leads Running (f ctx) (fun _ => Running) Running) ->
  leads Outside (run fuel ctx f) (fun _ => Outside) Outside.
Proof.
  intros Hf. unfold run.
  eapply leads_bind; [apply leads_kept; intros k; commands_leaf | intros t].
  eapply leads_bind; [by apply leads_limit | intros cfg]. cbv zeta.
  set (m := a_MaxConcurrentRequests cfg). change (limit commands cfg) with m.
  eapply leads_bind.
  { apply leads_kept_or; [right; apply silent_turned_away |]. intros k. unfold allowNewRun. stable_go commands_leaf. }
  intros allowed. cbn beta. destruct (negb allowed).
  { eapply leads_pre; [apply silent_turned_away |]. apply leads_kept. intros k. stable_go commands_leaf. }
  eapply leads_bind.
  { apply leads_kept_or; [right; apply silent_turned_away |]. intros k. commands_leaf. }
  intros prevented. cbn beta. destruct prevented.
  { eapply leads_pre; [apply silent_turned_away | apply leads_ret]. }
  eapply leads_bind; [by apply (leads_enter commands) | intros n]. cbn beta.
  eapply leads_defer; [by apply run_counted_leads | intros a |]; apply (leads_leave commands).
Qed.

(** A command may run commands of the same circuit. *)
Lemma run_in_a_run ctx f :
  (forall ctx, leads Running (f ctx) (fun _ => Running) Running) ->
  leads Running (run fuel ctx f) (fun _ => Running) Running.
Proof. intros Hf. by apply leads_nested, run_leads. Qed.
End Commands.

Section Fallbacks.
Context `{!forall k, UserKeeps (kept (@fallbacks OS CS U) most k)}.
Abbreviation leads := (leads (@fallbacks OS CS U) most).

Lemma leads_fallback_metrics {A} p (k : FallbackMetrics W -> M W A) :
  (forall ids k0, stable (kept fallbacks most k0) (k (FallbackMetricsCollection (map user_fallback ids)))) ->
  leads p (let! fm := fallback_metrics in k fm) (fun _ => p) p.
Proof. intros Hk. apply leads_kept. intros k0. apply fallback_metrics_framed. intros ids. apply Hk. Qed.

Lemma range_fallback_kept k0 (g : FallbackMetrics W -> M W unit) ids :
  (forall id, stable (kept fallbacks most k0) (g (user_fallback id))) ->
  stable (kept fallbacks most k0) (range_do g (map user_fallback ids)).
Proof.
  intros Hg. apply stable_range_do. intros R HR. by apply list_elem_of_fmap in HR as (id & -> & _).
Qed.

Lemma fallback_counted_leads ctx e n f :
  (forall ctx e, leads Running (f ctx e) (fun _ => Running) Running) ->
  leads (Counted None n) (fallback_counted ctx e n f) (fun _ => Leaving) Leaving.
Proof.
  intros Hf. unfold fallback_counted. eapply leads_bind; [apply leads_limit_late | intros cfg]. cbv zeta.
  set (m := a_Fallback_MaxConcurrentRequests cfg). change (limit fallbacks cfg) with m.
  eapply leads_bind.
  { apply leads_kept_or; [right; by apply silent_end |]. intros k. apply framed_now. }
  intros t. cbn beta. eapply leads_pre; [apply silent_decide |]. change (over (limit fallbacks cfg) n) with (over m n). fold (over m n).
  destruct (over m n); (apply leads_end; [first [by left | by right] |]).
  - apply (leads_fallback_metrics Rejecting). intros ids k0.
    apply stable_bind; [| intros []; apply stable_ret]. apply range_fallback_kept.
    intros id. apply user_FallbackReject_keeps.
  - eapply leads_bind; [apply Hf | intros r]. cbn beta.
    eapply leads_bind; [apply leads_kept; intros k; apply framed_now | intros t']. cbv zeta beta.
    apply (leads_fallback_metrics Running). intros ids k0.
    destruct r; (apply stable_bind; [apply range_fallback_kept; intros id | intros []; apply stable_ret]).
    + apply user_FallbackErrFailure_keeps.
    + apply user_FallbackSuccess_keeps.
Qed.

Lemma fallback_leads ctx e f :
  (forall g ctx e, f = Some g -> leads Running (g ctx e) (fun _ => Running) Running) ->
  leads Outside (fallback ctx e f) (fun _ => Outside) Outside.
Proof.
  intros Hf. unfold fallback.
  eapply leads_bind; [apply leads_kept; intros k; apply stable_gets | intros cfg]. cbn beta.
  destruct f as [g|]; [| apply leads_ret]. destruct (a_Fallback_Disabled cfg); [apply leads_ret |].
  eapply leads_bind; [by apply (leads_enter_late fallbacks) | intros n]. cbn beta.
  eapply leads_defer; [apply fallback_counted_leads; eauto | intros a |]; apply (leads_leave fallbacks).
Qed.
End Fallbacks.
End Calls.

(** * Theorems *)

(** C9: the bulkheads hold under concurrency.  While the configured limit stays between 0 and
    [most], in every interleaving of calls - commands or fallbacks, on any goroutines, nested
    ones included - at most [most] of the users' functions run at a time; the counter is the
    number of calls between increment and decrement, zero when there is none; and an increment
    returns that number plus one, so a call is rejected only if as many others as its limit
    were being counted. *)
Theorem bulkhead_holds {OS CS U} (b : bulkhead OS CS U) most cs w s :
  (b = commands \/ b = fallbacks) ->
  Forall (eq Outside) cs -> zlen cs <= max_int64 -> view (counter b) w = 0 -> bounded b most w ->
  rtc (few_step b most) (mkSys cs w) s ->
  count_if running (calls s) <= most /\
  view (counter b) (world s) = count_if inside (calls s) /\
  (forall i n w', calls s !! i = Some Outside \/ (exists m, calls s !! i = Some (Deciding m)) ->
    atomic_Add (counter b) 1 (world s) = (Ret n, w') -> n = count_if inside (calls s) + 1).
Proof.
  intros Hb Hcs Hlen Hv Hbd Hrun.
  assert (IsBulkhead b) by (destruct Hb as [-> | ->]; apply _).
  assert (Hz : forall p, p Outside = false -> count_if p cs = 0).
  { intros p Hp. clear - Hcs Hp. induction Hcs as [|c cs <- _ IH]; [done |]. cbn [count_if]. rewrite Hp. lia. }
  assert (HI : bulkhead_inv b most (mkSys cs w)).
  { split; cbn [calls world]; try done; rewrite ?Hz by done; [done | unfold bounded in Hbd; lia |].
    eapply Forall_impl; [done |]. by intros c <-. }
  pose proof (inv_reachable b most _ _ HI Hrun) as [Hf _ Hc Ht _]. split; [| split; [done |]].
  - etransitivity; [apply count_if_mono, (running_taking most) | done].
  - intros i n w' Hi Hadd. apply add_run in Hadd as (-> & _ & _); [| done]. rewrite Hc.
    assert (Hroom : exists c, calls s !! i = Some c /\ inside c = false)
      by (destruct Hi as [Hi|[m Hi]]; eauto).
    destruct Hroom as (c & Hi' & Hins). pose proof (room _ _ _ Hf Hi' Hins).
    rewrite wrap64_id; [done | unfold min_int64; lia].
Qed.

(** C10: the calls of the code are those of the relation.  When the user's metrics objects and
    listeners leave the counter alone and the user's function is itself such a run (it may call
    the circuit, see [run_in_a_run]), every call of [run] and of [fallback] that returns or
    panics is a run of one more call, which is outside again at its end, with the rest of the
    program in any state. *)
Theorem calls_are_bulkhead_runs {OS CS U} `{!ClosedToOpen OS} `{!OpenToClosed CS} `{!UserCode OS CS U}
    most fuel ctx e (f : Context -> M (World OS CS U) (option error)) g :
  (forall k, UserKeeps (kept (@commands OS CS U) most k)) ->
  (forall k, ListenersKeep (kept (@commands OS CS U) most k)) ->
  (forall k, UserKeeps (kept (@fallbacks OS CS U) most k)) ->
  (forall ctx, leads commands most Running (f ctx) (fun _ => Running) Running) ->
  (forall ctx e, leads fallbacks most Running (g ctx e) (fun _ => Running) Running) ->
  leads commands most Outside (run fuel ctx f) (fun _ => Outside) Outside /\
  leads fallbacks most Outside (fallback ctx e (Some g)) (fun _ => Outside) Outside.
Proof.
  intros H1 H2 H3 Hf Hg. split; [by apply run_leads |].
  apply fallback_leads; [done |]. intros g' ctx' e' [= <-]. apply Hg.
Qed.

(** * The theorems at concrete inputs *)

Module BulkheadSample.
(** A circuit that lets one command run at a time, and three calls. *)
Definition w0 : Sample.W := Sample.world false false false 0 1.
Definition w2 : Sample.W := upd concurrentCommandsL 2 (upd concurrentCommandsL 1 w0).

Ltac go tac := eapply rtc_l; [split; [tac | by vm_compute] |].

Lemma race_run :
  rtc (few_step commands 1) (mkSys [Outside; Outside; Outside] w0)
    (mkSys [Running; Rejecting; Deciding 1] w2).
Proof.
  go ltac:(by apply step_limit with (i := 0%nat)).
  go ltac:(by apply step_limit with (i := 1%nat)).
  go ltac:(by apply step_limit with (i := 2%nat)).
  go ltac:(by eapply step_enter with (i := 0%nat) (m := 1)).
  go ltac:(by eapply step_enter with (i := 1%nat) (m := 1)).
  go ltac:(by apply step_decide with (i := 0%nat) (m := 1) (n := 1)).
  go ltac:(by apply step_decide with (i := 1%nat) (m := 1) (n := 2)).
  apply rtc_refl.
Qed.

Lemma bulkhead_holds_witness :
  count_if running [Running; Rejecting; Deciding 1] <= 1 /\ view concurrentCommandsL w2 = 2.
Proof.
  destruct (bulkhead_holds commands 1 [Outside; Outside; Outside] w0
    (mkSys [Running; Rejecting; Deciding 1] w2)) as (H & Hc & _).
  - by left.
  - by repeat constructor.
  - by vm_compute.
  - done.
  - by vm_compute.
  - exact race_run.
  - split; [exact H | exact Hc].
Defined.

#[local] Existing Instance Sample.code.

(** The metrics objects of the sample only touch its environment. *)
#[export] Instance commands_kept k : UserKeeps (kept (@commands neverOpens neverCloses Sample.Env) 1 k).
Proof. split; [intros id k0 ctx t d w Hw; by destruct k0 | intros; by intros w Hw ..]. Qed.

#[export] Instance commands_listeners k :
  ListenersKeep (kept (@commands neverOpens neverCloses Sample.Env) 1 k).
Proof. split; intros; by intros w Hw. Qed.

#[export] Instance fallbacks_kept k : UserKeeps (kept (@fallbacks neverOpens neverCloses Sample.Env) 1 k).
Proof. split; [intros id k0 ctx t d w Hw; by destruct k0 | intros; by intros w Hw ..]. Qed.

(** A command that runs another command of the circuit. *)
Definition inner : Context -> M Sample.W (option error) := fun _ => ret (Some (SimpleBadRequest None)).
Definition outer : Context -> M Sample.W (option error) := fun ctx => run 2 ctx inner.

Lemma calls_are_bulkhead_runs_witness :
  exists w', run 2 Background outer w0 = (Ret (Some errThrottledConcurrentCommands), w') /\
    rtc (step commands 1) (mkSys [Outside] w0) (mkSys [Outside] w').
Proof.
  assert (Hin : forall ctx, leads commands 1 Running (inner ctx) (fun _ => Running) Running)
    by (intros ctx; apply leads_ret).
  destruct (calls_are_bulkhead_runs 1 2 Background errCircuitOpen outer (fun _ _ => ret None)) as [Hrun _].
  - apply _.
  - apply _.
  - apply _.
  - intros ctx. exact (run_in_a_run (H := commands_kept) (H0 := commands_listeners) 1 2 ctx inner Hin).
  - intros ctx e. apply leads_ret.
  - specialize (Hrun [Outside] 0%nat w0 eq_refl). destruct (run 2 Background outer w0) as [o w'] eqn:E.
    assert (Ho : o = Ret (Some errThrottledConcurrentCommands))
      by (apply (f_equal fst) in E; by vm_compute in E).
    subst o. exists w'. split; [done |]. apply Hrun. by vm_compute.
Defined.
End BulkheadSample.
End Bulkhead.
