(* ===== verification/Transitions.v ===== *)
(** The concurrent life of a circuit's transitions: circuit.go's [transitionTo],
    [commitTransition] and [deliverPendingTransitions] run by any number of goroutines.

    [transitionMu] makes the critical sections of these methods atomic, so a run is an
    interleaving of them.  A goroutine is its stack of calls ([frame]); a step runs one critical
    section, as it is defined in Circuit.v, of one goroutine, or user code: a goroutine outside
    the circuit or in a listener may change anything but the four fields the mutex guards, may
    ask for a transition (also from inside a listener), and a listener may return or panic.
    A panic unwinds through the deferred function of [deliverPendingTransitions] and may be
    recovered by any user code above.

    Not in the relation: open/close logic that panics while it is told of a transition (the
    implementations do not, by their laws; it would lose that one notification). *)

From S2P Require Import Prelude GoMonad Errors Metrics Closers Config Circuit CircuitFacts CircuitTheorems.

Section Transitions.
Context {OS CS U : Type} `{!ClosedToOpen OS} `{!OpenToClosed CS} `{!UserCode OS CS U}.
Abbreviation W := (World OS CS U).
Implicit Types w : W.

(** * Goroutines *)

Inductive frame :=
| FCommit (ctx : Context) (t : Time) (open : bool) (recheck : option (Context -> Time -> M W bool))
    (* transitionTo, about to call commitTransition *)
| FDeliver              (* about to enter deliverPendingTransitions *)
| FListener (tr : transition)   (* user listeners running for [tr], called by the deliverer *)
| FPop                  (* the deliverer, about to lock and look at the queue again *)
| FAbort                (* the deferred function after a panic, about to release the role *)
| FUnwind.              (* a panic unwinding towards the frame below *)

Record sys := mkSys {
  world : W;
  stacks : list (list frame);
  committed : list transition;   (* every transition, in the order of their commits *)
  delivered : list transition    (* every notification, in the order listeners were called *)
}.

(** User code has control: a goroutine outside the circuit, or in a listener. *)
Definition in_user_code (st : list frame) : Prop :=
  match st with [] | FListener _ :: _ => True | _ => False end.

(** The first critical section of [deliverPendingTransitions]: [None] when somebody else
    delivers, otherwise what the head of the loop found. *)
Definition enter_section : M W (option (option transition)) :=
  let! role := deliver_enter in
  if negb role then ret None else let! next := deliver_pop in ret (Some next).

(** The critical section after the listeners returned. *)
Definition pop_section : M W (option transition) := do! lock transitionMuL; deliver_pop.

Definition after_pop (next : option transition) (st : list frame) : list frame :=
  match next with Some tr => FListener tr :: st | None => st end.

Definition popped (next : option transition) : list transition :=
  match next with Some tr => [tr] | None => [] end.

Inductive step : sys -> sys -> Prop :=
| StepSpawn w ss c d :
    step (mkSys w ss c d) (mkSys w (ss ++ [[]]) c d)
| StepUser w w' ss c d i st :
    ss !! i = Some st -> in_user_code st -> commit_view (circ w') = commit_view (circ w) ->
    step (mkSys w ss c d) (mkSys w' ss c d)
| StepCall w ss c d i st ctx t o recheck :
    ss !! i = Some st -> in_user_code st -> own_recheck recheck -> isOpen (circ w) = negb o ->
    step (mkSys w ss c d) (mkSys w (<[i := FCommit ctx t o recheck :: st]> ss) c d)
| StepCommit w w' ss c d i st ctx t o recheck (b : bool) :
    ss !! i = Some (FCommit ctx t o recheck :: st) -> own_recheck recheck ->
    commitTransition ctx t o recheck w = (Ret b, w') ->
    step (mkSys w ss c d)
      (mkSys w' (<[i := if b then FDeliver :: st else st]> ss)
         (c ++ drop (length (pendingTransitions (circ w))) (pendingTransitions (circ w'))) d)
| StepEnter w w' ss c d i st r :
    ss !! i = Some (FDeliver :: st) -> enter_section w = (Ret r, w') ->
    step (mkSys w ss c d)
      (mkSys w' (<[i := match r with Some next => after_pop next st | None => st end]> ss) c
         (d ++ match r with Some next => popped next | None => [] end))
| StepReturn w ss c d i st tr :
    ss !! i = Some (FListener tr :: st) ->
    step (mkSys w ss c d) (mkSys w (<[i := FPop :: st]> ss) c d)
| StepPanic w ss c d i st tr :
    ss !! i = Some (FListener tr :: st) ->
    step (mkSys w ss c d) (mkSys w (<[i := FAbort :: FUnwind :: st]> ss) c d)
| StepPop w w' ss c d i st next :
    ss !! i = Some (FPop :: st) -> pop_section w = (Ret next, w') ->
    step (mkSys w ss c d) (mkSys w' (<[i := after_pop next st]> ss) c (d ++ popped next))
| StepAbort w w' ss c d i st :
    ss !! i = Some (FAbort :: st) -> deliver_abort w = (Ret tt, w') ->
    step (mkSys w ss c d) (mkSys w' (<[i := FDeliver :: st]> ss) c d)
| StepRecover w ss c d i st :
    ss !! i = Some (FUnwind :: st) -> in_user_code st ->
    step (mkSys w ss c d) (mkSys w (<[i := st]> ss) c d)
| StepUnwindListener w ss c d i st tr :
    ss !! i = Some (FUnwind :: FListener tr :: st) ->
    step (mkSys w ss c d) (mkSys w (<[i := FAbort :: FUnwind :: st]> ss) c d)
| StepUnwindUnwind w ss c d i st :
    ss !! i = Some (FUnwind :: FUnwind :: st) ->
    step (mkSys w ss c d) (mkSys w (<[i := FUnwind :: st]> ss) c d).

(** A circuit at rest, with any number of goroutines outside it. *)
Definition initial (s : sys) : Prop :=
  transitionMu (circ (world s)) = false /\ pendingTransitions (circ (world s)) = [] /\
  deliveringTransitions (circ (world s)) = false /\
  Forall (fun st => st = []) (stacks s) /\ committed s = [] /\ delivered s = [].

Definition reachable_from (s0 s : sys) : Prop := rtc step s0 s.

(** * The invariant *)

Fixpoint alternating (o : bool) (l : list transition) : Prop :=
  match l with
  | [] => True
  | t :: l' => t_open t = negb o /\ alternating (t_open t) l'
  end.

Definition last_open (o : bool) (l : list transition) : bool :=
  match last l with Some t => t_open t | None => o end.

(** The frames between the taking and the release of the deliverer role. *)
Definition role_frame (f : frame) : bool :=
  match f with FListener _ | FPop | FAbort => true | _ => false end.
Definition deliver_frame (f : frame) : bool :=
  match f with FDeliver => true | _ => false end.

Definition weight (p : frame -> bool) (ss : list (list frame)) : Z :=
  zsum (count_if p <$> ss).

Definition trans_inv (o0 : bool) (s : sys) : Prop :=
  let c := circ (world s) in
  transitionMu c = false /\
  committed s = delivered s ++ pendingTransitions c /\
  alternating o0 (committed s) /\ isOpen c = last_open o0 (committed s) /\
  weight role_frame (stacks s) = (if deliveringTransitions c then 1 else 0) /\
  (pendingTransitions c <> [] -> deliveringTransitions c = true \/ 0 < weight deliver_frame (stacks s)).

(** ** The critical sections, on the guarded fields *)

Lemma alternating_snoc o l t :
  alternating o l -> t_open t = negb (last_open o l) -> alternating o (l ++ [t]).
Proof.
  revert o. induction l as [|x l IH]; intros o; simpl; [by intros _ -> |].
  intros [Hx Hl] Ht. split; [done |]. apply IH; [done |]. rewrite Ht. f_equal.
  unfold last_open. destruct l as [|y l]; [done |]. rewrite last_cons_cons.
  destruct (last (y :: l)) eqn:E; [done |]. by apply last_None in E.
Qed.

Lemma last_open_snoc o l t : last_open o (l ++ [t]) = t_open t.
Proof. unfold last_open. by rewrite last_snoc. Qed.

Lemma weight_insert p ss i st st' :
  ss !! i = Some st -> weight p (<[i := st']> ss) = weight p ss - count_if p st + count_if p st'.
Proof.
  unfold weight. revert i. induction ss as [|x ss IH]; intros i H; [done |].
  destruct i as [|i]; simpl in H.
  - injection H as ->. simpl. lia.
  - simpl. specialize (IH i H). unfold fmap in IH. lia.
Qed.

Lemma weight_nonneg p ss : 0 <= weight p ss.
Proof.
  unfold weight. induction ss as [|x ss IH]; simpl; [lia |].
  pose proof (count_if_nonneg p x). unfold fmap in IH. lia.
Qed.

Lemma weight_in p ss i st : ss !! i = Some st -> count_if p st <= weight p ss.
Proof.
  intros H. pose proof (weight_insert p ss i st [] H) as E. simpl in E.
  pose proof (weight_nonneg p (<[i := []]> ss)). lia.
Qed.

Lemma weight_spawn p ss : weight p (ss ++ [[]]) = weight p ss.
Proof. unfold weight. rewrite fmap_app, zsum_app. simpl. lia. Qed.

Lemma deliver_pop_view w :
  transitionMu (circ w) = true ->
  exists next w', deliver_pop w = (Ret next, w') /\
    transitionMu (circ w') = false /\ isOpen (circ w') = isOpen (circ w) /\
    pendingTransitions (circ w) = popped next ++ pendingTransitions (circ w') /\
    match next with
    | Some _ => deliveringTransitions (circ w') = deliveringTransitions (circ w)
    | None => deliveringTransitions (circ w') = false /\ pendingTransitions (circ w') = []
    end.
Proof.
  intros Hmu. unfold deliver_pop, bind at 1, get, gets.
  change (view pendingTransitionsL w) with (pendingTransitions (circ w)).
  destruct (pendingTransitions (circ w)) as [|tr q] eqn:Eq;
    unfold bind, set, modify, unlock; cbn; rewrite Hmu.
  - exists None. eexists. split; [done |]. cbn. by rewrite Eq.
  - exists (Some tr). eexists. split; [done |]. done.
Qed.

Lemma enter_section_view w :
  transitionMu (circ w) = false ->
  exists r w', enter_section w = (Ret r, w') /\
    transitionMu (circ w') = false /\ isOpen (circ w') = isOpen (circ w) /\
    match r with
    | None => deliveringTransitions (circ w) = true /\ deliveringTransitions (circ w') = true /\
        pendingTransitions (circ w') = pendingTransitions (circ w)
    | Some next => deliveringTransitions (circ w) = false /\
        pendingTransitions (circ w) = popped next ++ pendingTransitions (circ w') /\
        match next with
        | Some _ => deliveringTransitions (circ w') = true
        | None => deliveringTransitions (circ w') = false /\ pendingTransitions (circ w') = []
        end
    end.
Proof.
  intros Hmu. unfold enter_section, deliver_enter.
  unfold bind at 1 2, lock. change (view transitionMuL w) with (transitionMu (circ w)). rewrite Hmu.
  unfold bind at 1, get, gets. set (w1 := upd transitionMuL true w).
  change (view deliveringTransitionsL w1) with (deliveringTransitions (circ w)).
  destruct (deliveringTransitions (circ w)) eqn:Ed.
  - exists None. eexists. split; [reflexivity |]. by cbn.
  - set (w2 := upd deliveringTransitionsL true w1).
    destruct (deliver_pop_view w2) as (next & w' & E & Hmu' & Ho & Hq & Hd); [done |].
    exists (Some next), w'. split.
    { unfold bind at 1, set, modify. cbn [negb ret]. fold w2. by rewrite (bind_run _ _ _ _ _ E). }
    split; [done |]. split; [done |]. split; [done |]. split; [done |]. by destruct next.
Qed.

Lemma pop_section_view w :
  transitionMu (circ w) = false ->
  exists next w', pop_section w = (Ret next, w') /\
    transitionMu (circ w') = false /\ isOpen (circ w') = isOpen (circ w) /\
    pendingTransitions (circ w) = popped next ++ pendingTransitions (circ w') /\
    match next with
    | Some _ => deliveringTransitions (circ w') = deliveringTransitions (circ w)
    | None => deliveringTransitions (circ w') = false /\ pendingTransitions (circ w') = []
    end.
Proof.
  intros Hmu. destruct (deliver_pop_view (upd transitionMuL true w)) as (next & w' & E & H); [done |].
  exists next, w'. split; [| exact H]. unfold pop_section, bind, lock.
  change (view transitionMuL w) with (transitionMu (circ w)). rewrite Hmu. exact E.
Qed.

Lemma deliver_abort_view w :
  transitionMu (circ w) = false ->
  exists w', deliver_abort w = (Ret tt, w') /\ commit_view (circ w')
    = (false, isOpen (circ w), pendingTransitions (circ w), false).
Proof.
  intros Hmu. unfold deliver_abort, bind, lock, set, modify, unlock.
  change (view transitionMuL w) with (transitionMu (circ w)). rewrite Hmu. by eexists.
Qed.

Lemma weight_idle p ss : Forall (fun st => st = []) ss -> weight p ss = 0.
Proof.
  unfold weight. induction 1 as [|st ss -> _ IH]; [done |].
  rewrite fmap_cons, zsum_cons, IH. done.
Qed.

(** ** Every step keeps the invariant *)

Lemma commit_step o0 w w' c (b : bool) ctx t o recheck :
  own_recheck recheck -> transitionMu (circ w) = false ->
  commitTransition ctx t o recheck w = (Ret b, w') ->
  alternating o0 c -> isOpen (circ w) = last_open o0 c ->
  let new := drop (length (pendingTransitions (circ w))) (pendingTransitions (circ w')) in
  transitionMu (circ w') = false /\
  pendingTransitions (circ w') = pendingTransitions (circ w) ++ new /\
  alternating o0 (c ++ new) /\ isOpen (circ w') = last_open o0 (c ++ new) /\
  deliveringTransitions (circ w') = deliveringTransitions (circ w) /\
  (b = false -> new = []).
Proof.
  intros Hre Hmu E Halt Hopen. unfold commitTransition, bind at 1, lock in E.
  change (view transitionMuL w) with (transitionMu (circ w)) in E. rewrite Hmu in E.
  set (w1 := upd transitionMuL true w) in *. unfold defer in E.
  destruct (commit_locked ctx t o recheck w1) as [out1 w2] eqn:E1.
  pose proof (commit_locked_view _ _ _ _ _ _ _ Hre E1) as H. simpl in H.
  destruct out1 as [b'| | |]; cycle 1.
  { revert E. unfold bind, unlock, throw. by destruct (view transitionMuL w2). }
  { done. }
  { done. }
  assert (Hmu2 : transitionMu (circ w2) = true).
  { destruct b'; [destruct H as (_ & t1 & _ & H) | destruct H as [H _]];
      unfold commit_view in H; simpl in H; congruence. }
  revert E. unfold bind, unlock. change (view transitionMuL w2) with (transitionMu (circ w2)).
  rewrite Hmu2. intros [= <- <-]. simpl. destruct b'.
  - destruct H as (Ho & t1 & _ & H). unfold commit_view in H. injection H as _ Ho2 Hq Hd.
    rewrite Hq, drop_app_length. split; [done |]. split; [done |].
    rewrite Ho in Hopen. split; [| split; [| done]].
    + apply alternating_snoc; [done |]. simpl. rewrite <- Hopen. by rewrite negb_involutive.
    + by rewrite last_open_snoc.
  - destruct H as [H _]. unfold commit_view in H. simpl in H. injection H as _ Ho2 Hq Hd.
    rewrite Hq, drop_all, !app_nil_r. split; [done |]. split; [done |]. split; [done |].
    split; [congruence |]. done.
Qed.

(** The weights after a goroutine's stack changed. *)
Ltac weights Hi :=
  rewrite ?(weight_insert _ _ _ _ _ Hi); cbn [count_if role_frame deliver_frame] in *.

Lemma step_inv o0 s s' : trans_inv o0 s -> step s s' -> trans_inv o0 s'.
Proof.
  intros (Hmu & Hlog & Halt & Hopen & Hrole & Hq) Hstep.
  destruct Hstep as [w ss c d|w w' ss c d i st Hi Hu Hv|w ss c d i st ctx t o re Hi Hu Hre Ho
    |w w' ss c d i st ctx t o re b Hi Hre E|w w' ss c d i st r Hi E|w ss c d i st tr Hi
    |w ss c d i st tr Hi|w w' ss c d i st next Hi E|w w' ss c d i st Hi E|w ss c d i st Hi Hu
    |w ss c d i st tr Hi|w ss c d i st Hi]; unfold trans_inv in *; simpl in *.
  - by rewrite !weight_spawn.
  - unfold commit_view in Hv. injection Hv as -> -> -> ->. done.
  - weights Hi. intuition lia.
  - destruct (commit_step o0 w w' c b ctx t o re Hre Hmu E Halt Hopen) as (? & Hq' & ? & ? & Hd & Hb).
    rewrite Hd. set (new := drop _ _) in *. split; [done |].
    split; [rewrite Hlog, Hq'; by rewrite app_assoc |]. split; [done |]. split; [done |].
    weights Hi. destruct b; weights Hi.
    + split; [lia |]. intros _. right. pose proof (weight_nonneg deliver_frame ss).
      pose proof (weight_in deliver_frame ss i _ Hi). cbn in *. lia.
    + split; [lia |]. rewrite Hq', (Hb eq_refl), app_nil_r. intros Hne. destruct (Hq Hne); [by left | right; lia].
  - destruct (enter_section_view w Hmu) as (r' & w2 & E2 & Hmu' & Ho' & Hr). rewrite E in E2.
    injection E2 as <- <-. pose proof (weight_in role_frame ss i _ Hi). destruct r as [next|].
    + destruct Hr as (Hd & Hpop & Hd'). rewrite Hd in *. split; [done |].
      split; [by rewrite Hlog, Hpop, app_assoc |]. split; [done |]. split; [congruence |].
      destruct next as [tr|]; simpl in *.
      * rewrite Hd'. weights Hi. split; [lia |]. by left.
      * destruct Hd' as [-> ->]. weights Hi. split; [lia | done].
    + destruct Hr as (Hd & Hd' & Hpend). rewrite Hd, Hd', Hpend, app_nil_r in *. split; [done |].
      split; [done |]. split; [done |]. split; [congruence |]. weights Hi. split; [lia |]. by left.
  - weights Hi. intuition lia.
  - weights Hi. intuition lia.
  - destruct (pop_section_view w Hmu) as (r' & w2 & E2 & Hmu' & Ho' & Hpop & Hd'). rewrite E in E2.
    injection E2 as <- <-. pose proof (weight_in role_frame ss i _ Hi) as Hw.
    split; [done |]. split; [by rewrite Hlog, Hpop, app_assoc |]. split; [done |]. split; [congruence |].
    pose proof (count_if_nonneg role_frame st). cbn [count_if role_frame] in Hw.
    destruct (deliveringTransitions (circ w)) eqn:Ed; [| lia].
    destruct next as [tr|]; simpl in *.
    + rewrite Hd'. weights Hi. split; [lia |]. by left.
    + destruct Hd' as [-> ->]. weights Hi. split; [lia | done].
  - destruct (deliver_abort_view w Hmu) as (w2 & E2 & Hv). rewrite E in E2. injection E2 as <-.
    pose proof (weight_in role_frame ss i _ Hi) as Hw. pose proof (weight_nonneg deliver_frame (<[i:=[]]> ss)) as Hdw.
    pose proof (count_if_nonneg role_frame st). pose proof (count_if_nonneg deliver_frame st).
    rewrite (weight_insert _ _ _ _ _ Hi) in Hdw. cbn [count_if role_frame deliver_frame] in Hw, Hdw.
    unfold commit_view in Hv. injection Hv as -> -> -> ->.
    destruct (deliveringTransitions (circ w)) eqn:Ed; [| lia].
    split; [done |]. split; [done |]. split; [done |]. split; [done |]. weights Hi.
    split; [lia |]. intros _. right. lia.
  - weights Hi. intuition lia.
  - weights Hi. intuition lia.
  - weights Hi. intuition lia.
Qed.

Lemma initial_inv s : initial s -> trans_inv (isOpen (circ (world s))) s.
Proof.
  intros (Hmu & Hq & Hd & Hss & Hc & Hdel). unfold trans_inv. rewrite Hmu, Hq, Hd, Hc, Hdel.
  rewrite !weight_idle by done. done.
Qed.

Lemma reachable_inv s0 s : initial s0 -> reachable_from s0 s -> trans_inv (isOpen (circ (world s0))) s.
Proof.
  intros H0 Hr. pose proof (initial_inv s0 H0) as Hi. revert Hi. generalize (isOpen (circ (world s0))).
  clear H0. intros o0. induction Hr as [s|s1 s2 s3 Hs _ IH]; [done |]. intros Hi.
  apply IH. by eapply step_inv.
Qed.

(** ** Progress *)

(** Below a frame there is user code, or a panic the deferred drain interrupted. *)
Fixpoint good_stack (st : list frame) : Prop :=
  match st with
  | [] => True
  | f :: st' =>
      match f with FCommit _ _ _ recheck => own_recheck recheck | _ => True end /\
      match st' with [] | FListener _ :: _ | FUnwind :: _ => True | _ => False end /\
      good_stack st'
  end.

Lemma good_stacks_step s s' :
  Forall good_stack (stacks s) -> step s s' -> Forall good_stack (stacks s').
Proof.
  intros HF Hstep.
  assert (Hg : forall i st, stacks s !! i = Some st -> good_stack st) by (intros i st; by apply Forall_lookup_1).
  destruct Hstep; simpl in *;
    lazymatch goal with
    | |- Forall _ (_ ++ _) => apply Forall_app_2; [done | by apply Forall_singleton]
    | |- Forall _ (<[_ := _]> _) => apply Forall_insert; [done |]
    | _ => done
    end;
    match goal with H : _ !! _ = Some _ |- _ => apply Hg in H; simpl in H end;
    try (destruct b); try (destruct r as [[tr'|]|]); try (destruct next as [tr'|]);
    destruct st as [|[] st]; simpl in *; tauto.
Qed.

(** What a goroutine does next, once user code returns control: some step is possible from
    every reachable state for every goroutine inside the circuit. *)
Lemma goroutine_steps oinv cinv `{!ClosedToOpenLaws OS oinv} `{!OpenToClosedLaws CS cinv} o0 s i f st :
  trans_inv o0 s -> Forall good_stack (stacks s) -> configured oinv cinv (circ (world s)) ->
  stacks s !! i = Some (f :: st) -> exists s', step s s' /\ stacks s' !! i <> Some (f :: st).
Proof.
  intros (Hmu & _) Hgood Hcfg Hi. pose proof (Forall_lookup_1 _ _ _ _ Hgood Hi) as Hg.
  assert (Hlt : (i < length (stacks s))%nat) by (by eapply lookup_lt_Some).
  assert (Hne : forall st', st' <> f :: st -> <[i := st']> (stacks s) !! i <> Some (f :: st)).
  { intros st' Hst'. rewrite list_lookup_insert_eq by done. congruence. }
  assert (Hlen : forall g : frame, st <> g :: st).
  { intros g H. apply (f_equal length) in H. simpl in H. lia. }
  destruct s as [w ss c d]. simpl in *. destruct Hg as (Hf & Hbelow & _). destruct f as [ctx t o re| |tr| | |].
  - destruct (commitTransition_spec oinv cinv (pendingTransitions (circ w)) (deliveringTransitions (circ w))
      (concurrentCommands (circ w)) (concurrentFallbacks (circ w)) ctx t o re w) as (b & w' & q' & E & _).
    + intros g mv ctx' t' Hre. destruct Hf as [->|[->| ->]]; [done | |]; injection Hre as <-;
        [apply phase_with_opener, ShouldOpen_safe | apply phase_with_closer, ShouldClose_safe].
    + split; [done |]. unfold moving. by rewrite Hmu.
    + eexists. split; [by eapply StepCommit |]. apply Hne. destruct b; [congruence | apply Hlen].
  - destruct (enter_section_view w Hmu) as (r & w' & E & _).
    eexists. split; [by eapply StepEnter |]. apply Hne. destruct r as [[tr|]|]; simpl; try apply Hlen. congruence.
  - eexists. split; [by eapply StepReturn |]. apply Hne. congruence.
  - destruct (pop_section_view w Hmu) as (next & w' & E & _).
    eexists. split; [by eapply StepPop |]. apply Hne. destruct next; simpl; [congruence | apply Hlen].
  - destruct (deliver_abort_view w Hmu) as (w' & E & _).
    eexists. split; [by eapply StepAbort |]. apply Hne. congruence.
  - destruct st as [|[] st]; try done.
    + eexists. split; [by eapply StepRecover |]. by apply Hne.
    + eexists. split; [by eapply StepRecover |]. apply Hne. congruence.
    + eexists. split; [by eapply StepUnwindUnwind |]. apply Hne. intros H.
      apply (f_equal length) in H. simpl in H. lia.
Qed.

(** ** The sequential code is a run *)

(** Listeners that return or panic, and leave the guarded fields alone. *)
Definition listeners_apart : Prop :=
  forall tr w, exists o w', notifyListeners tr w = (o, w') /\ commit_view (circ w') = commit_view (circ w) /\
    match o with Ret _ | Panic _ => True | _ => False end.

(** The rest of [deliver_loop] after its head popped [next]. *)
Definition deliver_rest (fuel : nat) (next : option transition) : M W unit :=
  match next with
  | None => ret tt
  | Some tr => do! notifyListeners tr; do! lock transitionMuL; deliver_loop fuel
  end.

(** Where a call of a goroutine leaves it. *)
Definition call_end (w : W) (ss : list (list frame)) c d i (ret_st panic_st : list frame) (o : outcome unit) (w' : W) : Prop :=
  match o with
  | Ret _ => transitionMu (circ w') = false /\
      exists d', rtc step (mkSys w ss c d) (mkSys w' (<[i := ret_st]> ss) c (d ++ d'))
  | Panic _ => transitionMu (circ w') = false /\
      exists d', rtc step (mkSys w ss c d) (mkSys w' (<[i := panic_st]> ss) c (d ++ d'))
  | _ => True
  end.

Lemma deliver_rest_runs (Hlis : listeners_apart) fuel next w ss c d i st o w' :
  transitionMu (circ w) = false -> ss !! i = Some (after_pop next st) ->
  deliver_rest fuel next w = (o, w') ->
  call_end w ss c d i st (FAbort :: FUnwind :: st) o w'.
Proof.
  revert next w ss d. induction fuel as [|fuel IH]; intros next w ss d Hmu Hi E.
  all: destruct next as [tr|]; simpl in Hi, E;
    [| injection E as <- <-; split; [done |]; exists []; rewrite app_nil_r, list_insert_id by done; reflexivity].
  all: destruct (Hlis tr w) as (ol & w1 & El & Hv & Hol).
  all: assert (Huser : step (mkSys w ss c d) (mkSys w1 ss c d)) by (by eapply StepUser).
  all: assert (Hmu1 : transitionMu (circ w1) = false) by (unfold commit_view in Hv; congruence).
  all: unfold bind at 1 in E; rewrite El in E; destruct ol as [[]| | |]; try done.
  all: try (injection E as <- <-; split; [done |]; exists []; rewrite app_nil_r; eapply rtc_l; [exact Huser |];
    apply rtc_once; by eapply StepPanic).
  - unfold bind, lock in E. change (view transitionMuL w1) with (transitionMu (circ w1)) in E.
    rewrite Hmu1 in E. simpl in E. by injection E as <- <-.
  - destruct (pop_section_view w1 Hmu1) as (next & w2 & E2 & Hmu2 & _).
    assert (E' : deliver_rest fuel next w2 = (o, w')).
    { rewrite <- E. unfold pop_section, bind, lock in E2. unfold bind at 1, lock.
      change (view transitionMuL w1) with (transitionMu (circ w1)) in *. rewrite Hmu1 in *.
      cbn [deliver_loop]. rewrite (bind_run _ _ _ _ _ E2). by destruct next. }
    set (ss1 := <[i := FPop :: st]> ss). assert (Hlt : (i < length ss)%nat) by (by eapply lookup_lt_Some).
    assert (Hi1 : ss1 !! i = Some (FPop :: st)) by (by apply list_lookup_insert_eq).
    specialize (IH next w2 (<[i := after_pop next st]> ss1) (d ++ popped next) Hmu2
      ltac:(apply list_lookup_insert_eq; unfold ss1; by rewrite length_insert) E').
    assert (Hpre : rtc step (mkSys w ss c d) (mkSys w2 (<[i := after_pop next st]> ss1) c (d ++ popped next))).
    { eapply rtc_l; [exact Huser |]. eapply rtc_l; [by eapply StepReturn |]. apply rtc_once. by eapply StepPop. }
    unfold ss1 in IH, Hpre. rewrite list_insert_insert_eq in IH, Hpre.
    destruct o as [[]|p| |]; simpl in IH |- *; try done; destruct IH as [Hm [d' IH]];
      (split; [done |]); exists (popped next ++ d'); rewrite app_assoc; (etrans; [exact Hpre |]); by rewrite list_insert_insert_eq in IH.
Qed.

Lemma deliver_runs (Hlis : listeners_apart) fuel w ss c d i st o w' :
  transitionMu (circ w) = false -> ss !! i = Some (FDeliver :: st) ->
  deliver fuel w = (o, w') -> call_end w ss c d i st (FUnwind :: st) o w'.
Proof.
  revert w ss d st o w'. induction fuel as [|fuel IH]; intros w ss d st o w' Hmu Hi E.
  { injection E as <- <-. done. }
  assert (Hlt : (i < length ss)%nat) by (by eapply lookup_lt_Some).
  destruct (enter_section_view w Hmu) as (r & w2 & Er & Hmu2 & _ & Hr).
  assert (Hstep : step (mkSys w ss c d) (mkSys w2
    (<[i := match r with Some next => after_pop next st | None => st end]> ss) c
    (d ++ match r with Some next => popped next | None => [] end))) by (by eapply StepEnter).
  cbn [deliver] in E. unfold enter_section in Er. unfold bind at 1 in E. unfold bind at 1 in Er.
  destruct (deliver_enter w) as [[role| | |] w1]; try done. destruct role; cbn [negb] in E, Er.
  2:{ injection E as <- <-. injection Er as <- <-. split; [done |]. exists []. by apply rtc_once. }
  unfold bind at 1 in Er. destruct (deliver_pop w1) as [[next| | |] w2'] eqn:Ep; try done.
  injection Er as <- <-.
  assert (El : deliver_loop (S fuel) w1 = deliver_rest fuel next w2').
  { cbn [deliver_loop]. rewrite (bind_run _ _ _ _ _ Ep). by destruct next. }
  rewrite El in E. clear El. destruct (deliver_rest fuel next w2') as [o2 w3] eqn:E3.
  pose proof (deliver_rest_runs Hlis fuel next w2' (<[i := after_pop next st]> ss) c (d ++ popped next) i st
    o2 w3 Hmu2 (list_lookup_insert_eq _ _ _ Hlt) E3) as Hend.
  unfold call_end in Hend. rewrite list_insert_insert_eq in Hend.
  destruct o2 as [[]|p| |]; try (by injection E as <- <-).
  - injection E as <- <-. destruct Hend as [Hm [d' Hr']]. split; [done |]. exists (popped next ++ d').
    rewrite app_assoc. by eapply rtc_l.
  - destruct Hend as [Hm [d' Hr']]. rewrite list_insert_insert_eq in Hr'.
    destruct (deliver_abort_view w3 Hm) as (w4 & E4 & Hv4). rewrite (bind_run _ _ _ _ _ E4) in E.
    assert (Hab : step (mkSys w3 (<[i := FAbort :: FUnwind :: st]> ss) c ((d ++ popped next) ++ d'))
      (mkSys w4 (<[i := FDeliver :: FUnwind :: st]> ss) c ((d ++ popped next) ++ d'))).
    { rewrite <- (list_insert_insert_eq ss i (FDeliver :: FUnwind :: st) (FAbort :: FUnwind :: st)).
      eapply StepAbort; [by apply list_lookup_insert_eq | done]. }
    assert (Hmu4 : transitionMu (circ w4) = false) by (unfold commit_view in Hv4; congruence).
    destruct (deliver fuel w4) as [o5 w5] eqn:E5. unfold bind, throw in E. rewrite E5 in E.
    pose proof (IH w4 (<[i := FDeliver :: FUnwind :: st]> ss) ((d ++ popped next) ++ d') (FUnwind :: st) o5 w5
      Hmu4 (list_lookup_insert_eq _ _ _ Hlt) E5) as Hend2.
    assert (Hto : rtc step (mkSys w ss c d) (mkSys w4 (<[i := FDeliver :: FUnwind :: st]> ss) c
      ((d ++ popped next) ++ d'))).
    { eapply rtc_l; [exact Hstep |]. etrans; [exact Hr' |]. by apply rtc_once. }
    unfold call_end in Hend2. rewrite !list_insert_insert_eq in Hend2.
    destruct o5 as [[]|p5| |]; injection E as <- <-; try done;
      destruct Hend2 as [Hm5 [d5 Hr5]]; (split; [done |]); exists (popped next ++ d' ++ d5);
      rewrite !app_assoc; (etrans; [exact Hto |]); [exact Hr5 |].
    etrans; [exact Hr5 |]. apply rtc_once.
    rewrite <- (list_insert_insert_eq ss i (FUnwind :: st) (FUnwind :: FUnwind :: st)).
    eapply StepUnwindUnwind. by apply list_lookup_insert_eq.
Qed.

(** One call of [transitionTo], whole. *)
Lemma transitionTo_runs (Hlis : listeners_apart) fuel ctx t o re w ss c d i st out w' :
  transitionMu (circ w) = false -> ss !! i = Some st -> in_user_code st -> own_recheck re ->
  transitionTo fuel ctx t o re w = (out, w') ->
  match out with
  | Ret _ => exists c' d', rtc step (mkSys w ss c d) (mkSys w' ss (c ++ c') (d ++ d'))
  | Panic p => commitTransition ctx t o re w = (Panic p, w') \/
      exists c' d', rtc step (mkSys w ss c d) (mkSys w' (<[i := FUnwind :: st]> ss) (c ++ c') (d ++ d'))
  | _ => True
  end.
Proof.
  intros Hmu Hi Hu Hre. assert (Hlt : (i < length ss)%nat) by (by eapply lookup_lt_Some).
  unfold transitionTo, bind at 1, get, gets. change (view isOpenL w) with (isOpen (circ w)).
  destruct (Bool.eqb_spec (isOpen (circ w)) o) as [Heq|Hne].
  { intros [= <- <-]. exists [], []. by rewrite !app_nil_r. }
  assert (Ho : isOpen (circ w) = negb o) by (by destruct (isOpen (circ w)), o).
  unfold bind. destruct (commitTransition ctx t o re w) as [[b|p| |] w1] eqn:E1;
    try (by intros [= <- <-]); [| intros [= <- <-]; by left].
  set (new := drop (length (pendingTransitions (circ w))) (pendingTransitions (circ w1))).
  assert (Hto : rtc step (mkSys w ss c d) (mkSys w1 (<[i := if b then FDeliver :: st else st]> ss) (c ++ new) d)).
  { eapply rtc_l; [by eapply StepCall |]. apply rtc_once.
    rewrite <- (list_insert_insert_eq ss i (if b then FDeliver :: st else st) (FCommit ctx t o re :: st)).
    eapply StepCommit; [by apply list_lookup_insert_eq | done | done]. }
  destruct b.
  2:{ intros [= <- <-]. exists new, []. rewrite list_insert_id in Hto by done. by rewrite app_nil_r. }
  assert (Hmu1 : transitionMu (circ w1) = false).
  { pose proof (commitTransition_view ctx t o re w _ _ Hre Hmu E1) as H. simpl in H. tauto. }
  unfold deliverPendingTransitions. intros E.
  pose proof (deliver_runs Hlis fuel w1 (<[i := FDeliver :: st]> ss) (c ++ new) d i st out w' Hmu1
    (list_lookup_insert_eq _ _ _ Hlt) E) as Hend.
  unfold call_end in Hend. rewrite !list_insert_insert_eq in Hend.
  destruct out as [[]|p| |]; try done; destruct Hend as [_ [d' Hr]].
  - exists new, d'. rewrite (list_insert_id ss i st Hi) in Hr. by etrans.
  - right. exists new, d'. by etrans.
Qed.

(** * Properties *)

(** C3: for any number of goroutines opening and closing one circuit in any interleaving, with
    listeners that may re-enter the circuit or panic: the notifications delivered so far,
    followed by those queued, are exactly the transitions so far in the order of their commits,
    each once; they strictly alternate, starting from the initial state; the state of the
    circuit is that of the last transition; and at most one goroutine is delivering. *)
Theorem notifications_exactly_once_in_order s0 s :
  initial s0 -> reachable_from s0 s ->
  committed s = delivered s ++ pendingTransitions (circ (world s)) /\
  alternating (isOpen (circ (world s0))) (committed s) /\
  isOpen (circ (world s)) = last_open (isOpen (circ (world s0))) (committed s) /\
  weight role_frame (stacks s) <= 1.
Proof.
  intros H0 Hr. destruct (reachable_inv s0 s H0 Hr) as (_ & Hlog & Halt & Ho & Hrole & _).
  repeat split; try done. rewrite Hrole. destruct (deliveringTransitions _); lia.
Qed.

(** C4: no notification is stranded, also after panicking listeners: when every goroutine has
    left the circuit, the queue is empty, every transition was delivered, and nobody holds the
    deliverer role. *)
Theorem quiescent_all_delivered s0 s :
  initial s0 -> reachable_from s0 s -> Forall (fun st => st = []) (stacks s) ->
  pendingTransitions (circ (world s)) = [] /\ delivered s = committed s /\
  deliveringTransitions (circ (world s)) = false.
Proof.
  intros H0 Hr Hidle. destruct (reachable_inv s0 s H0 Hr) as (_ & Hlog & _ & _ & Hrole & Hq).
  assert (Hw : forall p, weight p (stacks s) = 0) by (intros p; by apply weight_idle).
  rewrite Hw in Hrole. assert (Hd : deliveringTransitions (circ (world s)) = false)
    by (revert Hrole; destruct (deliveringTransitions _); [lia | done]).
  assert (Hp : pendingTransitions (circ (world s)) = []).
  { destruct (pendingTransitions (circ (world s))) as [|tr q]; [done |].
    destruct Hq as [Hq|Hq]; [done | congruence | rewrite Hw in Hq; lia]. }
  split; [done |]. split; [| done]. by rewrite Hlog, Hp, app_nil_r.
Qed.

(** No deadlock: in every reachable state, every goroutine that is inside the circuit (or in
    a listener that may return) can take a step of its own. *)
Theorem every_goroutine_can_step oinv cinv `{!ClosedToOpenLaws OS oinv} `{!OpenToClosedLaws CS cinv}
    s0 s i f st :
  initial s0 -> reachable_from s0 s -> configured oinv cinv (circ (world s)) ->
  stacks s !! i = Some (f :: st) -> exists s', step s s' /\ stacks s' !! i <> Some (f :: st).
Proof.
  intros H0 Hr Hcfg Hi. eapply (goroutine_steps oinv cinv); [by eapply reachable_inv | | done | done].
  assert (Hg : Forall good_stack (stacks s0)).
  { destruct H0 as (_ & _ & _ & Hss & _). eapply Forall_impl; [exact Hss |]. by intros x ->. }
  clear H0 Hcfg Hi. induction Hr as [s|s1 s2 s3 Hs _ IH]; [done |].
  apply IH. by eapply good_stacks_step.
Qed.

(** C5: the interleaving model covers the code: a call of [transitionTo] (as defined from the
    source) by a goroutine in user code, run to its end with listeners that return or panic,
    is a run of the step relation that brings the goroutine back where it was, or, when a
    listener panics, to that panic unwinding, with the world the call ends in. *)
Theorem transitionTo_is_a_run fuel ctx t o re w ss c d i st out w' :
  listeners_apart -> transitionMu (circ w) = false -> ss !! i = Some st -> in_user_code st ->
  own_recheck re -> transitionTo fuel ctx t o re w = (out, w') ->
  match out with
  | Ret _ => exists c' d', rtc step (mkSys w ss c d) (mkSys w' ss (c ++ c') (d ++ d'))
  | Panic p => commitTransition ctx t o re w = (Panic p, w') \/
      exists c' d', rtc step (mkSys w ss c d) (mkSys w' (<[i := FUnwind :: st]> ss) (c ++ c') (d ++ d'))
  | _ => True
  end.
Proof. intros Hlis. by apply (transitionTo_runs Hlis). Qed.
End Transitions.

(** * A run of two goroutines

    One opens the circuit, the other closes it before the first has delivered its notification;
    the first delivers both, in order. *)

Module SampleRun.
  Import Sample SampleRuns.

Definition start : sys := mkSys (world false false false 0 10) [[]; []] [] [].

Definition opened_tr : transition := mkTransition true Background 5.
Definition closed_tr : transition := mkTransition false Background 6.

(** The worlds after the two commits and after the first, second and third look at the queue. *)
Definition w1 : W := Eval vm_compute in snd (commitTransition Background 5 true None (Transitions.world start)).
Definition w2 : W := Eval vm_compute in snd (commitTransition Background 6 false None w1).
Definition w3 : W := Eval vm_compute in snd (enter_section w2).
Definition w4 : W := Eval vm_compute in snd (enter_section w3).
Definition w5 : W := Eval vm_compute in snd (pop_section w4).
Definition w6 : W := Eval vm_compute in snd (pop_section w5).

Definition middle : sys :=
  mkSys w4 [[FListener opened_tr]; []] [opened_tr; closed_tr] [opened_tr].
Definition finish : sys := mkSys w6 [[]; []] [opened_tr; closed_tr] [opened_tr; closed_tr].

Lemma to_middle : reachable_from start middle.
Proof.
  apply rtc_l with (mkSys (world false false false 0 10) [[FCommit Background 5 true None]; []] [] []).
  { apply (StepCall _ [[]; []] [] [] 0%nat [] Background 5 true None); [done | done | by left | done]. }
  apply rtc_l with (mkSys w1 [[FDeliver]; []] [opened_tr] []).
  { apply (StepCommit (world false false false 0 10) w1 [[FCommit Background 5 true None]; []] [] [] 0%nat [] Background 5 true None true);
      [done | by left | by vm_compute]. }
  apply rtc_l with (mkSys w1 [[FDeliver]; [FCommit Background 6 false None]] [opened_tr] []).
  { apply (StepCall _ [[FDeliver]; []] [opened_tr] [] 1%nat [] Background 6 false None); [done | done | by left | done]. }
  apply rtc_l with (mkSys w2 [[FDeliver]; [FDeliver]] [opened_tr; closed_tr] []).
  { apply (StepCommit w1 w2 [[FDeliver]; [FCommit Background 6 false None]] [opened_tr] [] 1%nat []
      Background 6 false None true); [done | by left | by vm_compute]. }
  apply rtc_l with (mkSys w3 [[FListener opened_tr]; [FDeliver]] [opened_tr; closed_tr] [opened_tr]).
  { apply (StepEnter w2 w3 [[FDeliver]; [FDeliver]] [opened_tr; closed_tr] [] 0%nat []
      (Some (Some opened_tr))); [done | by vm_compute]. }
  apply rtc_once. unfold middle.
  apply (StepEnter w3 w4 [[FListener opened_tr]; [FDeliver]] [opened_tr; closed_tr] [opened_tr] 1%nat [] None);
    [done | by vm_compute].
Qed.

Lemma to_finish : reachable_from start finish.
Proof.
  unfold reachable_from. etrans; [exact to_middle |].
  apply rtc_l with (mkSys w4 [[FPop]; []] [opened_tr; closed_tr] [opened_tr]).
  { by apply (StepReturn _ [[FListener opened_tr]; []] _ _ 0%nat [] opened_tr). }
  apply rtc_l with (mkSys w5 [[FListener closed_tr]; []] [opened_tr; closed_tr] [opened_tr; closed_tr]).
  { apply (StepPop w4 w5 [[FPop]; []] [opened_tr; closed_tr] [opened_tr] 0%nat [] (Some closed_tr)); [done | by vm_compute]. }
  apply rtc_l with (mkSys w5 [[FPop]; []] [opened_tr; closed_tr] [opened_tr; closed_tr]).
  { by apply (StepReturn _ [[FListener closed_tr]; []] _ _ 0%nat [] closed_tr). }
  apply rtc_once. apply (StepPop w5 w6 [[FPop]; []] _ [opened_tr; closed_tr] 0%nat [] None); [done | by vm_compute].
Qed.

Lemma start_initial : initial start.
Proof. repeat split; repeat constructor. Qed.
End SampleRun.

Import Sample SampleRuns SampleRun.

Lemma notifications_exactly_once_in_order_witness :
  committed middle = delivered middle ++ pendingTransitions (circ (Transitions.world middle)) /\
  alternating false (committed middle) /\
  isOpen (circ (Transitions.world middle)) = last_open false (committed middle) /\
  weight role_frame (stacks middle) <= 1.
Proof. apply (notifications_exactly_once_in_order start middle start_initial to_middle). Defined.

Lemma quiescent_all_delivered_witness :
  pendingTransitions (circ (Transitions.world finish)) = [] /\ delivered finish = committed finish /\
  deliveringTransitions (circ (Transitions.world finish)) = false.
Proof.
  apply (quiescent_all_delivered start finish start_initial to_finish). repeat constructor.
Defined.

Lemma every_goroutine_can_step_witness :
  exists s', step middle s' /\ stacks s' !! 0%nat <> Some [FListener opened_tr].
Proof.
  apply (every_goroutine_can_step anyOpener anyCloser start middle 0%nat (FListener opened_tr) []
    start_initial to_middle); [| reflexivity].
  split; [by eexists |]. split; [by eexists |]. split; [| done]. exists tick. split; [done | apply tick_ok].
Defined.

Lemma transitionTo_is_a_run_witness :
  let w := world false false false 0 10 in
  let w' := snd (transitionTo 2 Background 5 true None w) in
  heard (env w') = [true] /\
  exists c' d', rtc step (mkSys w [[]; []] [] []) (mkSys w' [[]; []] ([] ++ c') ([] ++ d')).
Proof.
  intros w w'. split; [subst w w'; vm_compute; reflexivity |].
  apply (transitionTo_is_a_run 2 Background 5 true None w [[]; []] [] [] 0%nat [] (Ret tt) w').
  - intros tr v. unfold notifyListeners, circuit_metrics, bind at 1 2, get, gets, ret.
    assert (H : forall ids v, exists o w2, range_do (fun R => if t_open tr then Metrics.Opened R (t_ctx tr) (t_now tr)
      else Metrics.Closed R (t_ctx tr) (t_now tr)) (map user_metrics ids) v = (o, w2) /\
      commit_view (circ w2) = commit_view (circ v) /\ match o with Ret _ | Panic _ => True | _ => False end).
    { clear. induction ids as [|id ids IH]; intros v; [by exists (Ret tt), v |].
      cbn [map range_do]. unfold bind.
      destruct (IH (snd (hear (t_open tr) v))) as (o & w2 & E & Hv & Ho).
      exists o, w2. destruct (t_open tr); (split; [exact E |]); (split; [exact Hv | exact Ho]). }
    generalize (view CircuitMetricsCollectorL v) as ids. intros ids. specialize (H ids v).
    by destruct (t_open tr).
  - reflexivity.
  - reflexivity.
  - exact I.
  - by left.
  - subst w w'. vm_compute. reflexivity.
Defined.
