(* ===== verification/HystrixOpener.v ===== *)
(** closers/hystrix/opener.go: the logic that opens a circuit at an error percentage over a
    rolling window, and its implementation of the interface [ClosedToOpen].

    [U] is the environment of the program, in which the configured clock is read when the
    counters are created.  The mutex of [Opener] guards [config] alone and is never held
    across a call, so it is not part of the model.  [MarshalJSON] is in HystrixExport.v, but for
    the rate it computes ([errPercentage]). *)

From S2P Require Import Prelude GoMonad GoFloat RollingBuckets RollingCounter Metrics Closers.

Module Opener.

(** * Data *)

Section Data.
Context {U : Type}.

Record ConfigureOpener := mkConfigureOpener {
  ErrorThresholdPercentage : Z;
  RequestVolumeThreshold : Z;
  Now : option (M U Time);
  RollingDuration : Duration;
  NumBuckets : Z
}.

Record Opener := mkOpener {
  errorsCount : RollingCounter;
  legitimateAttemptsCount : RollingCounter;
  errorPercentage : Z;
  requestVolumeThreshold : Z;
  config : ConfigureOpener
}.

Definition errorsCountL : lens Opener RollingCounter := Lens errorsCount (fun c e =>
  mkOpener c (legitimateAttemptsCount e) (errorPercentage e) (requestVolumeThreshold e) (config e)).

Definition legitimateAttemptsCountL : lens Opener RollingCounter := Lens legitimateAttemptsCount (fun c e =>
  mkOpener (errorsCount e) c (errorPercentage e) (requestVolumeThreshold e) (config e)).
End Data.

Arguments ConfigureOpener U : clear implicits.
Arguments Opener U : clear implicits.

(** * Operations *)

Section Methods.
Context {U : Type} (time_Now : M U Time).   (* [time.Now] of the standard library *)

(** [c.now()] *)
Definition now (c : ConfigureOpener U) : M U Time :=
  match Now c with None => time_Now | Some f => f end.

Definition Merge (c other : ConfigureOpener U) : ConfigureOpener U :=
  mkConfigureOpener
    (if ErrorThresholdPercentage c =? 0 then ErrorThresholdPercentage other else ErrorThresholdPercentage c)
    (if RequestVolumeThreshold c =? 0 then RequestVolumeThreshold other else RequestVolumeThreshold c)
    (match Now c with None => Now other | Some f => Some f end)
    (if RollingDuration c =? 0 then RollingDuration other else RollingDuration c)
    (if NumBuckets c =? 0 then NumBuckets other else NumBuckets c).

Definition ConfigureOpener_zero : ConfigureOpener U := mkConfigureOpener 0 0 None 0 0.

Definition defaultConfigureOpener : ConfigureOpener U :=
  mkConfigureOpener 50 20 (Some time_Now) (10 * Second) 10.

Definition SetConfigThreadSafe (props : ConfigureOpener U) : M (Opener U) unit := modify (fun e =>
  mkOpener (errorsCount e) (legitimateAttemptsCount e) (ErrorThresholdPercentage props)
    (RequestVolumeThreshold props) props).

(** The first two statements of [SetConfigNotThreadSafe]. *)
Definition usable_buckets (props : ConfigureOpener U) : ConfigureOpener U :=
  mkConfigureOpener (ErrorThresholdPercentage props) (RequestVolumeThreshold props) (Now props)
    (if RollingDuration props <=? 0 then RollingDuration defaultConfigureOpener else RollingDuration props)
    (if NumBuckets props <=? 0 then NumBuckets defaultConfigureOpener else NumBuckets props).

(** On an opener and the environment its clock is read in. *)
Definition SetConfigNotThreadSafe (props : ConfigureOpener U) : M (Opener U * U) unit :=
  let props := usable_buckets props in
  let envL := Lens snd (fun u s => (fst s, u)) in
  let selfL := Lens fst (fun e s => (e, snd s)) in
  do! zoom selfL (SetConfigThreadSafe props);
  let! t := zoom envL (now props) in
  let rollingCounterBucketWidth := Z.quot (RollingDuration props) (NumBuckets props) in
  let! c := of_outcome (NewRollingCounter rollingCounterBucketWidth (NumBuckets props) t) in
  do! modify (fun s => upd selfL (upd errorsCountL c (fst s)) s);
  let! c := of_outcome (NewRollingCounter rollingCounterBucketWidth (NumBuckets props) t) in
  modify (fun s => upd selfL (upd legitimateAttemptsCountL c (fst s)) s).

(** [s := Opener{}] *)
Definition Opener_zero : Opener U :=
  mkOpener RollingCounter_zero RollingCounter_zero 0 0 ConfigureOpener_zero.

Definition OpenerFactory (config : ConfigureOpener U) : M U (Opener U) := fun u =>
  let cfg := Merge config defaultConfigureOpener in
  match SetConfigNotThreadSafe cfg (Opener_zero, u) with
  | (Ret _, (e, u')) => (Ret e, u')
  | (Panic p, (_, u')) => (Panic p, u')
  | (Deadlock, (_, u')) => (Deadlock, u')
  | (OutOfFuel, (_, u')) => (OutOfFuel, u')
  end.

(** [Closed] and [Opened] have the same body. *)
Definition Reset_counts (t : Time) : M (Opener U) unit :=
  do! zoom errorsCountL (Reset t);
  zoom legitimateAttemptsCountL (Reset t).

Definition Closed (_ : Context) (t : Time) : M (Opener U) unit := Reset_counts t.
Definition Opened (_ : Context) (t : Time) : M (Opener U) unit := Reset_counts t.

Definition Success (_ : Context) (t : Time) (_ : Duration) : M (Opener U) unit :=
  zoom legitimateAttemptsCountL (Inc t).

(** [ErrFailure] and [ErrTimeout] have the same body. *)
Definition ErrFailure (_ : Context) (t : Time) (_ : Duration) : M (Opener U) unit :=
  do! zoom legitimateAttemptsCountL (Inc t);
  zoom errorsCountL (Inc t).
Definition ErrTimeout (_ : Context) (t : Time) (_ : Duration) : M (Opener U) unit :=
  do! zoom legitimateAttemptsCountL (Inc t);
  zoom errorsCountL (Inc t).

Definition ShouldOpen (_ : Context) (t : Time) : M (Opener U) bool :=
  let! attemptCount := zoom legitimateAttemptsCountL (RollingSumAt t) in
  let! e := gets (fun e => e) in
  if (attemptCount =? 0) || (attemptCount <? requestVolumeThreshold e) then ret false
  else
    let! errCount := zoom errorsCountL (RollingSumAt t) in
    let! e := gets (fun e => e) in
    ret (wrap64 (errorPercentage e * attemptCount) <=? wrap64 (errCount * 100)).

Definition Prevent (_ : Context) (_ : Time) : M (Opener U) bool := ret false.

Definition errPercentage (t : Time) : M (Opener U) float64 :=
  let! attemptCount := zoom legitimateAttemptsCountL (RollingSumAt t) in
  if attemptCount =? 0 then ret (float64_of_int (-1))
  else
    let! errCount := zoom errorsCountL (RollingSumAt t) in
    ret (fdiv (float64_of_int errCount) (float64_of_int attemptCount)).

Definition Config (e : Opener U) : ConfigureOpener U := config e.
End Methods.

(** ** The interface *)

#[export] Instance Opener_ClosedToOpen U : ClosedToOpen (Opener U) := {|
  opener_run := {|
    Metrics.Success := Success;
    Metrics.ErrFailure := ErrFailure;
    Metrics.ErrTimeout := ErrTimeout;
    ErrBadRequest _ _ _ := ret tt;
    ErrInterrupt _ _ _ := ret tt;
    ErrConcurrencyLimitReject _ _ := ret tt;
    ErrShortCircuit _ _ := ret tt
  |};
  opener_metrics := {| Metrics.Closed := Closed; Metrics.Opened := Opened |};
  Closers.ShouldOpen := ShouldOpen;
  Closers.Prevent := Prevent
|}.

(** * The laws of the interface *)

Section Laws.
Context {U : Type}.
Implicit Types e : Opener U.

Definition opener_ok e : Prop := counter_ok (errorsCount e) /\ counter_ok (legitimateAttemptsCount e).

Lemma errors_safe {A} (m : M RollingCounter A) : safe counter_ok m -> safe opener_ok (zoom errorsCountL m).
Proof. intros H. eapply safe_zoom; [exact H | |]; unfold opener_ok; simpl; tauto. Qed.

Lemma attempts_safe {A} (m : M RollingCounter A) :
  safe counter_ok m -> safe opener_ok (zoom legitimateAttemptsCountL m).
Proof. intros H. eapply safe_zoom; [exact H | |]; unfold opener_ok; simpl; tauto. Qed.

Hint Resolve errors_safe attempts_safe : go_safe.

#[export] Instance Opener_laws : ClosedToOpenLaws (Opener U) opener_ok.
Proof.
  split; intros.
  - intros k ctx t d. destruct k; simpl; try apply safe_ret;
      unfold Success, ErrFailure, ErrTimeout; safe_go ltac:(eauto with go_safe).
  - simpl. unfold Opened, Reset_counts. safe_go ltac:(eauto with go_safe).
  - simpl. unfold Closed, Reset_counts. safe_go ltac:(eauto with go_safe).
  - simpl. unfold ShouldOpen. safe_go ltac:(eauto with go_safe).
  - apply safe_ret.
Qed.
End Laws.

(** * Specification *)

(** A legitimate attempt is a success, a failure or a timeout; the last two are errors. *)
Definition is_attempt (k : run_kind) : bool :=
  match k with KSuccess | KErrFailure | KErrTimeout => true | _ => false end.
Definition is_error (k : run_kind) : bool :=
  match k with KErrFailure | KErrTimeout => true | _ => false end.

(** The instants of the reports of a class since the last transition. *)
Definition counted_step (p : run_kind -> bool) (ts : list Time) (x : told) : list Time :=
  match x with
  | Reported k t _ => if p k then ts ++ [t] else ts
  | Transitioned _ _ => []
  end.
Definition counted (p : run_kind -> bool) (h : list told) : list Time :=
  foldl (counted_step p) [] h.

(** The decision of an opener told [h]: enough attempts, and errors at the threshold or above. *)
Definition should_open (volume percent w n : Z) (start now : Time) (h : list told) : bool :=
  let attempts := in_window w n start now (counted is_attempt h) in
  let errors := in_window w n start now (counted is_error h) in
  negb (attempts =? 0) && (volume <=? attempts) && (percent * attempts <=? errors * 100).

Lemma counted_length p ts h : zlen (foldl (counted_step p) ts h) <= zlen ts + zlen h.
Proof.
  unfold zlen. revert ts. induction h as [|x h IH]; intros ts; simpl; [lia |].
  specialize (IH (counted_step p ts x)). destruct x as [k t d|o t]; simpl in *.
  - destruct (p k); [rewrite length_app in IH; simpl in IH |]; lia.
  - simpl in IH. lia.
Qed.

Section History.
Context {U : Type} (w n : Z) (start now : Time).
Hypothesis Hw : 0 < w.
Hypothesis Hn : 0 < n.
Hypothesis Hnow : start <= now.
Hypothesis Hrange : now - start <= max_int64.
Implicit Types e : Opener U.

Definition knows (errs atts : list Time) e : Prop :=
  fed w n start now errs (errorsCount e) /\ fed w n start now atts (legitimateAttemptsCount e).

Definition same_settings e e' : Prop :=
  errorPercentage e' = errorPercentage e /\ requestVolumeThreshold e' = requestVolumeThreshold e.

Lemma knows_inc_attempts errs atts t e :
  knows errs atts e -> start <= t <= now ->
  exists e', zoom legitimateAttemptsCountL (Inc t) e = (Ret tt, e') /\
    knows errs (atts ++ [t]) e' /\ same_settings e e'.
Proof.
  intros [He Ha] Ht. destruct (fed_inc w n start now atts t _ Ha Ht) as (c & E & Hc).
  unfold zoom. cbn [view legitimateAttemptsCountL]. rewrite E. by eexists.
Qed.

Lemma knows_inc_errors errs atts t e :
  knows errs atts e -> start <= t <= now ->
  exists e', zoom errorsCountL (Inc t) e = (Ret tt, e') /\
    knows (errs ++ [t]) atts e' /\ same_settings e e'.
Proof.
  intros [He Ha] Ht. destruct (fed_inc w n start now errs t _ He Ht) as (c & E & Hc).
  unfold zoom. cbn [view errorsCountL]. rewrite E. by eexists.
Qed.

Lemma knows_reset errs atts t e :
  knows errs atts e -> start <= t <= now ->
  exists e', Reset_counts t e = (Ret tt, e') /\ knows [] [] e' /\ same_settings e e'.
Proof.
  intros [He Ha] Ht. destruct (fed_reset w n start now Hw Hn Hrange errs t _ He Ht) as (c & E & Hc).
  destruct (fed_reset w n start now Hw Hn Hrange atts t _ Ha Ht) as (c2 & E2 & Hc2).
  unfold Reset_counts, bind, zoom. cbn [view errorsCountL legitimateAttemptsCountL]. rewrite E.
  cbn [upd errorsCountL legitimateAttemptsCount]. rewrite E2. by eexists.
Qed.

Lemma knows_attempt_and_error errs atts t e :
  knows errs atts e -> start <= t <= now ->
  exists e', (do! zoom legitimateAttemptsCountL (Inc t); zoom errorsCountL (Inc t)) e = (Ret tt, e') /\
    knows (errs ++ [t]) (atts ++ [t]) e' /\ same_settings e e'.
Proof.
  intros H Ht. destruct (knows_inc_attempts _ _ t _ H Ht) as (e1 & E1 & H1 & [S1 S1']).
  destruct (knows_inc_errors _ _ t _ H1 Ht) as (e2 & E2 & H2 & [S2 S2']).
  exists e2. rewrite (bind_run _ _ _ _ _ E1). split; [done |]. split; [done |]. split; congruence.
Qed.

Lemma knows_tell errs atts x e :
  knows errs atts e -> start <= told_time x <= now ->
  exists e', tell_opener x e = (Ret tt, e') /\
    knows (counted_step is_error errs x) (counted_step is_attempt atts x) e' /\ same_settings e e'.
Proof.
  intros H Ht. destruct x as [k t d|o t].
  - destruct k; simpl; try (by exists e).
    + by apply knows_inc_attempts.
    + by apply knows_attempt_and_error.
    + by apply knows_attempt_and_error.
  - destruct o; apply (knows_reset _ _ t e H Ht).
Qed.

Lemma knows_history errs atts h e :
  knows errs atts e -> Forall (fun x => start <= told_time x <= now) h ->
  exists e', range_do tell_opener h e = (Ret tt, e') /\
    knows (foldl (counted_step is_error) errs h) (foldl (counted_step is_attempt) atts h) e' /\
    same_settings e e'.
Proof.
  revert errs atts e. induction h as [|x h IH]; intros errs atts e H Hh; simpl; [by exists e |].
  apply Forall_cons in Hh as [Hx Hh]. destruct (knows_tell errs atts x e H Hx) as (e1 & E1 & H1 & [S1 S1']).
  destruct (IH _ _ e1 H1 Hh) as (e2 & E2 & H2 & [S2 S2']).
  exists e2. rewrite (bind_run _ _ _ _ _ E1). split; [done |]. split; [done |]. split; congruence.
Qed.

(** The counters of an opener that knows its history, and its decision. *)
Lemma ShouldOpen_knows ctx errs atts e :
  knows errs atts e -> zlen errs * 100 <= max_int64 -> zlen atts <= max_int64 ->
  0 <= errorPercentage e -> errorPercentage e * zlen atts <= max_int64 ->
  exists e', ShouldOpen ctx now e
    = (Ret (let a := in_window w n start now atts in
            negb (a =? 0) && (requestVolumeThreshold e <=? a) &&
            (errorPercentage e * a <=? in_window w n start now errs * 100)), e') /\
    knows errs atts e' /\ same_settings e e'.
Proof.
  intros [He Ha] Hle Hla Hp Hpa.
  destruct (fed_sum w n start now Hw Hn Hnow Hrange atts _ Ha Hla) as (c1 & E1 & Hc1).
  destruct (fed_sum w n start now Hw Hn Hnow Hrange errs _ He) as (c2 & E2 & Hc2);
    [unfold zlen in *; lia |].
  pose proof (in_window_bounds w n start now atts). pose proof (in_window_bounds w n start now errs).
  unfold ShouldOpen, bind at 1, zoom at 1. cbn [view legitimateAttemptsCountL]. rewrite E1.
  cbn [upd legitimateAttemptsCountL]. set (a := in_window w n start now atts) in *.
  unfold bind at 1, gets at 1. cbn [requestVolumeThreshold]. cbv zeta.
  destruct (Z.eqb_spec a 0) as [Hz|Hz]; cbn [orb negb andb]; [by eexists |].
  destruct (Z.ltb_spec a (requestVolumeThreshold e)) as [Hv|Hv].
  { rewrite (proj2 (Z.leb_gt _ _)) by lia. by eexists. }
  rewrite (proj2 (Z.leb_le (requestVolumeThreshold e) a)) by lia.
  unfold bind at 1, zoom. cbn [view errorsCountL errorsCount]. rewrite E2.
  unfold bind, gets, ret. cbn [errorPercentage upd errorsCountL].
  rewrite !wrap64_id by (unfold min_int64, max_int64 in *; nia). by eexists.
Qed.
End History.

(** What [OpenerFactory] makes of its configuration. *)
Section Factory.
  Context {U : Type} (time_Now : M U Time).

Definition effective (cfg : ConfigureOpener U) : ConfigureOpener U :=
  usable_buckets time_Now (Merge cfg (defaultConfigureOpener time_Now)).

Lemma effective_positive cfg :
  0 < NumBuckets (effective cfg) /\ 0 < RollingDuration (effective cfg).
Proof.
  unfold effective, usable_buckets. simpl. unfold Second.
  repeat match goal with |- context [if ?b then _ else _] => destruct b eqn:? end; bdestr; lia.
Qed.

Lemma OpenerFactory_spec cfg u e u' :
  OpenerFactory time_Now cfg u = (Ret e, u') ->
  let c := effective cfg in let w := Z.quot (RollingDuration c) (NumBuckets c) in
  exists start, now time_Now c u = (Ret start, u') /\
    NewRollingCounter w (NumBuckets c) start = Ret (errorsCount e) /\
    NewRollingCounter w (NumBuckets c) start = Ret (legitimateAttemptsCount e) /\
    errorPercentage e = ErrorThresholdPercentage c /\ requestVolumeThreshold e = RequestVolumeThreshold c.
Proof.
  unfold OpenerFactory, SetConfigNotThreadSafe. cbv zeta. fold (effective cfg).
  set (c := effective cfg). unfold bind, zoom, SetConfigThreadSafe, modify, of_outcome. cbn [view upd fst snd].
  destruct (now time_Now c u) as [[start| | |] u1] eqn:E; try discriminate.
  set (o := NewRollingCounter _ _ start).
  destruct o as [rc| | |] eqn:Eo; try discriminate.
  intros [= <- <-]. exists start. subst o. by rewrite Eo.
Qed.

(** An opener from the factory obeys the laws, also one whose windows are too short to count. *)
Lemma OpenerFactory_ok cfg u e u' :
  let c := effective cfg in let w := Z.quot (RollingDuration c) (NumBuckets c) in
  OpenerFactory time_Now cfg u = (Ret e, u') ->
  (0 < w -> max_int64 / w + NumBuckets c <= max_int64) -> opener_ok e.
Proof.
  intros c w Hf Hm. destruct (OpenerFactory_spec _ _ _ _ Hf) as (start & _ & Ee & Ea & _).
  fold c w in Ee, Ea. clearbody w c.
  assert (H : forall r, NewRollingCounter w (NumBuckets c) start = Ret r -> counter_ok r).
  { intros r Hr. destruct (Z.lt_ge_cases 0 w) as [Hw|Hw]; [eapply NewRollingCounter_ok; eauto |].
    revert Hr. unfold NewRollingCounter. destruct (Z.ltb_spec (NumBuckets c) 0); [done |]. intros [= <-].
    split; [| split; [done | right; left; by right]]. unfold counter_shape, zlen.
    cbn [buckets rollingBucket RollingBuckets.NumBuckets]. rewrite length_replicate. lia. }
  split; by apply H.
Qed.

(** It is made whenever the clock returns. *)
Lemma OpenerFactory_total cfg u start u' :
  now time_Now (effective cfg) u = (Ret start, u') -> exists e, OpenerFactory time_Now cfg u = (Ret e, u').
Proof.
  intros E. destruct (effective_positive cfg) as [Hn _].
  unfold OpenerFactory, SetConfigNotThreadSafe. cbv zeta. fold (effective cfg).
  set (c := effective cfg) in *. unfold bind, zoom, SetConfigThreadSafe, modify, of_outcome. cbn [view upd fst snd].
  rewrite E. unfold NewRollingCounter. destruct (Z.ltb_spec (NumBuckets c) 0); [lia |]. by eexists.
Qed.
End Factory.
End Opener.

(** The instances of the interface, for the clients. *)
Export (hints) Opener.

(** * Properties *)

(** C13: the hystrix opener opens exactly at the error rate.  Take an opener made by its factory
    and any history of reports and transitions, in any order, up to [now].  Then [ShouldOpen now]
    is true exactly when, among the reports of the window since the last transition, the
    successes, failures and timeouts reach [RequestVolumeThreshold] (and are not none) and the
    failures and timeouts are at least [ErrorThresholdPercentage] per cent of them, without any
    rounding.  Bad requests, interrupts and rejections do not count. *)
Theorem hystrix_opens_at_error_rate {U} (time_Now : M U Time) cfg u e u' h now :
  let c := Opener.effective time_Now cfg in
  let n := Opener.NumBuckets c in
  let w := Z.quot (Opener.RollingDuration c) n in
  let start := StartTime (rollingBucket (Opener.errorsCount e)) in
  Opener.OpenerFactory time_Now cfg u = (Ret e, u') ->
  0 < w -> max_int64 / w + n <= max_int64 ->
  Forall (fun x => start <= told_time x <= now) h -> start <= now -> now - start <= max_int64 ->
  zlen h * 100 <= max_int64 ->
  0 <= Opener.ErrorThresholdPercentage c -> Opener.ErrorThresholdPercentage c * zlen h <= max_int64 ->
  exists e1 e2, range_do tell_opener h e = (Ret tt, e1) /\
    ShouldOpen Background now e1
    = (Ret (Opener.should_open (Opener.RequestVolumeThreshold c) (Opener.ErrorThresholdPercentage c)
              w n start now h), e2).
Proof.
  intros c n w start Hf Hw Hm Hh Hnow Hrange Hlen Hp0 Hp.
  destruct (Opener.OpenerFactory_spec _ _ _ _ _ Hf) as (s & _ & Ee & Ea & Epct & Evol).
  fold c n w in Ee, Ea, Epct, Evol.
  assert (Hs : start = s).
  { unfold start. revert Ee. unfold NewRollingCounter. destruct (n <? 0); [done |]. by intros [= <-]. }
  rewrite <- Hs in Ee, Ea.
  assert (Hn : 0 < n) by apply (Opener.effective_positive time_Now cfg).
  destruct (Opener.knows_history w n start now Hw Hn Hrange [] [] h e) as (e1 & E1 & H1 & [S1 S1']);
    [split; by apply fed_new | done |].
  pose proof (Opener.counted_length Opener.is_error [] h).
  pose proof (Opener.counted_length Opener.is_attempt [] h).
  destruct (Opener.ShouldOpen_knows w n start now Hw Hn Hnow Hrange Background _ _ e1 H1) as (e2 & E2 & _).
  - unfold zlen in *. simpl in *. lia.
  - unfold zlen in *. simpl in *. lia.
  - congruence.
  - rewrite S1, Epct. unfold zlen in *. simpl in *. nia.
  - exists e1, e2. split; [done |]. simpl. rewrite E2. by rewrite S1, S1', Epct, Evol.
Qed.

(** Two errors in four attempts, a fifth attempt outside the window, and a reset before. *)
Definition opener_history : list told :=
  [Reported KErrFailure 1001 1; Transitioned true 1001; Transitioned false 1002;
   Reported KErrFailure 1003 1; Reported KSuccess 1120 1; Reported KErrTimeout 1130 5;
   Reported KErrInterrupt 1140 5; Reported KSuccess 1150 1; Reported KErrFailure 1160 1].

Lemma hystrix_opens_at_error_rate_witness :
  let wall : M Z Time := fun u => (Ret u, u) in
  let cfg := Opener.mkConfigureOpener 50 4 None 100 10 in
  let e := mkRollingCounter (replicate 10 0) 0 (mkRollingBuckets 10 1000 10 0) in
  exists e1 e2, range_do tell_opener opener_history
      (Opener.mkOpener e e 50 4 (Opener.effective wall cfg)) = (Ret tt, e1) /\
    ShouldOpen Background 1165 e1 = (Ret true, e2).
Proof.
  intros wall cfg e.
  apply (hystrix_opens_at_error_rate wall cfg 1000
    (Opener.mkOpener e e 50 4 (Opener.effective wall cfg)) 1000 opener_history 1165);
    first [reflexivity | vm_compute; congruence | idtac].
  repeat constructor; vm_compute; congruence.
Defined.
