(* ===== verification/HystrixCloser.v ===== *)
(** closers/hystrix/closer.go: the half-open logic of a circuit, and its implementation of the
    interface [OpenToClosed].

    [openedAt] and [closedAt] are the atomic pointers (nil is [None]).  The sleep window is a
    [TimedCheck]; its timer is part of the environment, so a history of a closer interleaves
    calls with timer callbacks of any version.  The mutex of [Closer] guards [config] alone and
    is never held across a call, so it is not part of the model.  [arm] and [Closed] are the
    sequences of their atomic steps; a method is one step of its caller
    (ConcurrentCloser.v interleaves the steps of many). *)

From S2P Require Import Prelude GoMonad TimedCheck Metrics Closers.

Module Closer.

(** * Data *)

Record ConfigureCloser := mkConfigureCloser {
  AfterFunc : option nat;
  SleepWindow : Duration;
  HalfOpenAttempts : Z;
  RequiredConcurrentSuccessful : Z
}.

Record Closer := mkCloser {
  reopenCircuitCheck : TimedCheck;
  concurrentSuccessfulAttempts : Z;
  closeOnCurrentCount : Z;
  openedAt : option Time;
  closedAt : option Time;
  sleepWindow : Duration;
  config : ConfigureCloser;
  TimeAfterFunc : option nat   (* reopenCircuitCheck.TimeAfterFunc *)
}.

Definition reopenCircuitCheckL : lens Closer TimedCheck := Lens reopenCircuitCheck (fun c s =>
  mkCloser c (concurrentSuccessfulAttempts s) (closeOnCurrentCount s) (openedAt s) (closedAt s)
    (sleepWindow s) (config s) (TimeAfterFunc s)).

Definition set_attempts (n : Z) (s : Closer) : Closer :=
  mkCloser (reopenCircuitCheck s) n (closeOnCurrentCount s) (openedAt s) (closedAt s)
    (sleepWindow s) (config s) (TimeAfterFunc s).

Definition set_openedAt (t : option Time) (s : Closer) : Closer :=
  mkCloser (reopenCircuitCheck s) (concurrentSuccessfulAttempts s) (closeOnCurrentCount s) t (closedAt s)
    (sleepWindow s) (config s) (TimeAfterFunc s).

Definition set_closedAt (t : option Time) (s : Closer) : Closer :=
  mkCloser (reopenCircuitCheck s) (concurrentSuccessfulAttempts s) (closeOnCurrentCount s) (openedAt s) t
    (sleepWindow s) (config s) (TimeAfterFunc s).

(** * Configuration *)

Definition Merge (c other : ConfigureCloser) : ConfigureCloser :=
  mkConfigureCloser
    (match AfterFunc c with None => AfterFunc other | Some f => Some f end)
    (if SleepWindow c =? 0 then SleepWindow other else SleepWindow c)
    (if HalfOpenAttempts c =? 0 then HalfOpenAttempts other else HalfOpenAttempts c)
    (if RequiredConcurrentSuccessful c =? 0 then RequiredConcurrentSuccessful other
     else RequiredConcurrentSuccessful c).

Definition ConfigureCloser_zero : ConfigureCloser := mkConfigureCloser None 0 0 0.

Definition defaultConfigureCloser : ConfigureCloser := mkConfigureCloser None (5 * Second) 1 1.

Definition SetConfigThreadSafe (cfg : ConfigureCloser) : M Closer unit :=
  do! modify (fun s => mkCloser (reopenCircuitCheck s) (concurrentSuccessfulAttempts s)
    (closeOnCurrentCount s) (openedAt s) (closedAt s) (sleepWindow s) cfg (TimeAfterFunc s));
  do! zoom reopenCircuitCheckL (SetSleepDuration (SleepWindow cfg));
  do! modify (fun s => mkCloser (reopenCircuitCheck s) (concurrentSuccessfulAttempts s)
    (closeOnCurrentCount s) (openedAt s) (closedAt s) (SleepWindow cfg) (config s) (TimeAfterFunc s));
  do! zoom reopenCircuitCheckL (SetEventCountToAllow (HalfOpenAttempts cfg));
  modify (fun s => mkCloser (reopenCircuitCheck s) (concurrentSuccessfulAttempts s)
    (RequiredConcurrentSuccessful cfg) (openedAt s) (closedAt s) (sleepWindow s) (config s) (TimeAfterFunc s)).

Definition SetConfigNotThreadSafe (cfg : ConfigureCloser) : M Closer unit :=
  do! modify (fun s => mkCloser (reopenCircuitCheck s) (concurrentSuccessfulAttempts s)
    (closeOnCurrentCount s) (openedAt s) (closedAt s) (sleepWindow s) (config s) (AfterFunc cfg));
  SetConfigThreadSafe cfg.

(** [s := Closer{}] *)
Definition Closer_zero : Closer :=
  mkCloser TimedCheck_zero 0 0 None None 0 ConfigureCloser_zero None.

Definition CloserFactory (config : ConfigureCloser) : outcome Closer :=
  let cfg := Merge config defaultConfigureCloser in
  match SetConfigNotThreadSafe cfg Closer_zero with
  | (Ret _, s) => Ret s
  | (Panic p, _) => Panic p
  | (Deadlock, _) => Deadlock
  | (OutOfFuel, _) => OutOfFuel
  end.

Definition Config (s : Closer) : ConfigureCloser := config s.

(** * Operations *)

Definition arm (now : Time) (force : bool) : M Closer unit :=
  do! zoom reopenCircuitCheckL (SleepStart now);
  do! modify (fun s =>
    if force then set_openedAt (Some now) s
    else match openedAt s with None => set_openedAt (Some now) s | Some _ => s end);
  modify (set_attempts 0).

Definition Opened (_ : Context) (now : Time) : M Closer unit := arm now true.

Definition Closed (_ : Context) (now : Time) : M Closer unit :=
  do! modify (set_closedAt (Some now));
  do! modify (set_openedAt None);
  modify (set_attempts 0).

Definition Allow (_ : Context) (now : Time) : M Closer bool :=
  let! s := gets (fun s => s) in
  match openedAt s with
  | None =>
      if match closedAt s with Some t => time_Sub now t <? sleepWindow s | None => false end
      then ret false
      else do! arm now false; ret false
  | Some _ => zoom reopenCircuitCheckL (Check now)
  end.

(** [now.Add(-duration).After( *openedAt)] *)
Definition startedWhileOpen (now : Time) (duration : Duration) (s : Closer) : bool :=
  match openedAt s with
  | Some t => time_After (time_Add now (wrap64 (- duration))) t
  | None => false
  end.

Definition Success (_ : Context) (now : Time) (duration : Duration) : M Closer unit :=
  let! started := gets (startedWhileOpen now duration) in
  if started : bool
  then modify (fun s => set_attempts (wrap64 (concurrentSuccessfulAttempts s + 1)) s)
  else ret tt.

(** [ErrFailure] and [ErrTimeout] have the same body. *)
Definition ErrFailure (_ : Context) (now : Time) (duration : Duration) : M Closer unit :=
  let! started := gets (startedWhileOpen now duration) in
  if started : bool then modify (set_attempts 0) else ret tt.
Definition ErrTimeout (_ : Context) (now : Time) (duration : Duration) : M Closer unit :=
  let! started := gets (startedWhileOpen now duration) in
  if started : bool then modify (set_attempts 0) else ret tt.

Definition ShouldClose (_ : Context) (_ : Time) : M Closer bool :=
  gets (fun s => closeOnCurrentCount s <=? concurrentSuccessfulAttempts s).

#[export] Instance Closer_OpenToClosed : OpenToClosed Closer := {|
  closer_run := {|
    Metrics.Success := Success;
    Metrics.ErrFailure := ErrFailure;
    Metrics.ErrTimeout := ErrTimeout;
    ErrBadRequest _ _ _ := ret tt;
    ErrInterrupt _ _ _ := ret tt;
    ErrConcurrencyLimitReject _ _ := ret tt;
    ErrShortCircuit _ _ := ret tt
  |};
  closer_metrics := {| Metrics.Closed := Closed; Metrics.Opened := Opened |};
  Closers.ShouldClose := ShouldClose;
  Closers.Allow := Allow
|}.

(** * Invariant and laws

    The settings of the sleep window are those of the closer, and its count is in range. *)

Definition closer_ok (s : Closer) : Prop :=
  gate_ok (reopenCircuitCheck s) /\ sleepDuration (reopenCircuitCheck s) = sleepWindow s.

Lemma SleepStart_gate now c :
  exists c', SleepStart now c = (Ret tt, c') /\ (gate_ok c -> gate_ok c') /\
    sleepDuration c' = sleepDuration c /\ eventCountToAllow c' = eventCountToAllow c /\
    isFastFail c' = true /\ nextOpenTime c' = time_Add now (sleepDuration c).
Proof.
  eexists. split; [done |]. unfold gate_ok, window_quota. simpl. split; [lia |]. done.
Qed.

Lemma Check_gate now c :
  gate_ok c -> exists b c', Check now c = (Ret b, c') /\ gate_ok c' /\
    sleepDuration c' = sleepDuration c /\ eventCountToAllow c' = eventCountToAllow c.
Proof.
  intros Hok. unfold Check, bind, gets. destruct (isFastFail c); [by exists false, c |].
  unfold time_After. destruct (Z.ltb_spec now (nextOpenTime c)); [by exists false, c |].
  unfold checkLocked, bind, gets, count_event, modify, time_After. simpl.
  destruct (Z.ltb_spec now (nextOpenTime c)); [lia |]. cbv beta. simpl.
  unfold gate_ok, window_quota in *. rewrite wrap64_id by (unfold min_int64, max_int64 in *; lia).
  destruct (Z.leb_spec (eventCountToAllow c) (currentlyAllowedEventCount c + 1)); simpl;
    eexists _, _; (split; [done |]); simpl; lia.
Qed.

Lemma arm_spec now force s :
  closer_ok s -> exists s', arm now force s = (Ret tt, s') /\ closer_ok s' /\
    concurrentSuccessfulAttempts s' = 0 /\ closeOnCurrentCount s' = closeOnCurrentCount s /\
    openedAt s' = (if force then Some now else match openedAt s with None => Some now | o => o end) /\
    closedAt s' = closedAt s /\ sleepWindow s' = sleepWindow s /\
    isFastFail (reopenCircuitCheck s') = true /\
    nextOpenTime (reopenCircuitCheck s') = time_Add now (sleepWindow s) /\
    eventCountToAllow (reopenCircuitCheck s') = eventCountToAllow (reopenCircuitCheck s).
Proof.
  intros [Hg Hs]. unfold arm, bind, zoom, modify. cbn [view reopenCircuitCheckL].
  destruct (SleepStart_gate now (reopenCircuitCheck s)) as (c' & -> & Hg' & Hs' & He & Hf & Hn).
  eexists. split; [done |]. specialize (Hg' Hg).
  destruct force; [| destruct (openedAt s) eqn:Eo]; simpl; rewrite ?Eo;
    (split; [split; [exact Hg' | simpl; congruence] |]); repeat split; simpl; congruence.
Qed.

#[export] Instance Closer_laws : OpenToClosedLaws Closer closer_ok.
Proof.
  assert (Hadd : forall n, safe closer_ok (modify (set_attempts n))) by (intros n; by apply safe_modify).
  split.
  - intros k ctx t d. destruct k; simpl; try apply safe_ret;
      (apply safe_bind; [apply safe_gets | intros b; destruct b; [by apply safe_modify | apply safe_ret]]).
  - intros ctx t s Hs. destruct (arm_spec t true s Hs) as (s' & E & Hs' & _). by exists tt, s'.
  - intros ctx t s Hs. by eexists _, _.
  - intros ctx t s Hs. by eexists _, _.
  - intros ctx t s Hs. simpl. unfold Allow, bind at 1, gets. destruct (openedAt s) eqn:Eo.
    + unfold zoom. cbn [view reopenCircuitCheckL]. destruct Hs as [Hg Hs].
      destruct (Check_gate t _ Hg) as (b & c' & -> & Hg' & Hs' & _).
      exists b. eexists. split; [done |]. split; [done |]. simpl. congruence.
    + destruct (match closedAt s with Some t0 => _ | None => _ end); [by exists false, s |].
      destruct (arm_spec t false s Hs) as (s' & E & Hs' & _). exists false, s'.
      unfold bind. by rewrite E.
Qed.

Lemma CloserFactory_ok cfg s :
  CloserFactory cfg = Ret s -> HalfOpenAttempts (Merge cfg defaultConfigureCloser) <= max_int64 ->
  closer_ok s /\ openedAt s = None /\ closedAt s = None /\
  sleepWindow s = SleepWindow (Merge cfg defaultConfigureCloser) /\
  closeOnCurrentCount s = RequiredConcurrentSuccessful (Merge cfg defaultConfigureCloser) /\
  eventCountToAllow (reopenCircuitCheck s) = HalfOpenAttempts (Merge cfg defaultConfigureCloser) /\
  concurrentSuccessfulAttempts s = 0.
Proof.
  intros H Hh. unfold CloserFactory in H. set (c := Merge cfg defaultConfigureCloser) in *. clearbody c.
  injection H as <-. split; [| done]. split; [| done]. unfold gate_ok, window_quota. simpl. lia.
Qed.
(** * Histories

    What happens to a closer: it is told a result or a transition, asked for a probe, or a
    timer of its sleep window (of whatever version) fires. *)

Inductive closer_event :=
| Told (x : told)
| AskAllow (now : Time)
| TimerFired (version : Z).

Definition closer_step (e : closer_event) : M Closer (option Time) :=
  match e with
  | Told x => do! tell_closer x; ret None
  | AskAllow now => let! ok := Closers.Allow Background now in ret (if ok : bool then Some now else None)
  | TimerFired v => do! zoom reopenCircuitCheckL (timerFired v); ret None
  end.

Definition run_closer (h : list closer_event) : M Closer unit :=
  range_do (fun e => do! closer_step e; ret tt) h.

(** The instants of the probes granted, in order. *)
Fixpoint probes (h : list closer_event) (s : Closer) : list Time :=
  match h with
  | [] => []
  | e :: h' =>
      match closer_step e s with
      | (Ret (Some t), s') => t :: probes h' s'
      | (_, s') => probes h' s'
      end
  end.

Definition ask_time (e : closer_event) : option Time :=
  match e with AskAllow t => Some t | _ => None end.

Definition is_transition (e : closer_event) : bool :=
  match e with Told (Transitioned _ _) => true | _ => false end.

Definition report_sane (e : closer_event) : Prop :=
  match e with Told (Reported _ _ d) => - max_int64 <= d <= max_int64 | _ => True end.

(** The number of successes in a row at the end of a history (given backwards) of an episode
    opened at [t0], among the commands that started after [t0]; other outcomes of such commands
    than failures and timeouts do not break the row. *)
Fixpoint streak (t0 : Time) (back : list closer_event) : Z :=
  match back with
  | [] => 0
  | Told (Reported k t d) :: back' =>
      if t0 <? t - d then
        match k with
        | KSuccess => 1 + streak t0 back'
        | KErrFailure | KErrTimeout => 0
        | _ => streak t0 back'
        end
      else streak t0 back'
  | _ :: back' => streak t0 back'
  end.

(** ** One event of an open episode *)

Lemma startedWhileOpen_spec t d t0 s :
  openedAt s = Some t0 -> - max_int64 <= d <= max_int64 -> startedWhileOpen t d s = (t0 <? t - d).
Proof.
  intros Ho Hd. unfold startedWhileOpen. rewrite Ho. unfold time_After, time_Add.
  rewrite wrap64_id by (unfold min_int64, max_int64 in *; lia). f_equal; lia.
Qed.

Lemma Allow_open ctx t t0 s :
  openedAt s = Some t0 -> Allow ctx t s = zoom reopenCircuitCheckL (Check t) s.
Proof. intros Ho. unfold Allow, bind, gets. by rewrite Ho. Qed.

Lemma ask_open t t0 s :
  openedAt s = Some t0 ->
  closer_step (AskAllow t) s
  = (let! b := zoom reopenCircuitCheckL (Check t) in ret (if b : bool then Some t else None)) s.
Proof. intros Ho. cbn [closer_step Closers.Allow Closer_OpenToClosed]. unfold bind. by rewrite (Allow_open _ _ t0). Qed.

(** What every event of an open episode keeps. *)
Definition same_episode (s s' : Closer) : Prop :=
  openedAt s' = openedAt s /\ closeOnCurrentCount s' = closeOnCurrentCount s /\
  sleepWindow s' = sleepWindow s.

Lemma closer_step_open e s t0 :
  closer_ok s -> openedAt s = Some t0 -> is_transition e = false -> report_sane e ->
  exists o s', closer_step e s = (Ret o, s') /\ closer_ok s' /\ same_episode s s' /\
    concurrentSuccessfulAttempts s'
    = match e with
      | Told (Reported k t d) =>
          if t0 <? t - d then
            match k with
            | KSuccess => wrap64 (concurrentSuccessfulAttempts s + 1)
            | KErrFailure | KErrTimeout => 0
            | _ => concurrentSuccessfulAttempts s
            end
          else concurrentSuccessfulAttempts s
      | _ => concurrentSuccessfulAttempts s
      end.
Proof.
  intros Hok Ho Ht Hd. destruct e as [[k t d|]|t|v]; [| done | |].
  - unfold closer_step, bind at 1. simpl in Hd.
    pose proof (startedWhileOpen_spec t d t0 s Ho Hd) as Hst.
    destruct k; simpl; try (exists None, s; split; [done |]; split; [done |]; split; [done |];
      by destruct (t0 <? t - d));
      unfold Success, ErrFailure, ErrTimeout, bind, gets; rewrite Hst; destruct (t0 <? t - d); by eexists _, _.
  - rewrite (ask_open t t0 s Ho). unfold bind, zoom. cbn [view reopenCircuitCheckL].
    destruct Hok as [Hg Hs]. destruct (Check_gate t _ Hg) as (b & c' & -> & Hg' & Hs' & _).
    eexists _, _. split; [done |]. split; [split; [done | simpl; congruence] |]. done.
  - unfold closer_step, bind, zoom. cbn [view reopenCircuitCheckL].
    destruct (timerFired_gate v (reopenCircuitCheck s)) as (c' & -> & _ & Hs' & _ & _ & Hg').
    destruct Hok as [Hg Hs]. eexists _, _. split; [done |].
    split; [split; [by apply Hg' | simpl; congruence] |]. done.
Qed.

Lemma run_closer_streak t0 h s :
  closer_ok s -> openedAt s = Some t0 ->
  Forall (fun e => is_transition e = false /\ report_sane e) h ->
  forall back, concurrentSuccessfulAttempts s = streak t0 back -> 0 <= streak t0 back ->
  streak t0 back + zlen h <= max_int64 ->
  exists s', run_closer h s = (Ret tt, s') /\ closer_ok s' /\ same_episode s s' /\
    concurrentSuccessfulAttempts s' = streak t0 (rev h ++ back).
Proof.
  revert s. induction h as [|e h IH]; intros s Hok Ho Hh back Ha H0 Hmax; [by exists s |].
  apply Forall_cons in Hh as [[Ht Hd] Hh].
  destruct (closer_step_open e s t0 Hok Ho Ht Hd) as (o & s1 & E & Hok1 & (Ho1 & Hc1 & Hw1) & Ha1).
  assert (Hstep : concurrentSuccessfulAttempts s1 = streak t0 (e :: back) /\
    0 <= streak t0 (e :: back) <= streak t0 back + 1).
  { rewrite Ha1, Ha. destruct e as [[k t d|]|t|v]; simpl; try lia. destruct (t0 <? t - d); [| lia].
    assert (0 <= zlen h) by apply zlen_nonneg. unfold zlen in *. simpl in Hmax.
    destruct k; try lia. rewrite wrap64_id by (unfold min_int64, max_int64 in *; lia). lia. }
  assert (Hlen : zlen (e :: h) = 1 + zlen h) by (unfold zlen; simpl; lia).
  destruct (IH s1 Hok1 ltac:(congruence) Hh (e :: back)) as (s2 & E2 & Hok2 & (Ho2 & Hc2 & Hw2) & Ha2);
    [apply Hstep | lia | lia |].
  exists s2. split; [| split; [done | split; [repeat split; congruence |]]].
  - unfold run_closer. simpl. unfold bind at 1 2. rewrite E. exact E2.
  - rewrite Ha2. simpl. by rewrite <- app_assoc.
Qed.

Lemma run_closer_app h h' s s' :
  run_closer h s = (Ret tt, s') -> run_closer (h ++ h') s = run_closer h' s'.
Proof. intros H. unfold run_closer in *. rewrite range_do_app. by rewrite (bind_run _ _ _ _ _ H). Qed.

Lemma probes_app h h' s s' :
  run_closer h s = (Ret tt, s') -> probes (h ++ h') s = probes h s ++ probes h' s'.
Proof.
  revert s. induction h as [|e h IH]; intros s H; [by injection H as -> |].
  unfold run_closer in H. cbn [range_do] in H. apply bind_inv in H as ([] & s1 & H1 & H).
  apply bind_inv in H1 as (o & s2 & H1 & H2). injection H2 as ->. cbn [app probes]. rewrite H1.
  rewrite (IH s1 H). by destruct o.
Qed.

(** ** Probes are the grants of the sleep window *)

(** The asks that the fast-fail flag answers leave no trace: the probes of a history are the
    grants of the remaining critical sections. *)
Lemma probes_are_grants h s t0 :
  closer_ok s -> openedAt s = Some t0 ->
  Forall (fun e => is_transition e = false /\ report_sane e) h ->
  exists es, probes h s = grants es (reopenCircuitCheck s) /\
    check_times es `sublist_of` omap ask_time h.
Proof.
  revert s. induction h as [|e h IH]; intros s Hok Ho Hh; [by exists [] |].
  apply Forall_cons in Hh as [[Ht Hd] Hh].
  destruct (closer_step_open e s t0 Hok Ho Ht Hd) as (o & s1 & E & Hok1 & (Ho1 & _) & _).
  destruct (IH s1 Hok1 ltac:(congruence) Hh) as (es & Ep & Hsub).
  destruct e as [[k t d|]|t|v]; [| done | |].
  - exists es. cbn [probes]. rewrite E.
    assert (o = None) as ->.
    { revert E. unfold closer_step, bind, ret. destruct (tell_closer _ s) as [[] s2]; by intros [= <- _]. }
    split; [| done]. rewrite Ep. f_equal. clear -E Ho. revert E. unfold closer_step, bind, ret.
    destruct k; simpl; unfold Success, ErrFailure, ErrTimeout, bind, gets, modify, ret;
      try (by intros [= <-]); destruct (startedWhileOpen t d s); by intros [= <-].
  - assert (Hcheck : closer_step (AskAllow t) s = (let '(b, c) := Check t (reopenCircuitCheck s) in
      (match b with Ret b => Ret (if b : bool then Some t else None) | Panic p => Panic p
       | Deadlock => Deadlock | OutOfFuel => OutOfFuel end, upd reopenCircuitCheckL c s))).
    { rewrite (ask_open t t0 s Ho). unfold bind, zoom. cbn [view reopenCircuitCheckL].
      by destruct (Check t (reopenCircuitCheck s)) as [[[]| | |] c]. }
    rewrite E in Hcheck. cbn [probes]. rewrite E.
    unfold Check, bind, gets in Hcheck. destruct (isFastFail (reopenCircuitCheck s)).
    { injection Hcheck as -> ->. exists es. rewrite Ep. split; [done |].
      change (omap ask_time (AskAllow t :: h)) with (t :: omap ask_time h). by constructor. }
    exists (EvCheck t :: es). split.
    + cbn [grants gate_step]. unfold bind. unfold time_After in Hcheck.
      destruct (Z.ltb_spec t (nextOpenTime (reopenCircuitCheck s))) as [Hlt|Hge].
      * rewrite checkLocked_closed by done. injection Hcheck as -> ->. exact Ep.
      * destruct (checkLocked_open t (reopenCircuitCheck s)) as (c' & Ec & _); [apply Hok | done |].
        rewrite Ec in Hcheck |- *. injection Hcheck as -> ->. cbn [ret]. by rewrite Ep.
    + change (omap ask_time (AskAllow t :: h)) with (t :: omap ask_time h).
      change (check_times (EvCheck t :: es)) with (t :: check_times es). by constructor.
  - exists (EvTimer v :: es). split; [| exact Hsub].
    cbn [probes]. rewrite E. revert E. unfold closer_step, bind, zoom. cbn [view reopenCircuitCheckL].
    destruct (timerFired v (reopenCircuitCheck s)) as [[[]| | |] c'] eqn:Ev; unfold ret; intros [= <- <-].
    rewrite Ep. cbn [grants gate_step]. unfold bind. by rewrite Ev.
Qed.
End Closer.

Export (hints) Closer.

Import Closer.

(** * Properties *)

(** C14: the half-open schedule.  From the moment the circuit opens at [t0], for every history
    of reports, requests for a probe (at non-decreasing instants, none before [t0]) and timer
    callbacks of any version, no probe is granted before [t0 + SleepWindow], and no interval as
    long as the sleep window contains more than [max 1 HalfOpenAttempts] probes. *)
Theorem half_open_schedule s t0 h x :
  closer_ok s -> 0 <= sleepWindow s ->
  Forall (fun e => is_transition e = false /\ report_sane e) h ->
  StronglySorted Z.le (omap ask_time h) -> Forall (fun t => t0 <= t) (omap ask_time h) ->
  exists s', Opened Background t0 s = (Ret tt, s') /\
    Forall (fun t => t0 + sleepWindow s <= t) (probes h s') /\
    count_if (fun t => (x <=? t) && (t <? x + sleepWindow s)) (probes h s')
      <= Z.max 1 (eventCountToAllow (reopenCircuitCheck s)).
Proof.
  intros Hok Hw Hh Hs Hge.
  destruct (arm_spec t0 true s Hok) as (s' & E & Hok' & _ & _ & Ho & _ & Hsw & _ & Hn & He).
  exists s'. split; [exact E |].
  destruct (probes_are_grants h s' t0 Hok' Ho Hh) as (es & Ep & Hsub). rewrite Ep.
  destruct Hok' as [Hg Hsl]. split.
  - apply grants_after_open; [done | lia | |].
    + unfold time_Add in Hn. lia.
    + eapply Forall_sublist; [exact Hsub |]. eapply Forall_impl; [exact Hge |]. simpl. lia.
  - rewrite <- He. change (Z.max 1 _) with (window_quota (reopenCircuitCheck s')).
    replace (sleepWindow s) with (sleepDuration (reopenCircuitCheck s')) by congruence.
    apply grants_rate_limit; [done | lia |]. by eapply StronglySorted_sublist.
Qed.

(** A closer in use: a window of 10, two probes per window, two successes in a row to close. *)
Definition closer_sample : Closer :=
  mkCloser (mkTimedCheck 10 2 false 4 90 0 (Some 4)) 0 2 None None 10 (mkConfigureCloser None 10 2 2) None.

Lemma closer_sample_ok : closer_ok closer_sample.
Proof. by vm_compute. Qed.

(** Probes at 111, 112 and 125; the asks at 103 and 113 are denied, and so is the one at 122,
    before the timer of the second window has fired. *)
Definition half_open_history : list closer_event :=
  [AskAllow 103; TimerFired 4; AskAllow 111; TimerFired 5; AskAllow 111; Told (Reported KSuccess 111 3);
   AskAllow 112; AskAllow 113; AskAllow 122; TimerFired 6; AskAllow 125].

Lemma half_open_schedule_witness :
  exists s', Opened Background 100 closer_sample = (Ret tt, s') /\
    Forall (fun t => 100 + 10 <= t) (probes half_open_history s') /\
    count_if (fun t => (110 <=? t) && (t <? 110 + 10)) (probes half_open_history s') <= 2.
Proof.
  apply (half_open_schedule closer_sample 100 half_open_history 110).
  - apply closer_sample_ok.
  - vm_compute. congruence.
  - repeat constructor; vm_compute; congruence.
  - repeat constructor; vm_compute; congruence.
  - repeat constructor; vm_compute; congruence.
Defined.

(** C16: what closes a circuit: in an episode opened at [t0], after any history of reports, probe
    requests and timers, [ShouldClose] holds exactly when the successes in a row at the end of
    the history reach [RequiredConcurrentSuccessful], counting only commands that started after
    [t0]: a command already in flight when the circuit opened neither helps nor hurts. *)
Theorem probe_streak_decides_close s t0 h ctx t :
  closer_ok s -> zlen h <= max_int64 ->
  Forall (fun e => is_transition e = false /\ report_sane e) h ->
  exists s1 s2, Opened Background t0 s = (Ret tt, s1) /\ run_closer h s1 = (Ret tt, s2) /\
    ShouldClose ctx t s2 = (Ret (closeOnCurrentCount s <=? streak t0 (rev h)), s2).
Proof.
  intros Hok Hlen Hh.
  destruct (arm_spec t0 true s Hok) as (s1 & E1 & Hok1 & Ha & Hc & Ho & _).
  destruct (run_closer_streak t0 h s1 Hok1 Ho Hh [] Ha) as (s2 & E2 & _ & (_ & Hc2 & _) & Ha2);
    [done | done |].
  exists s1, s2. split; [exact E1 |]. split; [exact E2 |].
  unfold ShouldClose, gets. by rewrite Ha2, app_nil_r, Hc2, Hc.
Qed.

Lemma probe_streak_decides_close_witness :
  let h := [Told (Reported KSuccess 106 9); Told (Reported KSuccess 113 2); Told (Reported KErrTimeout 114 20);
            Told (Reported KErrInterrupt 114 1); Told (Reported KSuccess 116 1)] in
  exists s1 s2, Opened Background 100 closer_sample = (Ret tt, s1) /\ run_closer h s1 = (Ret tt, s2) /\
    ShouldClose Background 116 s2 = (Ret true, s2).
Proof.
  intros h. apply (probe_streak_decides_close closer_sample 100 h Background 116).
  - apply closer_sample_ok.
  - vm_compute. congruence.
  - repeat constructor; vm_compute; congruence.
Defined.

(** How an episode starts: the circuit reports it, or a request for a probe reaches a closer
    that was never told about it and was not told Closed within the last sleep window. *)
Inductive episode_start (t0 : Time) (s : Closer) : Closer -> Prop :=
| StartOpened s' : Opened Background t0 s = (Ret tt, s') -> episode_start t0 s s'
| StartSelfArmed s' :
    openedAt s = None ->
    match closedAt s with Some c => sleepWindow s <= time_Sub t0 c | None => True end ->
    Allow Background t0 s = (Ret false, s') -> episode_start t0 s s'.

(** C15: recovery: however an episode starts at [t0], once the timer of that sleep window has
    fired, a request for a probe is granted at every instant from [t0 + SleepWindow] and at no
    earlier one; so a closer that missed its Opened still lets probes through. *)
Theorem probe_granted_after_window s t0 s' t :
  closer_ok s -> episode_start t0 s s' ->
  openedAt s' = Some t0 /\
  fst (Allow Background t s') = Ret false /\
  fst ((do! zoom reopenCircuitCheckL (timerFired (isFailFastVersion (reopenCircuitCheck s')));
        Allow Background t) s') = Ret (t0 + sleepWindow s <=? t).
Proof.
  intros Hok Hstart.
  assert (Harm : exists force, arm t0 force s = (Ret tt, s') /\ (force = false -> openedAt s = None)).
  { destruct Hstart as [s' E|s' Ho Hcl E]; [by exists true |]. exists false. split; [| done].
    revert E. unfold Allow, bind at 1, gets. rewrite Ho.
    replace (match closedAt s with Some t => time_Sub t0 t <? sleepWindow s | None => false end) with false.
    - destruct (arm_spec t0 false s Hok) as (s2 & E2 & _). unfold bind. rewrite E2. by intros [= <-].
    - destruct (closedAt s); [| done]. symmetry. by apply Z.ltb_ge. }
  destruct Harm as (force & E & Hforce).
  destruct (arm_spec t0 force s Hok) as (s2 & E2 & Hok2 & _ & _ & Ho & _ & _ & Hff & Hn & _).
  rewrite E in E2. injection E2 as <-.
  assert (Ho' : openedAt s' = Some t0) by (destruct force; [done |]; by rewrite Hforce in Ho).
  split; [done |].
  assert (Hzoom : forall c, Allow Background t (upd reopenCircuitCheckL c s')
    = zoom reopenCircuitCheckL (Check t) (upd reopenCircuitCheckL c s')).
  { intros c. by apply (Allow_open _ _ t0). }
  split.
  - rewrite (Allow_open _ _ t0) by done. unfold zoom, Check, bind, gets. cbn [view reopenCircuitCheckL].
    by rewrite Hff.
  - unfold bind at 1, zoom at 1, timerFired at 1, modify. cbn [view reopenCircuitCheckL].
    rewrite Z.eqb_refl, Hzoom. unfold zoom, Check, bind, gets. cbn.
    unfold time_After. rewrite Hn. unfold time_Add.
    destruct (Z.ltb_spec t (t0 + sleepWindow s)) as [Hlt|Hge].
    + rewrite (proj2 (Z.leb_gt _ _)) by done. done.
    + rewrite (proj2 (Z.leb_le _ _)) by done.
      match goal with |- context [checkLocked t ?c] => destruct (checkLocked_open t c) as (c' & -> & _) end.
      * destruct Hok2 as [Hg _]. exact Hg.
      * done.
      * done.
Qed.

Lemma probe_granted_after_window_witness :
  let s' := snd (Allow Background 100 closer_sample) in
  openedAt s' = Some 100 /\ fst (Allow Background 112 s') = Ret false /\
  fst ((do! zoom reopenCircuitCheckL (timerFired (isFailFastVersion (reopenCircuitCheck s')));
        Allow Background 112) s') = Ret true.
Proof.
  intros s'. apply (probe_granted_after_window closer_sample 100 s' 112).
  - apply closer_sample_ok.
  - apply StartSelfArmed; done.
Defined.
