(* ===== verification/ConcurrentCloser.v ===== *)
(** closers/hystrix/closer.go and faststats/timedcheck.go: the [Closer] of one circuit with its methods,
    and the timers of its sleep window, on any number of goroutines.

    HystrixCloser.v takes a method as one step of its caller, and TimedCheck.v takes a critical section
    as one.  Here a step is one atomic operation: a load, a store, the compare-and-swap or the addition
    of one atomic field, or what happens to the fields that the mutex of the sleep window guards between
    two accesses to its atomic fields.  The write lock is the flag [locked]; the read lock is held for
    one read, so taking it is waiting for [locked] to be false.  [closer_methods_are_runs] shows that
    the methods of HystrixCloser.v are runs of these steps.

    In every interleaving the window that gates a probe was started, and the probe comes when it is
    over ([concurrent_probes_are_limited]); the gate never stays shut ([closed_gate_reopens]); and what
    [ShouldClose] counts are successes that started after some window did
    ([concurrent_closes_are_earned]).  What does not hold is that an armed closer belongs to the current
    episode: a self-arming [Allow] can publish after a [Closed] that came after it read both pointers
    ([late_arm_outlives_close]).

    The settings may change meanwhile, in the four atomic stores of [SetConfigThreadSafe], within the
    bounds [within]; the mutex of the configuration, which keeps two such calls apart, is left out. *)

From stdpp Require Import relations.
From S2P Require Import Prelude GoMonad TimedCheck Metrics Closers HystrixCloser.

Open Scope Z_scope.

Module ConcurrentCloser.
Import Closer.

Lemma wrap64_le z : min_int64 <= z -> wrap64 z <= z.
Proof.
  unfold wrap64, min_int64. intros H. pose proof (Z.mod_le (z + 2 ^ 63) (2 ^ 64)). lia.
Qed.

(** * The critical section that starts a window

    [resetOpenTimeWithLock], split at its two accesses to atomic fields that other goroutines read
    without the lock: what it does until [isFastFail.Set(true)], and what follows from
    [isFailFastVersion.Add(1)] on. *)

Definition window_begin (now : Time) (c : TimedCheck) : TimedCheck :=
  mkTimedCheck (sleepDuration c) (eventCountToAllow c) true (isFailFastVersion c)
    (time_Add now (sleepDuration c)) 0 None.

Definition window_version (c : TimedCheck) : Z := wrap64 (isFailFastVersion c + 1).

Definition window_end (c : TimedCheck) : TimedCheck :=
  mkTimedCheck (sleepDuration c) (eventCountToAllow c) (isFastFail c) (window_version c)
    (nextOpenTime c) (currentlyAllowedEventCount c) (Some (window_version c)).

Definition set_isFastFail (b : bool) (c : TimedCheck) : TimedCheck :=
  mkTimedCheck (sleepDuration c) (eventCountToAllow c) b (isFailFastVersion c)
    (nextOpenTime c) (currentlyAllowedEventCount c) (lastSetTimer c).

Lemma window_begin_end now c : resetOpenTimeWithLock now c = (Ret tt, window_end (window_begin now c)).
Proof. done. Qed.

(** * Calls in progress *)

Inductive task :=
| Arming (now : Time) (force : bool)      (* arm, before SleepStart *)
| Holding (k : task)                      (* in resetOpenTimeWithLock, after isFastFail.Set(true) *)
| Publishing (now : Time) (force : bool)  (* arm, before openedAt is set *)
| Zeroing (k : task)                      (* before concurrentSuccessfulAttempts.Set(0) *)
| Closing (now : Time)
| Unpublishing                            (* Closed, before openedAt.Store(nil) *)
| Asking (now : Time)                     (* Allow, before openedAt.Load() *)
| AskingClosed (now : Time)               (* Allow, before closedAt.Load() *)
| Checking (now : Time)                   (* Check, before isFastFail.Get() *)
| Reading (now : Time)                    (* Check, before the read lock *)
| Entering (now : Time)                   (* Check, before the write lock *)
| Judging (healthy : bool) (now : Time) (duration : Duration)  (* Success, or ErrFailure and ErrTimeout *)
| Counting (now : Time) (duration : Duration)
| Deciding                                (* ShouldClose *)
| Waking (version : Z)                    (* the callback of a timer *)
| Clearing                                (* the callback, before isFastFail.Set(false) *)
| Configuring (c : ConfigureCloser)       (* SetConfigThreadSafe, before the sleep duration is set *)
| SettingWindow (c : ConfigureCloser)
| SettingAttempts (c : ConfigureCloser)
| SettingRequired (c : ConfigureCloser)
| Answered (now : Time) (granted : bool)
| Decided (yes : bool) (counted : list (Time * Duration))
| Finished.

#[export] Instance ConfigureCloser_eq_dec : EqDecision ConfigureCloser.
Proof. solve_decision. Defined.

#[export] Instance task_eq_dec : EqDecision task.
Proof. solve_decision. Defined.

(** What the theorems talk about: the instants the sleep window was (re)started at, the probes granted
    with the number of starts before them, and the successes counted since the last reset. *)
Record ghost := mkGhost {
  starts : list Time;
  granted : list (nat * Time);
  counted : list (Time * Duration)
}.

(** [timers]: the versions of the timers that may still fire.  A window does stop the timer of the last
    one; that a timer is stopped here only means that it never fires. *)
Record sys := mkSys {
  closer : Closer;
  locked : bool;
  timers : list Z;
  tasks : list task;
  g : ghost
}.

Definition start (now : Time) (gh : ghost) : ghost := mkGhost (starts gh ++ [now]) (granted gh) (counted gh).
Definition grant (now : Time) (gh : ghost) : ghost :=
  mkGhost (starts gh) (granted gh ++ [(length (starts gh), now)]) (counted gh).
Definition count (x : Time * Duration) (gh : ghost) : ghost :=
  mkGhost (starts gh) (granted gh) (counted gh ++ [x]).
Definition uncount (gh : ghost) : ghost := mkGhost (starts gh) (granted gh) [].

(** [closedAt != nil && now.Sub( *closedAt) < s.sleepWindow.Duration()] *)
Definition closed_recently (now : Time) (s : Closer) : bool :=
  match closedAt s with Some t => time_Sub now t <? sleepWindow s | None => false end.

(** The stores of [SetConfigThreadSafe] outside the sleep window. *)
Definition store_config (c : ConfigureCloser) (s : Closer) : Closer :=
  mkCloser (reopenCircuitCheck s) (concurrentSuccessfulAttempts s) (closeOnCurrentCount s) (openedAt s) (closedAt s)
    (sleepWindow s) c (TimeAfterFunc s).
Definition set_sleepWindow (d : Duration) (s : Closer) : Closer :=
  mkCloser (reopenCircuitCheck s) (concurrentSuccessfulAttempts s) (closeOnCurrentCount s) (openedAt s) (closedAt s)
    d (config s) (TimeAfterFunc s).
Definition set_closeOnCurrentCount (n : Z) (s : Closer) : Closer :=
  mkCloser (reopenCircuitCheck s) (concurrentSuccessfulAttempts s) n (openedAt s) (closedAt s)
    (sleepWindow s) (config s) (TimeAfterFunc s).

(** The shared state after a step: the closer, the lock, the timers and the ghost. *)
Definition shared : Type := Closer * bool * list Z * ghost.

(** One atomic operation of a call, and what is left of the call; [None] when it has to wait for the
    lock, or has ended. *)
Definition act (t : task) (s : Closer) (lk : bool) (tm : list Z) (gh : ghost) : option (shared * task) :=
  let c := reopenCircuitCheck s in
  let on_check c' := upd reopenCircuitCheckL c' s in
  let stay k := Some ((s, lk, tm, gh), k) in
  match t with
  | Arming now force =>
      if lk then None else Some ((on_check (window_begin now c), true, tm, start now gh), Holding (Publishing now force))
  | Holding k => Some ((on_check (window_end c), false, tm ++ [window_version c], gh), k)
  | Publishing now force =>
      let k := Zeroing (if force then Finished else Answered now false) in
      if force then Some ((set_openedAt (Some now) s, lk, tm, gh), k)
      else match openedAt s with
           | None => Some ((set_openedAt (Some now) s, lk, tm, gh), k)
           | Some _ => stay k
           end
  | Zeroing k => Some ((set_attempts 0 s, lk, tm, uncount gh), k)
  | Closing now => Some ((set_closedAt (Some now) s, lk, tm, gh), Unpublishing)
  | Unpublishing => Some ((set_openedAt None s, lk, tm, gh), Zeroing Finished)
  | Asking now => stay (match openedAt s with None => AskingClosed now | Some _ => Checking now end)
  | AskingClosed now => stay (if closed_recently now s then Answered now false else Arming now false)
  | Checking now => stay (if isFastFail c then Answered now false else Reading now)
  | Reading now =>
      if lk then None else stay (if time_After (nextOpenTime c) now then Answered now false else Entering now)
  | Entering now =>
      if lk then None
      else if time_After (nextOpenTime c) now then stay (Answered now false)
      else
        let c' := snd (count_event c) in
        if eventCountToAllow c' <=? currentlyAllowedEventCount c'
        then Some ((on_check (window_begin now c'), true, tm, start now (grant now gh)), Holding (Answered now true))
        else Some ((on_check c', lk, tm, grant now gh), Answered now true)
  | Judging healthy now d =>
      stay (if startedWhileOpen now d s then if healthy then Counting now d else Zeroing Finished else Finished)
  | Counting now d =>
      Some ((set_attempts (wrap64 (concurrentSuccessfulAttempts s + 1)) s, lk, tm, count (now, d) gh), Finished)
  | Deciding => stay (Decided (closeOnCurrentCount s <=? concurrentSuccessfulAttempts s) (counted gh))
  | Waking v => stay (if v =? isFailFastVersion c then Clearing else Finished)
  | Clearing => Some ((on_check (set_isFastFail false c), lk, tm, gh), Finished)
  | Configuring cfg =>
      Some ((store_config cfg (on_check (snd (SetSleepDuration (SleepWindow cfg) c))), lk, tm, gh), SettingWindow cfg)
  | SettingWindow cfg => Some ((set_sleepWindow (SleepWindow cfg) s, lk, tm, gh), SettingAttempts cfg)
  | SettingAttempts cfg =>
      Some ((on_check (snd (SetEventCountToAllow (HalfOpenAttempts cfg) c)), lk, tm, gh), SettingRequired cfg)
  | SettingRequired cfg =>
      Some ((set_closeOnCurrentCount (RequiredConcurrentSuccessful cfg) s, lk, tm, gh), Finished)
  | Answered _ _ | Decided _ _ | Finished => None
  end.

(** Settings with a window of [W] or longer, [Q] attempts at most and [R] successes or more. *)
Definition within (W Q R : Z) (c : ConfigureCloser) : Prop :=
  W <= SleepWindow c /\ HalfOpenAttempts c <= Q /\ R <= RequiredConcurrentSuccessful c.

Section Steps.
Context (allowed : ConfigureCloser -> Prop).

(** How a method begins: [Opened], [Closed], [Allow], the three reports, [ShouldClose],
    [SetConfigThreadSafe] with allowed settings. *)
Definition is_call (t : task) : Prop :=
  match t with
  | Configuring c => allowed c
  | Arming _ force => force = true
  | Closing _ | Asking _ | Deciding => True
  | Judging _ _ d => - max_int64 <= d <= max_int64
  | _ => False
  end.

Inductive step : sys -> sys -> Prop :=
| StepCall s lk tm ts gh t :
    is_call t -> step (mkSys s lk tm ts gh) (mkSys s lk tm (ts ++ [t]) gh)
| StepFire s lk tm tm' ts gh v :
    tm ≡ₚ v :: tm' -> step (mkSys s lk tm ts gh) (mkSys s lk tm' (ts ++ [Waking v]) gh)
| StepTask s lk tm ts gh i t s' lk' tm' gh' t' :
    ts !! i = Some t -> act t s lk tm gh = Some ((s', lk', tm', gh'), t') ->
    step (mkSys s lk tm ts gh) (mkSys s' lk' tm' (<[i := t']> ts) gh').
End Steps.

(** A closer nobody has used. *)
Definition initial (s : Closer) : sys := mkSys s false [] [] (mkGhost [] [] []).

Definition over (t : task) : bool :=
  match t with Answered _ _ | Decided _ _ | Finished => true | _ => false end.

(** ** Schedules *)

Definition next (i : nat) (x : sys) : option sys :=
  t ← tasks x !! i;
  '((s', lk', tm', gh'), t') ← act t (closer x) (locked x) (timers x) (g x);
  Some (mkSys s' lk' tm' (<[i := t']> (tasks x)) gh').

Fixpoint schedule (js : list nat) (x : sys) : option sys :=
  match js with
  | [] => Some x
  | j :: js' => x' ← next j x; schedule js' x'
  end.

Lemma closer_next_step allowed i x x' : next i x = Some x' -> step allowed x x'.
Proof.
  destruct x as [s lk tm ts gh]. unfold next. cbn [closer locked timers tasks g].
  destruct (ts !! i) as [t|] eqn:Hi; [| done]. cbn [mbind option_bind].
  destruct (act t s lk tm gh) as [[[[[s' lk'] tm'] gh'] t']|] eqn:E; [| done]. intros [= <-]. by eapply StepTask.
Qed.

Lemma closer_schedule_steps allowed js x x' : schedule js x = Some x' -> rtc (step allowed) x x'.
Proof.
  revert x. induction js as [|j js IH]; intros x; cbn [schedule]; [by intros [= <-] |].
  destruct (next j x) as [x1|] eqn:E; [| done]. intros H. eapply rtc_l; [by eapply closer_next_step | by apply IH].
Qed.

(** * The invariant *)

Section Invariant.
Context (W Q R : Z).
Hypothesis HQ : Q <= max_int64.

(** A counted success started after the start of some window. *)
Definition earned (gh : ghost) (x : Time * Duration) : Prop := exists t, t ∈ starts gh /\ t < fst x - snd x.

(** The window a probe was granted in had been started, and was over. *)
Definition in_window (gh : ghost) (x : nat * Time) : Prop :=
  exists k t0, fst x = S k /\ starts gh !! k = Some t0 /\ time_Add t0 W <= snd x.

Definition quota : Z := Z.max 1 Q.

Definition in_number (k : nat) (x : nat * Time) : bool := Nat.eqb (fst x) k.

Fixpoint task_ok (gh : ghost) (t : task) : Prop :=
  match t with
  | Holding k | Zeroing k => task_ok gh k
  | Publishing now _ => now ∈ starts gh
  | Checking _ | Reading _ | Entering _ => starts gh <> []
  | Judging _ _ d => - max_int64 <= d <= max_int64
  | Counting now d => earned gh (now, d)
  | Answered now true => exists k, (k, now) ∈ granted gh
  | Decided yes l => Forall (earned gh) l /\ (yes = true -> R <= zlen l)
  | Configuring c | SettingWindow c | SettingAttempts c | SettingRequired c => within W Q R c
  | _ => True
  end.

(** The part of the invariant that no call in progress matters for. *)
Record sound (s : Closer) (gh : ghost) : Prop := mkSound {
  so_settings : W <= sleepDuration (reopenCircuitCheck s) /\
    eventCountToAllow (reopenCircuitCheck s) <= Q /\ R <= closeOnCurrentCount s;
  so_next : forall t, last (starts gh) = Some t -> time_Add t W <= nextOpenTime (reopenCircuitCheck s);
  so_numbers : Forall (fun p => (fst p <= length (starts gh))%nat) (granted gh);
  so_quota : forall k, count_if (in_number k) (granted gh) <= quota;
  so_gate : 0 <= currentlyAllowedEventCount (reopenCircuitCheck s) < quota /\
    count_if (in_number (length (starts gh))) (granted gh) = currentlyAllowedEventCount (reopenCircuitCheck s);
  so_granted : Forall (in_window gh) (granted gh);
  so_opened : forall t, openedAt s = Some t -> t ∈ starts gh;
  so_attempts : min_int64 <= concurrentSuccessfulAttempts s <= zlen (counted gh);
  so_counted : Forall (earned gh) (counted gh)
}.

(** The lock is held by a call; a shut gate has a timer, or a callback, that will open it. *)
Definition lock_ok (lk : bool) (ts : list task) : Prop :=
  lk = true -> exists i k, ts !! i = Some (Holding k).

Definition shut_ok (c : TimedCheck) (lk : bool) (tm : list Z) (ts : list task) : Prop :=
  isFastFail c = true ->
  lk = true \/ isFailFastVersion c ∈ tm \/ Waking (isFailFastVersion c) ∈ ts \/ Clearing ∈ ts.

Record good (x : sys) : Prop := mkGood {
  go_sound : sound (closer x) (g x);
  go_lock : lock_ok (locked x) (tasks x);
  go_shut : shut_ok (reopenCircuitCheck (closer x)) (locked x) (timers x) (tasks x);
  go_tasks : Forall (task_ok (g x)) (tasks x)
}.

(** ** What the operations do to the shared state *)

Definition grows (gh gh' : ghost) : Prop :=
  (exists l, starts gh' = starts gh ++ l) /\ granted gh ⊆ granted gh'.

Lemma grows_start now gh : grows gh (start now gh).
Proof using. split; [by exists [now] | done]. Qed.

Lemma grows_grant now gh : grows gh (grant now gh).
Proof using. split; [exists []; by rewrite app_nil_r | by apply list_subseteq_app_l]. Qed.

Lemma grows_trans gh gh' gh'' : grows gh gh' -> grows gh' gh'' -> grows gh gh''.
Proof using.
  intros [[l El] H] [[l' El'] H']. split; [exists (l ++ l'); by rewrite El', El, app_assoc | by etrans].
Qed.

Lemma grows_same gh gh' : starts gh' = starts gh -> granted gh' = granted gh -> grows gh gh'.
Proof using. intros E1 E2. split; [exists []; by rewrite app_nil_r | by rewrite E2]. Qed.

Lemma grows_in gh gh' t : grows gh gh' -> t ∈ starts gh -> t ∈ starts gh'.
Proof using. intros [[l ->] _] H. apply elem_of_app. by left. Qed.

Lemma earned_mono gh gh' x : grows gh gh' -> earned gh x -> earned gh' x.
Proof using. intros H (t & Ht & Hx). exists t. split; [by eapply grows_in | done]. Qed.

Lemma in_window_mono gh gh' x : grows gh gh' -> in_window gh x -> in_window gh' x.
Proof using.
  intros [[l El] _] (k & t0 & Ek & Et & Hx). exists k, t0. rewrite El. split; [done |]. split; [| done].
  by apply lookup_app_l_Some.
Qed.

Lemma closer_task_mono gh gh' t : grows gh gh' -> task_ok gh t -> task_ok gh' t.
Proof using.
  intros Hg. induction t as [| | | | | | | | | |now|healthy now d|now d| | | | | | | |now ok|yes l|]; cbn; try done.
  - by apply grows_in.
  - destruct Hg as [[l ->] _]. by destruct (starts gh).
  - destruct Hg as [[l ->] _]. by destruct (starts gh).
  - destruct Hg as [[l ->] _]. by destruct (starts gh).
  - by apply earned_mono.
  - destruct ok; [| done]. intros (k & Hk). exists k. by apply Hg.
  - intros [H ?]. split; [| done]. eapply Forall_impl; [exact H |]. intros x. by apply earned_mono.
Qed.

(** Operations that leave the settings and the sleep window alone. *)
Lemma sound_closer s s' gh gh' :
  sound s gh -> reopenCircuitCheck s' = reopenCircuitCheck s -> R <= closeOnCurrentCount s' ->
  starts gh' = starts gh -> granted gh' = granted gh ->
  (forall t, openedAt s' = Some t -> t ∈ starts gh) ->
  min_int64 <= concurrentSuccessfulAttempts s' <= zlen (counted gh') -> Forall (earned gh) (counted gh') ->
  sound s' gh'.
Proof using.
  intros [H1 H2 H3 H4 H5 H6 H7 H8 H9] E1 E2 E3 E4 Ho Ha Hc.
  pose proof (grows_same gh gh' E3 E4) as Hg. split; rewrite ?E1, ?E3, ?E4; try done.
  - split; [apply H1 |]. split; [apply H1 | done].
  - eapply Forall_impl; [exact H6 |]. intros x. by apply in_window_mono.
  - eapply Forall_impl; [exact Hc |]. intros x. by apply earned_mono.
Qed.

(** Operations on the sleep window that leave its count and its end alone. *)
Lemma sound_check s c' gh :
  sound s gh -> W <= sleepDuration c' -> eventCountToAllow c' <= Q ->
  nextOpenTime c' = nextOpenTime (reopenCircuitCheck s) ->
  currentlyAllowedEventCount c' = currentlyAllowedEventCount (reopenCircuitCheck s) ->
  sound (upd reopenCircuitCheckL c' s) gh.
Proof using.
  intros [H1 H2 H3 H4 H5 H6 H7 H8 H9] E1 E2 E3 E4. split; cbn; rewrite ?E3, ?E4; try done.
  split; [done |]. split; [done | apply H1].
Qed.

Lemma sound_gate s c' gh :
  sound s gh -> sleepDuration c' = sleepDuration (reopenCircuitCheck s) ->
  eventCountToAllow c' = eventCountToAllow (reopenCircuitCheck s) ->
  nextOpenTime c' = nextOpenTime (reopenCircuitCheck s) ->
  currentlyAllowedEventCount c' = currentlyAllowedEventCount (reopenCircuitCheck s) ->
  sound (upd reopenCircuitCheckL c' s) gh.
Proof using.
  intros Hs E1 E2 E3 E4. destruct (so_settings _ _ Hs) as (HW & HQ' & _).
  apply sound_check; try done; [by rewrite E1 | by rewrite E2].
Qed.

Lemma count_if_none k (l : list (nat * Time)) m :
  Forall (fun p => (fst p <= m)%nat) l -> (m < k)%nat -> count_if (in_number k) l = 0.
Proof using.
  intros H Hk. apply count_if_zero. intros x Hx. rewrite Forall_forall in H. specialize (H x Hx).
  unfold in_number. destruct (Nat.eqb_spec (fst x) k); [simpl in H; lia | done].
Qed.

(** The grants so far respect the windows and the quota. *)
Definition grants_ok (gh : ghost) : Prop :=
  Forall (fun p => (fst p <= length (starts gh))%nat) (granted gh) /\
  (forall k, count_if (in_number k) (granted gh) <= quota) /\ Forall (in_window gh) (granted gh).

Lemma sound_grants s gh : sound s gh -> grants_ok gh.
Proof using. by intros [_ _ H3 H4 _ H6 _ _ _]. Qed.

(** One more, in an open window. *)
Lemma grant_grants s gh now :
  sound s gh -> starts gh <> [] -> nextOpenTime (reopenCircuitCheck s) <= now ->
  grants_ok (grant now gh) /\
  count_if (in_number (length (starts gh))) (granted (grant now gh))
  = currentlyAllowedEventCount (reopenCircuitCheck s) + 1.
Proof using.
  intros [_ H2 H3 H4 [H5 Hcur] H6 _ _ _] Hne Hn.
  assert (Hlast : exists k t0, length (starts gh) = S k /\ starts gh !! k = Some t0 /\ time_Add t0 W <= now).
  { destruct (last (starts gh)) as [t0|] eqn:El; [| by apply last_None in El].
    exists (Nat.pred (length (starts gh))), t0. rewrite <- last_lookup. specialize (H2 t0 eq_refl).
    split; [by destruct (starts gh) | split; [done | lia]]. }
  assert (Hone : forall k, count_if (in_number k) [(length (starts gh), now)]
    = if Nat.eqb (length (starts gh)) k then 1 else 0) by (intros k; cbn; unfold in_number; cbn; lia).
  unfold grants_ok. cbn. setoid_rewrite count_if_app. setoid_rewrite Hone. split; [split; [| split] |].
  - apply Forall_app_2; [done |]. by repeat constructor.
  - intros k. destruct (Nat.eqb_spec (length (starts gh)) k) as [<-|_]; [lia |]. specialize (H4 k). lia.
  - apply Forall_app_2; [by eapply Forall_impl; [exact H6 | intros x; apply in_window_mono, grows_grant] |].
    constructor; [| constructor]. exact Hlast.
  - rewrite Nat.eqb_refl. lia.
Qed.

(** [resetOpenTimeWithLock] up to [isFastFail.Set(true)], by whoever holds the lock. *)
Lemma sound_start s c now gh gh' :
  sound s gh -> grants_ok gh' -> starts gh' = starts gh -> counted gh' = counted gh ->
  W <= sleepDuration c -> eventCountToAllow c <= Q ->
  sound (upd reopenCircuitCheckL (window_begin now c) s) (start now gh').
Proof using.
  intros [H1 H2 H3 H4 H5 H6 H7 H8 H9] (Hn & Hq & Hw) Es Ec Ew Eq. pose proof (grows_start now gh') as Hg. split; cbn.
  - split; [done |]. split; [done | apply H1].
  - intros t. rewrite last_snoc. intros [= ->]. unfold time_Add. lia.
  - rewrite length_app. eapply Forall_impl; [exact Hn |]. intros p. cbn. lia.
  - exact Hq.
  - split; [unfold quota; lia |]. rewrite length_app. cbn. eapply count_if_none; [exact Hn | lia].
  - eapply Forall_impl; [exact Hw |]. intros x. by apply in_window_mono.
  - intros t Ht. apply (grows_in _ _ _ Hg). rewrite Es. by apply H7.
  - by rewrite Ec.
  - rewrite Ec. eapply Forall_impl; [exact H9 |]. intros x (t & Ht & Hx). exists t. split; [| done].
    apply (grows_in _ _ _ Hg). by rewrite Es.
Qed.

(** A probe that is not the last of its window. *)
Lemma sound_grant s now gh :
  let c' := snd (count_event (reopenCircuitCheck s)) in
  sound s gh -> starts gh <> [] -> nextOpenTime (reopenCircuitCheck s) <= now ->
  currentlyAllowedEventCount c' < eventCountToAllow c' ->
  sound (upd reopenCircuitCheckL c' s) (grant now gh).
Proof using HQ.
  intros c' Hs Hne Hn Hc. destruct (grant_grants s gh now Hs Hne Hn) as [(Hk & Hq & Hw) Hcur].
  destruct Hs as [(E1 & E2 & E3) H2 H3 H4 [H5 _] H6 H7 H8 H9]. subst c'. cbn in Hc.
  rewrite wrap64_id in Hc by (unfold quota, min_int64, max_int64 in *; lia).
  split; try done; cbn.
  - cbn in Hcur. rewrite Hcur, wrap64_id by (unfold quota, min_int64, max_int64 in *; lia). unfold quota in *. lia.
Qed.

(** One more success. *)
Lemma sound_count s x gh :
  sound s gh -> earned gh x ->
  sound (set_attempts (wrap64 (concurrentSuccessfulAttempts s + 1)) s) (count x gh).
Proof using.
  intros Hs Hx. destruct (Hs) as [H1 H2 H3 H4 H5 H6 H7 H8 H9]. eapply sound_closer; try done; cbn; [apply H1 | |].
  - pose proof (wrap64_range (concurrentSuccessfulAttempts s + 1)). split; [lia |]. unfold zlen in *.
    rewrite length_app. cbn. pose proof (wrap64_le (concurrentSuccessfulAttempts s + 1)). lia.
  - apply Forall_app_2; [done | by repeat constructor].
Qed.

(** ** What a step does to the calls in progress *)

Lemma in_insert (ts : list task) i t t' u : ts !! i = Some t -> u ∈ ts -> u <> t -> u ∈ <[i := t']> ts.
Proof using.
  intros Hi [j Hj]%list_elem_of_lookup_1 Hne. apply list_elem_of_lookup_2 with j.
  rewrite list_lookup_insert_ne; [done |]. intros ->. congruence.
Qed.

Lemma lock_ok_keep lk ts i t t' :
  lock_ok lk ts -> ts !! i = Some t -> (forall k, t <> Holding k) -> lock_ok lk (<[i := t']> ts).
Proof using.
  intros H Hi Ht Hlk. destruct (H Hlk) as (j & k & Hj). exists j, k.
  rewrite list_lookup_insert_ne; [done |]. intros ->. rewrite Hi in Hj. injection Hj as ->. by apply (Ht k).
Qed.

Lemma shut_keep c lk tm ts i t t' :
  shut_ok c lk tm ts -> ts !! i = Some t -> t <> Clearing ->
  (t = Waking (isFailFastVersion c) -> t' = Clearing) -> shut_ok c lk tm (<[i := t']> ts).
Proof using.
  intros H Hi Ht Hw Hf. pose proof (lookup_lt_Some _ _ _ Hi) as Hlt.
  destruct (H Hf) as [?|[?|[Hin|Hin]]]; [by left | by right; left | | right; right; right; by apply (in_insert _ _ t)].
  destruct (decide (t = Waking (isFailFastVersion c))) as [->|Hne].
  - right; right; right. apply list_elem_of_lookup_2 with i. rewrite Hw by done. by apply list_lookup_insert_eq.
  - right; right; left. by apply (in_insert _ _ t).
Qed.

Lemma shut_same c c' lk tm ts :
  isFastFail c' = isFastFail c -> isFailFastVersion c' = isFailFastVersion c ->
  shut_ok c lk tm ts -> shut_ok c' lk tm ts.
Proof using. unfold shut_ok. by intros -> ->. Qed.

Lemma tasks_keep gh gh' ts i t' :
  Forall (task_ok gh) ts -> grows gh gh' -> task_ok gh' t' -> Forall (task_ok gh') (<[i := t']> ts).
Proof using.
  intros H Hg Ht. apply Forall_insert; [| done]. eapply Forall_impl; [exact H |]. intros t. by apply closer_task_mono.
Qed.

(** A step that leaves the lock, the timers and what [shut_ok] reads alone. *)
Lemma good_quiet s lk tm ts gh i t t' s' gh' :
  good (mkSys s lk tm ts gh) -> ts !! i = Some t ->
  (forall k, t <> Holding k) -> t <> Clearing ->
  (t = Waking (isFailFastVersion (reopenCircuitCheck s)) -> t' = Clearing) ->
  isFastFail (reopenCircuitCheck s') = isFastFail (reopenCircuitCheck s) ->
  isFailFastVersion (reopenCircuitCheck s') = isFailFastVersion (reopenCircuitCheck s) ->
  sound s' gh' -> grows gh gh' -> task_ok gh' t' ->
  good (mkSys s' lk tm (<[i := t']> ts) gh').
Proof using.
  intros [Hs Hl Hsh Ht] Hi Hh Hc Hw E1 E2 Hs' Hg Ht'. split; cbn in *; [done | | |].
  - by eapply lock_ok_keep.
  - eapply shut_same; [exact E1 | exact E2 |]. by eapply shut_keep.
  - by eapply tasks_keep.
Qed.

(** A step that starts a window. *)
Lemma good_begin s tm ts gh gh' i t k c now :
  good (mkSys s false tm ts gh) -> ts !! i = Some t ->
  sound (upd reopenCircuitCheckL (window_begin now c) s) (start now gh') -> grows gh (start now gh') ->
  task_ok (start now gh') k ->
  good (mkSys (upd reopenCircuitCheckL (window_begin now c) s) true tm (<[i := Holding k]> ts) (start now gh')).
Proof using.
  intros [Hs Hl Hsh Ht] Hi Hs' Hg Hk. pose proof (lookup_lt_Some _ _ _ Hi) as Hlt. split; cbn in *; [done | | |].
  - intros _. exists i, k. by apply list_lookup_insert_eq.
  - intros _. by left.
  - by eapply tasks_keep.
Qed.

Lemma good_end s tm ts gh i k :
  good (mkSys s true tm ts gh) \/ good (mkSys s false tm ts gh) -> ts !! i = Some (Holding k) ->
  good (mkSys (upd reopenCircuitCheckL (window_end (reopenCircuitCheck s)) s) false
          (tm ++ [window_version (reopenCircuitCheck s)]) (<[i := k]> ts) gh).
Proof using.
  intros Hgood Hi. assert (H : sound s gh /\ Forall (task_ok gh) ts) by (destruct Hgood as [[]|[]]; done).
  destruct H as [Hs Ht]. split; cbn; [by apply sound_gate | done | |].
  - intros _. right. left. apply elem_of_app. right. by apply list_elem_of_singleton.
  - apply Forall_insert; [done |]. rewrite Forall_lookup in Ht. apply (Ht _ _ Hi).
Qed.

Lemma good_clear s lk tm ts gh i :
  good (mkSys s lk tm ts gh) -> ts !! i = Some Clearing ->
  good (mkSys (upd reopenCircuitCheckL (set_isFastFail false (reopenCircuitCheck s)) s) lk tm (<[i := Finished]> ts) gh).
Proof using.
  intros [Hs Hl Hsh Ht] Hi. split; cbn in *; [by apply sound_gate | by eapply lock_ok_keep | done |].
  by apply Forall_insert.
Qed.

(** ** Every step keeps the invariant *)

(** The steps that only look. *)
Definition looks (t : task) : bool :=
  match t with
  | Asking _ | AskingClosed _ | Checking _ | Reading _ | Judging _ _ _ | Deciding | Waking _ => true
  | _ => false
  end.

Lemma act_looks t s lk tm gh x t' :
  looks t = true -> sound s gh -> task_ok gh t -> act t s lk tm gh = Some (x, t') ->
  x = (s, lk, tm, gh) /\ task_ok gh t' /\ (t = Waking (isFailFastVersion (reopenCircuitCheck s)) -> t' = Clearing).
Proof using.
  intros Hl [H1 _ _ _ _ _ H7 H8 H9] Ht E.
  destruct t as [| | | | | |now|now|now|now| |healthy now d| | |v| | | | | | | |]; try done; cbn in E.
  - injection E as <- <-. split; [done |]. split; [| done]. destruct (openedAt s) as [t|] eqn:Eo; cbn; [| done].
    specialize (H7 t eq_refl). by destruct (starts gh); [inversion H7 |].
  - injection E as <- <-. split; [done |]. split; [| done]. by destruct (closed_recently now s).
  - injection E as <- <-. split; [done |]. split; [| done]. by destruct (isFastFail _).
  - destruct lk; [done |]. injection E as <- <-. split; [done |]. split; [| done]. by destruct (time_After _ _).
  - injection E as <- <-. split; [done |]. split; [| done].
    destruct (openedAt s) as [t|] eqn:Eo; [| by unfold startedWhileOpen; rewrite Eo].
    rewrite (startedWhileOpen_spec _ _ t) by done. destruct (Z.ltb_spec t (now - d)); [| done]. destruct healthy; [| done].
    exists t. split; [by apply H7 | done].
  - injection E as <- <-. split; [done |]. split; [| done]. split; [done |].
    rewrite Z.leb_le. lia.
  - injection E as <- <-. split; [done |]. split; [by destruct (_ =? _) |]. intros [= ->]. by rewrite Z.eqb_refl.
Qed.

Lemma good_entering s tm ts gh i now x :
  good (mkSys s false tm ts gh) -> ts !! i = Some (Entering now) -> starts gh <> [] ->
  act (Entering now) s false tm gh = Some x ->
  good (mkSys (fst (fst (fst (fst x)))) (snd (fst (fst (fst x)))) (snd (fst (fst x))) (<[i := snd x]> ts) (snd (fst x))).
Proof using HQ.
  intros Hgood Hi Hne E. pose proof (go_sound _ Hgood) as Hs. cbn in Hs. unfold act in E.
  unfold time_After in E. destruct (Z.ltb_spec now (nextOpenTime (reopenCircuitCheck s))) as [|Hn].
  { injection E as <-. eapply good_quiet; [exact Hgood | exact Hi | done .. | by apply grows_same | done]. }
  cbv zeta in E. destruct (Z.leb_spec (eventCountToAllow (snd (count_event (reopenCircuitCheck s))))
    (currentlyAllowedEventCount (snd (count_event (reopenCircuitCheck s))))) as [Hfull|Hfree];
    injection E as <-; cbn [fst snd].
  - destruct (so_settings _ _ Hs) as (E1 & E2 & _).
    eapply good_begin; [exact Hgood | exact Hi | | |].
    + eapply sound_start; [exact Hs | by apply (grant_grants s) | done ..].
    + eapply grows_trans; [apply grows_grant | apply grows_start].
    + exists (length (starts gh)). cbn. apply elem_of_app. right. by apply list_elem_of_singleton.
  - eapply good_quiet; [exact Hgood | exact Hi | done .. | by apply sound_grant | apply grows_grant |].
    exists (length (starts gh)). cbn. apply elem_of_app. right. by apply list_elem_of_singleton.
Qed.

Lemma good_task s lk tm ts gh i t s' lk' tm' gh' t' :
  good (mkSys s lk tm ts gh) -> ts !! i = Some t -> act t s lk tm gh = Some ((s', lk', tm', gh'), t') ->
  good (mkSys s' lk' tm' (<[i := t']> ts) gh').
Proof using HQ.
  intros Hgood Hi E. pose proof (go_sound _ Hgood) as Hs. cbn in Hs.
  assert (Ht : task_ok gh t) by (pose proof (go_tasks _ Hgood) as Ht; rewrite Forall_lookup in Ht; apply (Ht _ _ Hi)).
  destruct (looks t) eqn:El.
  { destruct (act_looks _ _ _ _ _ _ _ El Hs Ht E) as ([= -> -> -> ->] & Ht' & Hw).
    eapply good_quiet; [exact Hgood | exact Hi | by intros k -> | by intros -> | done .. | by apply grows_same | done]. }
  destruct (Hs) as [H1 _ _ _ _ _ H7 H8 H9]. pose proof (proj2 (proj2 H1)) as HR.
  destruct t as [now force|k|now force|k|now| | | | | |now| |now d| | | |c|c|c|c| | |]; try done; cbn in E.
  - destruct lk; [done |]. injection E as <- <- <- <- <-. eapply good_begin; [exact Hgood | exact Hi | | apply grows_start |].
    + eapply sound_start; [exact Hs | by eapply sound_grants | done | done | apply H1 | apply H1].
    + cbn. apply elem_of_app. right. by apply list_elem_of_singleton.
  - injection E as <- <- <- <- <-. apply good_end; [destruct lk; auto | done].
  - assert (Hk : task_ok gh (Zeroing (if force then Finished else Answered now false))) by by destruct force.
    assert (Hset : sound (set_openedAt (Some now) s) gh)
      by (eapply sound_closer; try done; cbn; intros t [= <-]; exact Ht).
    destruct force; [| destruct (openedAt s)]; injection E as <- <- <- <- <-;
      (eapply good_quiet; [exact Hgood | exact Hi | done .. | by apply grows_same | done]).
  - injection E as <- <- <- <- <-.
    eapply good_quiet; [exact Hgood | exact Hi | done .. | by eapply sound_closer | by apply grows_same |].
    by apply (closer_task_mono gh); [apply grows_same |].
  - injection E as <- <- <- <- <-.
    eapply good_quiet; [exact Hgood | exact Hi | done .. | by eapply sound_closer | by apply grows_same | done].
  - injection E as <- <- <- <- <-.
    eapply good_quiet; [exact Hgood | exact Hi | done .. | by eapply sound_closer | by apply grows_same | done].
  - destruct lk; [done |]. by apply (good_entering s tm ts gh i now (s', lk', tm', gh', t')).
  - injection E as <- <- <- <- <-.
    eapply good_quiet; [exact Hgood | exact Hi | done .. | by apply sound_count | by apply grows_same | done].
  - injection E as <- <- <- <- <-. by apply good_clear.
  - injection E as <- <- <- <- <-. eapply good_quiet; [exact Hgood | exact Hi | done .. | | by apply grows_same | done].
    eapply (sound_closer (upd reopenCircuitCheckL (snd (SetSleepDuration (SleepWindow c) (reopenCircuitCheck s))) s)); try done.
    apply sound_check; try done; [apply Ht | apply H1].
  - injection E as <- <- <- <- <-. eapply good_quiet; [exact Hgood | exact Hi | done .. | | by apply grows_same | done].
    by eapply sound_closer.
  - injection E as <- <- <- <- <-. eapply good_quiet; [exact Hgood | exact Hi | done .. | | by apply grows_same | done].
    apply sound_check; try done; [apply H1 | apply Ht].
  - injection E as <- <- <- <- <-. eapply good_quiet; [exact Hgood | exact Hi | done .. | | by apply grows_same | done].
    eapply sound_closer; try done. apply Ht.
Qed.

Lemma good_step x x' : good x -> step (within W Q R) x x' -> good x'.
Proof using HQ.
  intros Hgood Hst. destruct Hst as [s lk tm ts gh t Hc|s lk tm tm' ts gh v Hv|s lk tm ts gh i t s' lk' tm' gh' t' Hi E].
  - destruct Hgood as [Hs Hl Hsh Ht]. split; cbn in *; [done | | |].
    + intros Hlk. destruct (Hl Hlk) as (i & k & Hi). exists i, k. by apply lookup_app_l_Some.
    + intros Hf. destruct (Hsh Hf) as [?|[?|[?|?]]]; [by left | by right; left | right; right; left | right; right; right];
        apply elem_of_app; by left.
    + apply Forall_app_2; [done |]. constructor; [| constructor]. by destruct t.
  - destruct Hgood as [Hs Hl Hsh Ht]. split; cbn in *; [done | | |].
    + intros Hlk. destruct (Hl Hlk) as (i & k & Hi). exists i, k. by apply lookup_app_l_Some.
    + intros Hf. destruct (Hsh Hf) as [?|[Hin|[?|?]]]; [by left | | right; right; left | right; right; right];
        [| apply elem_of_app; by left ..].
      rewrite Hv in Hin. apply elem_of_cons in Hin as [->|Hin]; [| by right; left].
      right; right; left. apply elem_of_app. right. by apply list_elem_of_singleton.
    + apply Forall_app_2; [done |]. by repeat constructor.
  - by eapply good_task.
Qed.

Lemma good_reachable x x' : good x -> rtc (step (within W Q R)) x x' -> good x'.
Proof using HQ. intros H Hst. induction Hst as [|x y z Hxy _ IH]; [done |]. apply IH. by eapply good_step. Qed.
End Invariant.

(** A closer of the factory. *)
Lemma initial_good cfg s W Q R :
  CloserFactory cfg = Ret s -> within W Q R (Merge cfg defaultConfigureCloser) -> Q <= max_int64 ->
  good W Q R (initial s).
Proof.
  intros Hs (HW & HQ & HR) Hmax.
  destruct (CloserFactory_ok cfg s Hs ltac:(lia)) as ([Hg Hsd] & Ho & _ & Hw & Hc & He & Ha).
  assert (Hf : isFastFail (reopenCircuitCheck s) = false /\ currentlyAllowedEventCount (reopenCircuitCheck s) = 0)
    by by injection Hs as <-.
  set (c := Merge cfg defaultConfigureCloser) in *. clearbody c. destruct Hf as [Hf H0].
  split; cbn; [| done | unfold shut_ok; by rewrite Hf | done]. split; cbn; try done.
  - lia.
  - intros k. unfold quota. lia.
  - rewrite H0. unfold quota. lia.
  - intros t. by rewrite Ho.
  - rewrite Ha. unfold min_int64, zlen. cbn. lia.
Qed.

(** ** Runs *)

Section Runs.
Context (allowed : ConfigureCloser -> Prop).

(** A step of the last call. *)
Lemma last_act s lk tm ts gh t s' lk' tm' gh' t' x :
  act t s lk tm gh = Some ((s', lk', tm', gh'), t') ->
  rtc (step allowed) (mkSys s' lk' tm' (ts ++ [t']) gh') x -> rtc (step allowed) (mkSys s lk tm (ts ++ [t]) gh) x.
Proof.
  intros E. apply rtc_l. rewrite <- (app_nil_r ts) at 2.
  replace ((ts ++ []) ++ [t']) with (<[length ts := t']> (ts ++ [t])) by (rewrite app_nil_r, insert_app_r_alt, Nat.sub_diag by done; done).
  eapply StepTask; [by rewrite lookup_app_r, Nat.sub_diag | exact E].
Qed.

Ltac last_act := eapply last_act; [cbn; reflexivity |].

(** From [t] on, a goroutine that nobody interrupts ends with [t'] and leaves the closer [s']. *)
Definition runs (t : task) (s : Closer) (t' : task) (s' : Closer) : Prop :=
  forall tm ts gh, exists tm' gh', rtc (step allowed) (mkSys s false tm (ts ++ [t]) gh) (mkSys s' false tm' (ts ++ [t']) gh').

Lemma arm_runs now (force : bool) s s' :
  arm now force s = (Ret tt, s') -> runs (Arming now force) s (if force then Finished else Answered now false) s'.
Proof.
  intros E tm ts gh. unfold arm, bind, zoom, modify in E. cbn in E.
  destruct force; [| destruct (openedAt s) eqn:Eo]; injection E as <-; eexists _, _; last_act; last_act;
    (eapply last_act; [cbn; rewrite ?Eo; reflexivity |]); last_act; cbn; reflexivity.
Qed.

Lemma closed_runs ctx now s s' : Closed ctx now s = (Ret tt, s') -> runs (Closing now) s Finished s'.
Proof. intros E tm ts gh. injection E as <-. eexists _, _. last_act. last_act. last_act. reflexivity. Qed.

Lemma check_same s : upd reopenCircuitCheckL (reopenCircuitCheck s) s = s.
Proof. by destruct s. Qed.

Lemma check_runs now b s c' :
  Check now (reopenCircuitCheck s) = (Ret b, c') ->
  runs (Checking now) s (Answered now b) (upd reopenCircuitCheckL c' s).
Proof.
  intros E tm ts gh. unfold Check, checkLocked, bind, gets, count_event, modify in E. cbn in E.
  destruct (isFastFail (reopenCircuitCheck s)) eqn:Ef.
  { injection E as <- <-. rewrite check_same. eexists _, _. last_act. rewrite Ef. reflexivity. }
  destruct (time_After (nextOpenTime (reopenCircuitCheck s)) now) eqn:Ea.
  { injection E as <- <-. rewrite check_same. eexists _, _. last_act. rewrite Ef. last_act. rewrite Ea. reflexivity. }
  cbn in E. rewrite Ea in E. cbn in E.
  destruct (_ <=? _) eqn:El in E; injection E as <- <-; eexists _, _; last_act; rewrite Ef; last_act; rewrite Ea;
    (eapply last_act; [cbn; rewrite Ea; cbn; rewrite El; reflexivity |]).
  - last_act. cbn. reflexivity.
  - cbn. rewrite Ef. reflexivity.
Qed.

Lemma runs_act t t' k s s' :
  (forall tm gh, act t s false tm gh = Some ((s, false, tm, gh), t')) -> runs t' s k s' -> runs t s k s'.
Proof.
  intros E H tm ts gh. destruct (H tm ts gh) as (tm' & gh' & Hr). exists tm', gh'. eapply last_act; [apply E | exact Hr].
Qed.

Lemma allow_runs ctx now b s s' : Allow ctx now s = (Ret b, s') -> runs (Asking now) s (Answered now b) s'.
Proof.
  intros E. unfold Allow, bind at 1, gets in E. destruct (openedAt s) eqn:Eo.
  - apply (runs_act _ (Checking now)); [intros; cbn; by rewrite Eo |]. unfold zoom in E. cbn [view reopenCircuitCheckL] in E.
    destruct (Check now (reopenCircuitCheck s)) as [o c'] eqn:Ec. destruct o; try done. injection E as -> <-. by apply check_runs.
  - apply (runs_act _ (AskingClosed now)); [intros; cbn; by rewrite Eo |]. fold (closed_recently now s) in E.
    destruct (closed_recently now s) eqn:Er.
    + injection E as <- <-. apply (runs_act _ (Answered now false)); [intros; cbn; by rewrite Er |].
      intros tm ts gh. by exists tm, gh.
    + apply (runs_act _ (Arming now false)); [intros; cbn; by rewrite Er |]. apply bind_inv in E as ([] & s1 & E1 & E2).
      injection E2 as <- <-. by apply (arm_runs now false).
Qed.

Lemma success_runs ctx now d s s' : Success ctx now d s = (Ret tt, s') -> runs (Judging true now d) s Finished s'.
Proof.
  intros E. unfold Success, bind, gets in E. destruct (startedWhileOpen now d s) eqn:Es; injection E as <-.
  - apply (runs_act _ (Counting now d)); [intros; cbn; by rewrite Es |]. intros tm ts gh. eexists _, _. last_act. reflexivity.
  - apply (runs_act _ Finished); [intros; cbn; by rewrite Es |]. intros tm ts gh. by exists tm, gh.
Qed.

Lemma failure_runs ctx now d s s' : ErrFailure ctx now d s = (Ret tt, s') -> runs (Judging false now d) s Finished s'.
Proof.
  intros E. unfold ErrFailure, bind, gets in E. destruct (startedWhileOpen now d s) eqn:Es; injection E as <-.
  - apply (runs_act _ (Zeroing Finished)); [intros; cbn; by rewrite Es |]. intros tm ts gh. eexists _, _. last_act. reflexivity.
  - apply (runs_act _ Finished); [intros; cbn; by rewrite Es |]. intros tm ts gh. by exists tm, gh.
Qed.

Definition ended (t : task) (b : bool) : Prop := match t with Decided b' _ => b' = b | _ => False end.

Lemma decide_runs ctx now b s s' tm ts gh :
  ShouldClose ctx now s = (Ret b, s') ->
  exists t, ended t b /\ rtc (step allowed) (mkSys s false tm (ts ++ [Deciding]) gh) (mkSys s' false tm (ts ++ [t]) gh).
Proof. intros E. injection E as <- <-. eexists. split; [| last_act; reflexivity]. done. Qed.

(** A timer that fires and is not interrupted: [timerFired]. *)
Lemma timer_runs v s :
  runs (Waking v) s Finished (upd reopenCircuitCheckL (snd (timerFired v (reopenCircuitCheck s))) s).
Proof.
  unfold timerFired, modify. cbn [snd]. destruct (v =? isFailFastVersion (reopenCircuitCheck s)) eqn:Ev.
  - apply (runs_act _ Clearing); [intros; cbn; by rewrite Ev |]. intros tm ts gh. eexists _, _. last_act. reflexivity.
  - rewrite check_same. apply (runs_act _ Finished); [intros; cbn; by rewrite Ev |]. intros tm ts gh. by exists tm, gh.
Qed.

(** [SetConfigThreadSafe]. *)
Lemma configure_runs c s s' : SetConfigThreadSafe c s = (Ret tt, s') -> runs (Configuring c) s Finished s'.
Proof.
  intros E tm ts gh. injection E as <-. eexists _, _. last_act. last_act. last_act. last_act. reflexivity.
Qed.
End Runs.

(** ** Progress *)

Lemma act_free t s tm gh : over t = false -> exists y, act t s false tm gh = Some y.
Proof.
  destruct t as [| |now force| | | | | | | |now| | | | | | | | | | | |]; try done; intros _; cbn; try (by eexists).
  - destruct force; [by eexists |]. destruct (openedAt s); by eexists.
  - destruct (time_After _ _); [by eexists |]. destruct (_ <=? _); by eexists.
Qed.

(** As long as a call has not ended, some call can go on: the one that holds the lock, or this one. *)
Lemma progress W Q R x i t :
  good W Q R x -> tasks x !! i = Some t -> over t = false -> exists j x', next j x = Some x'.
Proof.
  intros Hgood Hi Ht. assert (H : exists j u y, tasks x !! j = Some u /\ act u (closer x) (locked x) (timers x) (g x) = Some y).
  { destruct (locked x) eqn:Hl.
    - destruct (go_lock _ _ _ _ Hgood Hl) as (j & k & Hj). exists j, (Holding k). eexists. split; [exact Hj | cbn; reflexivity].
    - destruct (act_free t (closer x) (timers x) (g x) Ht) as (y & Ey). by exists i, t, y. }
  destruct H as (j & u & [[[[s' lk'] tm'] gh'] u'] & Hj & Ey). exists j. eexists. unfold next.
  rewrite Hj. cbn [mbind option_bind]. rewrite Ey. reflexivity.
Qed.

(** * Properties *)

(** C36: the methods of HystrixCloser.v, and the callback of a timer, are runs of the steps: a goroutine that
    nobody interrupts answers and leaves the closer as [Opened], [Closed], [Allow], [Success], [ErrFailure], [ErrTimeout],
    [ShouldClose] and [SetConfigThreadSafe] do, whatever calls of others are in progress, and does not
    keep the lock.  So what holds of every interleaving of the steps holds of calls of the methods. *)
Theorem closer_methods_are_runs allowed ctx now d b s s' :
  let runs := runs allowed in
  (Opened ctx now s = (Ret tt, s') -> runs (Arming now true) s Finished s') /\
  (Closed ctx now s = (Ret tt, s') -> runs (Closing now) s Finished s') /\
  (Allow ctx now s = (Ret b, s') -> runs (Asking now) s (Answered now b) s') /\
  (Success ctx now d s = (Ret tt, s') -> runs (Judging true now d) s Finished s') /\
  (ErrFailure ctx now d s = (Ret tt, s') -> runs (Judging false now d) s Finished s') /\
  (ErrTimeout ctx now d s = (Ret tt, s') -> runs (Judging false now d) s Finished s') /\
  (ShouldClose ctx now s = (Ret b, s') -> forall tm ts gh, exists t, ended t b /\
     rtc (step allowed) (mkSys s false tm (ts ++ [Deciding]) gh) (mkSys s' false tm (ts ++ [t]) gh)) /\
  (forall c, SetConfigThreadSafe c s = (Ret tt, s') -> runs (Configuring c) s Finished s') /\
  (forall v, zoom reopenCircuitCheckL (timerFired v) s = (Ret tt, s') -> runs (Waking v) s Finished s').
Proof.
  intros r. split; [apply (arm_runs allowed now true) |]. split; [apply closed_runs |]. split; [apply allow_runs |].
  split; [apply success_runs |]. split; [apply failure_runs |]. split; [apply failure_runs |].
  split; [intros E tm ts gh; by eapply decide_runs |].
  split; [intros c; apply configure_runs |]. intros v E. injection E as <-. apply timer_runs.
Qed.

(** C17: probes under concurrency.  In every interleaving of the atomic operations of [Opened], [Closed],
    [Allow], [Success], [ErrFailure], [ErrTimeout], [ShouldClose] and [SetConfigThreadSafe] calls and of
    the timers, on a closer of the factory whose settings always have sleep windows of [W] or longer and
    [Q] attempts at most: as long as a call has not ended some call can go on; a set [openedAt] is an
    instant the sleep window was started at, so nobody checks a window that was never armed; every
    request that is allowed comes [W] or more after the start of the window it is allowed in, the last
    one before it was allowed; and of one window at most [max 1 Q] are allowed. *)
Theorem concurrent_probes_are_limited cfg s0 x W Q R :
  let step := step (within W Q R) in
  CloserFactory cfg = Ret s0 -> within W Q R (Merge cfg defaultConfigureCloser) -> Q <= max_int64 ->
  rtc step (initial s0) x ->
  (forall i t, tasks x !! i = Some t -> over t = false -> exists j x', next j x = Some x' /\ step x x') /\
  (forall t, openedAt (closer x) = Some t -> t ∈ starts (g x)) /\
  (forall i now, tasks x !! i = Some (Answered now true) -> exists k, (k, now) ∈ granted (g x)) /\
  (forall k now, (k, now) ∈ granted (g x) -> (0 < k)%nat /\
     exists t0, starts (g x) !! (k - 1)%nat = Some t0 /\ time_Add t0 W <= now) /\
  (forall k, count_if (in_number k) (granted (g x)) <= Z.max 1 Q).
Proof.
  intros st Hs Hc HQ Hx. pose proof (initial_good cfg s0 W Q R Hs Hc HQ) as H0.
  pose proof (good_reachable _ _ _ HQ _ _ H0 Hx) as Hgood. destruct (Hgood) as [[] _ _ Ht]. repeat split.
  - intros i t Hi Ho. destruct (progress _ _ _ x i t Hgood Hi Ho) as (j & x' & E). exists j, x'.
    split; [done | by eapply closer_next_step].
  - done.
  - intros i now Hi. rewrite Forall_lookup in Ht. apply (Ht _ _ Hi).
  - rewrite Forall_forall in so_granted0. destruct (so_granted0 _ H) as (m & t0 & E & _). simpl in E. lia.
  - rewrite Forall_forall in so_granted0. destruct (so_granted0 _ H) as (m & t0 & E & Et & Hle). simpl in E, Hle.
    exists t0. subst k. replace (S m - 1)%nat with m by lia. by split.
  - done.
Qed.

(** C18: a closed gate reopens.  In every interleaving, [isFastFail] stays set only while a window is being
    started, or the timer of the window's version has not fired or is in its callback.  So when no call
    is in progress and the timer of the last window has fired, an [Allow] of an armed closer at an
    instant the window is over grants the probe. *)
Theorem closed_gate_reopens cfg s0 x W Q R :
  CloserFactory cfg = Ret s0 -> within W Q R (Merge cfg defaultConfigureCloser) -> Q <= max_int64 ->
  rtc (step (within W Q R)) (initial s0) x ->
  let check := reopenCircuitCheck (closer x) in
  (isFastFail check = true ->
     (exists i k, tasks x !! i = Some (Holding k)) \/ isFailFastVersion check ∈ timers x \/
     Waking (isFailFastVersion check) ∈ tasks x \/ Clearing ∈ tasks x) /\
  ((forall i t, tasks x !! i = Some t -> over t = true) -> isFailFastVersion check ∉ timers x ->
   forall ctx t0 now, openedAt (closer x) = Some t0 -> nextOpenTime check <= now ->
   exists s', Allow ctx now (closer x) = (Ret true, s')).
Proof.
  intros Hs Hc HQ Hx check. pose proof (initial_good cfg s0 W Q R Hs Hc HQ) as H0.
  pose proof (good_reachable _ _ _ HQ _ _ H0 Hx) as Hgood.
  assert (Hshut : isFastFail check = true -> (exists i k, tasks x !! i = Some (Holding k)) \/
    isFailFastVersion check ∈ timers x \/ Waking (isFailFastVersion check) ∈ tasks x \/ Clearing ∈ tasks x).
  { intros Hf. destruct (go_shut _ _ _ _ Hgood Hf) as [Hl|?]; [left; by apply (go_lock _ _ _ _ Hgood) | by right]. }
  split; [exact Hshut |]. intros Hover Htm ctx t0 now Ho Hn.
  assert (Hf : isFastFail check = false).
  { destruct (isFastFail check); [| done]. destruct (Hshut eq_refl) as [(i & k & Hi)|[?|[[i Hi]%list_elem_of_lookup_1|[i Hi]%list_elem_of_lookup_1]]];
      [by apply Hover in Hi | done | by apply Hover in Hi ..]. }
  rewrite (Allow_open _ _ t0) by done. unfold zoom. cbn [view reopenCircuitCheckL]. fold check.
  unfold Check, bind, gets. rewrite Hf. unfold checkLocked, bind, gets, count_event, modify, time_After.
  destruct (Z.ltb_spec now (nextOpenTime check)); [lia |]. cbn.
  destruct (Z.ltb_spec now (nextOpenTime check)); [lia |]. cbn. destruct (_ <=? _); by eexists.
Qed.

(** What closes a circuit under concurrency.  In every interleaving, when [ShouldClose] answers yes at
    least [R] successes were counted since the streak was last reset, each of a request that started
    after the sleep window was started, if the settings always require [R] or more. *)
Theorem concurrent_closes_are_earned cfg s0 x W Q R i l :
  CloserFactory cfg = Ret s0 -> within W Q R (Merge cfg defaultConfigureCloser) -> Q <= max_int64 ->
  rtc (step (within W Q R)) (initial s0) x ->
  tasks x !! i = Some (Decided true l) ->
  R <= zlen l /\
  forall now d, (now, d) ∈ l -> exists t, t ∈ starts (g x) /\ t < now - d.
Proof.
  intros Hs Hc HQ Hx Hi. pose proof (initial_good cfg s0 W Q R Hs Hc HQ) as H0.
  pose proof (go_tasks _ _ _ _ (good_reachable _ _ _ HQ _ _ H0 Hx)) as Ht.
  rewrite Forall_lookup in Ht. destruct (Ht _ _ Hi) as [Hl Hr]. split; [by apply Hr |].
  intros now d Hd. rewrite Forall_forall in Hl. apply (Hl _ Hd).
Qed.

(** * An arm that comes too late, and witnesses *)

Module CloserSample.

Definition calls (x : sys) (ts : list task) : sys := mkSys (closer x) (locked x) (timers x) (tasks x ++ ts) (g x).

(** Settings that may be set. *)
Definition bounds : ConfigureCloser -> Prop := within 10 1 1.
Abbreviation step := (step bounds).

Lemma closer_calls_steps x ts : Forall (is_call bounds) ts -> rtc step x (calls x ts).
Proof.
  destruct x as [s lk tm us gh]. revert us. induction ts as [|t ts IH]; intros us Hc; cbn.
  - unfold calls. cbn. by rewrite app_nil_r.
  - apply Forall_cons in Hc as [Ht Hc]. eapply rtc_l; [by apply (StepCall bounds s lk tm us gh t) |].
    specialize (IH (us ++ [t]) Hc). unfold calls in *. cbn in *. by rewrite <- app_assoc in IH.
Qed.

Definition fire (v : Z) (tm' : list Z) (x : sys) : sys :=
  mkSys (closer x) (locked x) tm' (tasks x ++ [Waking v]) (g x).

Lemma fire_step v tm' x : timers x ≡ₚ v :: tm' -> step x (fire v tm' x).
Proof. destruct x. apply StepFire. Qed.

Definition cfg10 : ConfigureCloser := mkConfigureCloser None 10 1 1.
Definition closer10 : Closer := mkCloser (mkTimedCheck 10 1 false 0 0 0 None) 0 1 None None 10 cfg10 None.

(** The circuit opens at 100: an [Allow] comes before the [Opened].  It is closed at 101.  Much later the
    circuit opens again, and an [Allow] comes before that [Opened], then a success. *)
Definition begun : sys :=
  calls (initial closer10) [Asking 100; Arming 100 true; Closing 101; Asking 1000; Judging true 1005 3; Deciding].

Definition schedule_or (js : list nat) (x : sys) : sys := default x (schedule js x).

(** The first [Allow] is interrupted before it sets [openedAt]; [Opened] and [Closed] come and go. *)
Definition closed_state : sys := schedule_or [0; 0; 0; 0; 1; 1; 1; 1; 2; 2; 2]%nat begun.
(** It goes on. *)
Definition armed_state : sys := schedule_or [0; 0]%nat closed_state.
(** The timer of the window of [Opened] fires, and the [Allow] of the next episode asks. *)
Definition probed_state : sys := schedule_or [6; 6; 3; 3; 3; 3; 3; 4; 4; 5]%nat (fire 2 [1] armed_state).
Definition rested_state : sys := schedule_or [7; 7]%nat (fire 3 [1] probed_state).

Lemma schedule_or_steps x js y : rtc step x y -> bool_decide (is_Some (schedule js y)) = true -> rtc step x (schedule_or js y).
Proof.
  intros Hx Hs. apply bool_decide_eq_true in Hs as [z Hz]. unfold schedule_or. rewrite Hz.
  eapply rtc_trans; [exact Hx | by eapply closer_schedule_steps].
Qed.

Lemma closed_reachable : rtc step (initial closer10) closed_state.
Proof.
  apply schedule_or_steps; [| reflexivity]. apply closer_calls_steps. repeat (apply Forall_cons_2; [cbn; unfold max_int64; lia || done |]). constructor.
Qed.

Lemma armed_reachable : rtc step (initial closer10) armed_state.
Proof. apply schedule_or_steps; [apply closed_reachable | reflexivity]. Qed.

Lemma probed_reachable : rtc step (initial closer10) probed_state.
Proof.
  apply schedule_or_steps; [| reflexivity]. eapply rtc_r; [apply armed_reachable |]. apply fire_step. vm_compute. apply Permutation_swap.
Qed.

Lemma rested_reachable : rtc step (initial closer10) rested_state.
Proof.
  apply schedule_or_steps; [| reflexivity]. eapply rtc_r; [apply probed_reachable |]. apply fire_step. vm_compute. apply Permutation_swap.
Qed.

(** An arm that comes too late.  An [Allow] that read both pointers before the [Opened] and the [Closed]
    of an episode, and publishes after them, arms a closed closer, with the window of that episode
    ([armed_state]): nothing undoes it but the next transition.  So an [Allow] of the next episode that
    comes before its [Opened] sees an armed closer, checks the long-expired window and is allowed at
    once, and a success then is enough to close the circuit. *)
Theorem late_arm_outlives_close :
  rtc step (initial closer10) closed_state /\
  take 3 (tasks closed_state) = [Publishing 100 false; Finished; Finished] /\
  openedAt (closer closed_state) = None /\ closedAt (closer closed_state) = Some 101 /\
  rtc step closed_state armed_state /\
  take 3 (tasks armed_state) = [Answered 100 false; Finished; Finished] /\
  openedAt (closer armed_state) = Some 100 /\
  rtc step armed_state probed_state /\
  starts (g probed_state) = [100; 100; 1000] /\
  tasks probed_state = [Answered 100 false; Finished; Finished; Answered 1000 true; Finished;
    Decided true [(1005, 3)]; Finished].
Proof.
  split; [apply closed_reachable |]. split; [reflexivity |]. split; [reflexivity |]. split; [reflexivity |].
  split; [by apply schedule_or_steps |]. split; [reflexivity |]. split; [reflexivity |].
  split; [| by split]. apply schedule_or_steps; [| reflexivity]. eapply rtc_r; [done |].
  apply fire_step. vm_compute. apply Permutation_swap.
Qed.

Lemma concurrent_probes_are_limited_witness :
  (exists k, (k, 1000) ∈ granted (g probed_state)) /\ 100 ∈ starts (g probed_state) /\
  count_if (in_number 2) (granted (g probed_state)) <= 1.
Proof.
  destruct (concurrent_probes_are_limited cfg10 closer10 probed_state 10 1 1 eq_refl ltac:(vm_compute; repeat split; congruence)
    ltac:(vm_compute; congruence) probed_reachable) as (_ & H2 & H3 & _ & H5).
  split; [exact (H3 3%nat 1000 eq_refl) |]. split; [exact (H2 100 eq_refl) | exact (H5 2%nat)].
Defined.

(** A closer that opens at 100, and one that probes at 1000 and closes after the success. *)
Lemma closer_methods_are_runs_witness :
  runs bounds (Arming 100 true) closer10 Finished (snd (Opened Background 100 closer10)) /\
  runs bounds (Asking 1010) (closer rested_state) (Answered 1010 true) (snd (Allow Background 1010 (closer rested_state))) /\
  runs bounds (Judging true 1015 2) (closer rested_state) Finished (snd (Success Background 1015 2 (closer rested_state))).
Proof.
  destruct (closer_methods_are_runs bounds Background 100 0 true closer10 (snd (Opened Background 100 closer10))) as (H1 & _).
  destruct (closer_methods_are_runs bounds Background 1010 0 true (closer rested_state)
    (snd (Allow Background 1010 (closer rested_state)))) as (_ & _ & H2 & _).
  destruct (closer_methods_are_runs bounds Background 1015 2 true (closer rested_state)
    (snd (Success Background 1015 2 (closer rested_state)))) as (_ & _ & _ & H3 & _).
  split; [apply H1; vm_compute; reflexivity |]. split; [apply H2 | apply H3]; vm_compute; reflexivity.
Defined.

Lemma all_over ts : forallb over ts = true -> forall i t, ts !! i = Some t -> over t = true.
Proof. intros E i t Hi. rewrite forallb_forall in E. by eapply E, list_elem_of_In, list_elem_of_lookup_2. Qed.

Lemma closed_gate_reopens_witness : exists s', Allow Background 1010 (closer rested_state) = (Ret true, s').
Proof.
  destruct (closed_gate_reopens cfg10 closer10 rested_state 10 1 1 eq_refl ltac:(vm_compute; repeat split; congruence)
    ltac:(vm_compute; congruence) rested_reachable) as [_ H].
  apply H with (t0 := 100); [| vm_compute | reflexivity | vm_compute; congruence].
  - apply all_over. vm_compute. reflexivity.
  - intros Hin. apply list_elem_of_singleton in Hin. congruence.
Defined.

Lemma concurrent_closes_are_earned_witness : exists t, t ∈ starts (g probed_state) /\ t < 1005 - 3.
Proof.
  destruct (concurrent_closes_are_earned cfg10 closer10 probed_state 10 1 1 5 [(1005, 3)] eq_refl
    ltac:(vm_compute; repeat split; congruence) ltac:(vm_compute; congruence) probed_reachable eq_refl) as [_ H].
  apply H. by apply list_elem_of_singleton.
Defined.
End CloserSample.
End ConcurrentCloser.
