(* ===== verification/SimpleLogic.v ===== *)
(** closers/simplelogic/closers.go: opening a circuit after a number of errors in a row, and
    its implementation of the interface [ClosedToOpen]. *)

From S2P Require Import Prelude GoMonad Metrics Closers.

Module ConsecutiveErrOpener.

(** * Data *)

Record ConsecutiveErrOpener := mkConsecutiveErrOpener {
  consecutiveCount : Z;
  closeThreshold : Z
}.

Record ConfigConsecutiveErrOpener := mkConfigConsecutiveErrOpener { ErrorThreshold : Z }.

(** * Operations *)

Definition Merge (c other : ConfigConsecutiveErrOpener) : ConfigConsecutiveErrOpener :=
  if ErrorThreshold c =? 0 then mkConfigConsecutiveErrOpener (ErrorThreshold other) else c.

Definition defaultConfigConsecutiveErrOpener : ConfigConsecutiveErrOpener :=
  mkConfigConsecutiveErrOpener 10.

Definition set_count (n : Z) (c : ConsecutiveErrOpener) : ConsecutiveErrOpener :=
  mkConsecutiveErrOpener n (closeThreshold c).

Definition SetConfigThreadSafe (props : ConfigConsecutiveErrOpener) : M ConsecutiveErrOpener unit :=
  modify (fun c => mkConsecutiveErrOpener (consecutiveCount c) (ErrorThreshold props)).

Definition SetConfigNotThreadSafe (props : ConfigConsecutiveErrOpener) : M ConsecutiveErrOpener unit :=
  SetConfigThreadSafe props.

Definition ConsecutiveErrOpenerFactory (config : ConfigConsecutiveErrOpener) : ConsecutiveErrOpener :=
  snd (SetConfigThreadSafe (Merge config defaultConfigConsecutiveErrOpener) (mkConsecutiveErrOpener 0 0)).

Definition Closed (_ : Context) (_ : Time) : M ConsecutiveErrOpener unit := modify (set_count 0).
Definition Opened (_ : Context) (_ : Time) : M ConsecutiveErrOpener unit := modify (set_count 0).

Definition Prevent (_ : Context) (_ : Time) : M ConsecutiveErrOpener bool := ret false.

Definition Success (_ : Context) (_ : Time) (_ : Duration) : M ConsecutiveErrOpener unit :=
  let! n := gets consecutiveCount in
  if negb (n =? 0) then modify (set_count 0) else ret tt.

(** [ErrFailure] and [ErrTimeout] have the same body. *)
Definition ErrFailure (_ : Context) (_ : Time) (_ : Duration) : M ConsecutiveErrOpener unit :=
  modify (fun c => set_count (wrap64 (consecutiveCount c + 1)) c).
Definition ErrTimeout (_ : Context) (_ : Time) (_ : Duration) : M ConsecutiveErrOpener unit :=
  modify (fun c => set_count (wrap64 (consecutiveCount c + 1)) c).

Definition ShouldOpen (_ : Context) (_ : Time) : M ConsecutiveErrOpener bool :=
  gets (fun c => closeThreshold c <=? consecutiveCount c).

#[export] Instance ConsecutiveErrOpener_ClosedToOpen : ClosedToOpen ConsecutiveErrOpener := {|
  opener_run := {|
    Metrics.Success := Success;
    Metrics.ErrFailure := ErrFailure;
    Metrics.ErrTimeout := ErrTimeout;
    ErrBadRequest _ _ _ := ret tt;
    ErrInterrupt _ _ _ := ret tt;
    ErrConcurrencyLimitReject _ _ := ret tt;
    ErrShortCircuit _ _ := ret tt
  |};
  opener_metrics := {| Metrics.Closed := Closed; Metrics.Opened := Opened |};
  Closers.ShouldOpen := ShouldOpen;
  Closers.Prevent := Prevent
|}.

#[export] Instance ConsecutiveErrOpener_laws : ClosedToOpenLaws ConsecutiveErrOpener (fun _ => True).
Proof.
  split; intros; try apply safe_ret; try apply safe_gets; try by apply safe_modify.
  intros k ctx t d. destruct k; try apply safe_ret; try by apply safe_modify.
  apply safe_bind; [apply safe_gets | intros n]. destruct (negb _); [by apply safe_modify | apply safe_ret].
Qed.

(** * Specification

    The number of failures and timeouts at the end of a history (given backwards) since the
    last success or transition; the other outcomes neither count nor interrupt. *)
Fixpoint errors_in_a_row (back : list told) : Z :=
  match back with
  | [] => 0
  | Transitioned _ _ :: _ => 0
  | Reported k _ _ :: back' =>
      match k with
      | KErrFailure | KErrTimeout => 1 + errors_in_a_row back'
      | KSuccess => 0
      | _ => errors_in_a_row back'
      end
  end.

Lemma errors_in_a_row_bounds back : 0 <= errors_in_a_row back <= zlen back.
Proof.
  unfold zlen. induction back as [|[k t d|o t] back IH]; simpl; [lia | | lia].
  destruct k; lia.
Qed.

Lemma told_count h c back :
  consecutiveCount c = errors_in_a_row back -> errors_in_a_row back + zlen h <= max_int64 ->
  exists c', range_do tell_opener h c = (Ret tt, c') /\ closeThreshold c' = closeThreshold c /\
    consecutiveCount c' = errors_in_a_row (rev h ++ back).
Proof.
  revert c back. induction h as [|x h IH]; intros c back Hc Hmax; [by exists c |].
  assert (Hlen : zlen (x :: h) = 1 + zlen h) by (unfold zlen; simpl; lia).
  pose proof (errors_in_a_row_bounds back) as Hb. pose proof (zlen_nonneg h) as Hh.
  assert (H : exists c1, tell_opener x c = (Ret tt, c1) /\ closeThreshold c1 = closeThreshold c /\
    consecutiveCount c1 = errors_in_a_row (x :: back)).
  { destruct x as [k t d|o t]; [destruct k | destruct o]; simpl; try (by eexists).
    - unfold Success, bind, gets. destruct (Z.eqb_spec (consecutiveCount c) 0) as [H0|H0]; simpl; [by exists c | by eexists].
    - eexists. split; [done |]. split; [done |]. simpl. rewrite Hc, wrap64_id by (unfold min_int64; lia). lia.
    - eexists. split; [done |]. split; [done |]. simpl. rewrite Hc, wrap64_id by (unfold min_int64; lia). lia. }
  destruct H as (c1 & E1 & Ht1 & Hc1). pose proof (errors_in_a_row_bounds (x :: back)).
  assert (errors_in_a_row (x :: back) <= 1 + errors_in_a_row back).
  { simpl. destruct x as [k t d|o t]; [destruct k |]; lia. }
  destruct (IH c1 (x :: back) Hc1) as (c2 & E2 & Ht2 & Hc2); [lia |].
  exists c2. simpl. rewrite <- app_assoc. rewrite (bind_run _ _ _ _ _ E1). split; [done |]. split; [congruence | done].
Qed.
End ConsecutiveErrOpener.

Export (hints) ConsecutiveErrOpener.
Import ConsecutiveErrOpener.

(** * Properties *)

(** C40: an opener made by its factory, told any history, says to open exactly when the failures
    and timeouts since the last success or transition are at least the configured threshold
    (the default one when it is zero). *)
Theorem consecutive_errors_decide_open config h ctx t :
  zlen h <= max_int64 ->
  let threshold := ErrorThreshold (Merge config defaultConfigConsecutiveErrOpener) in
  exists c, range_do tell_opener h (ConsecutiveErrOpenerFactory config) = (Ret tt, c) /\
    ShouldOpen ctx t c = (Ret (threshold <=? errors_in_a_row (rev h)), c).
Proof.
  intros Hlen threshold.
  destruct (told_count h (ConsecutiveErrOpenerFactory config) []) as (c & E & Ht & Hc); [done | done |].
  exists c. split; [exact E |]. unfold ShouldOpen, gets. by rewrite Ht, Hc, app_nil_r.
Qed.

Lemma consecutive_errors_decide_open_witness :
  exists c, range_do tell_opener
      [Reported KErrFailure 1 1; Reported KSuccess 2 1; Reported KErrTimeout 3 9; Reported KErrInterrupt 4 1;
       Reported KErrFailure 5 1]
      (ConsecutiveErrOpenerFactory (mkConfigConsecutiveErrOpener 2)) = (Ret tt, c) /\
    ShouldOpen Background 6 c = (Ret true, c).
Proof.
  apply (consecutive_errors_decide_open (mkConfigConsecutiveErrOpener 2)
    [Reported KErrFailure 1 1; Reported KSuccess 2 1; Reported KErrTimeout 3 9; Reported KErrInterrupt 4 1;
     Reported KErrFailure 5 1] Background 6).
  vm_compute. congruence.
Defined.
