(* ===== verification/Hystrix.v ===== *)
(** closers/hystrix/config.go: the factory of hystrix circuits, and such a circuit put together
    from its parts.

    [Configure] combines HystrixOpener.v and HystrixCloser.v into a configuration of
    Circuit.v; the theorem at the end discharges, for a circuit made from it, the interface
    laws that the theorems about [Execute] assume of the open/close logic. *)

From S2P Require Import Prelude GoMonad RollingBuckets RollingCounter TimedCheck Errors Metrics Closers Config Circuit CircuitFacts HystrixOpener HystrixCloser.

Module Hystrix.

Abbreviation Opener := HystrixOpener.Opener.Opener.
Abbreviation ConfigureOpener := HystrixOpener.Opener.ConfigureOpener.
Abbreviation Closer := HystrixCloser.Closer.Closer.
Abbreviation ConfigureCloser := HystrixCloser.Closer.ConfigureCloser.

(** * Data *)

Record Factory (U : Type) := mkFactory {
  ConfigureCloser_ : ConfigureCloser;
  ConfigureOpener_ : ConfigureOpener U;
  CreateConfigureCloser : list (string -> M U ConfigureCloser);
  CreateConfigureOpener : list (string -> M U (ConfigureOpener U))
}.

Arguments mkFactory {U} _ _ _ _.
Arguments ConfigureCloser_ {U} _.
Arguments ConfigureOpener_ {U} _.
Arguments CreateConfigureCloser {U} _.
Arguments CreateConfigureOpener {U} _.

(** * Operations *)

Section Methods.
Context {U : Type} (time_Now : M U Time).

(** [for i := len(l) - 1; i >= 0; i-- { finalConfig.Merge(l[i](circuitName)) }], over the list
    reversed *)
Fixpoint merge_created {A} (merge : A -> A -> A) (l : list (string -> M U A)) (circuitName : string) (finalConfig : A)
    : M U A :=
  match l with
  | [] => ret finalConfig
  | c :: rest => let! other := c circuitName in merge_created merge rest circuitName (merge finalConfig other)
  end.

(** The result is the closure that makes closers. *)
Definition createCloser (c : Factory U) (circuitName : string) : M U (M U Closer) :=
  let! finalConfig := merge_created HystrixCloser.Closer.Merge (reverse (CreateConfigureCloser c)) circuitName
    HystrixCloser.Closer.ConfigureCloser_zero in
  let finalConfig := HystrixCloser.Closer.Merge finalConfig (ConfigureCloser_ c) in
  ret (of_outcome (HystrixCloser.Closer.CloserFactory finalConfig)).

Definition createOpener (c : Factory U) (circuitName : string) : M U (M U (Opener U)) :=
  let! finalConfig := merge_created HystrixOpener.Opener.Merge (reverse (CreateConfigureOpener c)) circuitName
    HystrixOpener.Opener.ConfigureOpener_zero in
  let finalConfig := HystrixOpener.Opener.Merge finalConfig (ConfigureOpener_ c) in
  ret (HystrixOpener.Opener.OpenerFactory time_Now finalConfig).

Definition Configure (c : Factory U) (circuitName : string) : M U (Config (Opener U) Closer U) :=
  let! closer := createCloser c circuitName in
  let! opener := createOpener c circuitName in
  let zero : Config (Opener U) Closer U := Config_zero in
  let g := General zero in
  ret (mkConfig
    (mkGeneralConfig (Disabled g) (ForceOpen g) (ForcedClosed g) (GoLostErrors g) (Some opener) (Some closer)
       (CustomConfig g) (General_TimeKeeper g))
    (Execution zero) (Fallback zero) (Metrics_ zero)).
End Methods.

(** * Lemmas *)

(** What [NewCircuitFromConfig] builds when the factories return logic that is not
    [Configurable] in the sense of package circuit. *)
Lemma NewCircuitFromConfig_run {OS CS U} `{!ClosedToOpen OS} `{!OpenToClosed CS} `{!UserCode OS CS U}
    name (config : Config OS CS U) u opens closes clk opener closer u1 u2 :
  let cfg := Merge config (defaultCommandProperties neverOpensFactory neverClosesFactory time_Now) in
  opener_Configurable = None -> closer_Configurable = None ->
  ClosedToOpenFactory (General cfg) = Some opens -> OpenToClosedFactory (General cfg) = Some closes ->
  Config.Now (General_TimeKeeper (General cfg)) = Some clk ->
  closes u = (Ret closer, u1) -> opens u1 = (Ret opener, u2) ->
  NewCircuitFromConfig name config u
  = (Ret (mkCircuit
       (RefOpenToClose :: RefClosedToOpen :: map RefUser (Metrics_Run (Metrics_ cfg)))
       (Metrics_Fallback (Metrics_ cfg)) (Metrics_Circuit (Metrics_ cfg)) (GoLostErrors (General cfg)) name
       cfg false (reset cfg) false (Some opener) (Some closer) (Some clk) false [] false 0 0), u2).
Proof.
  intros cfg Ho Hc Hopens Hcloses Hclk E1 E2. unfold NewCircuitFromConfig. fold cfg.
  unfold SetConfigNotThreadSafe, SetConfigThreadSafe. rewrite Ho, Hc, Hopens, Hcloses, Hclk.
  unfold call_factory, bind, zoom, lock, unlock, set, get, gets, modify, defer. simpl. rewrite E1. simpl.
  rewrite E2. reflexivity.
Qed.

Lemma merge_created_run {U A} (merge : A -> A -> A) (l : list A) name cfg (u : U) :
  merge_created merge ((fun c _ => ret c) <$> l) name cfg u = (Ret (fold_left merge l cfg), u).
Proof.
  revert cfg. induction l as [|c l IH]; intros cfg; [done |]. cbn [fmap list_fmap merge_created].
  rewrite (bind_run _ _ u c u) by done. apply IH.
Qed.

(** The configurations a factory's circuits get, from the constructors' and its own. *)
Definition closer_config (ccs : list ConfigureCloser) (cc : ConfigureCloser) : ConfigureCloser :=
  fold_left HystrixCloser.Closer.Merge (reverse ccs ++ [cc]) HystrixCloser.Closer.ConfigureCloser_zero.
Definition opener_config {U} (ocs : list (ConfigureOpener U)) (oc : ConfigureOpener U) : ConfigureOpener U :=
  fold_left HystrixOpener.Opener.Merge (reverse ocs ++ [oc]) HystrixOpener.Opener.ConfigureOpener_zero.

Lemma Configure_run {U} (time_Now : M U Time) cc oc ccs ocs name (u : U) :
  let f := mkFactory cc oc ((fun c _ => ret c) <$> ccs) ((fun c _ => ret c) <$> ocs) in
  exists cfg, Configure time_Now f name u = (Ret cfg, u) /\
    ClosedToOpenFactory (General cfg)
      = Some (HystrixOpener.Opener.OpenerFactory time_Now (opener_config ocs oc)) /\
    OpenToClosedFactory (General cfg)
      = Some (of_outcome (HystrixCloser.Closer.CloserFactory (closer_config ccs cc))) /\
    General_TimeKeeper (General cfg) = mkTimeKeeper None None.
Proof.
  intros f. assert (Hc : createCloser f name u
    = (Ret (of_outcome (HystrixCloser.Closer.CloserFactory (closer_config ccs cc))), u)).
  { unfold createCloser, f. cbn [CreateConfigureCloser ConfigureCloser_]. rewrite <- fmap_reverse.
    rewrite (bind_run _ _ _ _ _ (merge_created_run _ _ _ _ _)). unfold closer_config. by rewrite fold_left_app. }
  assert (Ho : createOpener time_Now f name u
    = (Ret (HystrixOpener.Opener.OpenerFactory time_Now (opener_config ocs oc)), u)).
  { unfold createOpener, f. cbn [CreateConfigureOpener ConfigureOpener_]. rewrite <- fmap_reverse.
    rewrite (bind_run _ _ _ _ _ (merge_created_run _ _ _ _ _)). unfold opener_config. by rewrite fold_left_app. }
  eexists. split; [unfold Configure; rewrite (bind_run _ _ _ _ _ Hc), (bind_run _ _ _ _ _ Ho); reflexivity |].
  by split.
Qed.

(** * Properties *)

(** A circuit from the hystrix factory works.  Whatever the configurations of the factory
    and of its constructors, as long as the clocks return: [NewCircuitFromConfig] builds, from
    what [Configure] returns, a closed circuit at rest whose opener and closer satisfy the
    invariants of their interfaces and run by the last constructor's settings, then the
    factory's, then the defaults; so every [Execute] on it returns, or lets the user's own
    panic through, and leaves it at rest again. *)
Theorem hystrix_circuit_is_ready {U} `{!UserCode (Opener U) Closer U} cc oc ccs ocs name (u : U) :
  let f := mkFactory cc oc ((fun c _ => ret c) <$> ccs) ((fun c _ => ret c) <$> ocs) in
  let ccfg := HystrixCloser.Closer.Merge (closer_config ccs cc) HystrixCloser.Closer.defaultConfigureCloser in
  let ocfg := HystrixOpener.Opener.effective time_Now (opener_config ocs oc) in
  let n := HystrixOpener.Opener.NumBuckets ocfg in
  let w := Z.quot (HystrixOpener.Opener.RollingDuration ocfg) n in
  let ready := at_rest HystrixOpener.Opener.opener_ok HystrixCloser.Closer.closer_ok 0 0 in
  opener_Configurable = None -> closer_Configurable = None ->
  clock_ok time_Now -> clock_ok (HystrixOpener.Opener.now time_Now ocfg) ->
  HystrixCloser.Closer.HalfOpenAttempts ccfg <= max_int64 ->
  (0 < w -> max_int64 / w + n <= max_int64) ->
  exists cfg c u' os cs,
    Configure time_Now f name u = (Ret cfg, u) /\ NewCircuitFromConfig name cfg u = (Ret c, u') /\
    ready (mkWorld c u') /\ isOpen c = false /\
    ClosedToOpenLogic c = Some os /\
    HystrixOpener.Opener.errorPercentage os = HystrixOpener.Opener.ErrorThresholdPercentage ocfg /\
    HystrixOpener.Opener.requestVolumeThreshold os = HystrixOpener.Opener.RequestVolumeThreshold ocfg /\
    OpenToClose c = Some cs /\
    HystrixCloser.Closer.sleepWindow cs = HystrixCloser.Closer.SleepWindow ccfg /\
    HystrixCloser.Closer.closeOnCurrentCount cs = HystrixCloser.Closer.RequiredConcurrentSuccessful ccfg /\
    (QuietUserCode (Opener U) Closer U -> forall E ctx f fb,
       (forall g ctx, f = Some g ->
          well_behaved HystrixOpener.Opener.opener_ok HystrixCloser.Closer.closer_ok E (g ctx)) ->
       (forall g ctx e, fb = Some g ->
          well_behaved HystrixOpener.Opener.opener_ok HystrixCloser.Closer.closer_ok E (g ctx e)) ->
       match Execute 2 theCircuit ctx f fb (mkWorld c u') with
       | (Ret _, w') => ready w'
       | (Panic p, w') => E p /\ ready w'
       | _ => False
       end).
Proof.
  intros f ccfg ocfg n w ready Ho Hc Hclk Hoclk Hhalf Hw.
  destruct (Configure_run time_Now cc oc ccs ocs name u) as (cfg & Econf & Eopens & Ecloses & Etk).
  destruct (HystrixCloser.Closer.CloserFactory (closer_config ccs cc)) as [cs| | |] eqn:Ecs; try discriminate.
  destruct (HystrixCloser.Closer.CloserFactory_ok _ _ Ecs Hhalf) as (Hcs & _ & _ & Hsleep & Hreq & _).
  destruct (Hoclk u) as (start & u' & Estart).
  destruct (HystrixOpener.Opener.OpenerFactory_total time_Now _ _ _ _ Estart) as (os & Eos).
  pose proof (HystrixOpener.Opener.OpenerFactory_ok time_Now _ _ _ _ Eos Hw) as Hos.
  destruct (HystrixOpener.Opener.OpenerFactory_spec time_Now _ _ _ _ Eos) as (_ & _ & _ & _ & Hpct & Hvol).
  eexists cfg, _, u', os, cs. split; [exact Econf |].
  split; [eapply NewCircuitFromConfig_run; try done; simpl; rewrite ?Eopens, ?Ecloses, ?Etk; reflexivity |].
  match goal with |- ready ?w /\ _ => assert (Hready : ready w) end.
  { split; [split; [by exists os | split; [by exists cs | split; [by exists time_Now | done]]] | done]. }
  split; [exact Hready |]. repeat (split; [done |]). intros Hq E ctx g fb Hg Hfb.
  pose proof (Execute_well_behaved _ _ 2 E theCircuit ctx g fb ltac:(lia) Hg Hfb 0 0 eq_refl eq_refl _ Hready) as H.
  exact H.
Qed.

(** * Witness *)

Module HystrixSample.
(** Nothing outside the circuit but a clock that ticks. *)
Definition tick : M Z Time := fun u => (Ret (u + 1), u + 1).

#[export] Instance code : UserCode (Opener Z) Closer Z := {|
  user_run _ := {|
    Success _ _ _ := ret tt; ErrFailure _ _ _ := ret tt; ErrTimeout _ _ _ := ret tt;
    ErrBadRequest _ _ _ := ret tt; ErrInterrupt _ _ _ := ret tt;
    ErrConcurrencyLimitReject _ _ := ret tt; ErrShortCircuit _ _ := ret tt |};
  user_fallback _ := {|
    FallbackSuccess _ _ _ := ret tt; FallbackErrFailure _ _ _ := ret tt;
    FallbackErrConcurrencyLimitReject _ _ := ret tt |};
  user_metrics _ := {| Closed _ _ := ret tt; Opened _ _ := ret tt |};
  ctx_Err _ _ := None;
  ctx_cancel _ u := u;
  opener_Configurable := None;
  closer_Configurable := None;
  neverOpensFactory := throw NilDereference;
  neverClosesFactory := throw NilDereference;
  time_Now := tick
|}.

Lemma hystrix_circuit_is_ready_witness :
  exists cfg c u' os cs,
    Configure tick (mkFactory (HystrixCloser.Closer.mkConfigureCloser None 7 0 0)
        (HystrixOpener.Opener.mkConfigureOpener 0 3 None 0 0)
        ((fun c _ => ret c) <$> [HystrixCloser.Closer.mkConfigureCloser None 9 0 2]) ((fun c _ => ret c) <$> []))
      "db" 100 = (Ret cfg, 100) /\
    NewCircuitFromConfig "db" cfg 100 = (Ret c, u') /\ isOpen c = false /\
    ClosedToOpenLogic c = Some os /\ HystrixOpener.Opener.requestVolumeThreshold os = 3 /\
    OpenToClose c = Some cs /\ HystrixCloser.Closer.sleepWindow cs = 9.
Proof.
  destruct (hystrix_circuit_is_ready (HystrixCloser.Closer.mkConfigureCloser None 7 0 0)
    (HystrixOpener.Opener.mkConfigureOpener 0 3 None 0 0)
    [HystrixCloser.Closer.mkConfigureCloser None 9 0 2] [] "db" 100)
    as (cfg & c & u' & os & cs & E1 & E2 & _ & Ho & Eo & _ & Hv & Ec & Hs & _).
  1-6: first [done | by intros u; eexists _, _ | vm_compute; congruence].
  exists cfg, c, u', os, cs. split; [exact E1 |]. split; [exact E2 |]. split; [exact Ho |].
  split; [exact Eo |]. split; [exact Hv |]. split; [exact Ec | exact Hs].
Defined.
End HystrixSample.
End Hystrix.
