(* ===== verification/HystrixCycle.v ===== *)
(** The life of a circuit with hystrix logic: circuit.go with closers/hystrix/opener.go and
    closer.go, as a function of what happened to it.

    While the circuit is closed, all that matters is the history of reports since it last closed;
    while it is open, when it opened and what its closer was asked and told since.  [call_spec]
    says what a call does to these histories: what it reads from the clock, the command and the
    caller's context, and what follows from that in terms of the error rate of the window, of the
    granted probes and of the streak of successes, without any counter or timer of the
    implementation.  [hystrix_calls_refine_histories] shows that the code does that. *)

From S2P Require Import Prelude GoMonad RollingBuckets RollingCounter TimedCheck Errors Metrics Closers Config Circuit CircuitFacts CircuitSpec HystrixOpener HystrixCloser Hystrix.

Module HystrixCycle.

Import CircuitSpec.
Import HystrixOpener.Opener (Opener, is_error, is_attempt, counted, should_open).
Import HystrixCloser.Closer (Closer, closer_event, Told, AskAllow, TimerFired, probes, streak, run_closer).

(** * Histories *)

Section Cycle.
Context {U : Type}.
Abbreviation O := (Opener U).

(** The rolling window of the opener, and the settings. *)
Context (w n : Z) (start : Time) (percent volume required sleep : Z).
Hypothesis Hw : 0 < w.
Hypothesis Hn : 0 < n.
Hypothesis Hpercent : 0 <= percent.

Inductive mode :=
| ClosedSince (h : list told)
| OpenSince (t0 : Time) (s1 : Closer) (h : list closer_event).  (* [s1]: the closer as it opened *)

(** ** What a call does *)

Section Spec.
Context (cfg : atomicCircuitConfig) (isErrInterrupt : error -> bool) (ctx : Context).

(** The deadline of a call that starts at [t], and the context of its command. *)
Definition deadline (t : Time) : Time :=
  if 0 <? a_ExecutionTimeout cfg then time_Add t (a_ExecutionTimeout cfg) else 0.
Definition derived (t : Time) : Context :=
  if 0 <? a_ExecutionTimeout cfg then WithDeadline ctx (deadline t) else ctx.
Definition cancels (t : Time) : list interaction :=
  if 0 <? a_ExecutionTimeout cfg then [Emits (Cancels (derived t))] else [].

(** A command that started at [t], ended at [t1] and returned [r], when the caller's context had the
    error [e]. *)
Definition outcome (t : Time) (r : option error) (t1 : Time) (e : option error) : run_kind :=
  kind_of cfg isErrInterrupt r e (deadline t) t1.
Definition heard_of (t : Time) r t1 e : told := Reported (outcome t r t1 e) t1 (time_Sub t1 t).

(** The interactions of a call that ran its command, with those of a transition, if it caused one. *)
Definition ran (t : Time) (r : option error) (t1 : Time) (e : option error) (more : list interaction) :=
  [ReadClock t; ReadResult (derived t) r; ReadClock t1; ReadCtxErr ctx e;
   Emits (Reports (outcome t r t1 e) (derived t) t1 (time_Sub t1 t))] ++ more ++ cancels t.
Definition flips (open : bool) (ctx' : Context) (t2 : Time) : list interaction :=
  [ReadClock t2; Emits (Announces open ctx' t2)].

(** [call_spec mo rs r mo']: a call in the mode [mo] has the interactions [rs], returns [r] and leaves
    the mode [mo']. *)
Inductive call_spec : mode -> list interaction -> option error -> mode -> Prop :=
| call_reported h t r t1 e :
    is_error (outcome t r t1 e) && should_open volume percent w n start t1 (h ++ [heard_of t r t1 e]) = false ->
    call_spec (ClosedSince h) (ran t r t1 e []) r (ClosedSince (h ++ [heard_of t r t1 e]))
| call_opens h t r t1 e t2 s1 :
    is_error (outcome t r t1 e) = true -> should_open volume percent w n start t1 (h ++ [heard_of t r t1 e]) = true ->
    call_spec (ClosedSince h) (ran t r t1 e (flips true (derived t) t2)) r (OpenSince t2 s1 [])
| call_rejected t0 s1 h t :
    probes (h ++ [AskAllow t]) s1 = probes h s1 ->
    call_spec (OpenSince t0 s1 h) [ReadClock t; Emits (Reports KErrShortCircuit ctx t 0)]
      (Some errCircuitOpen) (OpenSince t0 s1 (h ++ [AskAllow t]))
| call_probes t0 s1 h t r t1 e :
    probes (h ++ [AskAllow t]) s1 = probes h s1 ++ [t] ->
    (outcome t r t1 e = KSuccess -> streak t0 (rev (h ++ [AskAllow t; Told (heard_of t r t1 e)])) < required) ->
    call_spec (OpenSince t0 s1 h) (ran t r t1 e []) r (OpenSince t0 s1 (h ++ [AskAllow t; Told (heard_of t r t1 e)]))
| call_closes t0 s1 h t r t1 e t2 :
    probes (h ++ [AskAllow t]) s1 = probes h s1 ++ [t] -> outcome t r t1 e = KSuccess ->
    required <= streak t0 (rev (h ++ [AskAllow t; Told (heard_of t r t1 e)])) ->
    call_spec (OpenSince t0 s1 h) (ran t r t1 e (flips false (derived t) t2)) r (ClosedSince []).
End Spec.

(** * The histories of a machine *)

Definition heard (upto : Time) (h : list told) (e : O) : Prop :=
  HystrixOpener.Opener.knows w n start upto (counted is_error h) (counted is_attempt h) e /\
  HystrixOpener.Opener.errorPercentage e = percent /\
  HystrixOpener.Opener.requestVolumeThreshold e = volume.

Definition set_up (s : Closer) : Prop :=
  HystrixCloser.Closer.closer_ok s /\ HystrixCloser.Closer.closeOnCurrentCount s = required /\
  HystrixCloser.Closer.sleepWindow s = sleep.

Definition in_episode (e : closer_event) : Prop :=
  HystrixCloser.Closer.is_transition e = false /\ HystrixCloser.Closer.report_sane e.

(** The opener and the closer are as the history of the mode leaves them; [upto] bounds the
    instants of it. *)
Definition models (upto : Time) (m : mode) (a : abs O Closer) : Prop :=
  start <= upto /\
  match m with
  | ClosedSince h => a_open a = false /\ heard upto h (a_opener a) /\ set_up (a_closer a)
  | OpenSince t0 s1 h =>
      a_open a = true /\ (exists ho, heard upto ho (a_opener a)) /\
      (exists s0, set_up s0 /\ Opened closer_metrics Background t0 s0 = (Ret tt, s1)) /\
      Forall in_episode h /\ run_closer h s1 = (Ret tt, a_closer a)
  end.

(** Room for one more call in the counters. *)
Definition roomy (m : mode) : Prop :=
  match m with
  | ClosedSince h => (zlen h + 1) * 100 <= max_int64 /\ percent * (zlen h + 1) <= max_int64
  | OpenSince _ _ h => zlen h + 2 <= max_int64
  end.

(** * Lemmas *)

(** ** Telling the logic *)

Lemma heard_mono upto upto' h e : upto <= upto' -> heard upto h e -> heard upto' h e.
Proof.
  intros Hle [[He Ha] Hs]. split; [| done]. split; eapply fed_mono; try done.
Qed.

Lemma heard_tell upto h x e :
  heard upto h e -> start <= told_time x <= upto -> upto - start <= max_int64 ->
  exists e', tell_opener x e = (Ret tt, e') /\ heard upto (h ++ [x]) e'.
Proof.
  intros [Hk [Hp Hv]] Ht Hr.
  destruct (HystrixOpener.Opener.knows_tell w n start upto Hw Hn Hr _ _ x e Hk Ht) as (e' & E & Hk' & Sp & Sv).
  exists e'. split; [done |]. unfold heard, counted. rewrite !foldl_app. simpl. split; [done |]. by rewrite Sp, Sv.
Qed.

Lemma set_up_tell_report k t d s :
  set_up s -> exists s', tell_closer (Reported k t d) s = (Ret tt, s') /\ set_up s'.
Proof.
  intros (Hok & Hr & Hs). destruct k; simpl; try (by exists s);
    unfold HystrixCloser.Closer.Success, HystrixCloser.Closer.ErrFailure, HystrixCloser.Closer.ErrTimeout, bind, gets;
    destruct (HystrixCloser.Closer.startedWhileOpen t d s); by eexists.
Qed.

Lemma set_up_opened t s :
  set_up s -> exists s1, Opened closer_metrics Background t s = (Ret tt, s1) /\ set_up s1 /\
    HystrixCloser.Closer.openedAt s1 = Some t /\ HystrixCloser.Closer.concurrentSuccessfulAttempts s1 = 0.
Proof.
  intros (Hok & Hr & Hs).
  destruct (HystrixCloser.Closer.arm_spec t true s Hok) as (s' & E & Hok' & H0 & Hc & Ho & _ & Hw' & _).
  exists s'. split; [exact E |]. repeat split; congruence || apply Hok'.
Qed.

Lemma set_up_closed t s :
  set_up s -> exists s1, Closed closer_metrics Background t s = (Ret tt, s1) /\ set_up s1.
Proof. intros Hs. by eexists. Qed.

Lemma consume_inv {OS CS A} (accepts : interaction -> option A) (m : machine OS CS) x m' :
  consume accepts m = (Ret x, m') ->
  exists i, m_rest m = i :: m_rest m' /\ accepts i = Some x /\ m_abs m' = m_abs m.
Proof.
  unfold consume. destruct (m_rest m) as [|i rest]; [done |]. destruct (accepts i) as [y|] eqn:Ea; [| done].
  intros [= -> <-]. by exists i.
Qed.

Lemma emit_inv {OS CS} sg (m : machine OS CS) m' :
  emit sg m = (Ret tt, m') -> m_rest m = Emits sg :: m_rest m' /\ m_abs m' = m_abs m.
Proof.
  intros H. apply consume_inv in H as (i & E & Ha & A). destruct i; try done.
  destruct (decide _) as [->|]; [| done]. done.
Qed.

(** The context is not looked at. *)
Lemma report_inv k ctx t d (a : abs O Closer) rs e' s' m' :
  tell_opener (Reported k t d) (a_opener a) = (Ret tt, e') ->
  tell_closer (Reported k t d) (a_closer a) = (Ret tt, s') ->
  report k ctx t d (mkMachine a rs) = (Ret tt, m') ->
  exists rs', rs = Emits (Reports k ctx t d) :: rs' /\ m' = mkMachine (mkAbs (a_open a) e' s') rs'.
Proof.
  intros Ee Es. unfold report, bind, zoom.
  replace (run_call closer_run k ctx t d) with (tell_closer (S := Closer) (Reported k t d)) by by destruct k.
  replace (run_call opener_run k ctx t d) with (tell_opener (S := O) (Reported k t d)) by by destruct k.
  cbn [view closerL m_abs]. rewrite Es. cbn [upd closerL openerL view m_abs a_opener]. rewrite Ee.
  intros H. apply emit_inv in H as [E A]. exists (m_rest m'). split; [exact E |].
  destruct m'. cbn in A |- *. by rewrite A.
Qed.

Lemma announce_run o ctx t (a : abs O Closer) rs e' s' :
  tell_opener (Transitioned o t) (a_opener a) = (Ret tt, e') ->
  tell_closer (Transitioned o t) (a_closer a) = (Ret tt, s') ->
  announce o ctx t (mkMachine a rs) = (Ret tt, mkMachine (mkAbs (a_open a) e' s') rs).
Proof.
  intros Ee Es. unfold announce, bind, zoom. destruct o.
  - change (Opened closer_metrics ctx t) with (tell_closer (S := Closer) (Transitioned true t)).
    change (Opened opener_metrics ctx t) with (tell_opener (S := O) (Transitioned true t)).
    cbn [view closerL m_abs]. rewrite Es. cbn [upd closerL openerL view m_abs a_opener]. by rewrite Ee.
  - change (Closed closer_metrics ctx t) with (tell_closer (S := Closer) (Transitioned false t)).
    change (Closed opener_metrics ctx t) with (tell_opener (S := O) (Transitioned false t)).
    cbn [view closerL m_abs]. rewrite Es. cbn [upd closerL openerL view m_abs a_opener]. by rewrite Ee.
Qed.

Lemma read_clock_inv {OS CS} (m : machine OS CS) t m' :
  read_clock m = (Ret t, m') -> m_rest m = ReadClock t :: m_rest m' /\ m_abs m' = m_abs m.
Proof. intros H. apply consume_inv in H as (i & E & Ha & A). destruct i; try done. by injection Ha as ->. Qed.

Lemma read_result_inv {OS CS} ctx (m : machine OS CS) t m' :
  read_result ctx m = (Ret t, m') -> m_rest m = ReadResult ctx t :: m_rest m' /\ m_abs m' = m_abs m.
Proof.
  intros H. apply consume_inv in H as (i & E & Ha & A). destruct i; try done.
  destruct (decide _) as [->|]; [| done]. by injection Ha as ->.
Qed.

Lemma read_ctx_err_inv {OS CS} ctx (m : machine OS CS) t m' :
  read_ctx_err ctx m = (Ret t, m') -> m_rest m = ReadCtxErr ctx t :: m_rest m' /\ m_abs m' = m_abs m.
Proof.
  intros H. apply consume_inv in H as (i & E & Ha & A). destruct i; try done.
  destruct (decide _) as [->|]; [| done]. by injection Ha as ->.
Qed.

(** ** One call *)

Definition clocks (rs : list interaction) : list Time :=
  omap (fun r => match r with ReadClock t => Some t | _ => None end) rs.

(** The clock does not go back, not before [upto] and not beyond [hi]. *)
Definition ordered (upto hi : Time) (rs : list interaction) : Prop :=
  Forall (fun t => upto <= t <= hi) (clocks rs) /\ StronglySorted Z.le (clocks rs).

Lemma ordered_clock upto hi t rs :
  ordered upto hi (ReadClock t :: rs) -> upto <= t <= hi /\ ordered t hi rs.
Proof.
  unfold ordered. cbn [clocks omap list_omap]. fold (clocks rs). intros [Hb Hs].
  apply Forall_cons in Hb as [Ht Hb]. apply StronglySorted_inv in Hs as [Hs Hge].
  split; [done |]. split; [| done]. rewrite Forall_forall in *. intros x Hx.
  specialize (Hb x Hx). specialize (Hge x Hx). lia.
Qed.

Lemma ordered_other upto hi r rs :
  (forall t, r <> ReadClock t) -> ordered upto hi (r :: rs) -> ordered upto hi rs.
Proof. intros Hr. unfold ordered, clocks. destruct r; [by destruct (Hr t) | done ..]. Qed.

Context (hi : Time).
Hypothesis Hhi : hi - start <= max_int64.
Context (cfg : atomicCircuitConfig) (isErrInterrupt : error -> bool) (running : Z).
Hypothesis Hopen : a_ForceOpen cfg = false.
Hypothesis Hclosed : a_ForcedClosed cfg = false.
Hypothesis Hrunning : 0 <= running < max_int64.
Hypothesis Hlimit : (0 <=? a_MaxConcurrentRequests cfg) && (a_MaxConcurrentRequests cfg <? running + 1) = false.

Lemma command_inv ctx t (a : abs O Closer) rs r m' :
  abs_command cfg isErrInterrupt ctx t (mkMachine a rs) = (Ret r, m') ->
  exists t1 e rs1 m1 m2, let ctx' := derived cfg ctx t in let k := outcome cfg isErrInterrupt t r t1 e in
    rs = ReadResult ctx' r :: ReadClock t1 :: ReadCtxErr ctx e :: rs1 /\
    report k ctx' t1 (time_Sub t1 t) (mkMachine a rs1) = (Ret tt, m1) /\
    react cfg k ctx' t1 m1 = (Ret tt, m2) /\ m_abs m' = m_abs m2 /\ m_rest m2 = cancels cfg ctx t ++ m_rest m'.
Proof.
  unfold abs_command. cbv zeta. intros H.
  apply bind_inv in H as (r0 & m1 & H1 & H). apply read_result_inv in H1 as [E1 A1]. simpl in E1, A1.
  apply bind_inv in H as (t1 & m2 & H2 & H). apply read_clock_inv in H2 as [E2 A2].
  apply bind_inv in H as (e & m3 & H3 & H). apply read_ctx_err_inv in H3 as [E3 A3].
  apply bind_inv in H as ([] & m4 & H4 & H). apply bind_inv in H as ([] & m5 & H5 & H).
  apply bind_inv in H as ([] & m6 & H6 & H). injection H as -> ->. exists t1, e, (m_rest m3), m4, m5.
  unfold outcome, derived, deadline, cancels, derived, deadline.
  split; [rewrite E1, E2, E3; by destruct (0 <? _) |]. split; [| split].
  - rewrite <- H4. destruct m3 as [am3 r3]. cbn in A3 |- *. rewrite A3, A2, A1. by destruct (0 <? _).
  - rewrite <- H5. by destruct (0 <? _).
  - destruct (0 <? _); [by apply emit_inv in H6 as [-> ->] | by injection H6 as ->].
Qed.

Lemma heard_should_open ctx t h e :
  heard t h e -> start <= t -> t - start <= max_int64 ->
  zlen h * 100 <= max_int64 -> percent * zlen h <= max_int64 ->
  exists e', ShouldOpen ctx t e = (Ret (should_open volume percent w n start t h), e') /\ heard t h e'.
Proof.
  intros [Hk [Hp Hv]] Ht Hr Hlen Hlen2.
  pose proof (HystrixOpener.Opener.counted_length is_error [] h).
  pose proof (HystrixOpener.Opener.counted_length is_attempt [] h).
  destruct (HystrixOpener.Opener.ShouldOpen_knows w n start t Hw Hn Ht Hr ctx _ _ e Hk)
    as (e' & E & Hk' & Sp & Sv).
  - unfold counted, zlen in *. simpl in *. lia.
  - unfold counted, zlen in *. simpl in *. lia.
  - lia.
  - rewrite Hp. unfold counted, zlen in *. simpl in *. nia.
  - exists e'. split; [by rewrite Hp, Hv in E |]. split; [done |]. by rewrite Sp, Sv.
Qed.

(** A failure in the closed state: the circuit opens or it does not. *)
Lemma may_open_run ctx t h e s rs m' :
  heard t h e -> set_up s -> start <= t -> zlen h * 100 <= max_int64 -> percent * zlen h <= max_int64 ->
  ordered t hi rs -> t - start <= max_int64 ->
  may_open cfg ctx t (mkMachine (mkAbs false e s) rs) = (Ret tt, m') ->
  if should_open volume percent w n start t h
  then exists t2 s1, rs = flips true ctx t2 ++ m_rest m' /\ t <= t2 <= hi /\ models t2 (OpenSince t2 s1 []) (m_abs m')
  else m_rest m' = rs /\ models t (ClosedSince h) (m_abs m').
Proof.
  intros He Hs Ht Hlen Hlen2 Hord Hr H. unfold may_open, bind at 1, gets in H. cbn [view openL m_abs a_open] in H.
  rewrite Hclosed in H. cbn [orb] in H. unfold change in H.
  destruct (heard_should_open ctx t h e He Ht Hr Hlen Hlen2) as (e1 & E1 & He1).
  destruct (heard_should_open ctx t h e1 He1 Ht Hr Hlen Hlen2) as (e2 & E2 & He2).
  unfold bind at 1, zoom at 1 in H. cbn [view openerL m_abs a_opener] in H. rewrite E1 in H.
  cbn [upd openerL m_abs a_open a_closer m_rest] in H.
  destruct (should_open volume percent w n start t h); cbn [negb] in H.
  - unfold bind at 1, zoom at 1 in H. cbn [view openerL m_abs a_opener] in H. rewrite E2 in H.
    cbn [upd openerL m_abs a_open a_closer m_rest negb] in H.
    rewrite (bind_run _ _ _ tt (mkMachine (mkAbs true e2 s) rs)) in H by done.
    apply bind_inv in H as (t2 & m1 & Hc & H). apply read_clock_inv in Hc as [Ec Ac]. simpl in Ec, Ac.
    rewrite Ec in Hord. apply ordered_clock in Hord as [Hfl _].
    replace (if time_After t2 t then t2 else t) with t2 in H
      by (unfold time_After; destruct (Z.ltb_spec t t2); lia).
    destruct (heard_tell t2 h (Transitioned true t2) e2) as (e3 & E3 & He3);
      [by eapply heard_mono; [| exact He2]; lia | simpl; lia | lia |].
    destruct (set_up_opened t2 s Hs) as (s1 & Es1 & Hs1 & _). exists t2, s1.
    assert (Em1 : m1 = mkMachine (mkAbs true e2 s) (m_rest m1)) by (destruct m1; simpl in *; by subst).
    rewrite Em1 in H. cbv zeta in H. rewrite (bind_run _ _ _ _ _ (announce_run true ctx t2 (mkAbs true e2 s) _ e3 s1 E3 Es1)) in H.
    apply emit_inv in H as [Er Ea]. cbn in Er, Ea. rewrite Ec, Er, Ea.
    split; [done |]. split; [lia |]. split; [lia |].
    split; [done |]. split; [by eexists |]. split; [by exists s |]. split; [constructor | done].
  - injection H as <-. split; [done |]. split; [done |]. by split; [| split].
Qed.

(** The part of a call after its admission. *)
Lemma admitted_inv ctx t (a : abs O Closer) rs r m' :
  (let! prevented := zoom openerL (Prevent ctx t) in
   if prevented : bool then ret (Some errCircuitOpen)
   else if (0 <=? a_MaxConcurrentRequests cfg) && (a_MaxConcurrentRequests cfg <? wrap64 (running + 1)) then
     do! report KErrConcurrencyLimitReject ctx t 0; ret (Some errThrottledConcurrentCommands)
   else abs_command cfg isErrInterrupt ctx t) (mkMachine a rs) = (Ret r, m') ->
  abs_command cfg isErrInterrupt ctx t (mkMachine a rs) = (Ret r, m').
Proof.
  rewrite (bind_run _ _ _ false (mkMachine a rs)) by by destruct a.
  rewrite wrap64_id by (unfold min_int64; lia). by rewrite Hlimit.
Qed.

Lemma closed_call upto h a ctx rs r m' :
  models upto (ClosedSince h) a -> roomy (ClosedSince h) -> ordered upto hi rs ->
  abs_run cfg isErrInterrupt running ctx (mkMachine a rs) = (Ret r, m') -> m_rest m' = [] ->
  exists mo upto', upto <= upto' <= hi /\ models upto' mo (m_abs m') /\
    call_spec cfg isErrInterrupt ctx (ClosedSince h) rs r mo.
Proof.
  intros (Hup & Ho & He & Hs) [Hroom1 Hroom2] Hord H Hend. unfold abs_run in H. cbv zeta in H.
  apply bind_inv in H as (t & m1 & H1 & H). apply read_clock_inv in H1 as [E1 A1]. simpl in E1, A1.
  rewrite E1 in Hord. apply ordered_clock in Hord as [Ht Hord].
  rewrite (bind_run _ _ _ true m1) in H
    by (unfold abs_admit, bind, gets; simpl; by rewrite A1, Ho, Hopen, Hclosed).
  cbn [negb] in H. assert (Em1 : m1 = mkMachine a (m_rest m1)) by (destruct m1; simpl in *; by subst).
  rewrite Em1 in H. apply admitted_inv in H.
  apply command_inv in H as (t1 & e & rs1 & m2 & m3 & Er & Hrep & Hreact & Eabs & Ecan). rewrite Er in Hord.
  apply ordered_other in Hord; [| done]. apply ordered_clock in Hord as [Ht1 Hord].
  apply ordered_other in Hord; [| done]. rewrite Hend, app_nil_r in Ecan.
  set (k := outcome cfg isErrInterrupt t r t1 e) in *. set (d := time_Sub t1 t) in *.
  destruct (heard_tell t1 h (Reported k t1 d) (a_opener a)) as (e1 & Ee & He1);
    [eapply heard_mono; [| exact He]; lia | simpl; lia | lia |].
  destruct (set_up_tell_report k t1 d (a_closer a) Hs) as (s1 & Es & Hs1).
  apply (report_inv _ _ _ _ _ _ _ _ _ Ee Es) in Hrep as (rs2 & Ers & ->). rewrite Ho in Hreact.
  rewrite Ers in Hord. apply ordered_other in Hord; [| done].
  assert (Hlen : zlen (h ++ [Reported k t1 d]) = zlen h + 1) by (unfold zlen; rewrite length_app; simpl; lia).
  assert (Hquiet : models t1 (ClosedSince (h ++ [Reported k t1 d])) (mkAbs false e1 s1))
    by (split; [lia |]; by split; [| split]).
  assert (Hstay : m_rest m3 = rs2 -> rs = ran cfg isErrInterrupt ctx t r t1 e [])
    by (intros <-; by rewrite E1, Er, Ers, Ecan).
  rewrite Eabs. destruct (is_error k) eqn:Ek.
  - assert (Hmay : may_open cfg (derived cfg ctx t) t1 (mkMachine (mkAbs false e1 s1) rs2) = (Ret tt, m3))
      by by destruct k.
    pose proof (may_open_run _ t1 _ e1 s1 rs2 m3 He1 Hs1 ltac:(lia) ltac:(lia) ltac:(rewrite Hlen; lia)
      Hord ltac:(lia) Hmay) as Hrun.
    destruct (should_open volume percent w n start t1 (h ++ [Reported k t1 d])) eqn:Eso.
    + destruct Hrun as (t2 & sc & Ef & Hr1 & Hm). exists (OpenSince t2 sc []), t2.
      split; [lia |]. split; [done |].
      replace rs with (ran cfg isErrInterrupt ctx t r t1 e (flips true (derived cfg ctx t) t2))
        by (by rewrite E1, Er, Ers, Ef, Ecan).
      by apply call_opens.
    + destruct Hrun as [Ef Hm]. exists (ClosedSince (h ++ [Reported k t1 d])), t1. split; [lia |]. split; [done |].
      rewrite (Hstay Ef). apply call_reported. fold k. unfold heard_of. fold k d. by rewrite Eso, andb_false_r.
  - assert (m3 = mkMachine (mkAbs false e1 s1) rs2) as ->
      by (destruct k; try done; simpl in Hreact; by injection Hreact).
    exists (ClosedSince (h ++ [Reported k t1 d])), t1. split; [lia |]. split; [done |].
    rewrite (Hstay eq_refl). apply call_reported. fold k. by rewrite Ek.
Qed.

(** ** The open state *)

(** A closer in an episode, given by its history. *)
Lemma episode_state t0 s0 s1 h :
  set_up s0 -> Opened closer_metrics Background t0 s0 = (Ret tt, s1) -> Forall in_episode h ->
  zlen h <= max_int64 ->
  exists s, run_closer h s1 = (Ret tt, s) /\ set_up s /\ HystrixCloser.Closer.openedAt s = Some t0 /\
    HystrixCloser.Closer.concurrentSuccessfulAttempts s = streak t0 (rev h).
Proof.
  intros Hs0 E Hh Hlen. destruct (set_up_opened t0 s0 Hs0) as (s1' & E' & (Hok & Hreq & Hsl) & Hopn & H0).
  rewrite E in E'. injection E' as <-.
  destruct (HystrixCloser.Closer.run_closer_streak t0 h s1 Hok Hopn Hh [] H0) as (s & Er & Hok2 & (Ho2 & Hc2 & Hw2) & Ha);
    [done | done |].
  exists s. split; [done |]. split; [split; [done | split; congruence] |]. split; [congruence |].
  by rewrite Ha, app_nil_r.
Qed.

Lemma ask_run t s t0 :
  set_up s -> HystrixCloser.Closer.openedAt s = Some t0 ->
  exists b s2, Allow Background t s = (Ret b, s2) /\
    run_closer [AskAllow t] s = (Ret tt, s2) /\ probes [AskAllow t] s = if b : bool then [t] else [].
Proof.
  intros (Hok & _) Ho.
  destruct (HystrixCloser.Closer.closer_step_open (AskAllow t) s t0 Hok Ho eq_refl I) as (o & s2 & E & _).
  pose proof E as E'. cbn [HystrixCloser.Closer.closer_step] in E'. apply bind_inv in E' as (b & s2' & Ea & E').
  injection E' as Eo ->. exists b, s2. split; [exact Ea |]. split.
  - unfold run_closer. cbn [range_do]. unfold bind. by rewrite E.
  - cbn [probes]. rewrite E. subst o. by destruct b.
Qed.

(** A success in the open state: the circuit closes or it does not. *)
Lemma may_close_run ctx t ho e s rs m' :
  heard t ho e -> set_up s -> start <= t -> ordered t hi rs ->
  may_close cfg ctx t (mkMachine (mkAbs true e s) rs) = (Ret tt, m') ->
  if required <=? HystrixCloser.Closer.concurrentSuccessfulAttempts s
  then exists t2, rs = flips false ctx t2 ++ m_rest m' /\ t <= t2 <= hi /\ models t2 (ClosedSince []) (m_abs m')
  else m' = mkMachine (mkAbs true e s) rs.
Proof.
  intros He Hs Ht Hord H. pose proof Hs as (Hok & Hreq & Hsl).
  unfold may_close, bind at 1, gets in H. cbn [view openL m_abs a_open negb orb] in H.
  rewrite Hopen in H. unfold change in H.
  assert (Hask : zoom closerL (ShouldClose ctx t) (mkMachine (mkAbs true e s) rs)
    = (Ret (required <=? HystrixCloser.Closer.concurrentSuccessfulAttempts s), mkMachine (mkAbs true e s) rs))
    by (rewrite <- Hreq; done).
  rewrite (bind_run _ _ _ _ _ Hask) in H.
  destruct (required <=? HystrixCloser.Closer.concurrentSuccessfulAttempts s); cbn [negb] in H;
    [| by injection H].
  rewrite (bind_run _ _ _ _ _ Hask) in H. cbn [negb] in H.
  rewrite (bind_run _ _ _ tt (mkMachine (mkAbs false e s) rs)) in H by done.
  apply bind_inv in H as (t2 & m1 & Hc & H). apply read_clock_inv in Hc as [Ec Ac]. simpl in Ec, Ac.
  rewrite Ec in Hord. apply ordered_clock in Hord as [Hfl _].
  replace (if time_After t2 t then t2 else t) with t2 in H
    by (unfold time_After; destruct (Z.ltb_spec t t2); lia).
  destruct (heard_tell t2 ho (Transitioned false t2) e) as (e3 & E3 & He3);
    [eapply heard_mono; [| exact He]; lia | simpl; lia | lia |].
  destruct (set_up_closed t2 s Hs) as (sc & Esc & Hsc). exists t2.
  assert (Em1 : m1 = mkMachine (mkAbs false e s) (m_rest m1)) by (destruct m1; simpl in *; by subst).
  rewrite Em1 in H. cbv zeta in H. rewrite (bind_run _ _ _ _ _ (announce_run false ctx t2 (mkAbs false e s) _ e3 sc E3 Esc)) in H.
  apply emit_inv in H as [Er Ea]. cbn in Er, Ea. rewrite Ec, Er, Ea.
  split; [done |]. split; [lia |]. split; [lia |]. split; [done |]. split; [| done].
  destruct He3 as [Hk Hset]. split; [| done]. unfold counted in Hk. by rewrite !foldl_app in Hk.
Qed.

Lemma in_episode_snoc h e : Forall in_episode h -> in_episode e -> Forall in_episode (h ++ [e]).
Proof. intros Hh He. apply Forall_app. split; [done |]. by constructor. Qed.

(** How a probe that was granted at [t] ends: with its success the circuit closes if the streak is
    long enough; else the episode goes on. *)
Lemma probe_ends t0 s0 s1 h t ctx ho e s2 k t1 rs m2 m' :
  set_up s0 -> Opened closer_metrics Background t0 s0 = (Ret tt, s1) -> Forall in_episode h ->
  zlen h + 2 <= max_int64 -> heard t1 ho e -> start <= t <= t1 -> t1 <= hi -> ordered t1 hi rs ->
  run_closer (h ++ [AskAllow t]) s1 = (Ret tt, s2) ->
  report k ctx t1 (time_Sub t1 t) (mkMachine (mkAbs true e s2) rs) = (Ret tt, m2) ->
  react cfg k ctx t1 m2 = (Ret tt, m') ->
  let h' := h ++ [AskAllow t; Told (Reported k t1 (time_Sub t1 t))] in
  exists rs', rs = Emits (Reports k ctx t1 (time_Sub t1 t)) :: rs' /\
  (k = KSuccess -> required <= streak t0 (rev h') ->
   exists t2, rs' = flips false ctx t2 ++ m_rest m' /\ t1 <= t2 <= hi /\ models t2 (ClosedSince []) (m_abs m')) /\
  ((k = KSuccess -> streak t0 (rev h') < required) ->
   models t1 (OpenSince t0 s1 h') (m_abs m') /\ m_rest m' = rs').
Proof.
  intros Hs0 Eopen Hh Hlen He Ht Ht1 Hord Erun Hrep Hreact. set (d := time_Sub t1 t) in *.
  assert (Hd : - max_int64 <= d <= max_int64).
  { unfold d. rewrite time_Sub_exact by (unfold min_int64, max_int64 in *; lia). unfold max_int64 in *. lia. }
  intros h'. assert (Hh' : Forall in_episode h').
  { unfold h'. apply Forall_app. split; [done |]. repeat constructor; apply Hd. }
  assert (Hlen' : zlen h' <= max_int64) by (unfold h', zlen in *; rewrite length_app; simpl; lia).
  destruct (episode_state t0 s0 s1 h' Hs0 Eopen Hh' Hlen') as (s3 & Erun3 & Hs3 & Ho3 & Ha3).
  assert (Etell : tell_closer (Reported k t1 d) s2 = (Ret tt, s3)).
  { unfold h' in Erun3. change [AskAllow t; Told (Reported k t1 d)]
      with ([AskAllow t] ++ [Told (Reported k t1 d)]) in Erun3. rewrite app_assoc in Erun3.
    rewrite (HystrixCloser.Closer.run_closer_app _ _ _ _ Erun) in Erun3.
    unfold run_closer in Erun3. cbn [range_do HystrixCloser.Closer.closer_step] in Erun3.
    apply bind_inv in Erun3 as ([] & sa & Ha & Hb). injection Hb as ->.
    apply bind_inv in Ha as (o & sb & Hb & Hc). injection Hc as ->.
    apply bind_inv in Hb as ([] & sc & Hc & Hd'). by injection Hd' as _ ->. }
  destruct (heard_tell t1 ho (Reported k t1 d) e) as (e1 & Ee & He1); [done | simpl; lia | lia |].
  apply (report_inv k ctx t1 d (mkAbs true e s2) rs e1 s3 _ Ee Etell) in Hrep as (rs' & Ers & ->).
  cbn [a_open] in Hreact. exists rs'. split; [done |]. rewrite Ers in Hord. apply ordered_other in Hord; [| done].
  assert (Hstay : models t1 (OpenSince t0 s1 h') (mkAbs true e1 s3)).
  { split; [lia |]. split; [done |]. split; [by eexists |]. split; [by exists s0 | done]. }
  destruct (decide (k = KSuccess)) as [->|Hk].
  - pose proof (may_close_run ctx t1 _ e1 s3 rs' m' He1 Hs3 ltac:(lia) Hord Hreact) as Hclose.
    rewrite Ha3 in Hclose. destruct (Z.leb_spec required (streak t0 (rev h'))).
    + split; [done |]. intros Hs. specialize (Hs eq_refl). lia.
    + subst m'. split; [lia | done].
  - split; [done |]. intros _.
    assert (Em : m' = mkMachine (mkAbs true e1 s3) rs'); [| by rewrite Em].
    destruct k; try done; cbn [react] in Hreact; try (by injection Hreact as <-); revert Hreact;
      unfold may_open, bind, gets; cbn [view openL m_abs a_open]; rewrite orb_true_r; by intros [= <-].
Qed.

Lemma probe_call t0 s0 s1 h t ctx upto ho e s2 rs r m' :
  set_up s0 -> Opened closer_metrics Background t0 s0 = (Ret tt, s1) -> Forall in_episode h ->
  zlen h + 2 <= max_int64 -> heard upto ho e -> upto <= t -> start <= t -> ordered t hi rs ->
  run_closer (h ++ [AskAllow t]) s1 = (Ret tt, s2) ->
  probes (h ++ [AskAllow t]) s1 = probes h s1 ++ [t] ->
  abs_command cfg isErrInterrupt ctx t (mkMachine (mkAbs true e s2) rs) = (Ret r, m') -> m_rest m' = [] ->
  exists mo upto', t <= upto' <= hi /\ models upto' mo (m_abs m') /\
    call_spec cfg isErrInterrupt ctx (OpenSince t0 s1 h) (ReadClock t :: rs) r mo.
Proof.
  intros Hs0 Eopen Hh Hlen He Hup Ht Hord Erun Hprobes H Hend.
  apply command_inv in H as (t1 & er & rs1 & m2 & m3 & Er & Hrep & Hreact & Eabs & Ecan). rewrite Er in Hord.
  apply ordered_other in Hord; [| done]. apply ordered_clock in Hord as [Ht1 Hord].
  apply ordered_other in Hord; [| done]. rewrite Hend, app_nil_r in Ecan.
  set (k := outcome cfg isErrInterrupt t r t1 er) in *.
  destruct (probe_ends t0 s0 s1 h t (derived cfg ctx t) ho e s2 k t1 rs1 m2 m3 Hs0 Eopen Hh Hlen)
    as (rs2 & Ers & Hclose & Hstay);
    [eapply heard_mono; [| exact He]; lia | lia | lia | done .. |]. rewrite Eabs.
  set (h' := h ++ [AskAllow t; Told (Reported k t1 (time_Sub t1 t))]) in *.
  destruct (decide (k = KSuccess /\ required <= streak t0 (rev h'))) as [[Hk Hs]|Hs].
  - destruct (Hclose Hk Hs) as (t2 & Ef & Ht2 & Hm). exists (ClosedSince []), t2. split; [lia |].
    split; [done |].
    replace (ReadClock t :: rs) with (ran cfg isErrInterrupt ctx t r t1 er (flips false (derived cfg ctx t) t2))
      by (by rewrite Er, Ers, Ef, Ecan).
    by apply call_closes.
  - assert (Hno : k = KSuccess -> streak t0 (rev h') < required) by (intros E; apply Z.nle_gt; tauto).
    destruct (Hstay Hno) as [Hm Hrs]. exists (OpenSince t0 s1 h'), t1. split; [lia |]. split; [done |].
    replace (ReadClock t :: rs) with (ran cfg isErrInterrupt ctx t r t1 er [])
      by (by rewrite Er, Ers, <- Hrs, Ecan).
    by apply call_probes.
Qed.

(** The admission to an open circuit is what its closer says. *)
Lemma admit_open b ctx t e s s2 (m : machine O Closer) :
  m_abs m = mkAbs true e s -> Allow Background t s = (Ret b, s2) ->
  abs_admit cfg running ctx t m = (Ret b, mkMachine (mkAbs true e s2) (m_rest m)).
Proof.
  intros Em Ea. unfold abs_admit, bind at 1, gets. cbn [view openL]. rewrite Em. cbn [a_open].
  rewrite Hopen, Hclosed. cbn [orb negb].
  replace ((0 <=? a_MaxConcurrentRequests cfg) && (a_MaxConcurrentRequests cfg <=? running)) with false
    by (symmetry; revert Hlimit; destruct (Z.leb_spec 0 (a_MaxConcurrentRequests cfg));
        destruct (Z.ltb_spec (a_MaxConcurrentRequests cfg) (running + 1));
        destruct (Z.leb_spec (a_MaxConcurrentRequests cfg) running); simpl; try done; lia).
  unfold zoom. cbn [view closerL]. rewrite Em. cbn [a_closer].
  change (Allow ctx t s) with (Allow Background t s). rewrite Ea. cbn [upd closerL]. by rewrite Em.
Qed.

Lemma open_call upto t0 s1 h a ctx rs r m' :
  models upto (OpenSince t0 s1 h) a -> roomy (OpenSince t0 s1 h) -> ordered upto hi rs ->
  abs_run cfg isErrInterrupt running ctx (mkMachine a rs) = (Ret r, m') -> m_rest m' = [] ->
  exists mo upto', upto <= upto' <= hi /\ models upto' mo (m_abs m') /\
    call_spec cfg isErrInterrupt ctx (OpenSince t0 s1 h) rs r mo.
Proof.
  intros (Hup & Ho & (ho & He) & (s0 & Hs0 & Eopen) & Hh & Erun) Hroom Hord H Hend. cbn [roomy] in Hroom.
  unfold abs_run in H. cbv zeta in H.
  apply bind_inv in H as (t & m1 & H1 & H). apply read_clock_inv in H1 as [E1 A1]. simpl in E1, A1.
  rewrite E1 in Hord. apply ordered_clock in Hord as [Ht Hord].
  destruct (episode_state t0 s0 s1 h Hs0 Eopen Hh ltac:(lia)) as (s & Erun' & Hs & Hos & Ha).
  rewrite Erun in Erun'. injection Erun' as Es. destruct a as [o e s']. cbn [a_open a_opener a_closer] in *. subst o s'.
  destruct (ask_run t s t0 Hs Hos) as (b & s2 & Easks & Erun2 & Hpr).
  assert (Hprobes : probes (h ++ [AskAllow t]) s1 = probes h s1 ++ if b : bool then [t] else [])
    by (by rewrite (HystrixCloser.Closer.probes_app _ _ _ _ Erun), Hpr).
  assert (Erun2' : run_closer (h ++ [AskAllow t]) s1 = (Ret tt, s2))
    by (by rewrite (HystrixCloser.Closer.run_closer_app _ _ _ _ Erun)).
  pose proof (admit_open b ctx t e s s2 m1 A1 Easks) as Hadmit.
  rewrite (bind_run _ _ _ _ _ Hadmit) in H. destruct b; cbn [negb] in H.
  - apply admitted_inv in H.
    destruct (probe_call t0 s0 s1 h t ctx upto ho e s2 _ r m' Hs0 Eopen Hh Hroom He ltac:(lia) ltac:(lia)
      Hord Erun2' Hprobes H Hend) as (mo & up & Hup' & Hm & Hc).
    exists mo, up. split; [lia |]. split; [done |]. by rewrite E1.
  - rewrite app_nil_r in Hprobes.
    destruct (heard_tell t ho (Reported KErrShortCircuit t 0) e) as (e1 & Ee & He1);
      [eapply heard_mono; [| exact He]; lia | simpl; lia | lia |].
    assert (Etc : tell_closer (Reported KErrShortCircuit t 0) s2 = (Ret tt, s2)) by done.
    apply bind_inv in H as ([] & m2 & Hrep & H). injection H as <- <-.
    apply (report_inv KErrShortCircuit ctx t 0 (mkAbs true e s2) _ e1 s2 _ Ee Etc) in Hrep as (rs' & Ers & ->).
    cbn [m_rest] in Hend. exists (OpenSince t0 s1 (h ++ [AskAllow t])), t. split; [lia |].
    split; [| rewrite E1, Ers, Hend; by apply call_rejected]. split; [lia |]. split; [done |]. split; [by eexists |].
    split; [by exists s0 |]. split; [by apply in_episode_snoc | done].
Qed.

(** A timer of the closer's sleep window fires. *)
Lemma timer_event upto t0 s1 h a v :
  models upto (OpenSince t0 s1 h) a -> zlen h + 1 <= max_int64 ->
  exists s2, zoom HystrixCloser.Closer.reopenCircuitCheckL (timerFired v) (a_closer a) = (Ret tt, s2) /\
    models upto (OpenSince t0 s1 (h ++ [TimerFired v])) (mkAbs (a_open a) (a_opener a) s2).
Proof.
  intros (Hup & Ho & He & (s0 & Hs0 & Eopen) & Hh & Erun) Hlen.
  destruct (episode_state t0 s0 s1 h Hs0 Eopen Hh ltac:(lia)) as (s & Erun' & (Hok & _) & Hos & _).
  rewrite Erun in Erun'. injection Erun' as <-.
  destruct (HystrixCloser.Closer.closer_step_open (TimerFired v) _ t0 Hok Hos eq_refl I) as (o & s2 & E & _).
  pose proof E as E'. cbn [HystrixCloser.Closer.closer_step] in E'. apply bind_inv in E' as ([] & s2' & Ez & E').
  injection E' as _ ->. exists s2. split; [exact Ez |]. split; [done |]. split; [done |]. split; [done |].
  split; [by exists s0 |]. split; [by apply in_episode_snoc |].
  rewrite (HystrixCloser.Closer.run_closer_app _ _ _ _ Erun). unfold run_closer. cbn [range_do].
  unfold bind. by rewrite E.
Qed.
End Cycle.

(** What the factories make starts with no history. *)
Lemma factories_start {U} (time_Now : M U Time) ocfg ccfg u e u' s :
  let c := HystrixOpener.Opener.effective time_Now ocfg in
  let n := HystrixOpener.Opener.NumBuckets c in
  let w := Z.quot (HystrixOpener.Opener.RollingDuration c) n in
  let cc := HystrixCloser.Closer.Merge ccfg HystrixCloser.Closer.defaultConfigureCloser in
  let start := StartTime (rollingBucket (HystrixOpener.Opener.errorsCount e)) in
  HystrixOpener.Opener.OpenerFactory time_Now ocfg u = (Ret e, u') ->
  HystrixCloser.Closer.CloserFactory ccfg = Ret s ->
  0 < w -> max_int64 / w + n <= max_int64 -> HystrixCloser.Closer.HalfOpenAttempts cc <= max_int64 ->
  models w n start (HystrixOpener.Opener.ErrorThresholdPercentage c)
    (HystrixOpener.Opener.RequestVolumeThreshold c)
    (HystrixCloser.Closer.RequiredConcurrentSuccessful cc) (HystrixCloser.Closer.SleepWindow cc)
    start (ClosedSince []) (mkAbs false e s).
Proof.
  intros c n w cc start Hf Hcf Hw Hm Hh.
  destruct (HystrixOpener.Opener.OpenerFactory_spec _ _ _ _ _ Hf) as (t & _ & Ee & Ea & Epct & Evol).
  fold c n w in Ee, Ea, Epct, Evol.
  assert (Hs : start = t).
  { unfold start. revert Ee. unfold NewRollingCounter. destruct (n <? 0); [done |]. by intros [= <-]. }
  rewrite <- Hs in Ee, Ea.
  assert (Hn : 0 < n) by apply (HystrixOpener.Opener.effective_positive time_Now ocfg).
  destruct (HystrixCloser.Closer.CloserFactory_ok _ _ Hcf Hh) as (Hok & _ & _ & Hsl & Hreq & _).
  split; [lia |]. split; [done |]. split; [| done]. split; [| done].
  split; apply fed_new; done || lia.
Qed.

(** * Time *)

(** The time that an environment has reached.  The clock says it, it does not go back, and no user
    code turns it back. *)
Definition time_advances {U} `{!UserCode (Opener U) Closer U} users (c : Circuit (Opener U) Closer U)
    (f : Context -> M (World (Opener U) Closer U) (option error)) (time_of : U -> Time) : Prop :=
  forall i u u', interacts users c f i u u' ->
    time_of u <= time_of u' /\ forall t, i = ReadClock t -> time_of u <= t <= time_of u'.

Lemma ordered_cons lo mid hi i rs :
  lo <= mid -> (forall t, i = ReadClock t -> lo <= t <= mid) -> mid <= hi -> ordered mid hi rs -> ordered lo hi (i :: rs).
Proof.
  intros Hlm Hi Hmh [Hb Hs]. unfold ordered.
  assert (Hb' : Forall (fun t => lo <= t <= hi) (clocks rs)) by (eapply Forall_impl; [exact Hb |]; simpl; lia).
  destruct i as [t| | |]; try done. specialize (Hi t eq_refl). split.
  - apply Forall_cons. split; [lia | exact Hb'].
  - apply SSorted_cons; [exact Hs |]. eapply Forall_impl; [exact Hb |]. simpl. lia.
Qed.

Lemma performs_ordered {U} `{!UserCode (Opener U) Closer U} users (c : Circuit (Opener U) Closer U) f time_of rs u u' :
  time_advances users c f time_of -> performs users c f u rs u' ->
  time_of u <= time_of u' /\ ordered (time_of u) (time_of u') rs.
Proof.
  intros Hadv. induction 1 as [u|i rs u u1 u2 Hi _ [IH1 IH2]].
  - split; [lia |]. split; constructor.
  - destruct (Hadv i u u1 Hi) as [H1 H2]. split; [lia |]. by eapply ordered_cons.
Qed.

Lemma models_mono {U} w n start percent volume required sleep upto upto' m (a : abs (Opener U) Closer) :
  0 < w -> 0 < n -> upto <= upto' -> models w n start percent volume required sleep upto m a ->
  models w n start percent volume required sleep upto' m a.
Proof.
  intros Hw Hn Hle [Hs Hm]. split; [lia |]. destruct m as [h|t0 s1 h].
  - destruct Hm as (Ho & He & Hc). split; [done |]. split; [by eapply heard_mono | done].
  - destruct Hm as (Ho & (ho & He) & Hr). split; [done |]. split; [| done]. exists ho. by eapply heard_mono.
Qed.

(** * The theorem *)

(** C6: a hystrix circuit does what its history says.  On a circuit at rest that is not forced
    open or closed and has room for one more command, whose opener and closer are as the history
    of its mode leaves them at the time of the environment, every call returns.  If time advances
    as [time_advances] says, then with what the call read from the clock, the command and the
    caller's context it takes the history to one that [call_spec] allows, at the time that the
    environment has then: a closed circuit opens exactly when the call failed or timed out and then
    the errors of the window are at the threshold; an open one rejects the call unless its closer
    grants a probe, and closes exactly when the probe makes the streak of successes long enough.
    So does a timer of the sleep window. *)
Theorem hystrix_calls_refine_histories {U} `{!UserCode (Opener U) Closer U} `{!QuietUserCode (Opener U) Closer U}
    w n start percent volume required sleep fuel users cmds fbs ctx f time_of (wd : World (Opener U) Closer U) mo a :
  let ready := at_rest HystrixOpener.Opener.opener_ok HystrixCloser.Closer.closer_ok cmds fbs in
  let cfg := threadSafeConfig (circ wd) in
  let shows m u a := models w n start percent volume required sleep (time_of u) m a in
  0 < w -> 0 < n -> 0 <= percent -> (2 <= fuel)%nat ->
  a_ForceOpen cfg = false -> a_ForcedClosed cfg = false ->
  0 <= cmds < max_int64 ->
  (0 <=? a_MaxConcurrentRequests cfg) && (a_MaxConcurrentRequests cfg <? cmds + 1) = false ->
  (forall ctx, quiet (f ctx)) -> ready wd -> wired users (circ wd) -> abstracts (circ wd) a ->
  time_advances users (circ wd) f time_of -> shows mo (env wd) a -> roomy percent mo ->
  (exists r wd', run fuel ctx f wd = (Ret r, wd')) /\
  (forall r wd', run fuel ctx f wd = (Ret r, wd') -> time_of (env wd') - start <= max_int64 ->
   exists rs mo' a', performs users (circ wd) f (env wd) rs (env wd') /\
     call_spec w n start percent volume required cfg (interrupts (circ wd)) ctx mo rs r mo' /\
     ready wd' /\ wired users (circ wd') /\ abstracts (circ wd') a' /\ threadSafeConfig (circ wd') = cfg /\
     shows mo' (env wd') a') /\
  (forall t0 s1 h v, mo = OpenSince t0 s1 h ->
   exists wd' a', with_closer (zoom HystrixCloser.Closer.reopenCircuitCheckL (timerFired v)) wd = (Ret tt, wd') /\
     env wd' = env wd /\ abstracts (circ wd') a' /\ shows (OpenSince t0 s1 (h ++ [TimerFired v])) (env wd') a').
Proof.
  intros ready cfg shows Hw Hn Hp Hf Ho Hc Hcmds Hlim Hq Hrest Hwired Habs Hadv Hm Hroom.
  assert (Hk : in_int64 cmds = true) by (apply in_int64_spec; unfold min_int64; lia).
  destruct (run_shows HystrixOpener.Opener.opener_ok HystrixCloser.Closer.closer_ok fuel users cmds fbs ctx f
    wd a Hf Hk Hq Hrest Hwired Habs)
    as (r & wd' & a' & rs & E & Hperf & Hmach & Hrest' & Hwired' & Habs' & Hcfg & _ & _).
  split; [by eexists _, _ | split].
  - intros r0 wd0 E0 Hhi. rewrite E in E0. injection E0 as <- <-.
    destruct (performs_ordered _ _ _ _ _ _ _ Hadv Hperf) as [_ Hord].
    specialize (Hmach []). rewrite app_nil_r in Hmach.
    assert (Hcall : exists mo' upto', time_of (env wd) <= upto' <= time_of (env wd') /\
      models w n start percent volume required sleep upto' mo' a' /\
      call_spec w n start percent volume required cfg (interrupts (circ wd)) ctx mo rs r mo').
    { destruct mo as [h|t0 s1 h].
      - by eapply (closed_call w n start percent volume required sleep Hw Hn Hp _ Hhi cfg) in Hmach.
      - by eapply (open_call w n start percent volume required sleep Hw Hn _ Hhi cfg) in Hmach. }
    destruct Hcall as (mo' & upto' & Hup & Hm' & Hspec). exists rs, mo', a'. repeat (split; [done |]).
    eapply models_mono; [done | done | | exact Hm']. lia.
  - intros t0 s1 h v ->. cbn [roomy] in Hroom.
    destruct (timer_event w n start percent volume required sleep _ t0 s1 h a v Hm ltac:(lia)) as (s2 & Et & Hm').
    destruct Habs as (Habs1 & Habs2 & Habs3).
    exists (upd OpenToCloseL (Some s2) wd), (mkAbs (a_open a) (a_opener a) s2).
    split; [| split; [done | split; [by split; [| split] | exact Hm']]].
    unfold with_closer, zoom_ptr. cbn [view OpenToCloseL]. rewrite Habs3. by rewrite Et.
Qed.

(** * Witness *)

Module CycleSample.
Import Hystrix.HystrixSample.

#[export] Instance quiet_code : QuietUserCode (Opener Z) Closer Z.
Proof.
  split; intros; intros w; try (exists tt, (env w); by destruct w).
  destruct k; exists tt, (env w); by destruct w.
Qed.

(** A circuit that opens at the first failure, after a window of 10 lets one probe through, and
    closes at its success; the clock ticks at every reading. *)
Definition opener_cfg := HystrixOpener.Opener.mkConfigureOpener (U := Z) 50 1 None 1000 10.
Definition closer_cfg := HystrixCloser.Closer.mkConfigureCloser None 10 1 1.

Definition opener : Opener Z :=
  match HystrixOpener.Opener.OpenerFactory tick opener_cfg 100 with
  | (Ret e, _) => e
  | _ => HystrixOpener.Opener.Opener_zero
  end.
Definition closer : Closer :=
  match HystrixCloser.Closer.CloserFactory closer_cfg with
  | Ret s => s
  | _ => HystrixCloser.Closer.Closer_zero
  end.

Definition wd : World (Opener Z) Closer Z :=
  mkWorld (mkCircuit [RefOpenToClose; RefClosedToOpen] [] [] None "db" Config_zero false
    (mkAtomicCircuitConfig 0 (-1) false 0 false false false false)
    false (Some opener) (Some closer) (Some tick) false [] false 0 0) 101.

Definition fails : Context -> M (World (Opener Z) Closer Z) (option error) := fun _ => ret (Some errCanceled).
Definition succeeds : Context -> M (World (Opener Z) Closer Z) (option error) := fun _ => ret None.

(** A life: a failure opens the circuit, a call is rejected, so is one after the timer but
    before the window has passed; the next is the probe, and it closes the circuit. *)
Definition timer : M (World (Opener Z) Closer Z) unit :=
  with_closer (zoom HystrixCloser.Closer.reopenCircuitCheckL (timerFired 1)).
Definition wait (d : Z) : M (World (Opener Z) Closer Z) unit := modify (fun w => mkWorld (circ w) (env w + d)).

Example a_life :
  fst ((let! r1 := run 2 Background fails in
        let! o1 := get isOpenL in
        let! r2 := run 2 Background succeeds in
        do! timer;
        let! r3 := run 2 Background succeeds in
        do! wait 10;
        let! r4 := run 2 Background succeeds in
        let! o4 := get isOpenL in
        ret (r1, o1, r2, r3, (r4, o4))) wd)
  = Ret (Some errCanceled, true, Some errCircuitOpen, Some errCircuitOpen, (None, false)).
Proof. vm_compute. reflexivity. Qed.

Lemma opener_made : HystrixOpener.Opener.OpenerFactory tick opener_cfg 100 = (Ret opener, 101).
Proof. vm_compute. reflexivity. Qed.

Lemma closer_made : HystrixCloser.Closer.CloserFactory closer_cfg = Ret closer.
Proof. vm_compute. reflexivity. Qed.

Lemma wd_ready : at_rest HystrixOpener.Opener.opener_ok HystrixCloser.Closer.closer_ok 0 0 wd.
Proof.
  split; [| done]. split; [| split; [| split; [| done]]].
  - exists opener. split; [done |]. eapply HystrixOpener.Opener.OpenerFactory_ok; [exact opener_made |].
    by vm_compute.
  - exists closer. split; [done |]. by vm_compute.
  - exists tick. split; [done |]. intros u. by eexists _, _.
Qed.

Lemma wd_starts :
  models 100 10 101 50 1 1 10 101 (ClosedSince []) (mkAbs false opener closer).
Proof.
  pose proof (factories_start tick opener_cfg closer_cfg 100 opener 101 closer opener_made closer_made) as H.
  cbv zeta in H.
  replace (StartTime (rollingBucket (HystrixOpener.Opener.errorsCount opener))) with 101 in H by by vm_compute.
  apply H; by vm_compute.
Qed.

(** The clock is the environment itself. *)
Lemma ticks_advance f :
  (forall ctx w r w', f ctx w = (Ret r, w') -> env w' = env w) -> time_advances [] (circ wd) f (fun u : Z => u).
Proof.
  intros Hf i u u' Hi. destruct i as [t|c r|c e|[k c t d|o c t|c]]; cbn in Hi.
  - injection Hi as <- <-. split; [lia |]. intros t [= <-]. lia.
  - destruct Hi as (c0 & [_ E] & _). apply Hf in E. cbn in E. split; [lia | done].
  - destruct Hi as [_ ->]. split; [lia | done].
  - destruct Hi as (c0 & _ & E). injection E as ->. split; [lia | done].
  - destruct Hi as (c0 & _ & E). injection E as ->. split; [lia | done].
  - split; [| done]. by subst u'.
Qed.

(** The first call of the life above: the failure is one of one attempt, and the circuit opens. *)
Lemma hystrix_calls_refine_histories_witness :
  let wd' := snd (run 2 Background fails wd) in
  exists rs t1 s1 a', performs [] (circ wd) fails (env wd) rs (env wd') /\
    rs = ran (threadSafeConfig (circ wd)) (interrupts (circ wd)) Background 102 (Some errCanceled) 103 None
           (flips true Background t1) /\
    abstracts (circ wd') a' /\ models 100 10 101 50 1 1 10 (env wd') (OpenSince t1 s1 []) a'.
Proof.
  destruct (hystrix_calls_refine_histories 100 10 101 50 1 1 10 2 [] 0 0 Background fails (fun u => u) wd (ClosedSince [])
    (mkAbs false opener closer)) as (_ & Hcall & _).
  1-8: first [lia | reflexivity | by vm_compute].
  - intros ctx w. exists (Some errCanceled), (env w). by destruct w.
  - exact wd_ready.
  - reflexivity.
  - by split.
  - apply ticks_advance. by intros ctx w r w' [= _ <-].
  - exact wd_starts.
  - split; by vm_compute.
  - intros wd'.
    assert (E : run 2 Background fails wd = (Ret (Some errCanceled), wd')) by (by vm_compute).
    assert (Ho : isOpen (circ wd') = true) by (by vm_compute).
    assert (Hu : env wd' - 101 <= max_int64) by (by vm_compute). clearbody wd'.
    destruct (Hcall (Some errCanceled) wd' E Hu) as (rs & mo' & a' & Hp & Hc & _ & _ & Ha & _ & Hm).
    destruct Ha as (Ha & Ha').
    inversion Hc as [? t r t1 e _|? t r t1 e t2 s1 _ _| | |]; subst rs mo'.
    { destruct Hm as (_ & Hm & _). congruence. }
    eexists _, t2, s1, a'. split; [exact Hp |]. split; [| by split; [split |]].
    apply performs_cons_inv in Hp as (u1 & P1 & Hp).
    apply performs_cons_inv in Hp as (u2 & (c2 & [_ P2] & _) & Hp).
    apply performs_cons_inv in Hp as (u3 & P3 & Hp).
    apply performs_cons_inv in Hp as (u4 & [P4 _] & _).
    clear - P1 P2 P3 P4. injection P1 as <- <-. injection P2 as <- <-. injection P3 as <- <-. subst e. reflexivity.
Defined.
End CycleSample.
End HystrixCycle.
