(* ===== verification/Recovery.v ===== *)
(** An open circuit recovers: circuit.go with closers/hystrix/opener.go and closer.go, once the
    command works again.

    A [round] is what an open circuit sees when the trouble is over: the timer of its sleep window
    fires, time passes, and a command comes that returns nil in time.  [open_circuits_recover] says
    that the circuit closes in the [RequiredConcurrentSuccessful]-th round, not before and not
    later, and that until then nothing but the environment stands between it and the next one. *)

From stdpp Require Import relations.
From S2P Require Import Prelude GoMonad RollingBuckets RollingCounter TimedCheck Errors Metrics Closers Config Circuit CircuitFacts CircuitSpec HystrixOpener HystrixCloser Hystrix HystrixCycle.

Module Recovery.

Import CircuitSpec HystrixCycle.
Import HystrixOpener.Opener (Opener).
Import HystrixCloser.Closer (Closer, closer_event, Told, AskAllow, TimerFired, streak, run_closer, reopenCircuitCheck, reopenCircuitCheckL).

Section Recovery.
Context {U : Type} `{!UserCode (Opener U) Closer U} `{!QuietUserCode (Opener U) Closer U}.
Abbreviation W := (World (Opener U) Closer U).

(** The opener's window, the settings, and the configuration of the circuit, as in HystrixCycle.v. *)
Context (w n : Z) (start : Time) (percent volume required sleep : Z) (hi : Time).
Context (fuel : nat) (cfg : atomicCircuitConfig) (users : list nat) (cmds fbs : Z).
Hypothesis Hw : 0 < w.
Hypothesis Hn : 0 < n.
Hypothesis Hpercent : 0 <= percent.
Hypothesis Hhi : hi - start <= max_int64.
Hypothesis Hfuel : (2 <= fuel)%nat.
Hypothesis Hopen : a_ForceOpen cfg = false.
Hypothesis Hclosed : a_ForcedClosed cfg = false.
Hypothesis Hcmds : 0 <= cmds < max_int64.
Hypothesis Hlimit : (0 <=? a_MaxConcurrentRequests cfg) && (a_MaxConcurrentRequests cfg <? cmds + 1) = false.
Hypothesis Hsleep : 0 < sleep.
Hypothesis Hrequired : 0 < required /\ 3 * required <= max_int64.

(** * Rounds *)

(** The interactions of a call that starts at [t], of a command that works: the clock does not go back,
    and the command returns nil, within the timeout if there is one. *)
Definition goes_well (upto t : Time) (rs : list interaction) : Prop :=
  head (clocks rs) = Some t /\ ordered upto hi rs /\ (forall ctx r, ReadResult ctx r ∈ rs -> r = None) /\
  (0 < a_ExecutionTimeout cfg -> Forall (fun t' => t' <= time_Add t (a_ExecutionTimeout cfg)) (clocks rs)).

(** The last instant a call read. *)
Definition latest (upto : Time) (rs : list interaction) : Time := default upto (last (clocks rs)).

(** The timer of the sleep window fires; [u] is the environment when the call comes. *)
Definition timer_fires (wd : W) : M W unit :=
  match OpenToClose (circ wd) with
  | Some s => with_closer (zoom reopenCircuitCheckL (timerFired (isFailFastVersion (reopenCircuitCheck s))))
  | None => ret tt
  end.

(** A call with the interactions [rs], which take the machine of CircuitSpec.v from [a] to [a']. *)
Record called (wd1 wd2 : W) (a a' : abs (Opener U) Closer) (u : U) ctx f (rs : list interaction) (r : option error) : Prop := mkCalled {
  ca_quiet : forall ctx, quiet (f ctx : M W (option error));
  ca_run : run fuel ctx f (mkWorld (circ wd1) u) = (Ret r, wd2);
  ca_before : abstracts (circ wd1) a;
  ca_after : abstracts (circ wd2) a';
  ca_reads : forall rest, abs_run cfg (interrupts (circ wd1)) cmds ctx (mkMachine a (rs ++ rest)) = (Ret r, mkMachine a' rest)
}.

Inductive round : W * Time -> W * Time -> Prop :=
| Round wd wd1 wd2 s a a' u ctx f rs r upto t :
    isOpen (circ wd) = true -> OpenToClose (circ wd) = Some s ->
    timer_fires wd wd = (Ret tt, wd1) ->
    called wd1 wd2 a a' u ctx f rs r ->
    goes_well upto t rs -> nextOpenTime (reopenCircuitCheck s) <= t ->
    round (wd, upto) (wd2, latest upto rs).

(** * Lemmas *)

Abbreviation models := (models w n start percent volume required sleep).
Abbreviation ready := (at_rest HystrixOpener.Opener.opener_ok HystrixCloser.Closer.closer_ok cmds fbs).

Lemma abstracts_unique (c : Circuit (Opener U) Closer U) a a' : abstracts c a -> abstracts c a' -> a = a'.
Proof. intros (E1 & E2 & E3) (E1' & E2' & E3'). destruct a, a'. simpl in *. congruence. Qed.

(** Where the circuit is after [k] rounds: open since [t0], with a streak of [k]. *)
Record recovering (k : nat) (wd : W) (upto : Time) : Prop := mkRecovering {
  re_ready : ready wd;
  re_wired : wired users (circ wd);
  re_config : threadSafeConfig (circ wd) = cfg;
  re_models : exists t0 s1 h a, abstracts (circ wd) a /\ models upto (OpenSince t0 s1 h) a /\
    streak t0 (rev h) = Z.of_nat k /\ zlen h = 3 * Z.of_nat k /\
    t0 < nextOpenTime (reopenCircuitCheck (a_closer a))
}.

(** ** The timer *)

Lemma closer_in_episode t0 s0 s1 h s :
  set_up required sleep s0 -> Opened closer_metrics Background t0 s0 = (Ret tt, s1) -> Forall in_episode h ->
  zlen h <= max_int64 -> run_closer h s1 = (Ret tt, s) ->
  HystrixCloser.Closer.closer_ok s /\ HystrixCloser.Closer.sleepWindow s = sleep /\
  HystrixCloser.Closer.openedAt s = Some t0.
Proof.
  intros Hs0 E Hh Hlen Hr. destruct (episode_state required sleep t0 s0 s1 h Hs0 E Hh Hlen) as (s' & Hr' & (Hok & _ & Hsl) & Ho & _).
  rewrite Hr in Hr'. by injection Hr' as <-.
Qed.

(** After the timer the gate is open, and nothing else has changed. *)
Record due (k : nat) (wd : W) (upto next : Time) : Prop := mkDue {
  du_ready : ready wd;
  du_wired : wired users (circ wd);
  du_config : threadSafeConfig (circ wd) = cfg;
  du_models : exists t0 s1 h a, abstracts (circ wd) a /\ models upto (OpenSince t0 s1 h) a /\
    streak t0 (rev h) = Z.of_nat k /\ zlen h = 3 * Z.of_nat k + 1 /\
    isFastFail (reopenCircuitCheck (a_closer a)) = false /\
    nextOpenTime (reopenCircuitCheck (a_closer a)) = next /\ t0 < next
}.

Lemma timer_makes_due k wd upto s :
  recovering k wd upto -> Z.of_nat k < required -> OpenToClose (circ wd) = Some s ->
  exists wd1, timer_fires wd wd = (Ret tt, wd1) /\ due k wd1 upto (nextOpenTime (reopenCircuitCheck s)).
Proof.
  intros [Hr Hwi Hcf (t0 & s1 & h & a & Ha & Hm & Hst & Hl & Hn')] Hk Hs.
  destruct Ha as (Ha1 & Ha2 & Ha3). assert (s = a_closer a) as -> by congruence.
  set (v := isFailFastVersion (reopenCircuitCheck (a_closer a))).
  destruct (timer_event w n start percent volume required sleep upto t0 s1 h a v Hm ltac:(lia)) as (s2 & E & Hm').
  assert (E2 : s2 = upd reopenCircuitCheckL (snd (timerFired v (reopenCircuitCheck (a_closer a)))) (a_closer a))
    by by injection E as <-.
  unfold timerFired, modify in E2. cbn [snd] in E2. unfold v in E2 at 1. rewrite Z.eqb_refl in E2.
  exists (upd OpenToCloseL (Some s2) wd). split.
  { unfold timer_fires. rewrite Hs. unfold with_closer, zoom_ptr. cbn [view OpenToCloseL]. rewrite Hs. fold v. by rewrite E. }
  split; [| done | done |].
  - destruct Hr as [(Hos & _ & Hclk & Hmu) Hmv]. split; [| done]. split; [done |]. split; [| done].
    exists s2. split; [done |]. destruct Hm' as (_ & _ & _ & (s0 & Hs0 & Eo) & Hh & Hr').
    eapply (closer_in_episode t0 s0 s1 (h ++ [TimerFired v])); try done. unfold zlen in *. rewrite length_app. cbn. lia.
  - exists t0, s1, (h ++ [TimerFired v]), (mkAbs (a_open a) (a_opener a) s2).
    split; [by split; [| split] |]. split; [exact Hm' |]. rewrite rev_app_distr. split; [exact Hst |].
    split; [unfold zlen in *; rewrite length_app; cbn; lia |]. subst s2. by split; [| split].
Qed.

(** ** The call *)

Lemma call_returns k wd1 upto next u ctx f :
  due k wd1 upto next -> (forall ctx, quiet (f ctx)) ->
  exists wd2 a a' rs r t, called wd1 wd2 a a' u ctx f rs r /\ head (clocks rs) = Some t /\
    performs users (circ wd1) f u rs (env wd2) /\ ready wd2 /\ wired users (circ wd2) /\ threadSafeConfig (circ wd2) = cfg.
Proof.
  intros [Hr Hwi Hcf (t0 & s1 & h & a & Ha & _)] Hq.
  assert (Hk : in_int64 cmds = true) by (apply in_int64_spec; unfold min_int64; lia).
  destruct (run_shows HystrixOpener.Opener.opener_ok HystrixCloser.Closer.closer_ok fuel users cmds fbs ctx f
    (mkWorld (circ wd1) u) a Hfuel Hk Hq Hr Hwi Ha) as (r & wd2 & a' & rs & E & Hp & Hm & Hr2 & Hw2 & Ha2 & Hc2 & _).
  cbn [circ] in Hm, Hc2. rewrite Hcf in Hm.
  assert (Ht : exists t, head (clocks rs) = Some t).
  { specialize (Hm []). rewrite app_nil_r in Hm. unfold abs_run in Hm. cbv zeta in Hm.
    apply bind_inv in Hm as (t & m1 & H1 & _). apply read_clock_inv in H1 as [E1 _]. cbn in E1. rewrite E1. by exists t. }
  destruct Ht as (t & Ht). exists wd2, a, a', rs, r, t. split; [by split |]. split; [done |].
  split; [exact Hp |]. split; [done |]. split; [done |]. by rewrite Hc2.
Qed.

Lemma granted_at t c :
  gate_ok c -> isFastFail c = false -> nextOpenTime c <= t ->
  exists c', Check t c = (Ret true, c') /\
    (nextOpenTime c' = nextOpenTime c \/ nextOpenTime c' = t + sleepDuration c).
Proof.
  intros Hg Hf Hn'. destruct (checkLocked_open t c Hg Hn') as (c' & E & _ & _ & _ & Hc).
  exists c'. split; [| unfold time_Add in Hc; tauto]. unfold Check, bind, gets. rewrite Hf. unfold time_After.
  by destruct (Z.ltb_spec t (nextOpenTime c)); [lia |].
Qed.

(** Being told of a result does not touch the gate. *)
Lemma told_keeps_gate k t d s s' :
  run_closer [Told (Reported k t d)] s = (Ret tt, s') -> reopenCircuitCheck s' = reopenCircuitCheck s.
Proof.
  unfold run_closer. cbn [range_do HystrixCloser.Closer.closer_step].
  destruct k; cbn; unfold HystrixCloser.Closer.Success, HystrixCloser.Closer.ErrFailure, HystrixCloser.Closer.ErrTimeout,
    bind, gets, modify, ret; try (by intros [= <-]);
    destruct (HystrixCloser.Closer.startedWhileOpen t d s); by intros [= <-].
Qed.

Lemma last_clocks_cancels ctx t t1 t2 c r e s :
  last (clocks (ReadClock t :: ReadResult c r :: ReadClock t1 :: ReadCtxErr ctx e :: Emits s :: cancels cfg ctx t2)) = Some t1.
Proof. unfold cancels. by destruct (0 <? _). Qed.

(** A call when the gate is open and the command works. *)
Lemma healthy_probe upto t0 s1 h (a a' : abs (Opener U) Closer) interrupt ctx rs r t :
  let next := nextOpenTime (reopenCircuitCheck (a_closer a)) in
  models upto (OpenSince t0 s1 h) a -> zlen h + 2 <= max_int64 ->
  isFastFail (reopenCircuitCheck (a_closer a)) = false -> t0 < next -> next <= t -> goes_well upto t rs ->
  abs_run cfg interrupt cmds ctx (mkMachine a rs) = (Ret r, mkMachine a' []) ->
  r = None /\
  if required <=? 1 + streak t0 (rev h) then a_open a' = false
  else exists h', models (latest upto rs) (OpenSince t0 s1 h') a' /\
    streak t0 (rev h') = 1 + streak t0 (rev h) /\ zlen h' = zlen h + 2 /\
    t0 < nextOpenTime (reopenCircuitCheck (a_closer a')).
Proof.
  intros next (Hup & Ho & (ho & He) & (s0 & Hs0 & Eopen) & Hh & Erun) Hlen Hff Ht0 Hdue (Hhead & Hord & Hres & Htime) H.
  unfold abs_run in H. cbv zeta in H.
  apply bind_inv in H as (t' & m1 & H1 & H). apply read_clock_inv in H1 as [E1 A1]. cbn in E1, A1.
  rewrite E1 in Hhead, Hord. injection Hhead as ->. apply ordered_clock in Hord as [Ht Hord].
  destruct (closer_in_episode t0 s0 s1 h _ Hs0 Eopen Hh ltac:(lia) Erun) as ([Hg Hsd] & Hsl & Hop).
  destruct (granted_at t _ Hg Hff Hdue) as (c' & Ec & Hnext').
  destruct a as [o e s]. cbn [a_open a_opener a_closer] in *. subst o.
  set (s2 := upd reopenCircuitCheckL c' s).
  assert (Eallow : Allow Background t s = (Ret true, s2)).
  { change (Allow Background t s) with (HystrixCloser.Closer.Allow Background t s).
    rewrite (HystrixCloser.Closer.Allow_open _ _ t0) by done. unfold zoom. cbn [view reopenCircuitCheckL]. by rewrite Ec. }
  rewrite (bind_run _ _ _ _ _ (admit_open cfg cmds Hopen Hclosed Hlimit true ctx t e s s2 m1 A1 Eallow)) in H.
  cbn [negb] in H. apply (admitted_inv cfg interrupt cmds Hcmds Hlimit) in H.
  apply command_inv in H as (t1 & er & rs1 & m2 & m3 & Er & Hrep & Hreact & Eabs & Ecan).
  set (k := outcome cfg interrupt t r t1 er) in *. cbn [m_rest] in Ecan. rewrite app_nil_r in Ecan.
  assert (r = None) as -> by (apply (Hres (derived cfg ctx t)); rewrite E1, Er; apply elem_of_cons; right; apply elem_of_cons; by left).
  rewrite Er in Hord. apply ordered_other in Hord; [| done]. apply ordered_clock in Hord as [Ht1 Hord].
  apply ordered_other in Hord; [| done].
  assert (Ek : k = KSuccess).
  { unfold k, outcome, kind_of, deadline. cbn [IsBadRequest]. destruct (Z.ltb_spec 0 (a_ExecutionTimeout cfg)) as [Hto|Hto]; [| done].
    specialize (Htime Hto). rewrite E1, Er in Htime. apply Forall_cons in Htime as [_ Htime].
    apply Forall_cons in Htime as [Htime _]. cbn in Htime. destruct (Z.ltb_spec (time_Add t (a_ExecutionTimeout cfg)) t1); [lia |].
    by rewrite andb_false_r. }
  assert (Erun2 : run_closer (h ++ [AskAllow t]) s1 = (Ret tt, s2)).
  { rewrite (HystrixCloser.Closer.run_closer_app _ _ _ _ Erun). unfold run_closer. cbn [range_do HystrixCloser.Closer.closer_step].
    unfold bind. by rewrite Eallow. }
  rewrite Ek in Hrep, Hreact.
  destruct (probe_ends w n start percent volume required sleep Hw Hn hi Hhi cfg Hopen t0 s0 s1 h t (derived cfg ctx t) ho e s2
    KSuccess t1 rs1 m2 m3 Hs0 Eopen Hh Hlen) as (rs2 & Ers & Hclose & Hstay);
    [eapply heard_mono; [.. | exact He]; lia | lia | lia | exact Hord | exact Erun2 | exact Hrep | exact Hreact |].
  assert (Hs : streak t0 (rev (h ++ [AskAllow t; Told (Reported KSuccess t1 (time_Sub t1 t))])) = 1 + streak t0 (rev h)).
  { rewrite rev_app_distr. cbn [rev app streak]. rewrite time_Sub_exact by (unfold min_int64, max_int64 in *; lia).
    by destruct (Z.ltb_spec t0 (t1 - (t1 - t))); [| lia]. }
  rewrite Hs in Hclose, Hstay. split; [done |]. cbn [m_abs] in Eabs. subst a'.
  destruct (Z.leb_spec required (1 + streak t0 (rev h))) as [Hc|Hc].
  - destruct (Hclose eq_refl Hc) as (up & _ & _ & Hm). apply Hm.
  - destruct (Hstay (fun _ => Hc)) as [Hm Hrs]. rewrite Ecan in Hrs.
    exists (h ++ [AskAllow t; Told (Reported KSuccess t1 (time_Sub t1 t))]).
    split; [unfold latest; rewrite E1, Er, Ers, <- Hrs, last_clocks_cancels; exact Hm |]. split; [exact Hs |].
    split; [unfold zlen; rewrite length_app; cbn; lia |].
    destruct Hm as (_ & _ & _ & _ & _ & Erun3). change [AskAllow t; Told (Reported KSuccess t1 (time_Sub t1 t))]
      with ([AskAllow t] ++ [Told (Reported KSuccess t1 (time_Sub t1 t))]) in Erun3.
    rewrite app_assoc, (HystrixCloser.Closer.run_closer_app _ _ _ _ Erun2) in Erun3.
    apply told_keeps_gate in Erun3. cbn [a_closer m_abs] in Erun3. rewrite Erun3. change (reopenCircuitCheck s2) with c'. lia.
Qed.

(** ** Rounds *)

Lemma called_ends k wd1 wd2 upto next u ctx f rs r t a a' :
  due k wd1 upto next -> Z.of_nat k < required -> called wd1 wd2 a a' u ctx f rs r ->
  goes_well upto t rs -> next <= t ->
  if required <=? 1 + Z.of_nat k then isOpen (circ wd2) = false else recovering (S k) wd2 (latest upto rs).
Proof.
  intros Hdue Hk Hca Hh Ht. destruct Hca as [Hq Hrun Hb Ha Hreads].
  destruct (call_returns k wd1 upto next u ctx f Hdue Hq) as (wd2' & _ & _ & _ & r' & _ & [_ Hrun' _ _ _] & _ & _ & Hr2 & Hw2 & Hc2).
  rewrite Hrun in Hrun'. injection Hrun' as <- <-.
  destruct Hdue as [_ _ _ (t0 & s1 & h & a0 & Ha0 & Hm & Hst & Hl & Hff & Hn' & Ht0)].
  pose proof (abstracts_unique _ _ _ Ha0 Hb) as ->. specialize (Hreads []). rewrite app_nil_r in Hreads.
  rewrite <- Hn' in Ht0, Ht.
  destruct (healthy_probe upto t0 s1 h a a' _ ctx rs r t Hm ltac:(lia) Hff Ht0 Ht Hh Hreads) as [_ Hend].
  rewrite Hst in Hend. destruct (Z.leb_spec required (1 + Z.of_nat k)) as [Hlast|Hmore].
  - destruct Ha as (-> & _). exact Hend.
  - destruct Hend as (h' & Hm' & Hst' & Hl' & Ht0'). split; try done. exists t0, s1, h', a'.
    split; [done |]. split; [done |]. split; [lia |]. split; [lia | done].
Qed.

(** After [k] rounds the circuit has closed, or the streak is [k]. *)
Definition after_rounds (k : nat) (x : W * Time) : Prop :=
  Z.of_nat k <= required /\
  if required <=? Z.of_nat k then isOpen (circ (fst x)) = false else recovering k (fst x) (snd x).

Lemma recovering_open k wd upto : recovering k wd upto -> isOpen (circ wd) = true.
Proof. intros [_ _ _ (t0 & s1 & h & a & (-> & _) & (_ & Ho & _) & _)]. exact Ho. Qed.

Lemma round_after k x y : after_rounds k x -> round x y -> after_rounds (S k) y.
Proof.
  intros [Hk Hx] Hxy. destruct Hxy as [wd wd1 wd2 s a a' u ctx f rs r upto t Hop Hs Htm Hca Hh Ht]. cbn [fst snd] in Hx.
  destruct (Z.leb_spec required (Z.of_nat k)) as [Hlast|Hmore]; [congruence |]. split; [lia |].
  destruct (timer_makes_due k wd upto s Hx Hmore Hs) as (wd1' & Htm' & Hdue).
  rewrite Htm in Htm'. injection Htm' as <-. cbn [fst snd].
  pose proof (called_ends k wd1 wd2 upto _ u ctx f rs r t a a' Hdue Hmore Hca Hh Ht) as Hend.
  by replace (Z.of_nat (S k)) with (1 + Z.of_nat k) by lia.
Qed.

Lemma rounds_after k x y : nsteps round k x y -> forall j, after_rounds j x -> after_rounds (j + k) y.
Proof.
  induction 1 as [x|k x y z Hxy _ IH]; intros j Hx; [by rewrite Nat.add_0_r |].
  replace (j + S k)%nat with (S j + k)%nat by lia. apply IH. by eapply round_after.
Qed.

Lemma round_possible k wd upto u ctx f :
  recovering k wd upto -> Z.of_nat k < required -> (forall ctx, quiet (f ctx)) ->
  exists s wd1 wd2 a a' rs r t, OpenToClose (circ wd) = Some s /\ timer_fires wd wd = (Ret tt, wd1) /\
    called wd1 wd2 a a' u ctx f rs r /\ performs users (circ wd1) f u rs (env wd2) /\ head (clocks rs) = Some t /\
    (goes_well upto t rs -> nextOpenTime (reopenCircuitCheck s) <= t -> round (wd, upto) (wd2, latest upto rs)).
Proof.
  intros Hre Hk Hq. pose proof (recovering_open _ _ _ Hre) as Ho.
  assert (Hs : exists s, OpenToClose (circ wd) = Some s)
    by (destruct (re_models _ _ _ Hre) as (? & ? & ? & a & (_ & _ & Ha) & _); by eexists).
  destruct Hs as (s & Hs). destruct (timer_makes_due k wd upto s Hre Hk Hs) as (wd1 & Htm & Hdue).
  destruct (call_returns k wd1 upto _ u ctx f Hdue Hq) as (wd2 & a & a' & rs & r & t & Hca & Hh & Hp & _).
  exists s, wd1, wd2, a, a', rs, r, t. repeat (split; [done |]).
  intros Hhe Ht. by eapply (Round wd wd1 wd2 s a a' u ctx f rs r upto t).
Qed.
End Recovery.

(** * The theorem *)

(** C7: an open circuit recovers.  A hystrix circuit that opened at [t0], at rest, not forced open or
    closed, with room for one more command: in [k] rounds of its sleep window's timer and, when the
    window is over, of a call whose command returns nil in time, it stays open while [k] is below
    [RequiredConcurrentSuccessful] and closes in exactly that round; and as long as it is open the
    timer and the next call, of whatever command and after whatever happened to the environment,
    return, and are a round if the command works and the window is over. *)
Theorem open_circuits_recover {U} `{!UserCode (Opener U) Closer U} `{!QuietUserCode (Opener U) Closer U}
    w n start percent volume required sleep hi fuel users cmds fbs (wd wd' : World (Opener U) Closer U)
    t0 s1 a upto upto' k :
  let cfg := threadSafeConfig (circ wd) in
  let round := round hi fuel cfg cmds in
  0 < w -> 0 < n -> hi - start <= max_int64 -> (2 <= fuel)%nat ->
  a_ForceOpen cfg = false -> a_ForcedClosed cfg = false -> 0 <= cmds < max_int64 ->
  (0 <=? a_MaxConcurrentRequests cfg) && (a_MaxConcurrentRequests cfg <? cmds + 1) = false ->
  0 < sleep -> 0 < required /\ 3 * required <= max_int64 ->
  at_rest HystrixOpener.Opener.opener_ok HystrixCloser.Closer.closer_ok cmds fbs wd ->
  wired users (circ wd) -> abstracts (circ wd) a ->
  models w n start percent volume required sleep upto (OpenSince t0 s1 []) a ->
  nsteps round k (wd, upto) (wd', upto') ->
  Z.of_nat k <= required /\ isOpen (circ wd') = (Z.of_nat k <? required) /\
  (Z.of_nat k < required -> forall u ctx f, (forall ctx, quiet (f ctx)) ->
   exists s wd1 wd2 b b' rs r t, OpenToClose (circ wd') = Some s /\ timer_fires wd' wd' = (Ret tt, wd1) /\
     called fuel cfg cmds wd1 wd2 b b' u ctx f rs r /\ performs users (circ wd1) f u rs (env wd2) /\
     head (clocks rs) = Some t /\
     (goes_well hi cfg upto' t rs -> nextOpenTime (reopenCircuitCheck s) <= t ->
      round (wd', upto') (wd2, latest upto' rs))).
Proof.
  intros cfg round Hw Hn Hhi Hf Ho Hc Hcmds Hlim Hsl Hreq Hrest Hwi Ha Hm Hk.
  assert (Hgate : t0 < nextOpenTime (reopenCircuitCheck (a_closer a))).
  { destruct Hm as (_ & _ & _ & (s0 & (Hok & _ & Hsw) & E) & _ & Er). injection Er as <-.
    destruct (HystrixCloser.Closer.arm_spec t0 true s0 Hok) as (s' & E' & _ & _ & _ & _ & _ & _ & _ & Hnx & _).
    change (HystrixCloser.Closer.arm t0 true s0 = (Ret tt, s1)) in E. rewrite E in E'. injection E' as <-.
    rewrite Hnx, Hsw. unfold time_Add. lia. }
  assert (H0 : after_rounds w n start percent volume required sleep cfg users cmds fbs 0 (wd, upto)).
  { split; [lia |]. destruct (Z.leb_spec required (Z.of_nat 0)); [lia |]. split; try done.
    by exists t0, s1, [], a. }
  pose proof (rounds_after w n start percent volume required sleep hi fuel cfg users cmds fbs Hw Hn Hhi Hf Ho Hc Hcmds Hlim
    Hsl Hreq k _ _ Hk 0%nat H0) as [Hle H]. cbn [Nat.add fst snd] in *.
  split; [done |]. destruct (Z.leb_spec required (Z.of_nat k)) as [Hlast|Hmore].
  - split; [rewrite H; symmetry; apply Z.ltb_ge; lia | lia].
  - split; [rewrite (recovering_open _ _ _ _ _ _ _ _ _ _ _ _ _ _ H); symmetry; by apply Z.ltb_lt |].
    intros _ u ctx f Hq. by eapply round_possible.
Qed.

(** * Witness *)

Module RecoverySample.
Import Hystrix.HystrixSample.
#[local] Existing Instance CycleSample.quiet_code.

(** The circuit of [CycleSample], which opened at 102 with a closer that wants two successes. *)
Definition closer2 : Closer :=
  match HystrixCloser.Closer.CloserFactory (HystrixCloser.Closer.mkConfigureCloser None 10 1 2) with
  | Ret s => s
  | _ => HystrixCloser.Closer.Closer_zero
  end.
Definition opened : Closer := snd (HystrixCloser.Closer.Opened Background 102 closer2).
Definition in_state (open : bool) (s : Closer) (u : Z) : World (Opener Z) Closer Z :=
  mkWorld (upd OpenToCloseL (Some s) (upd isOpenL open CycleSample.wd)).(circ) u.

Definition wd0 := in_state true opened 105.
Definition fired (wd : World (Opener Z) Closer Z) (u : Z) := mkWorld (circ (snd (timer_fires wd wd))) u.
Definition wd1 := snd (run 2 Background CycleSample.succeeds (fired wd0 200)).
Definition wd2 := snd (run 2 Background CycleSample.succeeds (fired wd1 300)).

Example two_rounds : (isOpen (circ wd0), isOpen (circ wd1), isOpen (circ wd2)) = (true, true, false).
Proof. vm_compute. reflexivity. Qed.

Abbreviation cfg := (threadSafeConfig (circ wd0)).
Abbreviation opener := CycleSample.opener.

Definition abs_of (wd : World (Opener Z) Closer Z) : abs (Opener Z) Closer :=
  mkAbs (isOpen (circ wd)) (default opener (ClosedToOpenLogic (circ wd))) (default opened (OpenToClose (circ wd))).

Lemma quiet_succeeds ctx : quiet (CycleSample.succeeds ctx).
Proof. intros x. exists None, (env x). by destruct x. Qed.

(** The interactions of a call of [succeeds] that starts at [t]. *)
Definition readings (t : Time) (more : list interaction) : list interaction :=
  [ReadClock t; ReadResult Background None; ReadClock (t + 1); ReadCtxErr Background None;
   Emits (Reports KSuccess Background (t + 1) 1)] ++ more.

Lemma readings_healthy upto t more :
  more = [] \/ more = flips false Background (t + 2) -> upto <= t -> t + 2 <= 1000 ->
  goes_well 1000 cfg upto t (readings t more).
Proof.
  intros Hm Hle Hhi. split; [done |]. split; [| split].
  - unfold ordered, clocks, readings in *. cbn. destruct Hm as [->| ->]; cbn; split;
      repeat (constructor; try lia).
  - intros ctx r Hin. unfold readings in Hin. cbn [app] in Hin. destruct Hm as [->| ->]; unfold flips in Hin;
      repeat (apply elem_of_cons in Hin as [Hin|Hin]; [by simplify_eq |]); by apply elem_of_nil in Hin.
  - intros H. vm_compute in H. done.
Qed.

Lemma first_round : round 1000 2 cfg 0 (wd0, 105) (wd1, 202).
Proof.
  apply (Round 1000 2 cfg 0 wd0 (fired wd0 105) wd1 opened (abs_of (fired wd0 200)) (abs_of wd1) 200 Background
    CycleSample.succeeds (readings 201 []) None 105 201); try (vm_compute; done).
  - split; [apply quiet_succeeds | vm_compute; reflexivity | by vm_compute | by vm_compute |].
    intros rest. vm_compute. reflexivity.
  - apply readings_healthy; [by left | lia | lia].
Qed.

Lemma second_round : round 1000 2 cfg 0 (wd1, 202) (wd2, 303).
Proof.
  apply (Round 1000 2 cfg 0 wd1 (fired wd1 (env wd1)) wd2 (default opened (OpenToClose (circ wd1)))
    (abs_of (fired wd1 300)) (abs_of wd2) 300 Background CycleSample.succeeds (readings 301 (flips false Background 303)) None 202 301);
    try (vm_compute; done).
  - split; [apply quiet_succeeds | vm_compute; reflexivity | by vm_compute | by vm_compute |].
    intros rest. vm_compute. reflexivity.
  - apply readings_healthy; [by right | lia | lia].
Qed.

Lemma wd0_ready : at_rest HystrixOpener.Opener.opener_ok HystrixCloser.Closer.closer_ok 0 0 wd0.
Proof.
  destruct CycleSample.wd_ready as [(Hos & _ & Hclk & Hmu) Hmv]. split; [| exact Hmv].
  split; [exact Hos |]. split; [| by split]. exists opened. split; [done |]. by vm_compute.
Qed.

Lemma wd0_open : models 100 10 101 50 1 2 10 105 (OpenSince 102 opened []) (mkAbs true opener opened).
Proof.
  destruct CycleSample.wd_starts as (_ & _ & Hh & _). cbn [a_opener] in Hh. split; [lia |]. split; [done |].
  split; [exists []; eapply heard_mono; [.. | exact Hh]; lia |]. split; [| by split].
  exists closer2. split; [| by vm_compute]. by vm_compute.
Qed.

Lemma open_circuits_recover_witness :
  isOpen (circ wd1) = true /\ isOpen (circ wd2) = false.
Proof.
  pose proof (fun wd' => open_circuits_recover 100 10 101 50 1 2 10 1000 2 [] 0 0 wd0 wd' 102 opened (mkAbs true opener opened)
    105) as H. cbv zeta in H. split.
  - eapply (H wd1 202 1%nat); try (exact wd0_ready || exact wd0_open); try (vm_compute; by split || done).
    eapply nsteps_l; [exact first_round | apply nsteps_O].
  - eapply (H wd2 303 2%nat); try (exact wd0_ready || exact wd0_open); try (vm_compute; by split || done).
    eapply nsteps_l; [exact first_round |]. eapply nsteps_l; [exact second_round | apply nsteps_O].
Defined.
End RecoverySample.
End Recovery.
