(* ===== verification/Manager.v ===== *)
(** manager.go: the registry of circuits with unique names.

    A [Manager] lives in a world with the heap of circuits, which it refers to by address, and
    the environment [U] of the program.  The elements of [DefaultCircuitProperties] are
    numbered user functions over the whole world: they may call back into the manager.  The
    clocks and factories inside a configuration act on [U] only, as in Config.v.

    [createMu] and [mu] are modelled: taking a lock that this goroutine holds is [Deadlock].
    Creates that race are the step relation of the second half, whose steps are the critical
    sections.  The iteration order of a Go map is unspecified; [AllCircuits] lists it in the
    order of the model's finite map, and nothing is proved of that order. *)

From S2P Require Import Prelude GoMonad Errors Metrics Closers Config Circuit CircuitTheorems.

Module Manager.

(** * Data *)

Section Data.
Context {OS CS U : Type}.

Record Manager := mkManager {
  DefaultCircuitProperties : list (option nat);
  circuitMap : option (gmap string nat);
  mu_readers : nat;      (* mu sync.RWMutex *)
  mu_writer : bool;
  createMu : bool
}.

Record MWorld := mkMWorld {
  manager : Manager;
  heap : list (Circuit OS CS U);
  menv : U
}.
End Data.

Arguments MWorld OS CS U : clear implicits.

(** A [*Manager]. *)
Inductive manager_ptr := nilManager | theManager.

Definition errCircuitExists : error :=
  userError "circuit with that name already exists" None None NoUnwrap.

(** The panic value of [panic(errCircuitExists)]. *)
Definition panic_errCircuitExists : panic := PanicValue 0.

Section Methods.
Context {OS CS U : Type} `{!ClosedToOpen OS} `{!OpenToClosed CS} `{!UserCode OS CS U}.
Abbreviation MW := (MWorld OS CS U).
(** The [CommandPropertiesConstructor]s. *)
Context (constructor : nat -> string -> M MW (Config OS CS U)).

Definition set_manager (m : Manager) (w : MW) : MW := mkMWorld m (heap w) (menv w).

Definition set_circuitMap (cm : option (gmap string nat)) (w : MW) : MW :=
  let m := manager w in
  set_manager (mkManager (DefaultCircuitProperties m) cm (mu_readers m) (mu_writer m) (createMu m)) w.

Definition set_mu (readers : nat) (writer : bool) (w : MW) : MW :=
  let m := manager w in
  set_manager (mkManager (DefaultCircuitProperties m) (circuitMap m) readers writer (createMu m)) w.

Definition set_createMu (b : bool) (w : MW) : MW :=
  let m := manager w in
  set_manager (mkManager (DefaultCircuitProperties m) (circuitMap m) (mu_readers m) (mu_writer m) b) w.

Definition RLock : M MW unit := fun w =>
  let m := manager w in
  if mu_writer m then (Deadlock, w) else (Ret tt, set_mu (S (mu_readers m)) (mu_writer m) w).

Definition RUnlock : M MW unit := fun w =>
  let m := manager w in
  match mu_readers m with
  | O => (Panic UnlockOfUnlocked, w)
  | S n => (Ret tt, set_mu n (mu_writer m) w)
  end.

Definition Lock : M MW unit := fun w =>
  let m := manager w in
  if mu_writer m || (0 <? mu_readers m)%nat then (Deadlock, w)
  else (Ret tt, set_mu (mu_readers m) true w).

Definition Unlock : M MW unit := fun w =>
  let m := manager w in
  if mu_writer m then (Ret tt, set_mu (mu_readers m) false w) else (Panic UnlockOfUnlocked, w).

Definition createMu_Lock : M MW unit := fun w =>
  if createMu (manager w) then (Deadlock, w) else (Ret tt, set_createMu true w).

Definition createMu_Unlock : M MW unit := fun w =>
  if createMu (manager w) then (Ret tt, set_createMu false w) else (Panic UnlockOfUnlocked, w).

(** * Operations *)

(** [h.circuitMap] read as a map: a nil map is empty. *)
Definition the_map (w : MW) : gmap string nat := default ∅ (circuitMap (manager w)).

Definition AllCircuits (h : manager_ptr) : M MW (list nat) :=
  match h with
  | nilManager => ret []
  | theManager =>
      do! RLock;
      defer RUnlock (gets (fun w => (map_to_list (the_map w)).*2))
  end.

Definition GetCircuit (h : manager_ptr) (name : string) : M MW (option nat) :=
  match h with
  | nilManager => ret None
  | theManager =>
      do! RLock;
      defer RUnlock (gets (fun w => the_map w !! name))
  end.

(** [for _, c := range configs { finalConfig.Merge(c) }] *)
Definition merge_configs (configs : list (Config OS CS U)) : Config OS CS U :=
  fold_left Merge configs Config_zero.

(** The loop over [DefaultCircuitProperties] with [i] from [count - 1] down to 0; the slice is
    read at every iteration. *)
Fixpoint merge_defaults (count : nat) (name : string) (finalConfig : Config OS CS U)
    : M MW (Config OS CS U) :=
  match count with
  | O => ret finalConfig
  | S i =>
      let! ds := gets (fun w => DefaultCircuitProperties (manager w)) in
      match ds !! i with
      | None => throw IndexOutOfRange
      | Some None => throw NilDereference
      | Some (Some k) =>
          let! c := constructor k name in
          merge_defaults i name (Merge finalConfig c)
      end
  end.

(** [NewCircuitFromConfig] allocates the circuit. *)
Definition new_circuit (name : string) (config : Config OS CS U) : M MW nat := fun w =>
  match NewCircuitFromConfig name config (menv w) with
  | (Ret c, u) => (Ret (length (heap w)), mkMWorld (manager w) (heap w ++ [c]) u)
  | (Panic p, u) => (Panic p, mkMWorld (manager w) (heap w) u)
  | (Deadlock, u) => (Deadlock, mkMWorld (manager w) (heap w) u)
  | (OutOfFuel, u) => (OutOfFuel, mkMWorld (manager w) (heap w) u)
  end.

(** The assignment to the map, which is made when it is nil. *)
Definition map_insert (name : string) (created : nat) : M MW unit :=
  modify (fun w => set_circuitMap (Some (<[name := created]> (the_map w))) w).

(** The part of [CreateCircuit] between the duplicate check and taking [mu]. *)
Definition build (name : string) (configs : list (Config OS CS U)) : M MW nat :=
  let! n := gets (fun w => length (DefaultCircuitProperties (manager w))) in
  let! finalConfig := merge_defaults n name (merge_configs configs) in
  new_circuit name finalConfig.

(** The end of [CreateCircuit], under [mu]. *)
Definition commit (name : string) (created : nat) : M MW (option nat * option error) :=
  do! Lock;
  defer Unlock
    (do! map_insert name created;
     ret (Some created, None)).

(** The results are the circuit and the error. *)
Definition CreateCircuit (h : manager_ptr) (name : string) (configs : list (Config OS CS U))
    : M MW (option nat * option error) :=
  match h with
  | nilManager => throw NilDereference
  | theManager =>
      do! createMu_Lock;
      defer createMu_Unlock
        (let! existing := GetCircuit h name in
         match existing with
         | Some _ => ret (None, Some errCircuitExists)
         | None =>
             let! created := build name configs in
             commit name created
         end)
  end.

Definition MustCreateCircuit (h : manager_ptr) (name : string) (configs : list (Config OS CS U))
    : M MW (option nat) :=
  let! r := CreateCircuit h name configs in
  match r with
  | (_, Some _) => throw panic_errCircuitExists
  | (c, None) => ret c
  end.
End Methods.

(** * Lemmas *)

Section Facts.
Context {OS CS U : Type} `{!ClosedToOpen OS} `{!OpenToClosed CS} `{!UserCode OS CS U}.
Abbreviation MW := (MWorld OS CS U).
Context (constructor : nat -> string -> M MW (Config OS CS U)).
Implicit Types w : MW.

Definition mu_free w : Prop := mu_readers (manager w) = 0%nat /\ mu_writer (manager w) = false.
Definition manager_free w : Prop := createMu (manager w) = false /\ mu_free w.

Lemma GetCircuit_run name w :
  mu_writer (manager w) = false -> GetCircuit theManager name w = (Ret (the_map w !! name), w).
Proof.
  intros H. destruct w as [[ds cm rd wr cr] h u]. simpl in H. subst wr. reflexivity.
Qed.

Lemma AllCircuits_run w :
  mu_writer (manager w) = false -> AllCircuits theManager w = (Ret ((map_to_list (the_map w)).*2), w).
Proof.
  intros H. destruct w as [[ds cm rd wr cr] h u]. simpl in H. subst wr. reflexivity.
Qed.

(** What [SetConfigNotThreadSafe cfg] keeps of a closed circuit that stores [cfg]. *)
Definition stores (cfg : Config OS CS U) (name : string) (w : World OS CS U) : Prop :=
  let c := circ w in
  notThreadSafeConfig c = cfg /\ Circuit.name c = name /\ isOpen c = false /\
  concurrentCommands c = 0 /\ pendingTransitions c = [].

Lemma stores_zoom_ptr {T A} cfg name (l : lens (World OS CS U) (option T)) (m : M T A) :
  (forall v (w : World OS CS U), stores cfg name w -> stores cfg name (upd l v w)) ->
  stable (stores cfg name) (zoom_ptr l m).
Proof.
  intros H w Hw. unfold zoom_ptr. destruct (view l w) as [x|]; [| done].
  destruct (m x) as [o t]. by apply H.
Qed.

Lemma stores_zoom_env {A} cfg name (m : M U A) : stable (stores cfg name) (zoom envL m).
Proof. intros w Hw. unfold zoom. by destruct (m (view envL w)). Qed.

Lemma SetConfigNotThreadSafe_stores cfg name :
  stable (stores cfg name) (SetConfigNotThreadSafe cfg).
Proof.
  unfold SetConfigNotThreadSafe, SetConfigThreadSafe, call_factory, notifyStateMachines, now.
  stable_go ltac:(first [apply stable_gets
    | apply stores_zoom_env
    | apply stores_zoom_ptr; intros ? ? (? & ? & ? & ? & ?); by repeat split
    | apply stable_modify; intros ? (? & ? & ? & ? & ?); by repeat split
    | intros w Hw; unfold lock, unlock; destruct (view _ w); [| done];
      destruct Hw as (? & ? & ? & ? & ?); by repeat split
    | intros w Hw; unfold lock, unlock; destruct (view _ w); [done |];
      destruct Hw as (? & ? & ? & ? & ?); by repeat split]).
Qed.

(** What [NewCircuitFromConfig] stores, when it returns. *)
Lemma NewCircuitFromConfig_stores name config u c u' :
  NewCircuitFromConfig name config u = (Ret c, u') ->
  notThreadSafeConfig c
    = Merge config (defaultCommandProperties neverOpensFactory neverClosesFactory time_Now) /\
  Circuit.name c = name /\ isOpen c = false /\ concurrentCommands c = 0 /\ pendingTransitions c = [].
Proof.
  unfold NewCircuitFromConfig. set (cfg := Merge _ _).
  pose proof (SetConfigNotThreadSafe_stores cfg name (mkWorld (Circuit_zero name cfg) u)) as H.
  destruct (SetConfigNotThreadSafe cfg _) as [[] w']; intros E; try discriminate E.
  injection E as <- _. by apply H.
Qed.

(** A constructor that returns [props k name] and, but for the environment, only reads: what
    the documentation allows it. *)
Definition reading (props : nat -> string -> Config OS CS U) : Prop :=
  forall k name w, createMu (manager w) = true -> mu_free w ->
    exists u, constructor k name w = (Ret (props k name), mkMWorld (manager w) (heap w) u).

(** The defaults in the order they are merged: the last one appended first. *)
Definition default_chain (props : nat -> string -> Config OS CS U) (ks : list nat) (name : string)
    : list (Config OS CS U) := (fun k => props k name) <$> reverse ks.

Lemma merge_defaults_run props ks rest name cfg w :
  reading props -> createMu (manager w) = true -> mu_free w ->
  DefaultCircuitProperties (manager w) = (Some <$> ks) ++ rest ->
  exists u, merge_defaults constructor (length ks) name cfg w
    = (Ret (fold_left Merge (default_chain props ks name) cfg), mkMWorld (manager w) (heap w) u).
Proof.
  intros Hp. revert rest cfg w. induction ks as [|k ks IH] using rev_ind; intros rest cfg w Hcr Hmu Hds.
  - exists (menv w). by destruct w.
  - rewrite length_app, Nat.add_comm. cbn [Nat.add length merge_defaults].
    unfold bind at 1, gets. rewrite Hds, fmap_app, <- app_assoc.
    rewrite lookup_app_r, length_fmap, Nat.sub_diag by (rewrite length_fmap; lia).
    cbn [app fmap list_fmap lookup list_lookup].
    destruct (Hp k name w Hcr Hmu) as (u & E). unfold bind. rewrite E.
    destruct (IH (Some k :: rest) (Merge cfg (props k name)) (mkMWorld (manager w) (heap w) u))
      as (u' & E'); [done | done | cbn [manager]; by rewrite Hds, fmap_app, <- app_assoc |].
    exists u'. rewrite E'. unfold default_chain. by rewrite reverse_app.
Qed.

(** Constructors and factories that may panic or return, with a frame condition only: they
    leave the locks, the map and the list of constructors alone.  [good] is what it takes of a
    configuration that [NewCircuitFromConfig] does not get stuck in its factories. *)
Record respectful (good : Config OS CS U -> Prop) : Prop := {
  good_zero : good Config_zero;
  good_merge : forall a b, good a -> good b -> good (Merge a b);
  good_constructor : forall k name w, createMu (manager w) = true -> mu_free w ->
    wp (constructor k name) (fun c w' => good c /\ manager w' = manager w)
      (fun _ w' => manager w' = manager w) w;
  good_new : forall name cfg u, good cfg ->
    wp (NewCircuitFromConfig name cfg) (fun _ _ => True) (fun _ _ => True) u
}.

Definition keeps_manager (m : Manager) (w : MW) : Prop := manager w = m.

Lemma good_fold good l cfg :
  respectful good -> Forall good l -> good cfg -> good (fold_left Merge l cfg).
Proof.
  intros Hr Hl. revert cfg. induction Hl as [|c l Hc Hl IH]; intros cfg Hcfg; simpl; [done |].
  apply IH. by apply (good_merge good Hr).
Qed.

Lemma merge_defaults_keeps good n name cfg m w :
  respectful good -> createMu m = true -> mu_readers m = 0%nat -> mu_writer m = false ->
  good cfg -> keeps_manager m w ->
  wp (merge_defaults constructor n name cfg) (fun c w' => good c /\ keeps_manager m w')
    (fun _ => keeps_manager m) w.
Proof.
  intros Hr Hcr Hrd Hwr. revert cfg w. induction n as [|i IH]; intros cfg w Hg Hw; simpl; [done |].
  apply wp_bind, wp_gets. unfold keeps_manager in *. rewrite Hw.
  destruct (DefaultCircuitProperties m !! i) as [[k|]|]; [| done | done].
  apply wp_bind. eapply wp_mono; [apply (good_constructor good Hr); unfold mu_free; by rewrite Hw | |].
  - intros c w' [Hc E]. apply IH; [by apply (good_merge good Hr) | by rewrite E].
  - intros p w' E. simpl in E. by rewrite E.
Qed.

Lemma build_keeps good name configs m w :
  respectful good -> Forall good configs ->
  createMu m = true -> mu_readers m = 0%nat -> mu_writer m = false -> keeps_manager m w ->
  wp (build constructor name configs) (fun _ => keeps_manager m) (fun _ => keeps_manager m) w.
Proof.
  intros Hr Hcs Hcr Hrd Hwr Hw. unfold build. apply wp_bind, wp_gets, wp_bind. eapply wp_mono.
  - eapply (merge_defaults_keeps good); try done. apply (good_fold good); [done | done |].
    apply (good_zero good Hr).
  - intros cfg w' [Hg Hw']. pose proof (good_new good Hr name cfg (menv w') Hg) as Hn.
    unfold wp, new_circuit in *. by destruct (NewCircuitFromConfig name cfg (menv w')) as [[] u].
  - done.
Qed.

(** [CreateCircuit] with its locks resolved: on a free manager it is the duplicate check and
    then [build], whose circuit enters the map. *)
Definition created_in (name : string) (w : MW) (p : nat) (w' : MW) : MW :=
  mkMWorld (mkManager (DefaultCircuitProperties (manager w)) (Some (<[name := p]> (the_map w)))
    (mu_readers (manager w)) (mu_writer (manager w)) false) (heap w') (menv w').

Lemma CreateCircuit_run name configs w :
  manager_free w -> the_map w !! name = None ->
  forall o w1, build constructor name configs (set_createMu true w) = (o, w1) ->
  manager w1 = manager (set_createMu true w) ->
  CreateCircuit constructor theManager name configs w
  = match o with
    | Ret p => (Ret (Some p, None), created_in name w p w1)
    | Panic p => (Panic p, set_createMu false w1)
    | Deadlock => (Deadlock, w1)
    | OutOfFuel => (OutOfFuel, w1)
    end.
Proof.
  intros (Hcr & Hrd & Hwr) Hnew o w1 E Hm1. unfold CreateCircuit.
  unfold bind at 1. unfold createMu_Lock. rewrite Hcr. unfold defer at 1.
  unfold bind at 1. rewrite GetCircuit_run by done.
  change (the_map (set_createMu true w)) with (the_map w). rewrite Hnew.
  unfold bind at 1. rewrite E. destruct w1 as [m1 h1 u1]. simpl in Hm1. subst m1.
  destruct w as [[ds cm rd wr cr] h u]. simpl in Hcr, Hrd, Hwr. subst cr rd wr.
  by destruct o.
Qed.
End Facts.

(** * Properties *)

Section Properties.
Context {OS CS U : Type} `{!ClosedToOpen OS} `{!OpenToClosed CS} `{!UserCode OS CS U}.
Abbreviation MW := (MWorld OS CS U).
Implicit Types w : MW.

(** C21: a name is created once, from the right configuration.  On a manager nobody is using: a
    name that exists is refused with [errCircuitExists], changing nothing and running no
    constructor; a new name gives a new closed circuit whose configuration takes each unset
    field from the given configurations in order, then from the default constructors, the last
    appended first, then from the library's defaults; the name and only it is added to the
    map, and the locks are free again. *)
Theorem CreateCircuit_once constructor (props : nat -> string -> Config OS CS U) ks name configs w :
  manager_free w -> reading constructor props ->
  DefaultCircuitProperties (manager w) = Some <$> ks ->
  (forall u, exists c u', NewCircuitFromConfig name
     (fold_left Merge (configs ++ default_chain props ks name) Config_zero) u = (Ret c, u')) ->
  (forall p, the_map w !! name = Some p ->
     CreateCircuit constructor theManager name configs w = (Ret (None, Some errCircuitExists), w)) /\
  (the_map w !! name = None ->
     exists c w', CreateCircuit constructor theManager name configs w
         = (Ret (Some (length (heap w)), None), w') /\
       heap w' = heap w ++ [c] /\ the_map w' = <[name := length (heap w)]> (the_map w) /\
       manager_free w' /\ Circuit.name c = name /\ isOpen c = false /\
       notThreadSafeConfig c = fold_left Merge (configs ++ default_chain props ks name
         ++ [defaultCommandProperties neverOpensFactory neverClosesFactory time_Now]) Config_zero).
Proof.
  intros Hf Hp Hds Hn. split.
  - intros p Hex. destruct Hf as (Hcr & Hrd & Hwr). unfold CreateCircuit, bind at 1, createMu_Lock.
    rewrite Hcr. unfold defer, bind at 1. rewrite GetCircuit_run by done.
    change (the_map (set_createMu true w)) with (the_map w). rewrite Hex.
    destruct w as [[ds cm rd wr cr] h u]. simpl in Hcr. by subst cr.
  - intros Hnew. pose proof Hf as (Hcr & Hmu).
    destruct (merge_defaults_run constructor props ks [] name (merge_configs configs)
      (set_createMu true w) Hp) as (u1 & E1); [done | done | by rewrite app_nil_r |].
    set (cfg := fold_left Merge (default_chain props ks name) _) in *.
    destruct (Hn u1) as (c & u2 & E2). rewrite fold_left_app in E2.
    change (NewCircuitFromConfig name cfg u1 = (Ret c, u2)) in E2.
    assert (E : build constructor name configs (set_createMu true w)
      = (Ret (length (heap w)), mkMWorld (manager (set_createMu true w)) (heap w ++ [c]) u2)).
    { unfold build. unfold bind at 1, gets.
      replace (length (DefaultCircuitProperties _)) with (length ks)
        by (simpl; by rewrite Hds, length_fmap).
      unfold bind. rewrite E1. unfold new_circuit. simpl menv. by rewrite E2. }
    exists c. eexists. split; [by rewrite (CreateCircuit_run _ _ _ _ Hf Hnew _ _ E) |].
    destruct (NewCircuitFromConfig_stores _ _ _ _ _ E2) as (Hcfg & Hname & Hopen & _).
    split; [done |]. split; [done |]. split; [by split |]. split; [done |]. split; [done |].
    rewrite Hcfg. unfold cfg, merge_configs. by rewrite !fold_left_app.
Qed.

(** C22: whatever the constructors and factories do, short of touching the manager's own fields,
    [CreateCircuit] on a free manager returns or lets exactly their panic through, never
    deadlocks, and leaves both locks free.  It succeeds only for a name that was not in the
    map, adding that name and nothing else; when it is refused or panics the map is
    unchanged. *)
Theorem CreateCircuit_total constructor good name configs w :
  manager_free w -> respectful constructor good -> Forall good configs ->
  wp (CreateCircuit constructor theManager name configs)
    (fun r w' => manager_free w' /\
       ((exists p, the_map w !! name = Some p /\ r = (None, Some errCircuitExists) /\
          the_map w' = the_map w) \/
        (exists p, the_map w !! name = None /\ r = (Some p, None) /\
          the_map w' = <[name := p]> (the_map w))))
    (fun _ w' => manager_free w' /\ the_map w !! name = None /\ the_map w' = the_map w) w.
Proof.
  intros Hf Hr Hg. pose proof Hf as (Hcr & Hrd & Hwr).
  destruct (the_map w !! name) as [p|] eqn:Hm.
  - unfold wp, CreateCircuit. unfold bind at 1, createMu_Lock. rewrite Hcr. unfold defer, bind at 1.
    rewrite GetCircuit_run by done. change (the_map (set_createMu true w)) with (the_map w). rewrite Hm.
    simpl. split; [by repeat split |]. left. by exists p.
  - pose proof (build_keeps constructor good name configs (manager (set_createMu true w))
      (set_createMu true w) Hr Hg eq_refl Hrd Hwr eq_refl) as Hb. unfold wp in Hb |- *.
    destruct (build constructor name configs (set_createMu true w)) as [o w1] eqn:E.
    assert (Hm1 : manager w1 = manager (set_createMu true w)) by (destruct o; by destruct Hb).
    rewrite (CreateCircuit_run constructor name configs w Hf Hm o w1 E Hm1).
    destruct o as [p|p| |]; simpl; [| | done | done].
    + split; [by repeat split |]. right. by exists p.
    + unfold manager_free, mu_free, the_map. simpl. rewrite Hm1. by repeat split.
Qed.

(** What a constructor may call back.  While [createMu] is held and [mu] is not,
    [GetCircuit] and [AllCircuits] return, changing nothing, and [AllCircuits] lists exactly
    the circuits of the map; [CreateCircuit] and [MustCreateCircuit] of the same manager
    deadlock.  On a nil manager the two readers find nothing and [CreateCircuit] panics. *)
Theorem constructors_may_read_not_create constructor name configs w :
  createMu (manager w) = true -> mu_free w ->
  GetCircuit theManager name w = (Ret (the_map w !! name), w) /\
  (exists l, AllCircuits theManager w = (Ret l, w) /\
     forall p, p ∈ l <-> exists n, the_map w !! n = Some p) /\
  CreateCircuit constructor theManager name configs w = (Deadlock, w) /\
  MustCreateCircuit constructor theManager name configs w = (Deadlock, w) /\
  GetCircuit nilManager name w = (Ret None, w) /\ AllCircuits nilManager w = (Ret [], w) /\
  CreateCircuit constructor nilManager name configs w = (Panic NilDereference, w).
Proof.
  intros Hcr [Hrd Hwr]. split; [by apply GetCircuit_run |]. split.
  { eexists. split; [by apply AllCircuits_run |]. intros p. rewrite list_elem_of_fmap. split.
    - intros ([n q] & -> & H%elem_of_map_to_list). by exists n.
    - intros (n & H%elem_of_map_to_list). by exists (n, p). }
  assert (E : CreateCircuit constructor theManager name configs w = (Deadlock, w))
    by (unfold CreateCircuit, bind, createMu_Lock; by rewrite Hcr).
  split; [done |]. split; [| done]. unfold MustCreateCircuit, bind. by rewrite E.
Qed.
End Properties.

(** * Creates that race

    Goroutines in [CreateCircuit]; a step is one of its critical sections, or the code of the
    constructors, which runs with [createMu] held and [mu] free.  [None] is the refusal. *)
Section Race.
Context {OS CS U : Type} `{!ClosedToOpen OS} `{!OpenToClosed CS} `{!UserCode OS CS U}.
Abbreviation MW := (MWorld OS CS U).
Context (constructor : nat -> string -> M MW (Config OS CS U)).

Inductive creating :=
| Waiting                              (* for createMu *)
| Checking                             (* holds createMu *)
| Building                             (* the name was free *)
| Committing (p : nat)                 (* about to take mu *)
| Returning (o : outcome (option nat)) (* the deferred unlock of createMu is left *)
| Finished (o : outcome (option nat)).

Record goroutine := mkGoroutine {
  g_name : string;
  g_configs : list (Config OS CS U);
  g_at : creating
}.

Definition at_ (g : goroutine) (c : creating) : goroutine := mkGoroutine (g_name g) (g_configs g) c.

Record sys := mkSys { goroutines : list goroutine; world : MW }.

Inductive race : sys -> sys -> Prop :=
| race_lock gs i g w w' :
    gs !! i = Some g -> g_at g = Waiting -> createMu_Lock w = (Ret tt, w') ->
    race (mkSys gs w) (mkSys (<[i := at_ g Checking]> gs) w')
| race_check gs i g o w w' :
    gs !! i = Some g -> g_at g = Checking -> GetCircuit theManager (g_name g) w = (Ret o, w') ->
    race (mkSys gs w)
      (mkSys (<[i := at_ g (match o with Some _ => Returning (Ret None) | None => Building end)]> gs) w')
| race_build gs i g p w w' :
    gs !! i = Some g -> g_at g = Building ->
    build constructor (g_name g) (g_configs g) w = (Ret p, w') ->
    race (mkSys gs w) (mkSys (<[i := at_ g (Committing p)]> gs) w')
| race_build_panics gs i g e w w' :
    gs !! i = Some g -> g_at g = Building ->
    build constructor (g_name g) (g_configs g) w = (Panic e, w') ->
    race (mkSys gs w) (mkSys (<[i := at_ g (Returning (Panic e))]> gs) w')
| race_commit gs i g p c w w' :
    gs !! i = Some g -> g_at g = Committing p -> commit (g_name g) p w = (Ret (c, None), w') ->
    race (mkSys gs w) (mkSys (<[i := at_ g (Returning (Ret c))]> gs) w')
| race_unlock gs i g o w w' :
    gs !! i = Some g -> g_at g = Returning o -> createMu_Unlock w = (Ret tt, w') ->
    race (mkSys gs w) (mkSys (<[i := at_ g (Finished o)]> gs) w')
(** anything else in the program, readers of the manager included *)
| race_other gs w w' : manager w' = manager w -> race (mkSys gs w) (mkSys gs w').

(** The next step of goroutine [i], if it can take one. *)
Definition race_next (i : nat) (s : sys) : option sys :=
  let w := world s in
  g ← goroutines s !! i;
  let moved c w' := Some (mkSys (<[i := at_ g c]> (goroutines s)) w') in
  match g_at g with
  | Waiting => match createMu_Lock w with (Ret _, w') => moved Checking w' | _ => None end
  | Checking =>
      match GetCircuit theManager (g_name g) w with
      | (Ret (Some _), w') => moved (Returning (Ret None)) w'
      | (Ret None, w') => moved Building w'
      | _ => None
      end
  | Building =>
      match build constructor (g_name g) (g_configs g) w with
      | (Ret p, w') => moved (Committing p) w'
      | (Panic e, w') => moved (Returning (Panic e)) w'
      | _ => None
      end
  | Committing p =>
      match commit (g_name g) p w with (Ret (c, None), w') => moved (Returning (Ret c)) w' | _ => None end
  | Returning o => match createMu_Unlock w with (Ret _, w') => moved (Finished o) w' | _ => None end
  | Finished _ => None
  end.

Fixpoint race_schedule (order : list nat) (s : sys) : option sys :=
  match order with
  | [] => Some s
  | i :: rest => s' ← race_next i s; race_schedule rest s'
  end.

Lemma race_next_sound i s s' : race_next i s = Some s' -> race s s'.
Proof.
  destruct s as [gs w]. unfold race_next. cbn [goroutines world].
  destruct (gs !! i) as [g|] eqn:Hi; [| done]. cbn [mbind option_bind]. cbv zeta.
  destruct (g_at g) as [| | |p|o|o] eqn:Hat; intros H.
  - destruct (createMu_Lock w) as [[[]| | |] w'] eqn:E; try done. injection H as <-. by eapply race_lock.
  - destruct (GetCircuit _ _ w) as [[[p|]| | |] w'] eqn:E; try done; injection H as <-.
    + by apply (race_check gs i g (Some p)).
    + by apply (race_check gs i g None).
  - destruct (build _ _ _ w) as [[p|e| |] w'] eqn:E; try done; injection H as <-.
    + by eapply race_build.
    + by eapply race_build_panics.
  - destruct (commit _ _ w) as [[[c [e|]]| | |] w'] eqn:E; try done. injection H as <-. by eapply race_commit.
  - destruct (createMu_Unlock w) as [[[]| | |] w'] eqn:E; try done. injection H as <-. by eapply race_unlock.
  - done.
Qed.

Lemma race_schedule_sound order s s' : race_schedule order s = Some s' -> rtc race s s'.
Proof.
  revert s. induction order as [|i rest IH]; intros s H; simpl in H; [by injection H as <- |].
  destruct (race_next i s) as [s1|] eqn:E; [| done]. eapply rtc_l; [by apply (race_next_sound i) | by apply IH].
Qed.

(** Holds [createMu]. *)
Definition holding (g : goroutine) : bool :=
  match g_at g with Waiting | Finished _ => false | _ => true end.

(** Has put the circuit [p] into the map. *)
Definition created (g : goroutine) (p : nat) : Prop :=
  g_at g = Returning (Ret (Some p)) \/ g_at g = Finished (Ret (Some p)).

(** Was refused. *)
Definition refused (g : goroutine) : Prop :=
  g_at g = Returning (Ret None) \/ g_at g = Finished (Ret None).

(** How many steps a goroutine has left, at most. *)
Definition rank (c : creating) : nat :=
  match c with
  | Waiting => 5 | Checking => 4 | Building => 3 | Committing _ => 2 | Returning _ => 1 | Finished _ => 0
  end.

(** The name is still free: between the check and the commit. *)
Definition pledged (g : goroutine) : bool :=
  match g_at g with Building | Committing _ => true | _ => false end.

Context (m0 : gmap string nat).

(** The lock has one holder, and is held only for one. *)
Record lock_inv (s : sys) : Prop := {
  inv_mu : mu_free (world s);
  inv_one : forall i j g h, goroutines s !! i = Some g -> goroutines s !! j = Some h ->
    holding g = true -> holding h = true -> i = j;
  inv_held : forall i g, goroutines s !! i = Some g -> holding g = true ->
    createMu (manager (world s)) = true;
  inv_free : createMu (manager (world s)) = true ->
    exists i g, goroutines s !! i = Some g /\ holding g = true
}.

(** The map holds what it held at first and one circuit for each success. *)
Record map_inv (s : sys) : Prop := {
  inv_pledged : forall i g, goroutines s !! i = Some g -> pledged g = true ->
    the_map (world s) !! g_name g = None;
  inv_sound : forall n p, the_map (world s) !! n = Some p ->
    m0 !! n = Some p \/ exists i g, goroutines s !! i = Some g /\ g_name g = n /\ created g p;
  inv_kept : forall n p, m0 !! n = Some p -> the_map (world s) !! n = Some p;
  inv_created : forall i g p, goroutines s !! i = Some g -> created g p ->
    the_map (world s) !! g_name g = Some p /\ m0 !! g_name g = None;
  inv_unique : forall i j g h p q, goroutines s !! i = Some g -> goroutines s !! j = Some h ->
    created g p -> created h q -> g_name g = g_name h -> i = j;
  inv_refused : forall i g, goroutines s !! i = Some g -> refused g ->
    is_Some (the_map (world s) !! g_name g)
}.

(** ** The invariant is kept *)

Ltac race_cases :=
  repeat match goal with
  | H : <[_ := _]> _ !! _ = Some _ |- _ =>
      apply list_lookup_insert_Some in H as [(<- & <- & _)|[? H]]
  end.

(** Goroutine [i] moves from [g] to [c]. *)
Section Move.
  Context (gs : list goroutine) (i : nat) (g : goroutine) (c : creating) (w w' : MW).
  Hypothesis Hi : gs !! i = Some g.

(** What may become of the lock: taken from free or kept, or dropped by its holder. *)
Definition lock_moves : Prop :=
  mu_free w' /\
  if holding (at_ g c)
  then createMu (manager w') = true /\ (holding g = true \/ createMu (manager w) = false)
  else createMu (manager w') = false /\ holding g = true.

(** What may become of the map: nothing, or a pledge is redeemed. *)
Definition map_moves : Prop :=
  (forall p, created g p -> created (at_ g c) p) /\
  (the_map w' = the_map w /\ (forall p, created (at_ g c) p -> created g p) /\
     (pledged (at_ g c) = true -> the_map w !! g_name g = None) /\
     (refused (at_ g c) -> is_Some (the_map w !! g_name g)) \/
   exists p, the_map w' = <[g_name g := p]> (the_map w) /\ pledged g = true /\
     c = Returning (Ret (Some p))).

Lemma moved_lookup : <[i := at_ g c]> gs !! i = Some (at_ g c).
Proof. apply list_lookup_insert_eq. by apply lookup_lt_Some in Hi. Qed.

(** Only [g] can hold the lock when it takes, keeps or drops it. *)
Lemma others_wait j h :
  lock_inv (mkSys gs w) -> lock_moves -> j <> i -> gs !! j = Some h -> holding h = false.
Proof.
  intros [_ Hone Hheld _] [_ Hlock] Hj Hh. simpl in *. destruct (holding h) eqn:E; [| done].
  destruct (holding (at_ g c)).
  - destruct Hlock as [_ [Hg|Hf]]; [by destruct (Hj (Hone j i h g Hh Hi E Hg)) |].
    by rewrite (Hheld j h Hh E) in Hf.
  - destruct Hlock as [_ Hg]. by destruct (Hj (Hone j i h g Hh Hi E Hg)).
Qed.

Lemma move_lock_inv :
  lock_inv (mkSys gs w) -> lock_moves -> lock_inv (mkSys (<[i := at_ g c]> gs) w').
Proof.
  intros HI Hl. pose proof (fun j h => others_wait j h HI Hl) as Hothers. destruct Hl as [Hmu Hlock].
  destruct HI as [_ Hone Hheld Hfree]. split; simpl in *.
  - exact Hmu.
  - intros j k h h' Hh Hh' E E'. race_cases; [done | | | by eapply Hone].
    + by rewrite (Hothers j h) in E.
    + by rewrite (Hothers k h') in E'.
  - intros j h Hh E. race_cases; [rewrite E in Hlock; tauto |]. by rewrite (Hothers j h) in E.
  - intros E. destruct (holding (at_ g c)) eqn:Eh; [exists i, (at_ g c); by rewrite moved_lookup |].
    destruct Hlock as [Hf _]. by rewrite Hf in E.
Qed.

(** A success of before the move is one after it. *)
Lemma created_moved n p :
  map_moves ->
  (exists j h, gs !! j = Some h /\ g_name h = n /\ created h p) ->
  exists j h, <[i := at_ g c]> gs !! j = Some h /\ g_name h = n /\ created h p.
Proof.
  intros [Hkeep _] (j & h & Hh & Hnm & Hc). destruct (decide (j = i)) as [->|Hj].
  - rewrite Hi in Hh. injection Hh as <-. exists i, (at_ g c). rewrite moved_lookup. auto.
  - exists j, h. by rewrite list_lookup_insert_ne.
Qed.

Lemma map_grows n p :
  map_inv (mkSys gs w) -> map_moves -> the_map w !! n = Some p -> the_map w' !! n = Some p.
Proof.
  intros HI [_ [(-> & _)|(q & -> & Hp & _)]] Hn; [done |]. rewrite lookup_insert_ne; [done |].
  intros <-. pose proof (inv_pledged _ HI i g Hi Hp) as E. simpl in E. by rewrite E in Hn.
Qed.

(** Nobody else succeeded for the name of a goroutine that succeeds. *)
Lemma created_alone j h p q :
  map_inv (mkSys gs w) -> map_moves -> j <> i -> gs !! j = Some h ->
  created h p -> created (at_ g c) q -> g_name h <> g_name g.
Proof.
  intros HI [_ Hmap] Hj Hh Hc Hc' En. destruct Hmap as [(_ & Hb & _)|(z & _ & Hp & _)].
  - apply Hj. eapply (inv_unique _ HI); eauto.
  - pose proof (inv_pledged _ HI i g Hi Hp) as E. simpl in E.
    destruct (inv_created _ HI j h p Hh Hc) as [E' _]. simpl in E'. by rewrite <- En, E' in E.
Qed.

Lemma move_created j h p :
  map_inv (mkSys gs w) -> map_moves -> <[i := at_ g c]> gs !! j = Some h -> created h p ->
  the_map w' !! g_name h = Some p /\ m0 !! g_name h = None.
Proof.
  intros HI Hm Hh Hc. race_cases.
  - destruct Hm as [_ [(-> & Hb & _)|(q & -> & Hp & Ec)]].
    + apply (inv_created _ HI i g p Hi). by apply Hb.
    + rewrite Ec in Hc. destruct Hc as [Hc|Hc]; simpl in Hc; [injection Hc as <- | done].
      split; [apply lookup_insert_eq |]. simpl. destruct (m0 !! g_name g) eqn:E; [| done].
      apply (inv_kept _ HI) in E. pose proof (inv_pledged _ HI i g Hi Hp) as E'. simpl in E, E'.
      by rewrite E in E'.
  - destruct (inv_created _ HI j h p Hh Hc) as [E ?]. split; [by apply map_grows | done].
Qed.

Lemma move_map_inv :
  lock_inv (mkSys gs w) -> lock_moves ->
  map_inv (mkSys gs w) -> map_moves -> map_inv (mkSys (<[i := at_ g c]> gs) w').
Proof.
  intros HL Hl HI Hm. pose proof (fun j h => others_wait j h HL Hl) as Hothers. split; simpl.
  - intros j h Hh E. race_cases.
    + destruct Hm as [_ [(-> & _ & Hp & _)|(p & _ & _ & Ec)]]; [by apply Hp |].
      by rewrite Ec in E.
    + specialize (Hothers j h ltac:(done) Hh). unfold holding, pledged in *. by destruct (g_at h).
  - intros n p Hn. assert (Hold : the_map w !! n = Some p -> m0 !! n = Some p \/
      exists j h, <[i := at_ g c]> gs !! j = Some h /\ g_name h = n /\ created h p).
    { intros E. destruct (inv_sound _ HI n p E) as [?|H]; [by left | right; by apply created_moved]. }
    destruct Hm as [_ [(Em & _)|(q & Em & _ & Ec)]]; rewrite Em in Hn; [by apply Hold |].
    apply lookup_insert_Some in Hn as [[<- <-]|[_ Hn]]; [| by apply Hold].
    right. exists i, (at_ g c). rewrite moved_lookup. split; [done |]. split; [done |]. rewrite Ec. by left.
  - intros n p Hn. apply map_grows; [done | done |]. by apply (inv_kept _ HI).
  - intros j h p Hh Hc. by apply (move_created j h p).
  - intros j k h h' p q Hh Hh' Hc Hc' En. race_cases; [done | | | by eapply (inv_unique _ HI)].
    + by destruct (created_alone j h p q HI Hm ltac:(done) Hh Hc Hc').
    + by destruct (created_alone k h' q p HI Hm ltac:(done) Hh' Hc' Hc).
  - intros j h Hh Hr. race_cases.
    + destruct Hm as [_ [(-> & _ & _ & Hb)|(q & _ & _ & Ec)]]; [by apply Hb |].
      rewrite Ec in Hr. by destruct Hr.
    + destruct (inv_refused _ HI j h Hh Hr) as [p E]. exists p. by apply map_grows.
Qed.
End Move.

(** ** Steps *)

Context (good : Config OS CS U -> Prop).

Definition race_inv (s : sys) : Prop :=
  lock_inv s /\ map_inv s /\ Forall (fun g => Forall good (g_configs g)) (goroutines s).

Lemma race_inv_move gs i g c w w' :
  race_inv (mkSys gs w) -> gs !! i = Some g -> lock_moves g c w w' -> map_moves g c w w' ->
  race_inv (mkSys (<[i := at_ g c]> gs) w').
Proof.
  intros (HL & HM & Hg) Hi Hl Hm. split; [by eapply move_lock_inv |].
  split; [by eapply move_map_inv |]. apply Forall_insert; [done |].
  by apply (Forall_lookup_1 _ _ _ _ Hg Hi).
Qed.

Lemma the_map_manager (w w' : MW) : manager w' = manager w -> the_map w' = the_map w.
Proof. unfold the_map. by intros ->. Qed.

Lemma commit_run name p (w : MW) :
  mu_free w -> commit name p w
  = (Ret (Some p, None), set_circuitMap (Some (<[name := p]> (the_map w))) w).
Proof.
  intros [Hrd Hwr]. destruct w as [[ds cm rd wr cr] h u]. simpl in *. by subst.
Qed.

(** A step that leaves the manager alone and keeps the lock with [g]. *)
Lemma race_inv_inside gs i g c w w' :
  race_inv (mkSys gs w) -> gs !! i = Some g -> manager w' = manager w ->
  holding g = true -> holding (at_ g c) = true -> (forall p, created (at_ g c) p <-> created g p) ->
  (pledged (at_ g c) = true -> the_map w !! g_name g = None) ->
  (refused (at_ g c) -> is_Some (the_map w !! g_name g)) ->
  race_inv (mkSys (<[i := at_ g c]> gs) w').
Proof.
  intros HI Hi Hm Hh Hh' Hc Hp Hr. pose proof HI as ([Hmu _ Hheld _] & _ & _).
  apply (race_inv_move gs i g c w w' HI Hi).
  - split; [unfold mu_free; by rewrite Hm |]. rewrite Hh', Hm. split; [by eapply Hheld | by left].
  - split; [intros p; by apply Hc |]. left. rewrite (the_map_manager w w' Hm).
    split; [done |]. split; [intros p; by apply Hc | done].
Qed.

Lemma no_success g c : (forall p, g_at g <> Returning (Ret (Some p)) /\ g_at g <> Finished (Ret (Some p))) ->
  (forall p, c <> Returning (Ret (Some p)) /\ c <> Finished (Ret (Some p))) ->
  forall p, created (at_ g c) p <-> created g p.
Proof. intros H H' p. unfold created. simpl. destruct (H p), (H' p). tauto. Qed.

Lemma race_step s s' : respectful constructor good -> race_inv s -> race s s' -> race_inv s'.
Proof.
  intros Hr HI Hstep.
  destruct Hstep as [gs i g w w' Hi Hat E|gs i g o w w' Hi Hat E|gs i g p w w' Hi Hat E
    |gs i g e w w' Hi Hat E|gs i g p c w w' Hi Hat E|gs i g o w w' Hi Hat E|gs w w' Hm];
    pose proof HI as ([Hmu Hone Hheld Hfree] & HM & Hg); cbn [goroutines world] in *.
  - apply (race_inv_move gs i g _ w w' HI Hi); unfold createMu_Lock in E;
      destruct (createMu (manager w)) eqn:Ec; try done; injection E as <-.
    + split; [done |]. simpl. split; [done | by right].
    + assert (Hn : forall p, created (at_ g Checking) p <-> created g p)
        by (apply no_success; by rewrite ?Hat).
      split; [intros p; by apply Hn |]. left. split; [done |]. split; [intros p; by apply Hn |].
      split; [done | by intros [?|?]].
  - rewrite GetCircuit_run in E by apply Hmu. injection E as <- <-.
    destruct (the_map w !! g_name g) as [p|] eqn:En; apply (race_inv_inside gs i g _ w w HI Hi);
      try done; try (unfold holding; by rewrite Hat); try (apply no_success; by rewrite ?Hat).
    by intros [?|?].
  - assert (Hhold : holding g = true) by (unfold holding; by rewrite Hat).
    pose proof (build_keeps constructor good (g_name g) (g_configs g) (manager w) w Hr
      (Forall_lookup_1 _ _ _ _ Hg Hi) (Hheld i g Hi Hhold) (proj1 Hmu) (proj2 Hmu) eq_refl) as Hb.
    unfold wp in Hb. rewrite E in Hb.
    apply (race_inv_inside gs i g _ w w' HI Hi); try done; try (apply no_success; by rewrite ?Hat).
    + intros _. apply (inv_pledged _ HM i g Hi). unfold pledged. by rewrite Hat.
    + by intros [?|?].
  - assert (Hhold : holding g = true) by (unfold holding; by rewrite Hat).
    pose proof (build_keeps constructor good (g_name g) (g_configs g) (manager w) w Hr
      (Forall_lookup_1 _ _ _ _ Hg Hi) (Hheld i g Hi Hhold) (proj1 Hmu) (proj2 Hmu) eq_refl) as Hb.
    unfold wp in Hb. rewrite E in Hb.
    apply (race_inv_inside gs i g _ w w' HI Hi); try done; try (apply no_success; by rewrite ?Hat).
    by intros [?|?].
  - rewrite commit_run in E by done. injection E as <- <-.
    apply (race_inv_move gs i g _ w _ HI Hi).
    + split; [done |]. simpl. split; [| left; unfold holding; by rewrite Hat].
      apply (Hheld i g Hi). unfold holding. by rewrite Hat.
    + split; [intros q [H|H]; by rewrite Hat in H |]. right. exists p.
      split; [done |]. split; [unfold pledged; by rewrite Hat | done].
  - unfold createMu_Unlock in E. destruct (createMu (manager w)) eqn:Ec; [| done]. injection E as <-.
    assert (Hn : forall p, created (at_ g (Finished o)) p <-> created g p).
    { intros p. unfold created. rewrite Hat. simpl. split; intros [H|H]; try done;
        injection H as ->; auto. }
    apply (race_inv_move gs i g _ w _ HI Hi).
    + split; [done |]. simpl. split; [done | unfold holding; by rewrite Hat].
    + split; [intros p; by apply Hn |]. left. split; [done |]. split; [intros p; by apply Hn |].
      split; [done |]. intros H. apply (inv_refused _ HM i g Hi). unfold refused in *. rewrite Hat.
      simpl in H. destruct H as [H|H]; [done | injection H as ->; by left].
  - split; [| split; [| done]]; simpl in *.
    + split; simpl; [unfold mu_free; by rewrite Hm | done | |]; rewrite Hm; eauto.
    + destruct HM. simpl in *. split; simpl; rewrite ?(the_map_manager w w' Hm); eauto.
Qed.

(** Goroutines that have not started, on a manager nobody is using. *)
Definition race_start (s : sys) : Prop :=
  manager_free (world s) /\ the_map (world s) = m0 /\
  Forall (fun g => g_at g = Waiting /\ Forall good (g_configs g)) (goroutines s).

Lemma race_start_inv s : race_start s -> race_inv s.
Proof.
  intros ((Hcr & Hmu) & Hm & Hg). rewrite Forall_lookup in Hg.
  assert (Hw : forall i g, goroutines s !! i = Some g -> g_at g = Waiting)
    by (intros i g Hi; apply (Hg i g Hi)).
  assert (Hh : forall i g, goroutines s !! i = Some g -> holding g = false)
    by (intros i g Hi; unfold holding; by rewrite (Hw i g Hi)).
  assert (Hc : forall i g p, goroutines s !! i = Some g -> created g p -> False)
    by (intros i g p Hi [H|H]; by rewrite (Hw i g Hi) in H).
  split; [| split].
  - split; [done | | |].
    + intros i j g h Hi Hj E. by rewrite (Hh i g Hi) in E.
    + intros i g Hi E. by rewrite (Hh i g Hi) in E.
    + by rewrite Hcr.
  - split; rewrite <- ?Hm.
    + intros i g Hi E. unfold pledged in E. by rewrite (Hw i g Hi) in E.
    + by left.
    + done.
    + intros i g p Hi H. by destruct (Hc i g p Hi H).
    + intros i j g h p q Hi _ H. by destruct (Hc i g p Hi H).
    + intros i g Hi [H|H]; by rewrite (Hw i g Hi) in H.
  - apply Forall_lookup. intros i g Hi. apply (Hg i g Hi).
Qed.

Lemma race_reachable s s' :
  respectful constructor good -> race_start s -> rtc race s s' -> race_inv s'.
Proof.
  intros Hr Hs%race_start_inv. induction 1 as [|s1 s2 s3 H12 _ IH]; [done |]. by eapply IH, race_step.
Qed.

Lemma holder_steps s i g :
  respectful constructor good -> race_inv s -> goroutines s !! i = Some g -> holding g = true ->
  exists c w', race s (mkSys (<[i := at_ g c]> (goroutines s)) w') /\ (rank c < rank (g_at g))%nat.
Proof.
  intros Hr ([Hmu _ Hheld _] & HM & Hg) Hi Hh. destruct s as [gs w]. cbn [goroutines world] in *.
  assert (Hcr : createMu (manager w) = true) by (by apply (Hheld i g Hi)).
  unfold holding in Hh. destruct (g_at g) as [| | |p|o|o] eqn:Hat; try done.
  - eexists _, _. split; [eapply (race_check gs i g); [done | done |]; by apply GetCircuit_run, Hmu |].
    destruct (the_map w !! g_name g); simpl; lia.
  - pose proof (build_keeps constructor good (g_name g) (g_configs g) (manager w) w Hr
      (Forall_lookup_1 _ _ _ _ Hg Hi) Hcr (proj1 Hmu) (proj2 Hmu) eq_refl) as Hb.
    unfold wp in Hb. destruct (build constructor _ _ w) as [[p|e| |] w'] eqn:E; try done; eexists _, w'.
    + split; [by eapply (race_build gs i g p) | simpl; lia].
    + split; [by eapply (race_build_panics gs i g e) | simpl; lia].
  - eexists _, _. split; [eapply (race_commit gs i g p); [done | done |]; by apply commit_run | simpl; lia].
  - exists (Finished o), (set_createMu false w). split; [| simpl; lia].
    eapply (race_unlock gs i g o); [done | done |]. unfold createMu_Unlock. by rewrite Hcr.
Qed.
End Race.

Section RaceProperties.
Context {OS CS U : Type} `{!ClosedToOpen OS} `{!OpenToClosed CS} `{!UserCode OS CS U}.
Abbreviation MW := (MWorld OS CS U).
Context (constructor : nat -> string -> M MW (Config OS CS U)) (good : Config OS CS U -> Prop).

(** C23: however goroutines creating circuits interleave, with each other and with readers,
    and whichever constructors panic: each name is created at most once; a goroutine that got
    a circuit finds it, and not another, in the map, where the name was not before; every
    circuit of the map was there at first or is some goroutine's; one that was refused finds
    its name in the map; and the constructors run one create at a time. *)
Theorem racing_creates_are_serialized m0 (s s' : sys) :
  respectful constructor good -> race_start m0 good s -> rtc (race constructor) s s' ->
  let gs := goroutines s' in let cm := the_map (world s') in
  (forall i j g h p q, gs !! i = Some g -> gs !! j = Some h -> created g p -> created h q ->
     g_name g = g_name h -> i = j) /\
  (forall i g p, gs !! i = Some g -> created g p -> m0 !! g_name g = None /\ cm !! g_name g = Some p) /\
  (forall n p, cm !! n = Some p -> m0 !! n = Some p \/
     exists i g, gs !! i = Some g /\ g_name g = n /\ created g p) /\
  (forall n p, m0 !! n = Some p -> cm !! n = Some p) /\
  (forall i g, gs !! i = Some g -> refused g -> is_Some (cm !! g_name g)) /\
  (forall i j g h, gs !! i = Some g -> gs !! j = Some h ->
     g_at g = Building -> g_at h = Building -> i = j).
Proof.
  intros Hr Hs Hrun. destruct (race_reachable constructor m0 good s s' Hr Hs Hrun) as (HL & HM & _).
  simpl. split; [apply (inv_unique _ _ HM) |].
  split; [intros i g p Hi Hc; destruct (inv_created _ _ HM i g p Hi Hc); by split |].
  split; [apply (inv_sound _ _ HM) |]. split; [apply (inv_kept _ _ HM) |].
  split; [apply (inv_refused _ _ HM) |].
  intros i j g h Hi Hj Hg Hh. apply (inv_one _ HL i j g h Hi Hj); unfold holding; by rewrite ?Hg, ?Hh.
Qed.

(** Creates never block each other for good: in every reachable state where some goroutine
    has not finished, an unfinished goroutine can take a step that leaves it fewer steps to go;
    and once all have finished the manager is free, also after panics. *)
Theorem racing_creates_finish m0 (s s' : sys) :
  respectful constructor good -> race_start m0 good s -> rtc (race constructor) s s' ->
  (forall i g, goroutines s' !! i = Some g -> (0 < rank (g_at g))%nat ->
     exists j h c w', goroutines s' !! j = Some h /\ (rank c < rank (g_at h))%nat /\
       race constructor s' (mkSys (<[j := at_ h c]> (goroutines s')) w')) /\
  (Forall (fun g => rank (g_at g) = 0%nat) (goroutines s') -> manager_free (world s')).
Proof.
  intros Hr Hs Hrun. pose proof (race_reachable constructor m0 good s s' Hr Hs Hrun) as HI.
  pose proof HI as ([Hmu Hone Hheld Hfree] & _ & _). split.
  - intros i g Hi Hat. destruct (createMu (manager (world s'))) eqn:Ec.
    + destruct (Hfree eq_refl) as (j & h & Hj & Hh).
      destruct (holder_steps constructor m0 good s' j h Hr HI Hj Hh) as (c & w' & Hst & Hrk).
      by exists j, h, c, w'.
    + assert (Hw : g_at g = Waiting).
      { destruct (holding g) eqn:Eh; [by specialize (Hheld i g Hi Eh) |].
        unfold holding in Eh. destruct (g_at g); try done. simpl in Hat. lia. }
      exists i, g, Checking, (set_createMu true (world s')). rewrite Hw. split; [done |].
      split; [simpl; lia |]. destruct s' as [gs w]. apply (race_lock constructor gs i g); [done | done |].
      unfold createMu_Lock. cbn [world] in Ec. by rewrite Ec.
  - intros Hall. split; [| done]. destruct (createMu (manager (world s'))) eqn:Ec; [| done].
    destruct (Hfree eq_refl) as (j & h & Hj & Hh). pose proof (Forall_lookup_1 _ _ _ _ Hall Hj) as Ho.
    simpl in Ho. unfold holding in Hh. by destruct (g_at h).
Qed.
End RaceProperties.

(** * Witnesses *)

Module ManagerSample.
Abbreviation Env := CircuitTheorems.Sample.Env.
#[local] Existing Instance CircuitTheorems.Sample.code.

Abbreviation MS := (MWorld neverOpens neverCloses Env).

(** Constructor [k] looks for another circuit and sets the timeout to [k + 5]; constructor 1
    also sets the limit. *)
Definition zero_but (timeout maxc : Z) : Config neverOpens neverCloses Env :=
  mkConfig (mkGeneralConfig false false false None None None None (mkTimeKeeper None None))
    (mkExecutionConfig timeout maxc false None) (mkFallbackConfig false 0) (mkMetricsCollectors [] [] []).

Definition props (k : nat) (name : string) : Config neverOpens neverCloses Env :=
  zero_but (Z.of_nat k + 5) (Z.of_nat k * 20).

Definition constructor (k : nat) (name : string) : M MS (Config neverOpens neverCloses Env) :=
  do! GetCircuit theManager "other"; ret (props k name).

(** A constructor that panics for the name "bad". *)
Definition panicking (k : nat) (name : string) : M MS (Config neverOpens neverCloses Env) :=
  if bool_decide (name = "bad"%string) then throw (PanicValue 7) else constructor k name.

Definition start (cm : option (gmap string nat)) (held : bool) : MS :=
  mkMWorld (mkManager [Some 0%nat; Some 1%nat] cm 0 false held) [] (CircuitTheorems.Sample.mkEnv 0 0 []).

Lemma constructor_reading : reading constructor props.
Proof.
  intros k name w Hcr [Hrd Hwr]. exists (menv w). unfold constructor, bind.
  rewrite GetCircuit_run by done. by destruct w.
Qed.

(** Configurations without factories of their own. *)
Definition plain (cfg : Config neverOpens neverCloses Env) : Prop :=
  General cfg = General (zero_but 0 0).

Lemma new_returns name cfg u : plain cfg -> exists c u', NewCircuitFromConfig name cfg u = (Ret c, u').
Proof.
  destruct cfg as [g e f m]. unfold plain. cbn [General]. intros ->.
  set (r := NewCircuitFromConfig _ _ _).
  assert (H : match r with (Ret _, _) => True | _ => False end) by (vm_compute; exact I).
  destruct r as [[c| | |] u']; [by exists c, u' | done ..].
Qed.

Lemma panicking_respectful : respectful panicking plain.
Proof.
  split.
  - done.
  - intros a b Ha Hb. unfold plain, Merge in *. cbn [General]. by rewrite Ha, Hb.
  - intros k name w Hcr [Hrd Hwr]. unfold panicking. destruct (bool_decide _); [done |].
    unfold constructor, wp, bind. by rewrite GetCircuit_run.
  - intros name cfg u Hp. destruct (new_returns name cfg u Hp) as (c & u' & E). unfold wp. by rewrite E.
Qed.

Lemma CreateCircuit_once_witness :
  CreateCircuit constructor theManager "db" [zero_but 0 3] (start (Some {["db"%string := 0%nat]}) false)
    = (Ret (None, Some errCircuitExists), start (Some {["db"%string := 0%nat]}) false) /\
  exists c w', CreateCircuit constructor theManager "db" [zero_but 0 3] (start None false)
    = (Ret (Some 0%nat, None), w') /\ heap w' = [c] /\
    MaxConcurrentRequests (Execution (notThreadSafeConfig c)) = 3 /\
    Timeout (Execution (notThreadSafeConfig c)) = 6 /\
    Fallback_MaxConcurrentRequests (Fallback (notThreadSafeConfig c)) = 10.
Proof.
  assert (Hn : forall u, exists c u', NewCircuitFromConfig "db" (fold_left Merge
    ([zero_but 0 3] ++ default_chain props [0; 1]%nat "db") Config_zero) u = (Ret c, u'))
    by (intros u; by apply new_returns).
  split.
  - destruct (CreateCircuit_once constructor props [0; 1]%nat "db" [zero_but 0 3]
      (start (Some {["db"%string := 0%nat]}) false)) as [H _];
      [by repeat split | apply constructor_reading | done | exact Hn | by apply (H 0%nat)].
  - destruct (CreateCircuit_once constructor props [0; 1]%nat "db" [zero_but 0 3] (start None false))
      as [_ H]; [by repeat split | apply constructor_reading | done | exact Hn |].
    destruct H as (c & w' & E & Hh & _ & _ & _ & _ & Hc); [done |]. exists c, w'.
    split; [exact E | split; [exact Hh |]]. rewrite Hc. by vm_compute.
Defined.

Lemma CreateCircuit_total_witness :
  wp (CreateCircuit panicking theManager "bad" [])
    (fun r w' => manager_free w' /\
       ((exists p : nat, None = Some p /\ r = (None, Some errCircuitExists) /\ the_map w' = ∅) \/
        (exists p : nat, None = @None nat /\ r = (Some p, None) /\ the_map w' = {["bad"%string := p]})))
    (fun _ w' => manager_free w' /\ None = @None nat /\ the_map w' = ∅) (start None false).
Proof.
  apply (CreateCircuit_total panicking plain "bad" [] (start None false));
    [by repeat split | apply panicking_respectful | constructor].
Defined.

Lemma constructors_may_read_not_create_witness :
  createMu (manager (set_createMu true (start (Some {["db"%string := 0%nat]}) false))) = true /\
  exists l, AllCircuits theManager (set_createMu true (start (Some {["db"%string := 0%nat]}) false))
    = (Ret l, set_createMu true (start (Some {["db"%string := 0%nat]}) false)) /\
    forall p, p ∈ l <-> exists n, ({["db"%string := 0%nat]} : gmap string nat) !! n = Some p.
Proof.
  split; [done |].
  destruct (constructors_may_read_not_create constructor "db" []
    (set_createMu true (start (Some {["db"%string := 0%nat]}) false))) as (_ & H & _);
    [done | by repeat split | exact H].
Defined.

(** Two goroutines create "db", and a third one "bad", whose constructor panics. *)
Definition racers : sys :=
  mkSys (mkGoroutine "db" [] Waiting :: mkGoroutine "bad" [] Waiting :: mkGoroutine "db" [] Waiting :: nil)
    (start None false).

Definition raced : option sys :=
  race_schedule panicking [2; 2; 2; 2; 2; 0; 0; 0; 1; 1; 1; 1]%nat racers.

Lemma racers_start : race_start ∅ plain racers.
Proof. repeat split. repeat constructor. Qed.

Lemma racing_creates_are_serialized_witness :
  exists s', raced = Some s' /\
    g_at <$> goroutines s' = [Finished (Ret None); Finished (Panic (PanicValue 7)); Finished (Ret (Some 0%nat))] /\
    forall n p, the_map (world s') !! n = Some p -> (∅ : gmap string nat) !! n = Some p \/
      exists i g, goroutines s' !! i = Some g /\ g_name g = n /\ created g p.
Proof.
  destruct raced as [s'|] eqn:E; [| by vm_compute in E]. exists s'. split; [done |]. split.
  - clear -E. vm_compute in E. injection E as <-. reflexivity.
  - destruct (racing_creates_are_serialized panicking plain ∅ racers s' panicking_respectful racers_start
      (race_schedule_sound _ _ _ _ E)) as (_ & _ & H & _). exact H.
Defined.

Lemma racing_creates_finish_witness :
  exists s', raced = Some s' /\ manager_free (world s').
Proof.
  destruct raced as [s'|] eqn:E; [| by vm_compute in E]. exists s'. split; [done |].
  apply (racing_creates_finish panicking plain ∅ racers s' panicking_respectful racers_start
    (race_schedule_sound _ _ _ _ E)).
  clear -E. vm_compute in E. injection E as <-. by repeat constructor.
Defined.
End ManagerSample.
End Manager.
