(* ===== verification/CircuitExport.v ===== *)
(** [Circuit.Var] (circuit.go) and [Manager.Var] (manager.go): what a circuit and a manager publish
    about themselves, as variables of Expvar.v.

    What user code contributes is the class [Exporters]: of each metrics object and of the open/close
    logic whether it has a method [Var], and how the open/close logic is encoded.  A document is made
    in two stages, the value and then its encoding, and other goroutines may act meanwhile: the
    theorems are about stores of an invariant that these steps keep.  [Manager.Var] holds the read
    lock of the map while it asks the circuits, and not while the value is encoded. *)

From S2P Require Import Prelude GoMonad GoFloat GoJson Expvar Errors Metrics Closers Config Circuit CircuitTheorems Manager.

Open Scope Z_scope.

Module CircuitExport.
Import GoJson Expvar.

(** * The configuration as JSON *)

(** A field tagged [,omitempty]. *)
Definition omitempty (name : string) (b : bool) : list (string * json) := if b then [(name, JBool b)] else [].

(** The exported fields that are not tagged "-". *)
Definition Config_json {OS CS U} (c : Config OS CS U) : json :=
  JObject
    [("General", JObject (omitempty "Disabled" (Disabled (General c)) ++ omitempty "ForceOpen" (ForceOpen (General c)) ++
        omitempty "ForcedClosed" (ForcedClosed (General c))));
     ("Execution", JObject ([("Timeout", JInt (Timeout (Execution c)));
        ("MaxConcurrentRequests", JInt (MaxConcurrentRequests (Execution c)))] ++
        omitempty "IgnoreInterrupts" (IgnoreInterrupts (Execution c))));
     ("Fallback", JObject (omitempty "Disabled" (Fallback_Disabled (Fallback c)) ++
        [("MaxConcurrentRequests", JInt (Fallback_MaxConcurrentRequests (Fallback c)))]));
     ("Metrics", JObject [])].

(** * Circuits *)

Class Exporters (OS CS U : Type) := {
  run_Var : nat -> varable (World OS CS U);
  fallback_Var : nat -> varable (World OS CS U);
  opener_Var : varable (World OS CS U);
  closer_Var : varable (World OS CS U);
  opener_json : M (World OS CS U) (option json);
  closer_json : M (World OS CS U) (option json)
}.

Section Circuit.
Context {OS CS U : Type} `{!ClosedToOpen OS} `{!OpenToClosed CS} `{!UserCode OS CS U} `{!Exporters OS CS U}.
Context {texts : Texts}.
Abbreviation W := (World OS CS U).

Definition ref_Var (r : run_ref) : varable W :=
  match r with
  | RefOpenToClose => closer_Var
  | RefClosedToOpen => opener_Var
  | RefUser id => run_Var id
  end.

(** An interface value that may be nil. *)
Definition interface {A} (l : lens W (option A)) (MarshalJSON : M W (option json)) : M W (any W) :=
  let! p := get l in ret (match p with None => Nil | Some _ => Marshaler MarshalJSON end).

Definition Circuit_Var (c : circuit_ptr) : Var W :=
  Func (
    match c with
    | nilCircuit => ret Nil
    | theCircuit =>
        let! config := GetConfig in
        let! is_open := IsOpen c in
        let! name := Name c in
        let! run := get CmdMetricCollectorL in
        let! run_metrics := ExpvarToVal (Some (RunMetricsCollection_Var (map ref_Var run))) in
        let! concurrent_commands := ConcurrentCommands in
        let! concurrent_fallbacks := ConcurrentFallbacks in
        let! closer := interface OpenToCloseL closer_json in
        let! opener := interface ClosedToOpenLogicL opener_json in
        let! fallback := get FallbackMetricCollectorL in
        let! fallback_metrics := ExpvarToVal (Some (FallbackMetricsCollection_Var (map fallback_Var fallback))) in
        ret (Map [("config", Value (Config_json config)); ("is_open", Value (JBool is_open));
                  ("name", Value (JString name)); ("run_metrics", run_metrics);
                  ("concurrent_commands", Value (JInt concurrent_commands));
                  ("concurrent_fallbacks", Value (JInt concurrent_fallbacks));
                  ("closer", closer); ("opener", opener); ("fallback_metrics", fallback_metrics)])
    end).

(** A nil circuit is published as null. *)
Lemma nil_circuit_is_null (w : W) :
  Func_String (Value_of (Circuit_Var nilCircuit)) w = (Ret (Some JNull), w).
Proof. done. Qed.

(** ** What is published *)

Lemma publishes_bind {A} (I : W -> Prop) (Q : A -> Prop) R (m : M W A) (k : A -> M W (any W)) :
  (forall w, I w -> exists a w', m w = (Ret a, w') /\ I w' /\ Q a) ->
  (forall a, Q a -> publishes I R (k a)) -> publishes I R (bind m k).
Proof.
  intros Hm Hk w Hw. destruct (Hm w Hw) as (a & w' & E & Hw' & Ha). rewrite (bind_run _ _ _ _ _ E). by apply Hk.
Qed.

(** What there is to publish: the state of the circuit, and what its parts publish. *)
Record circuit_facts := mkFacts {
  cf_config : Config OS CS U;
  cf_open : bool;
  cf_name : string;
  cf_commands : Z;
  cf_fallbacks : Z;
  cf_run : json -> Prop;
  cf_fallback : json -> Prop;
  cf_opener : json -> Prop;
  cf_closer : json -> Prop
}.

Section Published.
Context (I : W -> Prop) (f : circuit_facts).

(** A store whose circuit is so configured, named and loaded, and whose parts can be asked. *)
Record publishable : Prop := {
  pub_config : forall w, I w -> view notThreadSafeConfigMuL w = false /\ notThreadSafeConfig (circ w) = cf_config f;
  pub_state : forall w, I w -> IsOpen theCircuit w = (Ret (cf_open f), w) /\ name (circ w) = cf_name f /\
    concurrentCommands (circ w) = cf_commands f /\ concurrentFallbacks (circ w) = cf_fallbacks f;
  pub_run : forall w r var, I w -> r ∈ CmdMetricCollector (circ w) -> ref_Var r = Some var ->
    publishes I (cf_run f) (let! x := var in ExpvarToVal x);
  pub_fallback : forall w id var, I w -> id ∈ FallbackMetricCollector (circ w) -> fallback_Var id = Some var ->
    publishes I (cf_fallback f) (let! x := var in ExpvarToVal x);
  pub_opener : yields I (cf_opener f) opener_json;
  pub_closer : yields I (cf_closer f) closer_json
}.

Definition array_of (R : json -> Prop) (j : json) : Prop := exists js, j = JArray js /\ Forall R js.
Definition null_or (R : json -> Prop) (j : json) : Prop := j = JNull \/ R j.

(** What each member of the document is. *)
Definition circuit_member (k : string) : json -> Prop :=
  if decide (k = "config") then eq (Config_json (cf_config f))
  else if decide (k = "is_open") then eq (JBool (cf_open f))
  else if decide (k = "name") then eq (JString (cf_name f))
  else if decide (k = "run_metrics") then array_of (cf_run f)
  else if decide (k = "concurrent_commands") then eq (JInt (cf_commands f))
  else if decide (k = "concurrent_fallbacks") then eq (JInt (cf_fallbacks f))
  else if decide (k = "closer") then null_or (cf_closer f)
  else if decide (k = "opener") then null_or (cf_opener f)
  else array_of (cf_fallback f).

Definition circuit_keys : list string :=
  ["config"; "is_open"; "name"; "run_metrics"; "concurrent_commands"; "concurrent_fallbacks"; "closer";
   "opener"; "fallback_metrics"].

(** The document of a circuit: these members and no others. *)
Definition circuit_document : json -> Prop := object_of circuit_keys circuit_member.

Hypothesis Hp : publishable.

Lemma interface_yields {A} (l : lens W (option A)) m R :
  yields I R m ->
  forall w, I w -> exists v w', interface l m w = (Ret v, w') /\ I w' /\ encodes I (null_or R) v.
Proof.
  intros Hm w Hw. unfold interface, bind, get, gets, ret. eexists _, w. split; [done |]. split; [done |].
  destruct (view l w); [| intros w' Hw'; exists JNull, w'; split; [done | split; [done | by left]]].
  intros w' Hw'. destruct (Hm w' Hw') as (j & w2 & E & Hw2 & Hj). exists j, w2. split; [done |]. split; [done | by right].
Qed.

Lemma collection_yields R (r : list (varable W)) w :
  (forall var, Some var ∈ r -> publishes I R (let! x := var in ExpvarToVal x)) -> I w ->
  exists v w', Value_of (RunMetricsCollection_Var r) w = (Ret v, w') /\ I w' /\ encodes I (array_of R) v.
Proof. intros H. by apply collection_publishes. Qed.

Lemma circuit_publishes : publishes I circuit_document (Value_of (Circuit_Var theCircuit)).
Proof.
  cbn [Value_of Circuit_Var].
  assert (Hget : forall A (l : W -> A) (Q : A -> Prop), (forall w, I w -> Q (l w)) ->
    forall w, I w -> exists a w', gets l w = (Ret a, w') /\ I w' /\ Q a) by (intros A l Q HQ w Hw; exists (l w), w; auto).
  apply (publishes_bind _ (eq (cf_config f))).
  { intros w Hw. destruct (pub_config Hp w Hw) as [Hm Hc]. exists (cf_config f), w. split; [| done].
    unfold GetConfig, bind, lock, defer, unlock, get, gets, ret. rewrite Hm. destruct w as [[] u]. cbn in *. by subst. }
  intros _ <-. apply (publishes_bind _ (eq (cf_open f))).
  { intros w Hw. exists (cf_open f), w. by split; [apply (pub_state Hp) |]. }
  intros _ <-. apply (publishes_bind _ (eq (cf_name f))).
  { apply Hget. intros w Hw. symmetry. apply (pub_state Hp w Hw). }
  intros _ <-. apply (publishes_bind _ (fun r => forall var, Some var ∈ map ref_Var r -> publishes I (cf_run f) (let! x := var in ExpvarToVal x))).
  { apply Hget. intros w Hw var Hin. apply list_elem_of_fmap in Hin as (r & E & Hin).
    by apply (pub_run Hp w r). }
  intros run Hrun. apply (publishes_bind _ (encodes I (array_of (cf_run f)))).
  { intros w Hw. by apply collection_yields. }
  intros rv Hrv. apply (publishes_bind _ (eq (cf_commands f))).
  { apply Hget. intros w Hw. symmetry. apply (pub_state Hp w Hw). }
  intros _ <-. apply (publishes_bind _ (eq (cf_fallbacks f))).
  { apply Hget. intros w Hw. symmetry. apply (pub_state Hp w Hw). }
  intros _ <-. apply (publishes_bind _ _ _ _ _ (interface_yields _ _ _ (pub_closer Hp))). intros cv Hcv.
  apply (publishes_bind _ _ _ _ _ (interface_yields _ _ _ (pub_opener Hp))). intros ov Hov.
  apply (publishes_bind _ (fun r => forall var, Some var ∈ map fallback_Var r -> publishes I (cf_fallback f) (let! x := var in ExpvarToVal x))).
  { apply Hget. intros w Hw var Hin. apply list_elem_of_fmap in Hin as (id & E & Hin).
    by apply (pub_fallback Hp w id). }
  intros fb Hfb. apply (publishes_bind _ (encodes I (array_of (cf_fallback f)))).
  { intros w Hw. by apply collection_yields. }
  intros fv Hfv. intros w Hw. eexists _, w. split; [done |]. split; [done |].
  apply (encodes_Map I circuit_member).
  - apply (bool_decide_eq_true_1 (NoDup _)). vm_compute. reflexivity.
  - intros k v Hin.
    repeat (apply elem_of_cons in Hin as [[= -> ->]|Hin]; [try done; apply encodes_Value |]). by apply elem_of_nil in Hin.
Qed.
End Published.
End Circuit.

(** * Managers *)

Section Manager.
Context {OS CS U : Type} `{!ClosedToOpen OS} `{!OpenToClosed CS} `{!UserCode OS CS U} `{!Exporters OS CS U}.
Context {texts : Texts}.
Abbreviation W := (World OS CS U).
Abbreviation MW := (Manager.MWorld OS CS U).

(** A method of the circuit at an address, in the world of the manager. *)
Definition at_circuit (c : nat) {A} (m : M W A) : M MW A := fun w =>
  match Manager.heap w !! c with
  | Some x =>
      let '(r, w') := m (mkWorld x (Manager.menv w)) in
      (r, Manager.mkMWorld (Manager.manager w) (<[c := circ w']> (Manager.heap w)) (env w'))
  | None => (Panic NilDereference, w)
  end.

(** [for k, v := range h.circuitMap { ... }] *)
Fixpoint export_circuits (circuits : list (string * nat)) (acc : list (string * any MW)) : M MW (list (string * any MW)) :=
  match circuits with
  | [] => ret acc
  | (k, v) :: rest =>
      let! ev := ExpvarToVal (Some (Var_in (@at_circuit v) (Circuit_Var theCircuit))) in
      export_circuits rest (if is_Nil ev then acc else acc ++ [(k, ev)])
  end.

Definition Manager_Var (h : Manager.manager_ptr) : Var MW :=
  Func (
    match h with
    | Manager.nilManager => ret (Map [])
    | Manager.theManager =>
        do! Manager.RLock;
        defer Manager.RUnlock
          (let! circuits := gets (fun w => map_to_list (Manager.the_map w)) in
           let! l := export_circuits circuits [] in ret (Map l))
    end).

(** A nil manager publishes the empty object. *)
Lemma nil_manager_is_empty (w : MW) :
  Func_String (Value_of (Manager_Var Manager.nilManager)) w = (Ret (Some (JObject [])), w).
Proof. done. Qed.

(** ** The circuits of the heap *)

Lemma at_circuit_ret c A (a : A) (w : MW) : is_Some (Manager.heap w !! c) -> at_circuit c (ret a) w = (Ret a, w).
Proof.
  intros [x Hx]. unfold at_circuit. rewrite Hx. cbn. rewrite list_insert_id by done. by destruct w.
Qed.

Lemma at_circuit_keeps c c' A (m : M W A) (w : MW) :
  is_Some (Manager.heap w !! c') -> is_Some (Manager.heap (at_circuit c m w).2 !! c').
Proof.
  intros Hc'. unfold at_circuit. destruct (Manager.heap w !! c) as [x|]; [| done].
  destruct (m _) as [r w']. cbn. destruct (decide (c = c')) as [<-|Hne].
  - apply lookup_lt_is_Some. rewrite length_insert. by apply lookup_lt_is_Some.
  - by rewrite list_lookup_insert_ne.
Qed.

Lemma at_circuit_inv c A (m : M W A) (w : MW) a w1 :
  at_circuit c m w = (Ret a, w1) ->
  exists x w', m (mkWorld x (Manager.menv w)) = (Ret a, w') /\ Manager.manager w1 = Manager.manager w.
Proof.
  unfold at_circuit. destruct (Manager.heap w !! c) as [x|]; [| done].
  destruct (m (mkWorld x (Manager.menv w))) as [r w'] eqn:Em. intros [= -> <-]. exists x, w'. by split.
Qed.

Lemma at_circuit_bind c A B (m : M W A) (k : A -> M W B) :
  at_circuit c (bind m k) =~ bind (at_circuit c m) (fun a => at_circuit c (k a)).
Proof.
  intros w. unfold at_circuit, bind. destruct (Manager.heap w !! c) as [x|] eqn:Hx; [| done].
  destruct (m _) as [[a| | |] w']; try done. cbn [Manager.heap Manager.menv].
  rewrite list_lookup_insert_eq by (by eapply lookup_lt_Some). destruct w' as [x' u']. cbn [circ env].
  destruct (k a _) as [r w2]. cbn. by rewrite list_insert_insert_eq.
Qed.

(** ** What is published *)

Section Published.
(** Of each circuit of the heap, and of the environment they share. *)
Context (C : nat -> Circuit OS CS U -> Prop) (E : U -> Prop) (Doc : nat -> json -> Prop).
Context (circuits : gmap string nat).

Definition circuit_inv (c : nat) (w : W) : Prop := C c (circ w) /\ E (env w).

Definition manager_inv (w : MW) : Prop :=
  Manager.the_map w = circuits /\
  (forall name c, circuits !! name = Some c -> exists x, Manager.heap w !! c = Some x /\ C c x) /\ E (Manager.menv w).

(** Every circuit can be asked, whatever the others did before. *)
Hypothesis Hdoc : forall name c, circuits !! name = Some c ->
  publishes (circuit_inv c) (Doc c) (Value_of (Circuit_Var theCircuit)).

Lemma manager_inv_at name c {A} (m : M W A) (w : MW) x :
  circuits !! name = Some c -> manager_inv w -> Manager.heap w !! c = Some x ->
  circuit_inv c (m (mkWorld x (Manager.menv w))).2 -> manager_inv (at_circuit c m w).2.
Proof.
  intros Hc (Hmap & Hh & HE) Hx. unfold at_circuit. rewrite Hx. destruct (m _) as [r w']. cbn. intros [HC HE'].
  split; [exact Hmap |]. split; [| done]. intros name' c' Hc'. destruct (Hh name' c' Hc') as (y & Hy & HCy). cbn [Manager.heap].
  destruct (decide (c = c')) as [<-|Hne].
  - exists (circ w'). split; [| done]. apply list_lookup_insert_eq. by eapply lookup_lt_Some.
  - exists y. by rewrite list_lookup_insert_ne.
Qed.

Lemma circuit_value_not_nil (w : W) v w' :
  Value_of (Circuit_Var theCircuit) w = (Ret v, w') -> is_Nil v = false.
Proof using.
  clear. cbn [Value_of Circuit_Var]. intros H.
  repeat (apply bind_inv in H as (? & ? & _ & H)). by injection H as <- _.
Qed.

(** One circuit, seen from the manager. *)
Lemma circuit_publishes_in name c :
  circuits !! name = Some c ->
  publishes manager_inv (Doc c) (Value_of (Var_in (@at_circuit c) (Circuit_Var theCircuit))).
Proof.
  intros Hc w Hw. destruct (proj1 (proj2 Hw) name c Hc) as (x & Hx & HC).
  destruct (Hdoc name c Hc (mkWorld x (Manager.menv w))) as (v & w' & Ev & Hw' & Hv); [split; [done | apply Hw] |].
  set (w1 := (at_circuit c (Value_of (Circuit_Var theCircuit)) w).2).
  assert (E1 : at_circuit c (Value_of (Circuit_Var theCircuit)) w = (Ret v, w1))
    by (unfold w1, at_circuit; by rewrite Hx, Ev).
  exists (any_in (@at_circuit c) v), w1. split; [unfold Circuit_Var, Value_of, Var_in; by rewrite (bind_run _ _ _ _ _ E1) |].
  split; [apply (manager_inv_at name c _ w x); try done; by rewrite Ev |].
  clear -Hc Hv Hdoc. intros w Hw. destruct (proj1 (proj2 Hw) name c Hc) as (x & Hx & HC).
  destruct (Hv (mkWorld x (Manager.menv w))) as (j & w' & Ej & Hw' & Hj); [split; [done | apply Hw] |].
  exists j, (at_circuit c (Marshal v) w).2. split; [| split; [| done]].
  - rewrite (Marshal_in (@at_circuit c) (fun w => is_Some (Manager.heap w !! c))); [| by apply at_circuit_ret |
      intros; apply at_circuit_bind | intros; by apply at_circuit_keeps | by exists x].
    unfold at_circuit. by rewrite Hx, Ej.
  - apply (manager_inv_at name c _ w x); try done. by rewrite Ej.
Qed.

Lemma circuit_value_in_not_nil c (w : MW) v w' :
  Value_of (Var_in (@at_circuit c) (Circuit_Var theCircuit)) w = (Ret v, w') -> is_Nil v = false.
Proof using.
  clear. intros (v0 & w1 & (x & w2 & E & _)%at_circuit_inv & [= <- _])%bind_inv.
  apply circuit_value_not_nil in E. by destruct v0.
Qed.

Lemma export_circuits_run l acc (w : MW) :
  (forall name c, (name, c) ∈ l -> circuits !! name = Some c) -> manager_inv w ->
  exists l' w', export_circuits l acc w = (Ret (acc ++ l'), w') /\ manager_inv w' /\
    Forall2 (fun kc kv => kv.1 = kc.1 /\ encodes manager_inv (Doc kc.2) kv.2) l l' /\
    Manager.manager w' = Manager.manager w.
Proof.
  revert acc w. induction l as [|[k c] l IH]; intros acc w Hl Hw; cbn [export_circuits].
  { exists [], w. by rewrite app_nil_r. }
  destruct (circuit_publishes_in k c (Hl k c ltac:(left)) w Hw) as (v & w1 & E1 & Hw1 & Hv).
  pose proof (circuit_value_in_not_nil c w v w1 E1) as Hnil. cbn [ExpvarToVal Var_in Circuit_Var].
  assert (Hman : Manager.manager w1 = Manager.manager w).
  { by apply bind_inv in E1 as (v0 & w2 & (x & w' & _ & Hm)%at_circuit_inv & [= _ <-]). }
  unfold Value_of, Var_in, Circuit_Var in E1. rewrite (bind_run _ _ _ _ _ E1), Hnil.
  destruct (IH (acc ++ [(k, v)]) w1) as (l' & w2 & E2 & Hw2 & Hl' & Hman2); [intros ? ? ?; apply Hl; by right | done |].
  exists ((k, v) :: l'), w2. rewrite <- app_assoc in E2. split; [exact E2 |]. split; [done |].
  split; [by constructor | by rewrite Hman2].
Qed.
End Published.

(** The general form, for any documents of the circuits. *)
Lemma manager_publishes C E Doc (w : MW) :
  let circuits := Manager.the_map w in
  Manager.mu_writer (Manager.manager w) = false ->
  (forall name c, circuits !! name = Some c ->
     publishes (circuit_inv C E c) (Doc c) (Value_of (Circuit_Var theCircuit))) ->
  manager_inv C E circuits w ->
  exists doc w', Func_String (Value_of (Manager_Var Manager.theManager)) w = (Ret (Some doc), w') /\
    manager_inv C E circuits w' /\ Manager.the_map w' = circuits /\
    forall name, match circuits !! name with
                 | Some c => exists j, member name doc = Some j /\ Doc c j
                 | None => member name doc = None
                 end.
Proof.
  intros circuits Hmu Hdoc Hw. set (I := manager_inv C E circuits).
  set (w1 := Manager.set_mu (S (Manager.mu_readers (Manager.manager w))) false w).
  assert (Hlock : Manager.RLock w = (Ret tt, w1)) by (unfold Manager.RLock; by rewrite Hmu).
  assert (Hset : forall n b w, I w -> I (Manager.set_mu n b w)) by (intros n b w0 H; exact H).
  destruct (export_circuits_run C E Doc circuits Hdoc (map_to_list circuits) [] w1) as (l & w2 & E2 & Hw2 & Hl & Hman);
    [by intros name c Hin%elem_of_map_to_list | by apply Hset |].
  set (w3 := Manager.set_mu (Manager.mu_readers (Manager.manager w)) false w2).
  assert (Hunlock : Manager.RUnlock w2 = (Ret tt, w3)) by (unfold Manager.RUnlock; by rewrite Hman).
  assert (Ev : Value_of (Manager_Var Manager.theManager) w = (Ret (Map l), w3)).
  { cbn [Value_of Manager_Var]. rewrite (bind_run _ _ _ _ _ Hlock). unfold defer, bind at 1, gets at 1.
    change (Manager.the_map w1) with circuits. rewrite (bind_run _ _ _ _ _ E2). cbn [app ret].
    by rewrite (bind_run _ _ _ _ _ Hunlock). }
  set (R := fun name j => exists c, circuits !! name = Some c /\ Doc c j).
  assert (Hkeys : l.*1 = (map_to_list circuits).*1) by (clear -Hl; induction Hl as [|? ? ? ? [H _] _ IH]; cbn; [done | by rewrite H, IH]).
  destruct (encodes_Map I R l) with w3 as (doc & w' & Ed & Hw' & Hdoc').
  - rewrite Hkeys. apply NoDup_fst_map_to_list.
  - intros k v Hin. apply list_elem_of_lookup in Hin as [i Hi].
    destruct (Forall2_lookup_r _ _ _ _ _ Hl Hi) as ([k' c] & Hk & [Ek Hv]). cbn in Ek, Hv. subst k'.
    apply list_elem_of_lookup_2, elem_of_map_to_list in Hk. eapply encodes_impl; [| exact Hv]. intros j Hj. by exists c.
  - by apply Hset.
  - exists doc, w'. unfold Func_String. rewrite (bind_run _ _ _ _ _ Ev). split; [done |]. split; [done |]. split; [apply Hw' |].
    intros name. destruct (Hdoc' name) as [Hin Hout]. rewrite Hkeys in Hin, Hout.
    destruct (circuits !! name) as [c|] eqn:Ec.
    + destruct Hin as (j & Ej & c' & Ec' & Hj); [| exists j; split; [done | by simplify_eq]].
      apply list_elem_of_fmap. exists (name, c). split; [done | by apply elem_of_map_to_list].
    + apply Hout. intros Hin'. apply list_elem_of_fmap in Hin' as ([k c] & -> & Hk%elem_of_map_to_list). cbn in Ec. congruence.
Qed.

(** a manager publishes exactly its circuits, and a circuit its own state.  Let every circuit of
    the map have a free configuration lock and parts that can be asked for their documents, whatever
    asking the other circuits did before.  Then the variable of the manager is one JSON object: under
    each circuit's name, and under no other, the document with that circuit's configuration, whether it
    is open as [IsOpen] answers, its name, its numbers of commands and fallbacks in flight, and the
    documents of its metrics and of its open/close logic.  The map is as it was. *)
Theorem manager_publishes_its_circuits C E (facts : nat -> circuit_facts) (w : MW) :
  let circuits := Manager.the_map w in
  Manager.mu_writer (Manager.manager w) = false ->
  (forall name c, circuits !! name = Some c -> publishable (circuit_inv C E c) (facts c)) ->
  manager_inv C E circuits w ->
  exists doc w', Func_String (Value_of (Manager_Var Manager.theManager)) w = (Ret (Some doc), w') /\
    manager_inv C E circuits w' /\
    forall name, match circuits !! name with
                 | Some c => exists j, member name doc = Some j /\ circuit_document (facts c) j /\
                     at_path [name; "is_open"] doc = Some (JBool (cf_open (facts c))) /\
                     at_path [name; "name"] doc = Some (JString (cf_name (facts c)))
                 | None => member name doc = None
                 end.
Proof.
  intros circuits Hmu Hp Hw.
  destruct (manager_publishes C E (fun c => circuit_document (facts c)) w Hmu) as (doc & w' & Ed & Hw' & _ & Hdoc);
    [intros name c Hc; apply circuit_publishes; by eapply Hp | done |].
  exists doc, w'. split; [exact Ed |]. split; [exact Hw' |]. intros name. specialize (Hdoc name). fold circuits in Hdoc.
  destruct (circuits !! name) as [c|]; [| exact Hdoc]. destruct Hdoc as (j & Ej & Hj). exists j. split; [done |].
  split; [done |]. cbn [at_path]. rewrite Ej. cbn [mbind option_bind].
  destruct (proj1 (Hj "is_open")) as (j1 & -> & <-); [repeat constructor |].
  destruct (proj1 (Hj "name")) as (j2 & -> & <-); [repeat constructor |]. done.
Qed.
End Manager.

(** * Witness *)

Module CircuitExportSample.
Abbreviation Env := CircuitTheorems.Sample.Env.
#[local] Existing Instance CircuitTheorems.Sample.code.

#[local] Instance texts : Texts := {|
  format_time _ := None;
  parse_time _ := None;
  json_of_float _ := None;
  json_of_text _ := None
|}.

(** The user's metrics object publishes how often it was called, and counts being asked as a call; the
    open/close logic is encoded as an empty struct. *)
#[local] Instance exporters : Exporters neverOpens neverCloses Env := {|
  run_Var _ := Some (do! CircuitTheorems.Sample.count;
    ret (Some (Func (gets (fun w => Value (JInt (CircuitTheorems.Sample.calls (env w))))))));
  fallback_Var _ := None;
  opener_Var := None;
  closer_Var := None;
  opener_json := ret (Some (JObject []));
  closer_json := ret (Some (JObject []))
|}.

(** Circuit 0 is closed, circuit 1 is open. *)
Definition circuit_at (c : nat) : Circuit neverOpens neverCloses Env :=
  circ (CircuitTheorems.Sample.world false false (c =? 1)%nat 3 10).

Definition facts (c : nat) : circuit_facts (OS := neverOpens) (CS := neverCloses) (U := Env) :=
  mkFacts Config_zero (c =? 1)%nat "sample" 3 0 (fun j => exists z, j = JInt z) (fun _ => True)
    (eq (JObject [])) (eq (JObject [])).

Definition world : Manager.MWorld neverOpens neverCloses Env :=
  Manager.mkMWorld (Manager.mkManager [] (Some {["a" := 0%nat; "b" := 1%nat]}) 0 false false)
    [circuit_at 0; circuit_at 1] (CircuitTheorems.Sample.mkEnv 0 0 []).

Lemma sample_publishable c : publishable (circuit_inv (fun c x => x = circuit_at c) (fun _ => True) c) (facts c).
Proof.
  split.
  - intros [x u] [Hx _]. cbn in Hx. subst x. done.
  - intros [x u] [Hx _]. cbn in Hx. subst x. done.
  - intros [x u] r var [Hx _] Hr Hvar. cbn in Hx. subst x. destruct r as [| |id]; try done. injection Hvar as <-.
    intros [x u'] [Hx' _]. cbn in Hx'. subst x. eexists _, _. split; [reflexivity |]. split; [done |].
    eapply encodes_impl, encodes_Value. intros j <-. by eexists.
  - done.
  - intros w Hw. by eexists _, w.
  - intros w Hw. by eexists _, w.
Qed.

Lemma manager_publishes_its_circuits_witness :
  exists doc w', Func_String (Value_of (Manager_Var Manager.theManager)) world = (Ret (Some doc), w') /\
    at_path ["a"; "is_open"] doc = Some (JBool false) /\ at_path ["b"; "is_open"] doc = Some (JBool true) /\
    member "c" doc = None.
Proof.
  destruct (manager_publishes_its_circuits (fun c x => x = circuit_at c) (fun _ => True) facts world)
    as (doc & w' & E & _ & H).
  - reflexivity.
  - intros name c _. apply sample_publishable.
  - split; [reflexivity |]. split; [| exact I]. intros name c Hc. revert Hc.
    change (Manager.the_map world) with ({["a" := 0%nat; "b" := 1%nat]} : gmap string nat).
    intros [[_ <-]|[_ [_ <-]%lookup_singleton_Some]]%lookup_insert_Some; by eexists.
  - exists doc, w'. split; [exact E |]. pose proof (H "a") as Ha. pose proof (H "b") as Hb. pose proof (H "c") as Hc.
    vm_compute in Hc. revert Ha Hb. change (Manager.the_map world !! "a") with (Some 0%nat).
    change (Manager.the_map world !! "b") with (Some 1%nat). intros (ja & _ & _ & Ha & _) (jb & _ & _ & Hb & _).
    split; [exact Ha |]. split; [exact Hb | exact Hc].
Defined.
End CircuitExportSample.
End CircuitExport.
