(* ===== verification/GoWrapper.v ===== *)
(** gowrapper.go: running a function in its own goroutine, so that the caller may leave when
    its context ends.

    One call of the function [goroutineWrapper.run] returns is a system of up to three
    goroutines: the caller, the worker that runs the user's function, and the one that waits
    for a result the caller left behind.  They share two channels of capacity 1.  [next]
    executes one step of one of them, [step] is the relation it induces; the user's function
    may return, panic or exit its goroutine, and the context may end, at any time.  Channel
    operations have Go's semantics, failures included: a send blocks on a full channel and
    panics on a closed one, and so does a second [close].  [goroutineWrapper.fallback] is
    [run] of a closure, so it has the same steps. *)

From S2P Require Import Prelude GoMonad Errors.

Module GoWrapper.

(** * Channels *)

Section Channel.
Context {A : Type}.

Record channel := mkChannel { buffer : list A; closed : bool }.

(** [make(chan A, 1)] *)
Definition make_chan : channel := mkChannel [] false.

Inductive chan_result :=
| Blocked
| SendOnClosed
| Did (c : channel).

Definition send (x : A) (c : channel) : chan_result :=
  if closed c then SendOnClosed
  else match buffer c with
       | [] => Did (mkChannel [x] false)
       | _ => Blocked
       end.

(** A receive that yields a sent value; receiving from a closed empty channel is [None] and
    does not occur here. *)
Definition receive (c : channel) : option (A * channel) :=
  match buffer c with
  | [] => None
  | x :: rest => Some (x, mkChannel rest (closed c))
  end.

Definition close (c : channel) : chan_result :=
  if closed c then SendOnClosed else Did (mkChannel (buffer c) true).
End Channel.

Arguments channel A : clear implicits.
Arguments chan_result A : clear implicits.

(** * The goroutines *)

(** What the user's function did: [runFunc(ctx)] returned, or [recover()] gave a value. *)
Inductive result :=
| Returned (err : option error)
| Panicked (v : nat).

Record goroutineWrapper := mkGoroutineWrapper {
  skipCatchPanics : bool;
  lostErrors : bool          (* is it set *)
}.

Inductive worker_at := WorkerRuns | WorkerDone.
Inductive caller_at := CallerSelects | CallerHas (r : result) | CallerLeft.
Inductive waiter_at := NoWaiter | WaiterSelects | WaiterTells | WaiterDone.

Record call := mkCall {
  worker : worker_at;
  caller : caller_at;
  waiter : waiter_at;
  runFuncErr : channel (option error);
  panicResult : option (channel nat);
  ctx_done : bool;
  told : list result;        (* the calls of g.lostErrors *)
  crashed : bool;            (* a panic nobody recovers, or a misused channel *)
  outcome_ : option result   (* what the function did, when it did *)
}.

(** The start of the function that [g.run] returns: channels made, worker started. *)
Definition start (g : goroutineWrapper) : call :=
  mkCall WorkerRuns CallerSelects NoWaiter make_chan
    (if skipCatchPanics g then None else Some make_chan) false [] false None.

Definition set_worker (p : worker_at) (c : call) : call :=
  mkCall p (caller c) (waiter c) (runFuncErr c) (panicResult c) (ctx_done c) (told c) (crashed c) (outcome_ c).
Definition set_caller (p : caller_at) (c : call) : call :=
  mkCall (worker c) p (waiter c) (runFuncErr c) (panicResult c) (ctx_done c) (told c) (crashed c) (outcome_ c).
Definition set_waiter (p : waiter_at) (c : call) : call :=
  mkCall (worker c) (caller c) p (runFuncErr c) (panicResult c) (ctx_done c) (told c) (crashed c) (outcome_ c).
Definition set_runFuncErr (ch : channel (option error)) (c : call) : call :=
  mkCall (worker c) (caller c) (waiter c) ch (panicResult c) (ctx_done c) (told c) (crashed c) (outcome_ c).
Definition set_panicResult (ch : option (channel nat)) (c : call) : call :=
  mkCall (worker c) (caller c) (waiter c) (runFuncErr c) ch (ctx_done c) (told c) (crashed c) (outcome_ c).
Definition end_ctx (c : call) : call :=
  mkCall (worker c) (caller c) (waiter c) (runFuncErr c) (panicResult c) true (told c) (crashed c) (outcome_ c).
Definition tell (r : result) (c : call) : call :=
  mkCall (worker c) (caller c) (waiter c) (runFuncErr c) (panicResult c) (ctx_done c) (told c ++ [r]) (crashed c) (outcome_ c).
Definition crash (c : call) : call :=
  mkCall (worker c) (caller c) (waiter c) (runFuncErr c) (panicResult c) (ctx_done c) (told c) true (outcome_ c).
Definition set_outcome (r : result) (c : call) : call :=
  mkCall (worker c) (caller c) (waiter c) (runFuncErr c) (panicResult c) (ctx_done c) (told c) (crashed c) (Some r).

(** * Steps *)

Inductive action :=
| ContextEnds
| FuncReturns (err : option error)  (* runFuncErr <- runFunc(ctx) *)
| FuncPanics (v : nat)              (* and the deferred recover *)
| FuncExits                         (* runtime.Goexit: recover() is nil *)
| CallerTakesDone
| CallerTakesErr
| CallerTakesPanic
| WaiterTakesErr                    (* and g.lostErrors is called *)
| WaiterTakesPanic
| LostErrorsPanics                  (* g.lostErrors panics: nobody recovers *)
| WaiterCloses.

(** The effect of a channel operation: a misuse is a panic that takes the program down. *)
Definition on_chan {A} (r : chan_result A) (k : channel A -> call) (c : call) : option call :=
  match r with
  | Blocked => None
  | SendOnClosed => Some (crash c)
  | Did ch => Some (k ch)
  end.

(** The worker's function ended with [r]. *)
Definition worker_ends (r : result) (c : call) : option call :=
  match r with
  | Returned err =>
      on_chan (send err (runFuncErr c))
        (fun ch => set_outcome r (set_worker WorkerDone (set_runFuncErr ch c))) c
  | Panicked v =>
      match panicResult c with
      | Some pch =>
          on_chan (send v pch)
            (fun ch => set_outcome r (set_worker WorkerDone (set_panicResult (Some ch) c))) c
      | None => Some (crash c)
      end
  end.

(** The two receiving cases of both [select]s. *)
Definition take_err (k : result -> call -> call) (c : call) : option call :=
  '(err, ch) ← receive (runFuncErr c); Some (k (Returned err) (set_runFuncErr ch c)).

Definition take_panic (k : result -> call -> call) (c : call) : option call :=
  pch ← panicResult c;
  '(v, ch) ← receive pch; Some (k (Panicked v) (set_panicResult (Some ch) c)).

(** The end of [waitForErrors]. *)
Definition close_channels (c : call) : option call :=
  on_chan (close (runFuncErr c)) (fun ch =>
    let c1 := set_waiter WaiterDone (set_runFuncErr ch c) in
    match panicResult c with
    | None => c1
    | Some pch =>
        match close pch with
        | Did pch' => set_panicResult (Some pch') c1
        | _ => crash c1
        end
    end) c.

(** [case <-ctx.Done()] of the caller's [select]. *)
Definition leave (g : goroutineWrapper) (c : call) : call :=
  set_caller CallerLeft (if lostErrors g then set_waiter WaiterSelects c else c).

Definition next (g : goroutineWrapper) (a : action) (c : call) : option call :=
  if crashed c then None
  else match a, worker c, caller c, waiter c with
  | ContextEnds, _, _, _ => Some (end_ctx c)
  | FuncReturns err, WorkerRuns, _, _ => worker_ends (Returned err) c
  | FuncPanics v, WorkerRuns, _, _ => worker_ends (Panicked v) c
  | FuncExits, WorkerRuns, _, _ => Some (set_worker WorkerDone c)
  | CallerTakesDone, _, CallerSelects, _ => if ctx_done c then Some (leave g c) else None
  | CallerTakesErr, _, CallerSelects, _ => take_err (fun r => set_caller (CallerHas r)) c
  | CallerTakesPanic, _, CallerSelects, _ => take_panic (fun r => set_caller (CallerHas r)) c
  | WaiterTakesErr, _, _, WaiterSelects => take_err (fun r c => tell r (set_waiter WaiterTells c)) c
  | WaiterTakesPanic, _, _, WaiterSelects => take_panic (fun r c => tell r (set_waiter WaiterTells c)) c
  | LostErrorsPanics, _, _, WaiterTells => Some (crash c)
  | WaiterCloses, _, _, WaiterTells => close_channels c
  | _, _, _, _ => None
  end.

Definition step (g : goroutineWrapper) (c c' : call) : Prop := exists a, next g a c = Some c'.

(** The same with the faults of user code left out: [g.lostErrors] returns, and panics of the
    function are caught or do not happen. *)
Definition proper (g : goroutineWrapper) (a : action) : bool :=
  match a with
  | LostErrorsPanics => false
  | FuncPanics _ => negb (skipCatchPanics g)
  | _ => true
  end.

Fixpoint schedule (g : goroutineWrapper) (l : list action) (c : call) : option call :=
  match l with
  | [] => Some c
  | a :: l' => c' ← next g a c; schedule g l' c'
  end.

(** * The states of a call *)

Section Calls.
Context (g : goroutineWrapper).

Definition proper_step (c c' : call) : Prop :=
  exists a, proper g a = true /\ next g a c = Some c'.

Definition reachable (c : call) : Prop := rtc proper_step (start g) c.

(** The caller selects, or left after its context ended. *)
Inductive caller_side : caller_at -> waiter_at -> bool -> Prop :=
| side_selects d : caller_side CallerSelects NoWaiter d
| side_left : caller_side CallerLeft (if lostErrors g then WaiterSelects else NoWaiter) true.

Definition panics (ch : channel nat) : option (channel nat) :=
  if skipCatchPanics g then None else Some ch.

(** The channels while [r] is in them. *)
Definition err_holding (r : result) : channel (option error) :=
  match r with Returned err => mkChannel [err] false | Panicked _ => make_chan end.
Definition panic_holding (r : result) : option (channel nat) :=
  panics match r with Returned _ => make_chan | Panicked v => mkChannel [v] false end.

(** A result the wrapper can have: a panic is one only if it is caught. *)
Definition catchable (r : result) : Prop :=
  match r with Returned _ => True | Panicked _ => skipCatchPanics g = false end.

Inductive shape : call -> Prop :=
| shape_running w cal wai d :
    caller_side cal wai d -> shape (mkCall w cal wai make_chan (panics make_chan) d [] false None)
| shape_in_transit r cal wai d :
    caller_side cal wai d -> catchable r ->
    shape (mkCall WorkerDone cal wai (err_holding r) (panic_holding r) d [] false (Some r))
| shape_received r d :
    shape (mkCall WorkerDone (CallerHas r) NoWaiter make_chan (panics make_chan) d [] false (Some r))
| shape_telling r :
    lostErrors g = true ->
    shape (mkCall WorkerDone CallerLeft WaiterTells make_chan (panics make_chan) true [r] false (Some r))
| shape_over r :
    lostErrors g = true ->
    shape (mkCall WorkerDone CallerLeft WaiterDone (mkChannel [] true) (panics (mkChannel [] true)) true [r]
      false (Some r)).

End Calls.

Ltac find_shape :=
  lazymatch goal with |- shape ?g _ =>
    first
    [ apply (shape_running g WorkerRuns); constructor
    | apply (shape_running g WorkerDone); constructor
    | refine (shape_in_transit g (Returned _) _ _ _ _ _); constructor
    | refine (shape_in_transit g (Panicked _) _ _ _ _ _); constructor
    | refine (shape_received g (Returned _) _)
    | refine (shape_received g (Panicked _) _)
    | refine (shape_telling g (Returned _) _); done
    | refine (shape_telling g (Panicked _) _); done
    | refine (shape_over g (Returned _) _); done
    | refine (shape_over g (Panicked _) _); done ]
  end.

Lemma shape_step g c c' : shape g c -> proper_step g c c' -> shape g c'.
Proof.
  intros Hs (a & Hp & H). destruct g as [sk le].
  destruct Hs as [w cal wai d Hside|r cal wai d Hside Hc|r d|r Hl|r Hl];
    [destruct Hside as [d|], w | destruct Hside as [d|], r | destruct r ..];
    destruct sk, le; try discriminate Hl; try discriminate Hc;
    destruct a; cbn in Hp, H; try discriminate Hp; try discriminate H;
    try (destruct d; try discriminate H); injection H as <-;
    cbv [end_ctx set_worker set_caller set_waiter set_runFuncErr set_panicResult set_outcome tell leave
      lostErrors buffer]; cbn.
  all: find_shape.
Qed.

Lemma reachable_shape g c : reachable g c -> shape g c.
Proof.
  unfold reachable. intros H. assert (Hs : shape g (start g)).
  { apply (shape_running g WorkerRuns). constructor. }
  induction H as [|c1 c2 c3 H12 _ IH]; [done |]. by eapply IH, shape_step.
Qed.

Lemma schedule_reachable g l c c' :
  forallb (proper g) l = true -> schedule g l c = Some c' -> rtc (proper_step g) c c'.
Proof.
  revert c. induction l as [|a l IH]; intros c Hl H; simpl in Hl, H; [by injection H as <- |].
  bdestr. destruct (next g a c) as [c1|] eqn:E; [| done].
  eapply rtc_l; [by exists a | by apply IH].
Qed.

(** * Properties *)

(** Who has been given a result, and what is still in the channels. *)
Definition deliveries (c : call) : list result :=
  match caller c with CallerHas r => [r] | _ => [] end ++ told c.

Definition in_channels (c : call) : list result :=
  (Returned <$> buffer (runFuncErr c)) ++
  match panicResult c with Some ch => Panicked <$> buffer ch | None => [] end.

(** What the function returned or panicked with is never lost, duplicated or made up: in
    every interleaving it is at every moment in exactly one place, a channel, the caller, or
    the report to [lostErrors], and the latter two never both.  The caller only leaves without
    it after its context ended, and no channel is misused. *)
Theorem result_is_in_one_place g c :
  reachable g c ->
  crashed c = false /\
  deliveries c ++ in_channels c = match outcome_ c with Some r => [r] | None => [] end /\
  (caller c = CallerLeft -> ctx_done c = true) /\
  (told c <> [] -> caller c = CallerLeft /\ lostErrors g = true).
Proof.
  intros H%reachable_shape. unfold deliveries, in_channels.
  destruct H as [w cal wai d [d'|]|r cal wai d [d'|] Hc|r d|r Hl|r Hl]; simpl;
    try destruct r; unfold panic_holding, panics; simpl in *; destruct (skipCatchPanics g);
    repeat split; intros; simpl; congruence.
Qed.

(** Nobody blocks for good on the channels.  The function's goroutine can always hand over
    its result and end, with nobody listening; a caller can take the result once there is one,
    and leave once its context ended; a result left behind is reported, and then the channels
    are closed without fault.  Uncaught, a panic of the function takes the program down. *)
Theorem nobody_is_blocked g c :
  reachable g c ->
  (worker c = WorkerRuns -> forall r, catchable g r -> exists c',
     worker_ends r c = Some c' /\ crashed c' = false /\ outcome_ c' = Some r) /\
  (worker c = WorkerRuns -> skipCatchPanics g = true -> forall v, exists c',
     next g (FuncPanics v) c = Some c' /\ crashed c' = true) /\
  (caller c = CallerSelects -> ctx_done c = true -> exists c',
     next g CallerTakesDone c = Some c' /\ caller c' = CallerLeft) /\
  (forall r, caller c = CallerSelects -> outcome_ c = Some r -> exists a c',
     next g a c = Some c' /\ caller c' = CallerHas r) /\
  (forall r, waiter c = WaiterSelects -> outcome_ c = Some r -> exists a c',
     next g a c = Some c' /\ told c' = [r]) /\
  (waiter c = WaiterTells -> exists c', next g WaiterCloses c = Some c' /\ crashed c' = false).
Proof.
  intros H%reachable_shape.
  assert (Hside : forall cal wai d, caller_side g cal wai d -> waiter c = wai -> waiter c <> WaiterTells).
  { intros cal wai d []; [by intros -> | destruct (lostErrors g); by intros ->]. }
  destruct H as [w cal wai d Hs|r cal wai d Hs Hc|r d|r Hl|r Hl]; cbn [worker caller waiter ctx_done outcome_] in *.
  - split; [intros -> [err|v]; simpl; [intros _; by eexists | intros Hc] |].
    { unfold panics. rewrite Hc. simpl. by eexists. }
    split; [intros -> Hk v; unfold next, worker_ends, panics; simpl; rewrite Hk; by eexists |].
    split; [intros -> ->; simpl; by eexists |]. split; [done |]. split; [done |].
    intros Hw. by destruct (Hside _ _ _ Hs eq_refl).
  - split; [done |]. split; [done |]. split; [intros -> ->; simpl; by eexists |].
    split; [| split; [| intros Hw; by destruct (Hside _ _ _ Hs eq_refl)]].
    + intros r' -> [= <-]. destruct r as [err|v].
      * exists CallerTakesErr. simpl. by eexists.
      * exists CallerTakesPanic. simpl. unfold take_panic, panic_holding, panics. simpl in *. rewrite Hc. by eexists.
    + intros r' -> [= <-]. destruct r as [err|v].
      * exists WaiterTakesErr. simpl. by eexists.
      * exists WaiterTakesPanic. simpl. unfold take_panic, panic_holding, panics. simpl in *. rewrite Hc. by eexists.
  - done.
  - repeat (split; [done |]). intros _. unfold next. simpl. unfold close_channels, panics. simpl.
    destruct (skipCatchPanics g); simpl; by eexists.
  - done.
Qed.

(** C24: how a call ends.  When no goroutine of it can move, short of its context ending, then
    either the caller has exactly what the function did; or it left and [lostErrors] was told
    exactly that, once; or it left and nobody is to be told; or the function exited its
    goroutine without a result, and whoever waits for one waits until the context ends, the
    caller, or forever, the goroutine of [waitForErrors]. *)
Theorem call_ends g c :
  reachable g c ->
  (forall a, proper g a = true -> a <> ContextEnds -> next g a c = None) ->
  (exists r, caller c = CallerHas r /\ outcome_ c = Some r /\ told c = []) \/
  (exists r, caller c = CallerLeft /\ told c = [r] /\ outcome_ c = Some r /\ closed (runFuncErr c) = true) \/
  (caller c = CallerLeft /\ lostErrors g = false /\ told c = []) \/
  (outcome_ c = None /\ told c = [] /\
     (caller c = CallerSelects /\ ctx_done c = false \/ caller c = CallerLeft /\ waiter c = WaiterSelects)).
Proof.
  intros H%reachable_shape Hq.
  assert (Hstuck : forall a c', proper g a = true -> a <> ContextEnds -> next g a c <> Some c')
    by (intros a c' Hp Ha E; by rewrite (Hq a Hp Ha) in E).
  destruct H as [w cal wai d Hs|r cal wai d Hs Hc|r d|r Hl|r Hl]; simpl.
  - right; right. destruct Hs as [d|].
    + right. repeat (split; [done |]). left. split; [done |]. destruct d; [| done].
      by destruct (Hstuck CallerTakesDone _ eq_refl ltac:(done) eq_refl).
    + destruct (lostErrors g); [right | by left]. repeat (split; [done |]). by right.
  - right; right; left. destruct Hs as [d|].
    + exfalso. destruct r as [err|v].
      * by apply (Hstuck CallerTakesErr _ eq_refl ltac:(done) eq_refl).
      * eapply (Hstuck CallerTakesPanic); [done | done |]. simpl.
        unfold take_panic, panic_holding, panics. simpl in *. by rewrite Hc.
    + destruct (lostErrors g) eqn:El; [| done]. exfalso. destruct r as [err|v].
      * by apply (Hstuck WaiterTakesErr _ eq_refl ltac:(done) eq_refl).
      * eapply (Hstuck WaiterTakesPanic); [done | done |]. simpl.
        unfold take_panic, panic_holding, panics. simpl in *. by rewrite Hc.
  - left. by exists r.
  - exfalso. destruct (skipCatchPanics g) eqn:Ek.
    + eapply (Hstuck WaiterCloses); [done | done |]. simpl. unfold close_channels, panics. simpl. by rewrite Ek.
    + eapply (Hstuck WaiterCloses); [done | done |]. simpl. unfold close_channels, panics. simpl. by rewrite Ek.
  - right; left. by exists r.
Qed.

(** * Witnesses *)

Module GoWrapperSample.
Definition wrapper : goroutineWrapper := mkGoroutineWrapper false true.

(** The context ends first, the caller leaves, the function panics, and its panic is reported. *)
Definition left_behind : call :=
  mkCall WorkerDone CallerLeft WaiterDone (mkChannel [] true) (Some (mkChannel [] true)) true
    [Panicked 3] false (Some (Panicked 3)).

Lemma left_behind_reachable : reachable wrapper left_behind.
Proof.
  by apply (schedule_reachable _
    [ContextEnds; CallerTakesDone; FuncPanics 3; WaiterTakesPanic; WaiterCloses]).
Qed.

(** The function exits its goroutine, and the caller still selects. *)
Definition exited : call :=
  mkCall WorkerDone CallerSelects NoWaiter make_chan (Some make_chan) false [] false None.

Lemma exited_reachable : reachable wrapper exited.
Proof. by apply (schedule_reachable _ [FuncExits]). Qed.

Lemma result_is_in_one_place_witness :
  crashed left_behind = false /\ deliveries left_behind = [Panicked 3] /\ caller left_behind = CallerLeft.
Proof.
  destruct (result_is_in_one_place wrapper left_behind left_behind_reachable) as (H1 & H2 & _ & H4).
  split; [exact H1 | split; [exact H2 | by apply H4]].
Defined.

Lemma nobody_is_blocked_witness :
  exists c', worker_ends (Panicked 5) (start wrapper) = Some c' /\ crashed c' = false /\
    outcome_ c' = Some (Panicked 5).
Proof. by apply (nobody_is_blocked wrapper (start wrapper)); first [constructor | done]. Defined.

Lemma call_ends_witness : outcome_ exited = None /\ ctx_done exited = false.
Proof.
  destruct (call_ends wrapper exited exited_reachable) as [(r & E & _)|[(r & E & _)|[(E & _)|(E & _ & H)]]];
    [intros []; done | done | done | done | split; [exact E | by destruct H as [[_ ?]|[? _]]]].
Defined.
End GoWrapperSample.
End GoWrapper.
