(* ===== verification/CircuitGo.v ===== *)
(** [Circuit.Go] (circuit.go): [Execute] of functions that run in goroutines of their own, so
    that the caller can leave when its context ends.

    [wrap_run] is a call of the function [goroutineWrapper.run] returns, as its caller sees it:
    the caller gets what the function did, or the context ends first and the caller leaves with
    [ctx.Err()].  Which of the two it is, is the choice of the scheduler ([Scheduler]), and so is how
    far the function has come when it is left: it shares the circuit and the environment with its
    caller, which goes on in the world as the function has made it by then - with what it changed, with
    the calls it has in progress.  The three goroutines of such a call are the steps of GoWrapper.v;
    [wrapped_calls_are_runs] shows that every outcome of [wrap_run] is one of theirs.  What a function
    does after its caller has left is the work of another goroutine, and no part of the caller's
    computation. *)

From S2P Require Import Prelude GoMonad Errors Metrics Closers Config Circuit CircuitFacts GoWrapper.

Module CircuitGo.

(** What decides a [select] between the end of a context and the result of a function. *)
Class Scheduler (OS CS U : Type) := {
  (** the context ends while this function, started in this world, still runs: the world then *)
  ends_before : Context -> M (World OS CS U) (option error) -> World OS CS U -> option (World OS CS U);
  (** the function is done and the context has ended, and the [select] takes the latter *)
  takes_Done : Context -> World OS CS U -> bool
}.

(** [ctx.Done()] is closed when, and only when, [ctx.Err()] is set. *)
Class SchedulerLaws (OS CS U : Type) `{!UserCode OS CS U, !Scheduler OS CS U} : Prop := {
  ends_before_Err : forall ctx m w w', ends_before ctx m w = Some w' -> is_Some (ctx_Err ctx (env w'));
  takes_Done_Err : forall ctx w, takes_Done ctx w = true -> is_Some (ctx_Err ctx (env w))
}.

Section Go.
Context {OS CS U : Type} `{!ClosedToOpen OS} `{!OpenToClosed CS} `{!UserCode OS CS U} `{!Scheduler OS CS U}.
Context (fuel : nat).
Abbreviation W := (World OS CS U).

(** The caller of a wrapped function.  A circuit's wrapper catches panics: the caller panics with
    what the function panicked with. *)
Definition wrap_run (runFunc : Context -> M W (option error)) (ctx : Context) : M W (option error) := fun w =>
  match ends_before ctx (runFunc ctx) w with
  | Some w' => (Ret (ctx_Err ctx (env w')), w')
  | None =>
      let '(r, w') := runFunc ctx w in
      match r with
      | Ret _ | Panic _ =>
          if takes_Done ctx w' then (Ret (ctx_Err ctx (env w')), w') else (r, w')
      | _ => (r, w')
      end
  end.

Definition wrap_fallback (runFunc : Context -> error -> M W (option error)) (ctx : Context) (err : error)
    : M W (option error) :=
  wrap_run (fun funcCtx => runFunc funcCtx err) ctx.

(** The wrapper of a nil circuit has no [lostErrors], which the caller cannot tell. *)
Definition Go (c : circuit_ptr) (ctx : Context) (runFunc : option (Context -> M W (option error)))
    (fallbackFunc : option (Context -> error -> M W (option error))) : M W (option error) :=
  Execute fuel c ctx (wrap_run <$> runFunc) (wrap_fallback <$> fallbackFunc).
End Go.

(** * What it promises *)

Section GoFacts.
Context {OS CS U : Type} `{!ClosedToOpen OS} `{!OpenToClosed CS} `{!UserCode OS CS U} `{!Scheduler OS CS U}.
Context (oinv : OS -> Prop) (cinv : CS -> Prop).
Abbreviation W := (World OS CS U).
Implicit Types w : W.

(** A function that leaves the circuit at rest, or panics so, unless its context ends before.  Then it
    may run on, forever included; when it is left the circuit is at rest but for the calls that it has
    in progress there, [n] commands and [m] fallbacks with [L n m]. *)
Definition behaves_or_is_left (L : Z -> Z -> Prop) (E : panic -> Prop) (f : Context -> M W (option error)) : Prop :=
  forall ctx k1 k2 w, in_int64 k1 = true -> in_int64 k2 = true -> at_rest oinv cinv k1 k2 w ->
  match ends_before ctx (f ctx) w with
  | Some w' => exists n m, L n m /\ at_rest oinv cinv (wrap64 (k1 + n)) (wrap64 (k2 + m)) w'
  | None =>
      match f ctx w with
      | (Ret _, w') => at_rest oinv cinv k1 k2 w'
      | (Panic p, w') => E p /\ at_rest oinv cinv k1 k2 w'
      | _ => False
      end
  end.

Lemma wrap_run_leaves L E f ctx : behaves_or_is_left L E f -> leaves oinv cinv L E (wrap_run f ctx).
Proof.
  intros Hf k1 k2 w H1 H2 Hw. specialize (Hf ctx k1 k2 w H1 H2 Hw). unfold wp, wrap_run.
  destruct (ends_before ctx (f ctx) w) as [w'|].
  { destruct Hf as (n & m & HL & Hw'). exists n, m. split; [by right | done]. }
  destruct (f ctx w) as [[e|p| |] w']; try done; [| destruct Hf as [HE Hf]]; destruct (takes_Done ctx w');
    try split; try done; by apply rest_busy.
Qed.

(** ** Without early ends *)

(** The methods respect the equality of computations. *)
Ltac ext_step :=
  lazymatch goal with
  | |- meq ?m ?m => reflexivity
  | H : pointwise_relation _ meq ?f ?g |- meq (?f _) (?g _) => apply H
  | |- meq (bind _ _) (bind _ _) => apply bind_proper; [| intros ?]
  | |- meq (defer _ _) (defer _ _) => apply defer_proper
  | |- meq (if ?b then _ else _) (if ?b then _ else _) => destruct b
  | |- meq (match ?b with Some _ => _ | None => _ end) _ => destruct b
  end.
Ltac ext_go := cbv zeta; repeat (ext_step; cbv beta zeta).

#[local] Instance run_and_classify_proper fuel ctx orig t0 exp :
  Proper (pointwise_relation Context meq ==> meq) (run_and_classify (OS := OS) (CS := CS) (U := U) fuel ctx orig t0 exp).
Proof. intros f f' Hf. unfold run_and_classify. ext_go. Qed.

#[local] Instance run_proper fuel ctx :
  Proper (pointwise_relation Context meq ==> meq) (run (OS := OS) (CS := CS) (U := U) fuel ctx).
Proof.
  intros f f' Hf. unfold run, run_counted. ext_go; by apply run_and_classify_proper.
Qed.

Lemma fallback_ext ctx e fb fb' :
  option_relation (fun g g' => forall ctx e, meq (g ctx e) (g' ctx e)) (fun _ => False) (fun _ => False) fb fb' ->
  meq (fallback (OS := OS) (CS := CS) (U := U) ctx e fb) (fallback ctx e fb').
Proof.
  intros H. destruct fb as [g|], fb' as [g'|]; try done. cbn in H. unfold fallback, fallback_counted.
  ext_go. apply H.
Qed.

Definition never_early : Prop := forall ctx m w, ends_before ctx m w = None /\ takes_Done ctx w = false.

Lemma wrap_run_never_early f ctx : never_early -> meq (wrap_run (OS := OS) (CS := CS) (U := U) f ctx) (f ctx).
Proof.
  intros Hn w. unfold wrap_run. rewrite (proj1 (Hn ctx (f ctx) w)). destruct (f ctx w) as [[] w'];
    rewrite ?(proj2 (Hn ctx (f ctx) w')); done.
Qed.

(** Contexts that never end before the functions do make [Go] the same as [Execute]. *)
Theorem Go_without_ends fuel c ctx f fb :
  never_early ->
  meq (Go (OS := OS) (CS := CS) (U := U) fuel c ctx f fb) (Execute fuel c ctx f fb).
Proof.
  intros Hn. destruct f as [g|]; [| done]. unfold Go, Execute. cbn [fmap option_fmap option_map].
  assert (Hg : pointwise_relation Context meq (wrap_run g) g) by (intros ctx'; by apply wrap_run_never_early).
  ext_go.
  - by apply run_proper.
  - apply fallback_ext. destruct fb as [h|]; [| done]. cbn. intros ctx' e'. by apply (wrap_run_never_early (fun c => h c e')).
Qed.

(** C12: [Go] is total even when the function is not.  With lawful open/close logic, a function (and
    a fallback) that leaves the circuit at rest or panics, or otherwise runs on, forever included,
    past the end of its context, [Go] returns or lets exactly such a panic through, in the
    caller's goroutine; the mutexes are free, every notification was delivered, and the
    concurrency counters have their old values but for the calls that functions it has left still
    have in progress on the circuit: [n] and [m] are what the function or the fallback, or each of
    them, was left with, and 0 when neither was left. *)
Theorem Go_total `{!ClosedToOpenLaws OS oinv} `{!OpenToClosedLaws CS cinv} `{!QuietUserCode OS CS U}
    fuel L L' E c ctx f fb cmds fbs w :
  (2 <= fuel)%nat ->
  (forall g, f = Some g -> behaves_or_is_left L E g) ->
  (forall g e, fb = Some g -> behaves_or_is_left L' E (fun ctx => g ctx e)) ->
  in_int64 cmds = true -> in_int64 fbs = true -> at_rest oinv cinv cmds fbs w ->
  let ends w' := exists n m, (n = 0 /\ m = 0 \/ both L L' n m) /\
    at_rest oinv cinv (wrap64 (cmds + n)) (wrap64 (fbs + m)) w' in
  match Go fuel c ctx f fb w with
  | (Ret _, w') => ends w'
  | (Panic p, w') => E p /\ ends w'
  | _ => False
  end.
Proof.
  intros Hfuel Hf Hfb H1 H2 Hw ends.
  refine (Execute_leaves oinv cinv fuel L L' E c ctx _ _ Hfuel _ _ cmds fbs w H1 H2 Hw).
  - intros g' ctx' Hg. destruct f as [g|]; [| done]. injection Hg as <-. by apply wrap_run_leaves, Hf.
  - intros g' ctx' e Hg. destruct fb as [g|]; [| done]. injection Hg as <-.
    apply (wrap_run_leaves L' E (fun ctx => g ctx e)), Hfb. done.
Qed.

(** A command whose caller left is classified by its context and the clock alone, whatever the
    function does: a timeout if the deadline has passed; an interrupt if the context of the caller of
    [Go] has ended, unless interrupts are ignored or the error is not one; and else a failure.  The
    caller gets the error of the context. *)
Theorem left_commands_are_classified `{!SchedulerLaws OS CS U} fuel ctx orig t0 exp f w w1 done w2 :
  ends_before ctx (f ctx) w = Some w1 -> now w1 = (Ret done, w2) ->
  notThreadSafeConfigMu (circ w2) = false -> IsBadRequest (ctx_Err ctx (env w1)) = false ->
  let isErrInterrupt := default (fun _ => true) (IsErrInterrupt (Execution (notThreadSafeConfig (circ w2)))) in
  let ignored := a_IgnoreInterrupts (threadSafeConfig (circ w2)) in
  let kind :=
    if negb (exp =? 0) && (exp <? done) then KErrTimeout
    else match ctx_Err orig (env w2) with
         | Some e => if negb ignored && isErrInterrupt e then KErrInterrupt else KErrFailure
         | None => KErrFailure
         end in
  run_and_classify fuel ctx orig t0 exp (wrap_run f) w
  = (do! cmd_metrics kind ctx done (time_Sub done t0);
     do! (match kind with KErrInterrupt => ret tt | _ => attempt_if_closed fuel ctx done end);
     ret (ctx_Err ctx (env w1))) w2.
Proof.
  intros He Hnow Hmu Hbad isErrInterrupt ignored kind.
  unfold run_and_classify. rewrite (bind_run _ _ _ (ctx_Err ctx (env w1)) w1).
  2: { unfold wrap_run. by rewrite He. }
  rewrite (bind_run _ _ _ _ _ Hnow), classify_spec by done.
  assert (Hk : verdict w2 orig (ctx_Err ctx (env w1)) exp done = kind).
  { unfold verdict, kind. rewrite Hbad. destruct (_ && _); [done |].
    destruct (ends_before_Err ctx (f ctx) w w1 He) as [e ->]. done. }
  cbv zeta. rewrite Hk. unfold after_verdict, kind. destruct (_ && _); [done |].
  destruct (ctx_Err orig (env w2)) as [e|]; [| done]. by destruct (_ && _).
Qed.

(** ** A call in progress *)

(** It returns with the circuit in [I], or blocks with it in [B]. *)
Definition returns_or_blocks {A} (I B : W -> Prop) (m : M W A) (w : W) : Prop :=
  match m w with
  | (Ret _, w') => I w'
  | (Deadlock, w') => B w'
  | _ => False
  end.

Lemma safe_then_blocks {A C} (I B : W -> Prop) (m : M W A) (f : A -> M W C) w :
  safe I m -> I w -> (forall a w', I w' -> returns_or_blocks I B (f a) w') -> returns_or_blocks I B (bind m f) w.
Proof.
  intros Hm Hw Hf. destruct (Hm w Hw) as (a & w1 & E & Hw1). unfold returns_or_blocks. rewrite (bind_run _ _ _ _ _ E).
  by apply Hf.
Qed.

Lemma safe_returns {A} (I B : W -> Prop) (m : M W A) w : safe I m -> I w -> returns_or_blocks I B m w.
Proof. intros Hm Hw. unfold returns_or_blocks. by destruct (Hm w Hw) as (a & w1 & -> & Hw1). Qed.

Lemma blocks_then_safe {A C} (I B : W -> Prop) (m : M W A) (f : A -> M W C) w :
  returns_or_blocks I B m w -> (forall a, safe I (f a)) -> returns_or_blocks I B (bind m f) w.
Proof.
  unfold returns_or_blocks, bind. intros Hm Hf. destruct (m w) as [[a|p| |] w1]; try done.
  by destruct (Hf a w1 Hm) as (x & w2 & -> & Hw2).
Qed.

(** A call of [Execute] on the circuit whose command blocks, returns - it was rejected - or blocks
    with itself in progress: with one more command, unless the circuit is disabled. *)
Lemma Execute_of_blocked `{!ClosedToOpenLaws OS oinv} `{!OpenToClosedLaws CS cinv} `{!QuietUserCode OS CS U}
    fuel ctx (f : Context -> M W (option error)) k1 k2 w :
  (forall ctx w, f ctx w = (Deadlock, w)) -> in_int64 k1 = true -> at_rest oinv cinv k1 k2 w ->
  let rest := at_rest oinv cinv k1 k2 in
  returns_or_blocks rest (fun w' => rest w' \/ at_rest oinv cinv (wrap64 (k1 + 1)) k2 w')
    (Execute fuel theCircuit ctx (Some f) None) w.
Proof.
  intros Hf Hk Hw rest. set (B := fun w' => rest w' \/ at_rest oinv cinv (wrap64 (k1 + 1)) k2 w').
  assert (Hcounted : forall t n w, rest w -> returns_or_blocks rest B (run_admitted fuel ctx t n f) w).
  { intros t maxc w1 Hw1. unfold run_admitted. apply safe_then_blocks; [apply phase_with_opener, Prevent_safe | done |].
    intros p w2 Hw2. destruct p; [by apply safe_returns; [apply safe_ret |] |].
    destruct (phase_atomic_Add_commands oinv cinv _ _ 1 w2 Hw2) as (w3 & E3 & Hw3).
    unfold returns_or_blocks. rewrite (bind_run _ _ _ _ _ E3). unfold defer, run_counted. destruct (_ && _).
    - destruct (phase_cmd_metrics oinv cinv _ KErrConcurrencyLimitReject ctx t 0 w3 Hw3) as ([] & w4 & E4 & Hw4).
      rewrite (bind_run _ _ _ _ _ E4). unfold ret at 1.
      destruct (phase_atomic_Add_commands oinv cinv _ _ (-1) w4 Hw4) as (w5 & E5 & Hw5).
      unfold bind. rewrite E5. rewrite counter_restored in Hw5 by done. exact Hw5.
    - unfold bind at 1, get, gets. cbv zeta. unfold run_and_classify, defer.
      destruct (0 <? _); unfold bind at 1; rewrite Hf; by right. }
  assert (Hrun : forall w, rest w -> returns_or_blocks rest B (run fuel ctx f) w).
  { intros w0 Hw0. unfold returns_or_blocks. rewrite (run_by_admission_spec fuel ctx f w0).
    apply (safe_then_blocks rest B); [apply phase_now | done |]. intros t w1 Hw1.
    apply safe_then_blocks; [apply safe_gets | done |]. intros c w2 Hw2. cbv zeta.
    destruct (admission_of c); [by apply Hcounted | by apply safe_returns; [apply run_rejected_rest |] |].
    apply safe_then_blocks; [apply phase_with_closer, Allow_safe | done |]. intros b w3 Hw3.
    destruct b; [by apply Hcounted | by apply safe_returns; [apply run_rejected_rest |]]. }
  unfold Execute. apply safe_then_blocks; [apply safe_bind; [apply safe_gets | intros ?; apply safe_ret] | done |].
  intros b w1 Hw1. apply safe_then_blocks; [apply safe_gets | done |]. intros cfg w2 Hw2.
  destruct (b || a_Disabled cfg); [unfold returns_or_blocks; rewrite Hf; by left |].
  apply blocks_then_safe; [by apply Hrun |]. intros [e|]; [| apply safe_ret].
  destruct (IsBadRequest _); [apply safe_ret |]. apply safe_bind; [apply safe_gets | intros ?; apply safe_ret].
Qed.
End GoFacts.

(** * The goroutines behind it *)

Import GoWrapper.GoWrapper.

Section Runs.
Context {OS CS U : Type} `{!UserCode OS CS U} `{!Scheduler OS CS U} `{!SchedulerLaws OS CS U}.
Context (g : goroutineWrapper) (catches : skipCatchPanics g = false).
(** The values of panics, numbered. *)
Context (value_of : panic -> nat).
Abbreviation W := (World OS CS U).

(** What a caller that is done has, [err] being [ctx.Err()]. *)
Definition caller_got (err : option error) (c : call) (r : outcome (option error)) : Prop :=
  match caller c, r with
  | CallerHas (Returned e), Ret e' => e' = e
  | CallerHas (Panicked v), Panic p => v = value_of p
  | CallerLeft, Ret e => e = err /\ ctx_done c = true
  | _, _ => False
  end.

(** Every outcome of a wrapped call is one of its goroutines'; the caller leaves only with the error
    of a context that has ended. *)
Lemma wrapped_calls_are_runs (f : Context -> M W (option error)) ctx w r w' :
  wrap_run f ctx w = (r, w') -> r <> Deadlock -> r <> OutOfFuel ->
  exists c, reachable g c /\ caller_got (ctx_Err ctx (env w')) c r /\
    (caller c = CallerLeft -> is_Some (ctx_Err ctx (env w'))).
Proof.
  unfold wrap_run. intros H Hd Ho.
  assert (Hrun : forall l c, forallb (proper g) l = true -> GoWrapper.schedule g l (start g) = Some c -> reachable g c)
    by (intros l c; apply schedule_reachable).
  destruct (ends_before ctx (f ctx) w) as [w1|] eqn:Eb.
  { injection H as <- <-. destruct g as [sk le]. cbn in catches. subst sk.
    eexists. split; [by apply (Hrun [ContextEnds; CallerTakesDone]) |].
    destruct le; (split; [done | intros _; by eapply ends_before_Err]). }
  destruct (f ctx w) as [o w1]. destruct g as [sk le]. cbn in catches. subst sk.
  destruct o as [e|p| |]; try (injection H as <- <-; done); destruct (takes_Done ctx w1) eqn:Et;
    injection H as <- <-.
  - eexists. split; [by apply (Hrun [FuncReturns e; ContextEnds; CallerTakesDone]) |].
    destruct le; (split; [done | intros _; by apply takes_Done_Err]).
  - eexists. split; [by apply (Hrun [FuncReturns e; CallerTakesErr]) | done].
  - eexists. split; [by apply (Hrun [FuncPanics (value_of p); ContextEnds; CallerTakesDone]) |].
    destruct le; (split; [done | intros _; by apply takes_Done_Err]).
  - eexists. split; [by apply (Hrun [FuncPanics (value_of p); CallerTakesPanic]) | done].
Qed.
End Runs.

(** ** Functions that hang

    The command never returns; its context, derived with the execution timeout, ends after 2000 ns. *)
Module Hanging.

Record Env := mkEnv { clock : Z; reported : list run_kind }.

Abbreviation W := (World neverOpens neverCloses Env).

Definition tick : M Env Time := fun u => (Ret (clock u + 1), mkEnv (clock u + 1) (reported u)).

Definition report (k : run_kind) : M W unit := modify (fun w =>
  mkWorld (circ w) (mkEnv (clock (env w)) (reported (env w) ++ [k]))).

(** A derived context ends with its deadline; the caller's own context does not end. *)
#[export] Instance code : UserCode neverOpens neverCloses Env := {|
  user_run _ := {|
    Success _ _ _ := report KSuccess; ErrFailure _ _ _ := report KErrFailure; ErrTimeout _ _ _ := report KErrTimeout;
    ErrBadRequest _ _ _ := report KErrBadRequest; ErrInterrupt _ _ _ := report KErrInterrupt;
    ErrConcurrencyLimitReject _ _ := report KErrConcurrencyLimitReject; ErrShortCircuit _ _ := report KErrShortCircuit |};
  user_fallback _ := {|
    FallbackSuccess _ _ _ := ret tt; FallbackErrFailure _ _ _ := ret tt; FallbackErrConcurrencyLimitReject _ _ := ret tt |};
  user_metrics _ := {| Closed _ _ := ret tt; Opened _ _ := ret tt |};
  ctx_Err ctx u := match ctx with
                   | WithDeadline _ d => if d <=? clock u then Some errDeadlineExceeded else None
                   | _ => None
                   end;
  ctx_cancel _ u := u;
  opener_Configurable := None;
  closer_Configurable := None;
  neverOpensFactory := ret neverOpens_value;
  neverClosesFactory := ret neverCloses_value;
  time_Now := tick
|}.

#[export] Instance quiet_code : QuietUserCode neverOpens neverCloses Env.
Proof.
  split; intros; try (intros w; destruct w; by eexists _, _).
  intros w. destruct k; eexists _, _; reflexivity.
Qed.

(** A context with a deadline ends when its function blocks, and the caller leaves the function where
    it has. *)
#[export] Instance hanging : Scheduler neverOpens neverCloses Env := {|
  ends_before ctx m w :=
    match ctx, m w with
    | WithDeadline _ d, (Deadlock, w') => Some (mkWorld (circ w') (mkEnv (Z.max d (clock (env w'))) (reported (env w'))))
    | _, _ => None
    end;
  takes_Done _ _ := false
|}.

#[export] Instance hanging_laws : SchedulerLaws neverOpens neverCloses Env.
Proof.
  split; [| done]. intros ctx m w w'. cbn. destruct ctx as [|parent deadline]; [done |].
  destruct (m w) as [[| | |] w1]; try done. intros [= <-]. cbn.
  destruct (Z.leb_spec deadline (Z.max deadline (clock (env w1)))); [done | lia].
Qed.

(** One that hangs, and one that hangs in a call on the same circuit. *)
Definition hangs (ctx : Context) : M W (option error) := fun w =>
  match ctx with WithDeadline _ _ => (Deadlock, w) | _ => (Ret None, w) end.
Definition blocks (ctx : Context) : M W (option error) := fun w => (Deadlock, w).
Definition nests (ctx : Context) : M W (option error) :=
  match ctx with
  | WithDeadline _ _ => Execute 2 theCircuit ctx (Some blocks) None
  | _ => ret None
  end.

Definition world : W :=
  mkWorld (mkCircuit [RefOpenToClose; RefClosedToOpen; RefUser 0] [0%nat] [0%nat] (Some 1%nat) "hanging"
    Config_zero false (mkAtomicCircuitConfig 2000 10 false 10 false false false false)
    false (Some neverOpens_value) (Some neverCloses_value) (Some tick) false [] false 0 0)
  (mkEnv 0 []).

Definition any {A} : A -> Prop := fun _ => True.

Lemma at_rest_world : at_rest any any 0 0 world.
Proof.
  split; [| done]. split; [by eexists |]. split; [by eexists |]. split; [| done].
  exists tick. split; [done |]. intros u. by eexists _, _.
Qed.

(** [Execute] of the function never returns, [Go] does, with the error of the context, and reports a
    timeout. *)
Example Go_returns :
  fst (Execute 2 theCircuit Background (Some hangs) None world) = Deadlock /\
  (let '(r, w) := Go 2 theCircuit Background (Some hangs) None world in
   r = Ret (Some errDeadlineExceeded) /\ reported (env w) = [KErrTimeout] /\ concurrentCommands (circ w) = 0).
Proof. vm_compute. auto. Qed.

(** The call in which [nests] hangs is still in progress when [Go] has returned. *)
Example Go_leaves_a_call :
  let '(r, w) := Go 2 theCircuit Background (Some nests) None world in
  r = Ret (Some errDeadlineExceeded) /\ reported (env w) = [KErrTimeout] /\
  concurrentCommands (circ world) = 0 /\ concurrentCommands (circ w) = 1.
Proof. vm_compute. auto. Qed.

(** It is counted, or the circuit was disabled. *)
Definition at_most_one (n m : Z) : Prop := 0 <= n <= 1 /\ m = 0.

Lemma nests_is_left : behaves_or_is_left any any at_most_one (fun _ => False) nests.
Proof.
  intros ctx k1 k2 w H1 H2 Hw. destruct ctx as [id|parent d]; cbn [ends_before hanging nests]; [done |].
  pose proof (Execute_of_blocked any any 2 (WithDeadline parent d) blocks k1 k2 w (fun _ _ => eq_refl) H1 Hw) as H.
  cbv zeta in H. unfold returns_or_blocks in H.
  destruct (Execute 2 theCircuit (WithDeadline parent d) (Some blocks) None w) as [[r|p| |] w']; try done.
  apply in_int64_spec in H1, H2. destruct H as [H|H]; [exists 0, 0 | exists 1, 0];
    (split; [unfold at_most_one; lia |]); rewrite !Z.add_0_r, (wrap64_id k2 H2), ?(wrap64_id k1 H1); exact H.
Qed.

Lemma Go_total_witness :
  match Go 2 theCircuit Background (Some nests) None world with
  | (Ret _, w') => exists n, 0 <= n <= 1 /\ at_rest any any n 0 w'
  | _ => False
  end.
Proof.
  pose proof (Go_total any any 2 at_most_one nothing (fun _ => False) theCircuit Background (Some nests) None 0 0 world) as H.
  destruct (Go 2 theCircuit Background (Some nests) None world) as [r w'] eqn:E.
  specialize (H ltac:(lia)). destruct r as [r|p| |]; try (by apply H; try done; intros g [= <-]; apply nests_is_left).
  destruct H as (n & m & Hnm & Hw'); try done; [by intros g [= <-]; apply nests_is_left | apply at_rest_world |].
  assert (Hn : 0 <= n <= 1 /\ m = 0)
    by (destruct Hnm as [[-> ->]|[Hn|[[]|(? & ? & ? & ? & _ & [] & _)]]]; [lia | exact Hn]).
  exists n. split; [apply Hn |]. destruct Hn as [Hn ->]. rewrite !wrap64_id in Hw' by (unfold min_int64, max_int64; lia). exact Hw'.
Defined.

Lemma left_commands_are_classified_witness :
  exists r, run_and_classify 2 (WithDeadline Background 2001) Background 1 2001 (wrap_run hangs) world
  = (do! cmd_metrics KErrTimeout (WithDeadline Background 2001) 2002 2001;
     do! attempt_if_closed 2 (WithDeadline Background 2001) 2002;
     ret r) (mkWorld (circ world) (mkEnv 2002 [])).
Proof.
  exists (Some errDeadlineExceeded).
  exact (left_commands_are_classified 2 (WithDeadline Background 2001) Background 1 2001 hangs world
    (mkWorld (circ world) (mkEnv 2001 [])) 2002 (mkWorld (circ world) (mkEnv 2002 [])) eq_refl eq_refl eq_refl eq_refl).
Defined.
End Hanging.
End CircuitGo.
