(* ===== verification/RunStats.v ===== *)
(** metrics/rolling/rolling.go: the rolling statistics of the commands and of the fallbacks of a
    circuit, and the factory that attaches them to circuits by name.

    [RunStats] is an implementation of the interface [RunMetrics] built from seven counters of
    RollingCounter.v and the percentiles of RollingPercentile.v.  Its mutex guards [config]
    alone and is not part of the model.  The clock of a configuration is read in the
    environment [U].  The expvar exporters are in StatsExport.v. *)

From S2P Require Import Prelude GoMonad GoFloat RollingBuckets RollingCounter RollingPercentile Metrics Config.

Module RunStats.

Abbreviation Percentiles := RollingPercentile.RollingPercentile.

(** * Data *)

Section Data.
Context {U : Type}.

Record RunStatsConfig := mkRunStatsConfig {
  Now : option (M U Time);
  RollingStatsDuration : Duration;
  RollingStatsNumBuckets : Z;
  RollingPercentileDuration : Duration;
  RollingPercentileNumBuckets : Z;
  RollingPercentileBucketSize : Z
}.

Record RunStats := mkRunStats {
  Successes : RollingCounter;
  ErrConcurrencyLimitRejects : RollingCounter;
  ErrFailures : RollingCounter;
  ErrShortCircuits : RollingCounter;
  ErrTimeouts : RollingCounter;
  ErrBadRequests : RollingCounter;
  ErrInterrupts : RollingCounter;
  Latencies : Percentiles;
  config : RunStatsConfig
}.

(** The counter of each kind of event. *)
Definition counterL (k : run_kind) : lens RunStats RollingCounter :=
  match k with
  | KSuccess => Lens Successes (fun c r => mkRunStats c (ErrConcurrencyLimitRejects r) (ErrFailures r)
      (ErrShortCircuits r) (ErrTimeouts r) (ErrBadRequests r) (ErrInterrupts r) (Latencies r) (config r))
  | KErrConcurrencyLimitReject => Lens ErrConcurrencyLimitRejects (fun c r => mkRunStats (Successes r) c
      (ErrFailures r) (ErrShortCircuits r) (ErrTimeouts r) (ErrBadRequests r) (ErrInterrupts r)
      (Latencies r) (config r))
  | KErrFailure => Lens ErrFailures (fun c r => mkRunStats (Successes r) (ErrConcurrencyLimitRejects r) c
      (ErrShortCircuits r) (ErrTimeouts r) (ErrBadRequests r) (ErrInterrupts r) (Latencies r) (config r))
  | KErrShortCircuit => Lens ErrShortCircuits (fun c r => mkRunStats (Successes r)
      (ErrConcurrencyLimitRejects r) (ErrFailures r) c (ErrTimeouts r) (ErrBadRequests r)
      (ErrInterrupts r) (Latencies r) (config r))
  | KErrTimeout => Lens ErrTimeouts (fun c r => mkRunStats (Successes r) (ErrConcurrencyLimitRejects r)
      (ErrFailures r) (ErrShortCircuits r) c (ErrBadRequests r) (ErrInterrupts r) (Latencies r) (config r))
  | KErrBadRequest => Lens ErrBadRequests (fun c r => mkRunStats (Successes r)
      (ErrConcurrencyLimitRejects r) (ErrFailures r) (ErrShortCircuits r) (ErrTimeouts r) c
      (ErrInterrupts r) (Latencies r) (config r))
  | KErrInterrupt => Lens ErrInterrupts (fun c r => mkRunStats (Successes r)
      (ErrConcurrencyLimitRejects r) (ErrFailures r) (ErrShortCircuits r) (ErrTimeouts r)
      (ErrBadRequests r) c (Latencies r) (config r))
  end.

Definition LatenciesL : lens RunStats Percentiles := Lens Latencies (fun p r =>
  mkRunStats (Successes r) (ErrConcurrencyLimitRejects r) (ErrFailures r) (ErrShortCircuits r)
    (ErrTimeouts r) (ErrBadRequests r) (ErrInterrupts r) p (config r)).

Definition configL : lens RunStats RunStatsConfig := Lens config (fun c r =>
  mkRunStats (Successes r) (ErrConcurrencyLimitRejects r) (ErrFailures r) (ErrShortCircuits r)
    (ErrTimeouts r) (ErrBadRequests r) (ErrInterrupts r) (Latencies r) c).
End Data.

Arguments RunStatsConfig U : clear implicits.
Arguments RunStats U : clear implicits.

(** [rollingCounters] *)
Definition rollingCounters : list run_kind :=
  [KSuccess; KErrConcurrencyLimitReject; KErrFailure; KErrShortCircuit; KErrTimeout; KErrBadRequest; KErrInterrupt].

Section Methods.
Context {U : Type} (time_Now : M U Time).   (* [time.Now] of the standard library *)

(** * Configuration *)

Definition Merge (r other : RunStatsConfig U) : RunStatsConfig U :=
  mkRunStatsConfig (merge_nil (Now r) (Now other))
    (merge_zero (RollingStatsDuration r) (RollingStatsDuration other))
    (merge_zero (RollingStatsNumBuckets r) (RollingStatsNumBuckets other))
    (merge_zero (RollingPercentileDuration r) (RollingPercentileDuration other))
    (merge_zero (RollingPercentileNumBuckets r) (RollingPercentileNumBuckets other))
    (merge_zero (RollingPercentileBucketSize r) (RollingPercentileBucketSize other)).

(** [if r.f < 0 { r.f = 0 }] *)
Definition not_negative (z : Z) : Z := if z <? 0 then 0 else z.

Definition sanitize (r : RunStatsConfig U) : RunStatsConfig U :=
  mkRunStatsConfig (Now r)
    (not_negative (RollingStatsDuration r)) (not_negative (RollingStatsNumBuckets r))
    (not_negative (RollingPercentileDuration r)) (not_negative (RollingPercentileNumBuckets r))
    (not_negative (RollingPercentileBucketSize r)).

Definition defaultRunStatsConfig : RunStatsConfig U :=
  mkRunStatsConfig (Some time_Now) (10 * Second) 10 (60 * Second) 6 100.

Definition RunStatsConfig_zero : RunStatsConfig U := mkRunStatsConfig None 0 0 0 0 0.

(** The zero value of the struct. *)
Definition RunStats_zero : RunStats U :=
  mkRunStats RollingCounter_zero RollingCounter_zero RollingCounter_zero RollingCounter_zero
    RollingCounter_zero RollingCounter_zero RollingCounter_zero
    RollingPercentile.RollingPercentile_zero RunStatsConfig_zero.

(** [now()] of [RunStats], which reads its configuration. *)
Definition now (r : RunStats U) : M U Time :=
  match Now (config r) with None => time_Now | Some f => f end.

(** A quotient of [int64]s. *)
Definition int_div (a b : Z) : option Z := if b =? 0 then None else Some (Z.quot a b).

(** On the stats and the environment its clock is read in; the counters are assigned in the
    order of [rollingCounters]. *)
Definition SetConfigNotThreadSafe (config0 : RunStatsConfig U) : M (RunStats U * U) unit :=
  let config1 := Merge (sanitize config0) defaultRunStatsConfig in
  let selfL := Lens fst (fun r s => (r, snd s)) in
  let envL := Lens snd (fun u s => (fst s, u)) in
  do! modify (fun s => upd selfL (upd configL config1 (fst s)) s);
  let! now := match Now config1 with
              | Some f => zoom envL f
              | None => throw NilDereference
              end in
  let! bucketWidth := of_option IntegerDivideByZero
    (int_div (RollingStatsDuration config1) (RollingStatsNumBuckets config1)) in
  let numBuckets := RollingStatsNumBuckets config1 in
  let! percentileWidth := of_option IntegerDivideByZero
    (int_div (RollingPercentileDuration config1) (RollingPercentileNumBuckets config1)) in
  do! range_do (fun k =>
      let! c := of_outcome (NewRollingCounter bucketWidth numBuckets now) in
      modify (fun s => upd selfL (upd (counterL k) c (fst s)) s)) rollingCounters;
  let! p := of_outcome (RollingPercentile.NewRollingPercentile percentileWidth
      (RollingPercentileNumBuckets config1) (RollingPercentileBucketSize config1) now) in
  modify (fun s => upd selfL (upd LatenciesL p (fst s)) s).

Definition Config_ (r : RunStats U) : RunStatsConfig U := config r.

(** * Events *)

Definition Success (t : Time) (d : Duration) : M (RunStats U) unit :=
  do! zoom (counterL KSuccess) (Inc t);
  zoom LatenciesL (RollingPercentile.AddDuration d t).

Definition ErrInterrupt (t : Time) (d : Duration) : M (RunStats U) unit :=
  do! zoom (counterL KErrInterrupt) (Inc t);
  zoom LatenciesL (RollingPercentile.AddDuration d t).

Definition ErrConcurrencyLimitReject (t : Time) : M (RunStats U) unit :=
  zoom (counterL KErrConcurrencyLimitReject) (Inc t).

Definition ErrFailure (t : Time) (d : Duration) : M (RunStats U) unit :=
  do! zoom (counterL KErrFailure) (Inc t);
  zoom LatenciesL (RollingPercentile.AddDuration d t).

Definition ErrShortCircuit (t : Time) : M (RunStats U) unit :=
  zoom (counterL KErrShortCircuit) (Inc t).

Definition ErrTimeout (t : Time) (d : Duration) : M (RunStats U) unit :=
  do! zoom (counterL KErrTimeout) (Inc t);
  zoom LatenciesL (RollingPercentile.AddDuration d t).

Definition ErrBadRequest (t : Time) (d : Duration) : M (RunStats U) unit :=
  do! zoom (counterL KErrBadRequest) (Inc t);
  zoom LatenciesL (RollingPercentile.AddDuration d t).

(** * Queries *)

(** The operands are evaluated from left to right. *)
Definition ErrorsAt (t : Time) : M (RunStats U) Z :=
  let! failures := zoom (counterL KErrFailure) (RollingSumAt t) in
  let! timeouts := zoom (counterL KErrTimeout) (RollingSumAt t) in
  ret (wrap64 (failures + timeouts)).

Definition LegitimateAttemptsAt (t : Time) : M (RunStats U) Z :=
  let! successes := zoom (counterL KSuccess) (RollingSumAt t) in
  let! errors := ErrorsAt t in
  ret (wrap64 (successes + errors)).

Definition ErrorPercentageAt (t : Time) : M (RunStats U) float64 :=
  let! attemptCount := LegitimateAttemptsAt t in
  if attemptCount =? 0 then ret (float64_of_int 0)
  else
    let! errCount := ErrorsAt t in
    ret (fdiv (float64_of_int errCount) (float64_of_int attemptCount)).
End Methods.

#[export] Instance RunStats_run U : RunMetrics (RunStats U) := {|
  Metrics.Success _ t d := Success t d;
  Metrics.ErrFailure _ t d := ErrFailure t d;
  Metrics.ErrTimeout _ t d := ErrTimeout t d;
  Metrics.ErrBadRequest _ t d := ErrBadRequest t d;
  Metrics.ErrInterrupt _ t d := ErrInterrupt t d;
  Metrics.ErrConcurrencyLimitReject _ t := ErrConcurrencyLimitReject t;
  Metrics.ErrShortCircuit _ t := ErrShortCircuit t
|}.

(** * Fallbacks *)

Section Fallback.
Context {U : Type}.

Record FallbackStatsConfig := mkFallbackStatsConfig {
  FallbackRollingStatsDuration : Duration;
  FallbackNow : option (M U Time);
  FallbackRollingStatsNumBuckets : Z
}.

Record FallbackStats := mkFallbackStats {
  FallbackSuccesses : RollingCounter;
  FallbackErrConcurrencyLimitRejects : RollingCounter;
  FallbackErrFailures : RollingCounter
}.

Definition FallbackSuccessesL : lens FallbackStats RollingCounter := Lens FallbackSuccesses
  (fun c r => mkFallbackStats c (FallbackErrConcurrencyLimitRejects r) (FallbackErrFailures r)).
Definition FallbackErrConcurrencyLimitRejectsL : lens FallbackStats RollingCounter :=
  Lens FallbackErrConcurrencyLimitRejects
  (fun c r => mkFallbackStats (FallbackSuccesses r) c (FallbackErrFailures r)).
Definition FallbackErrFailuresL : lens FallbackStats RollingCounter := Lens FallbackErrFailures
  (fun c r => mkFallbackStats (FallbackSuccesses r) (FallbackErrConcurrencyLimitRejects r) c).

Definition Fallback_Merge (r other : FallbackStatsConfig) : FallbackStatsConfig :=
  mkFallbackStatsConfig
    (merge_zero (FallbackRollingStatsDuration r) (FallbackRollingStatsDuration other))
    (merge_nil (FallbackNow r) (FallbackNow other))
    (merge_zero (FallbackRollingStatsNumBuckets r) (FallbackRollingStatsNumBuckets other)).

Definition Fallback_sanitize (r : FallbackStatsConfig) : FallbackStatsConfig :=
  mkFallbackStatsConfig (not_negative (FallbackRollingStatsDuration r)) (FallbackNow r)
    (not_negative (FallbackRollingStatsNumBuckets r)).

Context (time_Now : M U Time).

Definition defaultFallbackStatsConfig : FallbackStatsConfig :=
  mkFallbackStatsConfig (10 * Second) (Some time_Now) 10.

Definition FallbackStats_zero : FallbackStats :=
  mkFallbackStats RollingCounter_zero RollingCounter_zero RollingCounter_zero.

Definition Fallback_SetConfigNotThreadSafe (config0 : FallbackStatsConfig) : M (FallbackStats * U) unit :=
  let config := Fallback_Merge (Fallback_sanitize config0) defaultFallbackStatsConfig in
  let envL := Lens snd (fun u s => (fst s, u)) in
  let! now := match FallbackNow config with
              | Some f => zoom envL f
              | None => throw NilDereference
              end in
  let! bucketWidth := of_option IntegerDivideByZero
    (int_div (FallbackRollingStatsDuration config) (FallbackRollingStatsNumBuckets config)) in
  let numBuckets := FallbackRollingStatsNumBuckets config in
  range_do (fun l =>
      let! c := of_outcome (NewRollingCounter bucketWidth numBuckets now) in
      modify (fun s => (upd l c (fst s), snd s)))
    [FallbackSuccessesL; FallbackErrConcurrencyLimitRejectsL; FallbackErrFailuresL].
End Fallback.

Arguments FallbackStatsConfig U : clear implicits.

#[export] Instance FallbackStats_fallback : FallbackMetrics FallbackStats := {|
  FallbackSuccess _ t _ := zoom FallbackSuccessesL (Inc t);
  FallbackErrFailure _ t _ := zoom FallbackErrFailuresL (Inc t);
  FallbackErrConcurrencyLimitReject _ t := zoom FallbackErrConcurrencyLimitRejectsL (Inc t)
|}.

(** * The factory

    The stats it makes are allocated on two heaps, and are referred to by address; the metrics
    objects of a circuit's configuration are these addresses. *)

Section Factory.
Context {OS CS U : Type} (time_Now : M U Time).

Record StatFactory := mkStatFactory {
  RunConfig : RunStatsConfig U;
  FallbackConfig : FallbackStatsConfig U;
  runStatsByCircuit : option (gmap string nat);
  fallbackStatsByCircuit : option (gmap string nat);
  mu : bool
}.

Record FWorld := mkFWorld {
  factory : StatFactory;
  run_heap : list (RunStats U);
  fallback_heap : list FallbackStats;
  fenv : U
}.

Definition set_factory (s : StatFactory) (w : FWorld) : FWorld :=
  mkFWorld s (run_heap w) (fallback_heap w) (fenv w).

Definition set_mu (b : bool) (w : FWorld) : FWorld :=
  let s := factory w in
  set_factory (mkStatFactory (RunConfig s) (FallbackConfig s) (runStatsByCircuit s)
    (fallbackStatsByCircuit s) b) w.

Definition lock_mu : M FWorld unit := fun w =>
  if mu (factory w) then (Deadlock, w) else (Ret tt, set_mu true w).
Definition unlock_mu : M FWorld unit := fun w =>
  if mu (factory w) then (Ret tt, set_mu false w) else (Panic UnlockOfUnlocked, w).

(** [rs := RunStats{}; rs.SetConfigNotThreadSafe(cfg)], and its address *)
Definition new_RunStats (cfg : RunStatsConfig U) : M FWorld nat := fun w =>
  match SetConfigNotThreadSafe time_Now cfg (RunStats_zero, fenv w) with
  | (Ret _, (r, u)) => (Ret (length (run_heap w)), mkFWorld (factory w) (run_heap w ++ [r]) (fallback_heap w) u)
  | (Panic p, (_, u)) => (Panic p, mkFWorld (factory w) (run_heap w) (fallback_heap w) u)
  | (Deadlock, (_, u)) => (Deadlock, mkFWorld (factory w) (run_heap w) (fallback_heap w) u)
  | (OutOfFuel, (_, u)) => (OutOfFuel, mkFWorld (factory w) (run_heap w) (fallback_heap w) u)
  end.

Definition new_FallbackStats (cfg : FallbackStatsConfig U) : M FWorld nat := fun w =>
  match Fallback_SetConfigNotThreadSafe time_Now cfg (FallbackStats_zero, fenv w) with
  | (Ret _, (r, u)) =>
      (Ret (length (fallback_heap w)), mkFWorld (factory w) (run_heap w) (fallback_heap w ++ [r]) u)
  | (Panic p, (_, u)) => (Panic p, mkFWorld (factory w) (run_heap w) (fallback_heap w) u)
  | (Deadlock, (_, u)) => (Deadlock, mkFWorld (factory w) (run_heap w) (fallback_heap w) u)
  | (OutOfFuel, (_, u)) => (OutOfFuel, mkFWorld (factory w) (run_heap w) (fallback_heap w) u)
  end.

(** The two maps, each made when it is nil, and the two assignments. *)
Definition register (name : string) (rs fs : nat) : M FWorld unit := modify (fun w =>
  let s := factory w in
  set_factory (mkStatFactory (RunConfig s) (FallbackConfig s)
    (Some (<[name := rs]> (default ∅ (runStatsByCircuit s))))
    (Some (<[name := fs]> (default ∅ (fallbackStatsByCircuit s)))) (mu s)) w).

Definition FallbackStatsConfig_zero : FallbackStatsConfig U := mkFallbackStatsConfig 0 None 0.

Definition CreateConfig (circuitName : string) : M FWorld (Config OS CS U) :=
  let! s := gets factory in
  let! rs := new_RunStats (Merge RunStatsConfig_zero (RunConfig s)) in
  let! s := gets factory in
  let! fs := new_FallbackStats (Fallback_Merge FallbackStatsConfig_zero (FallbackConfig s)) in
  do! lock_mu;
  defer unlock_mu
    (do! register circuitName rs fs;
     let zero : Config OS CS U := Config_zero in
     ret (mkConfig (General zero) (Execution zero) (Fallback zero) (mkMetricsCollectors [rs] [fs] []))).

(** [RunStats(circuitName)] and [FallbackStats(circuitName)] *)
Definition find_RunStats (circuitName : string) : M FWorld (option nat) :=
  do! lock_mu;
  defer unlock_mu (gets (fun w => default ∅ (runStatsByCircuit (factory w)) !! circuitName)).

Definition find_FallbackStats (circuitName : string) : M FWorld (option nat) :=
  do! lock_mu;
  defer unlock_mu (gets (fun w => default ∅ (fallbackStatsByCircuit (factory w)) !! circuitName)).
End Factory.

(** * Lemmas *)

(** ** The lenses *)

#[export] Instance counterL_laws U k : LensLaws (@counterL U k).
Proof. by destruct k; split; intros; destruct s. Qed.

Section Lenses.
Context {U : Type}.
Implicit Types r : RunStats U.

Lemma counter_other k k' c r : k <> k' -> view (counterL k) (upd (counterL k') c r) = view (counterL k) r.
Proof. by destruct k, k'. Qed.

Lemma counter_latencies k c r : Latencies (upd (counterL k) c r) = Latencies r.
Proof. by destruct k. Qed.

Lemma counter_config k c r : config (upd (counterL k) c r) = config r.
Proof. by destruct k. Qed.

Lemma latencies_counter k p r : view (counterL k) (upd LatenciesL p r) = view (counterL k) r.
Proof. by destruct k. Qed.
End Lenses.

(** ** Histories *)

(** An event that was reported: its kind, its instant and its duration. *)
Record event := mkEvent { e_kind : run_kind; e_time : Time; e_duration : Duration }.

(** The events with a duration, whose latency is recorded. *)
Definition has_latency (k : run_kind) : bool :=
  match k with KErrConcurrencyLimitReject | KErrShortCircuit => false | _ => true end.

Definition report {U} (e : event) : M (RunStats U) unit :=
  run_call (RunStats_run U) (e_kind e) Background (e_time e) (e_duration e).

(** The instants of the events of one kind. *)
Definition times_of (k : run_kind) (h : list event) : list Time :=
  omap (fun e => if decide (e_kind e = k) then Some (e_time e) else None) h.

Section Histories.
Context {U : Type} (w n start now : Z) (pcfg : RollingBuckets) (sz : nat).
Implicit Types r : RunStats U.

Definition latency_step (l : RollingPercentile.percentile_log) (e : event) : RollingPercentile.percentile_log :=
  if has_latency (e_kind e) then RollingPercentile.plog_add pcfg (e_duration e) (e_time e) l else l.

(** The log of the latencies, of percentiles whose window was at the index [L] before. *)
Definition latency_log_from (L : Z) (h : list event) : RollingPercentile.percentile_log :=
  foldl latency_step (RollingPercentile.mkPercentileLog L []) h.

Definition latency_log (h : list event) : RollingPercentile.percentile_log := latency_log_from 0 h.

(** No later index than that of [now]. *)
Definition reached (L : Z) : Prop := L = 0 \/ exists i, absIndexAt pcfg now = Some i /\ 0 <= L <= i.

(** The stats after the events [h], none of them before the start nor after [now]. *)
Definition knows (h : list event) r : Prop :=
  (forall k, fed w n start now (times_of k h) (view (counterL k) r)) /\
  (exists L, reached L /\ RollingPercentile.represents pcfg sz (Latencies r) (latency_log_from L h)).

Hypothesis Hsz : (0 < sz)%nat.

Lemma times_of_cons k h e :
  times_of k (e :: h) = (if decide (e_kind e = k) then [e_time e] else []) ++ times_of k h.
Proof. unfold times_of. cbn [omap list_omap]. by destruct (decide _). Qed.

Lemma times_of_snoc k h e :
  times_of k (h ++ [e]) = times_of k h ++ (if decide (e_kind e = k) then [e_time e] else []).
Proof. unfold times_of. rewrite omap_app. simpl. by destruct (decide _). Qed.

Lemma latency_log_snoc L h e : latency_log_from L (h ++ [e]) = latency_step (latency_log_from L h) e.
Proof. unfold latency_log_from. by rewrite foldl_app. Qed.

(** The log has at most one entry for each event. *)
Lemma latency_log_length L h : zlen (RollingPercentile.pl_events (latency_log_from L h)) <= zlen h.
Proof using.
  clear. induction h as [|e h IH] using rev_ind; [done |]. rewrite latency_log_snoc. unfold latency_step.
  pose proof (RollingPercentile.plog_add_length pcfg (e_duration e) (e_time e) (latency_log_from L h)).
  unfold zlen in *. rewrite length_app. simpl. destruct (has_latency _); lia.
Qed.

(** Where the window was does not matter to what is logged, nor once it has moved on. *)
Lemma latency_log_frame L h :
  RollingPercentile.pl_events (latency_log_from L h) = RollingPercentile.pl_events (latency_log h) /\
  forall L', RollingPercentile.pl_last (latency_log_from (Z.max L L') h)
             = Z.max (RollingPercentile.pl_last (latency_log_from L h)) L'.
Proof using.
  clear. unfold latency_log. induction h as [|e h [IHe IHl]] using rev_ind; [done |].
  rewrite !latency_log_snoc. unfold latency_step at 1 2. destruct (has_latency _) eqn:Hl.
  - split.
    + unfold RollingPercentile.plog_add. destruct (absIndexAt pcfg (e_time e)); simpl; by rewrite IHe.
    + intros L'. rewrite !latency_log_snoc. unfold latency_step. rewrite Hl. unfold RollingPercentile.plog_add, RollingPercentile.plog_advance, advancedLast.
      rewrite !absIndexAt_set_LastAbsIndex. destruct (absIndexAt pcfg (e_time e)); simpl; rewrite IHl; lia.
  - split; [exact IHe |]. intros L'. rewrite !latency_log_snoc. unfold latency_step. by rewrite Hl.
Qed.

(** One counter, or all of them and the percentiles, take an event. *)
Definition counted (h : list event) (e : event) r : Prop :=
  (forall k, fed w n start now (times_of k (h ++ [e])) (view (counterL k) r)).

Lemma count_event h e r :
  knows h r -> start <= e_time e <= now ->
  exists r', zoom (counterL (e_kind e)) (Inc (e_time e)) r = (Ret tt, r') /\ counted h e r' /\
    Latencies r' = Latencies r.
Proof.
  intros (Hk & _) Ht. destruct (fed_inc w n start now _ (e_time e) _ (Hk (e_kind e)) Ht) as (c & E & Hc).
  unfold zoom. rewrite E. eexists. split; [done |]. split; [| apply counter_latencies].
  intros k. rewrite times_of_snoc. destruct (decide (e_kind e = k)) as [<-|Hne].
  - by rewrite view_upd.
  - rewrite counter_other by congruence. by rewrite app_nil_r.
Qed.

Lemma add_latency L h e r :
  RollingPercentile.represents pcfg sz (Latencies r) (latency_log_from L h) -> zlen h + 1 < max_int64 ->
  e_duration e <= max_int64 -> has_latency (e_kind e) = true ->
  exists p, zoom LatenciesL (RollingPercentile.AddDuration (e_duration e) (e_time e)) r
      = (Ret tt, upd LatenciesL p r) /\
    RollingPercentile.represents pcfg sz p (latency_log_from L (h ++ [e])).
Proof.
  intros Hp Hmax Hd Hl. pose proof (latency_log_length L h).
  destruct (RollingPercentile.AddDuration_represents pcfg sz Hsz (e_duration e) (e_time e) (Latencies r) _ Hp Hd)
    as (p & E & Hr); [lia |].
  exists p. rewrite latency_log_snoc. unfold latency_step. rewrite Hl.
  split; [unfold zoom; cbn [view LatenciesL]; by rewrite E | done].
Qed.

Lemma knows_report h e r :
  knows h r -> start <= e_time e <= now -> e_duration e <= max_int64 -> zlen h + 1 < max_int64 ->
  exists r', report e r = (Ret tt, r') /\ knows (h ++ [e]) r'.
Proof.
  intros Hk Ht Hd Hmax. pose proof Hk as (_ & L & HL & Hp).
  destruct (count_event h e r Hk Ht) as (r1 & E1 & Hc & Hl).
  assert (Hplain : has_latency (e_kind e) = false ->
    exists r', zoom (counterL (e_kind e)) (Inc (e_time e)) r = (Ret tt, r') /\ knows (h ++ [e]) r').
  { intros Hno. exists r1. split; [done |]. split; [exact Hc |]. exists L. split; [done |].
    rewrite Hl, latency_log_snoc. unfold latency_step. by rewrite Hno. }
  assert (Hlat : has_latency (e_kind e) = true ->
    exists r', (do! zoom (counterL (e_kind e)) (Inc (e_time e));
      zoom LatenciesL (RollingPercentile.AddDuration (e_duration e) (e_time e))) r = (Ret tt, r') /\
      knows (h ++ [e]) r').
  { intros Hyes. destruct (add_latency L h e r1) as (p & E2 & Hr); [by rewrite Hl | done .. |].
    exists (upd LatenciesL p r1). split; [by rewrite (bind_run _ _ _ _ _ E1) |].
    split; [intros k; rewrite latencies_counter; apply Hc |]. by exists L. }
  unfold report. destruct e as [k t d]. cbn [e_kind e_time e_duration] in *. clear Hc.
  destruct k; first [exact (Hlat eq_refl) | exact (Hplain eq_refl)].
Qed.

Lemma advance_reached L h :
  reached L ->
  RollingPercentile.plog_advance pcfg now (latency_log_from L h) = RollingPercentile.plog_advance pcfg now (latency_log h).
Proof using.
  clear Hsz. intros HL. destruct (latency_log_frame L h) as [He _]. destruct (latency_log_frame 0 h) as [_ Hl].
  unfold RollingPercentile.plog_advance. rewrite He. f_equal. specialize (Hl L). unfold advancedLast.
  rewrite !absIndexAt_set_LastAbsIndex. cbn. destruct HL as [->|(i & Ei & HL)]; [done |]. rewrite Ei.
  rewrite Z.max_r in Hl by lia. unfold latency_log. cbn. lia.
Qed.

(** The percentiles may be read at any instant up to [now], and at [now] they are those of the log. *)
Lemma snapshot_knows h r t :
  knows h r -> t <= now ->
  exists L p, RollingPercentile.SnapshotAt t (Latencies r)
      = (Ret (merge_sort Z.le (RollingPercentile.window_durations pcfg sz
                (RollingPercentile.plog_advance pcfg t (latency_log_from L h)))), p) /\
    knows h (upd LatenciesL p r) /\
    (t = now -> RollingPercentile.plog_advance pcfg now (latency_log_from L h)
                = RollingPercentile.plog_advance pcfg now (latency_log h)).
Proof.
  intros (Hk & L & HL & Hp) Ht.
  destruct (RollingPercentile.SortedDurations_represents pcfg sz Hsz t _ _ Hp) as (p & E & Hp').
  exists L, p. split; [exact E |]. split; [split; [intros k; rewrite latencies_counter; apply Hk |] |].
  - destruct (latency_log_frame L h) as [He Hl]. destruct (absIndexAt pcfg t) as [i|] eqn:Ei.
    + destruct (absIndexAt_mono pcfg t now i Ei Ht) as (j & Ej & Hij).
      exists (Z.max L i). split; [right; exists j; destruct HL as [->|(j' & Ej' & HL)]; split; try done; [lia |] |].
      * rewrite Ej in Ej'. injection Ej' as <-. lia.
      * replace (latency_log_from (Z.max L i) h) with (RollingPercentile.plog_advance pcfg t (latency_log_from L h)); [done |].
        destruct (latency_log_frame (Z.max L i) h) as [He' _]. specialize (Hl i).
        unfold RollingPercentile.plog_advance, advancedLast. rewrite absIndexAt_set_LastAbsIndex, Ei. cbn.
        rewrite He, <- He', <- Hl. by destruct (latency_log_from (Z.max L i) h).
    + exists L. split; [done |].
      replace (latency_log_from L h) with (RollingPercentile.plog_advance pcfg t (latency_log_from L h)); [done |].
      unfold RollingPercentile.plog_advance, advancedLast. rewrite absIndexAt_set_LastAbsIndex, Ei.
      by destruct (latency_log_from L h).
  - intros ->. by apply advance_reached.
Qed.

(** ** Totals *)

Definition total_of (k : run_kind) r : Z := totalSum (view (counterL k) r).

(** One more event of its kind, and the same configuration. *)
Definition one_more (e : event) r r' : Prop :=
  config r' = config r /\
  forall k, total_of k r' = if decide (e_kind e = k) then wrap64 (total_of k r + 1) else total_of k r.

Lemma count_one_more h e r r' :
  knows h r -> zoom (counterL (e_kind e)) (Inc (e_time e)) r = (Ret tt, r') -> one_more e r r'.
Proof.
  intros Hk. unfold zoom. destruct (Inc _ _) as [o c] eqn:E. intros [= -> <-].
  split; [apply counter_config |]. intros k. unfold total_of. destruct (decide (e_kind e = k)) as [<-|Hne].
  - rewrite view_upd. by apply (fed_inc_total _ _ _ _ _ _ _ _ (proj1 Hk (e_kind e)) E).
  - by rewrite counter_other by congruence.
Qed.

Lemma report_one_more h e r r' : knows h r -> report e r = (Ret tt, r') -> one_more e r r'.
Proof.
  intros Hk.
  assert (Hlat : (do! zoom (counterL (e_kind e)) (Inc (e_time e));
      zoom LatenciesL (RollingPercentile.AddDuration (e_duration e) (e_time e))) r = (Ret tt, r') ->
    one_more e r r').
  { intros ([] & r1 & E1 & E2)%bind_inv. destruct (count_one_more h e r r1 Hk E1) as [Hc Ht]. revert E2.
    unfold zoom. destruct (RollingPercentile.AddDuration _ _ _) as [o p]. intros [= -> <-].
    split; [exact Hc |]. intros k. specialize (Ht k). unfold total_of in *. by rewrite <- Ht, <- (latencies_counter k p r1). }
  pose proof (count_one_more h e r r' Hk) as Hinc. clear Hk.
  unfold report. destruct e as [k t d]. cbn [e_kind e_time e_duration] in *.
  destruct k; first [exact Hlat | exact Hinc].
Qed.

(** The stats know the events [h], and their totals are those of [h]. *)
Definition tracks (c : RunStatsConfig U) (h : list event) r : Prop :=
  knows h r /\ config r = c /\ forall k, total_of k r = wrap64 (zlen (times_of k h)).

Lemma tracks_report c h e r :
  tracks c h r -> start <= e_time e <= now -> e_duration e <= max_int64 -> zlen h + 1 < max_int64 ->
  exists r', report e r = (Ret tt, r') /\ tracks c (h ++ [e]) r'.
Proof.
  intros (Hk & Hc & Ht) Het Hd Hmax. destruct (knows_report h e r Hk Het Hd Hmax) as (r' & E & Hk').
  exists r'. split; [done |]. destruct (report_one_more h e r r' Hk E) as [Hc' Ht'].
  split; [done |]. split; [by rewrite Hc' |]. intros k. rewrite Ht', times_of_snoc, Ht.
  unfold zlen. rewrite length_app. destruct (decide (e_kind e = k)); simpl.
  - rewrite wrap64_add_l. f_equal. lia.
  - f_equal. lia.
Qed.

Lemma tracks_events c h h' r :
  tracks c h r -> Forall (fun e => start <= e_time e <= now /\ e_duration e <= max_int64) h' ->
  zlen h + zlen h' < max_int64 ->
  exists r', range_do report h' r = (Ret tt, r') /\ tracks c (h ++ h') r'.
Proof.
  intros Hk Hh'. revert h r Hk. induction Hh' as [|e h' [Ht Hd] Hh' IH]; intros h r Hk Hmax.
  - exists r. by rewrite app_nil_r.
  - unfold zlen in Hmax. cbn [length] in Hmax.
    destruct (tracks_report c h e r Hk Ht Hd) as (r1 & E1 & Hk1); [unfold zlen; lia |].
    destruct (IH (h ++ [e]) r1 Hk1) as (r2 & E2 & Hk2); [unfold zlen; rewrite length_app; simpl; lia |].
    exists r2. cbn [range_do]. rewrite (bind_run _ _ _ _ _ E1). by rewrite <- app_assoc in Hk2.
Qed.

Hypothesis Hw : 0 < w.
Hypothesis Hn : 0 < n.
Hypothesis Hnow : start <= now.
Hypothesis Hrange : now - start <= max_int64.

(** The number of events of a kind in the window. *)
Definition count_of (k : run_kind) (h : list event) : Z := in_window w n start now (times_of k h).

Lemma length_times_of k h : zlen (times_of k h) <= zlen h.
Proof using.
  clear. unfold zlen. induction h as [|e h IH]; [done |]. rewrite times_of_cons, length_app.
  destruct (decide (e_kind e = k)); simpl; lia.
Qed.

Lemma knows_counter k h r c :
  knows h r -> fed w n start now (times_of k h) c -> knows h (upd (counterL k) c r).
Proof using.
  clear. intros (Hk & Hp) Hc. split; [| by rewrite counter_latencies]. intros k'.
  destruct (decide (k' = k)) as [->|Hne]; [by rewrite view_upd |]. by rewrite counter_other.
Qed.

Lemma sum_knows k h r :
  knows h r -> zlen h < max_int64 ->
  exists r', zoom (counterL k) (RollingSumAt now) r = (Ret (count_of k h), r') /\ knows h r'.
Proof.
  intros Hk Hmax. pose proof (length_times_of k h).
  destruct (fed_sum w n start now Hw Hn Hnow Hrange _ _ (proj1 Hk k)) as (c & E & Hc); [lia |].
  unfold zoom. rewrite E. eexists. split; [done |]. by apply knows_counter.
Qed.

Lemma three_kinds h :
  zlen (times_of KSuccess h) + zlen (times_of KErrFailure h) + zlen (times_of KErrTimeout h) <= zlen h.
Proof.
  unfold zlen. induction h as [|e h IH]; [done |]. rewrite !times_of_cons, !length_app.
  destruct (e_kind e); simpl; lia.
Qed.

Lemma count_of_bounds k h : 0 <= count_of k h <= zlen (times_of k h).
Proof. apply in_window_bounds. Qed.

Lemma ErrorsAt_knows h r :
  knows h r -> zlen h < max_int64 ->
  exists r', ErrorsAt now r = (Ret (count_of KErrFailure h + count_of KErrTimeout h), r') /\ knows h r'.
Proof.
  intros Hk Hmax. destruct (sum_knows KErrFailure h r Hk Hmax) as (r1 & E1 & Hk1).
  destruct (sum_knows KErrTimeout h r1 Hk1 Hmax) as (r2 & E2 & Hk2). exists r2. split; [| done].
  unfold ErrorsAt. rewrite (bind_run _ _ _ _ _ E1), (bind_run _ _ _ _ _ E2). unfold ret.
  pose proof (three_kinds h). pose proof (count_of_bounds KErrFailure h).
  pose proof (count_of_bounds KErrTimeout h). pose proof (zlen_nonneg (times_of KSuccess h)).
  rewrite wrap64_id by (unfold min_int64; lia). done.
Qed.

Lemma LegitimateAttemptsAt_knows h r :
  knows h r -> zlen h < max_int64 ->
  exists r', LegitimateAttemptsAt now r
      = (Ret (count_of KSuccess h + (count_of KErrFailure h + count_of KErrTimeout h)), r') /\ knows h r'.
Proof.
  intros Hk Hmax. destruct (sum_knows KSuccess h r Hk Hmax) as (r1 & E1 & Hk1).
  destruct (ErrorsAt_knows h r1 Hk1 Hmax) as (r2 & E2 & Hk2). exists r2. split; [| done].
  unfold LegitimateAttemptsAt. rewrite (bind_run _ _ _ _ _ E1), (bind_run _ _ _ _ _ E2). unfold ret.
  pose proof (three_kinds h). pose proof (count_of_bounds KErrFailure h).
  pose proof (count_of_bounds KErrTimeout h). pose proof (count_of_bounds KSuccess h).
  rewrite wrap64_id by (unfold min_int64; lia). done.
Qed.

Lemma ErrorPercentageAt_knows h r :
  knows h r -> zlen h < max_int64 ->
  let errors := count_of KErrFailure h + count_of KErrTimeout h in
  let attempts := count_of KSuccess h + errors in
  exists r', ErrorPercentageAt now r
    = (Ret (if attempts =? 0 then float64_of_int 0
            else fdiv (float64_of_int errors) (float64_of_int attempts)), r') /\ knows h r'.
Proof.
  intros Hk Hmax. cbv zeta. destruct (LegitimateAttemptsAt_knows h r Hk Hmax) as (r1 & E1 & Hk1).
  destruct (ErrorsAt_knows h r1 Hk1 Hmax) as (r2 & E2 & Hk2).
  unfold ErrorPercentageAt. rewrite (bind_run _ _ _ _ _ E1). destruct (_ =? 0); [by exists r1 |].
  exists r2. by rewrite (bind_run _ _ _ _ _ E2).
Qed.
End Histories.

(** ** New stats *)

Section New.
Context {U : Type} (time_Now : M U Time).

Definition effective (cfg : RunStatsConfig U) : RunStatsConfig U :=
  Merge (sanitize cfg) (defaultRunStatsConfig time_Now).

Lemma merge_sanitized a b : 0 < b -> 0 < merge_zero (not_negative a) b.
Proof. unfold merge_zero, not_negative. intros Hb. zbool; lia. Qed.

Lemma merge_kept a b : 0 < a -> merge_zero (not_negative a) b = a.
Proof. unfold merge_zero, not_negative. intros Ha. zbool; lia. Qed.

Lemma effective_config_positive cfg :
  let c := effective cfg in
  0 < RollingStatsDuration c /\ 0 < RollingStatsNumBuckets c /\ 0 < RollingPercentileDuration c /\
  0 < RollingPercentileNumBuckets c /\ 0 < RollingPercentileBucketSize c.
Proof. simpl. unfold Second. repeat split; apply merge_sanitized; lia. Qed.

Lemma effective_clock cfg : exists f, Now (effective cfg) = Some f.
Proof. unfold effective, Merge. simpl. destruct (Now cfg); simpl; by eexists. Qed.

(** The widths of the buckets. *)
Definition stats_width (c : RunStatsConfig U) : Duration := Z.quot (RollingStatsDuration c) (RollingStatsNumBuckets c).
Definition percentile_width (c : RunStatsConfig U) : Duration :=
  Z.quot (RollingPercentileDuration c) (RollingPercentileNumBuckets c).

(** What [SetConfigNotThreadSafe] makes: counters all alike, and percentiles. *)
Lemma SetConfig_run cfg r u f start u' :
  let c := effective cfg in
  Now c = Some f -> f u = (Ret start, u') ->
  exists cnt p,
    NewRollingCounter (stats_width c) (RollingStatsNumBuckets c) start = Ret cnt /\
    RollingPercentile.NewRollingPercentile (percentile_width c) (RollingPercentileNumBuckets c)
      (RollingPercentileBucketSize c) start = Ret p /\
    SetConfigNotThreadSafe time_Now cfg (r, u) = (Ret tt, (mkRunStats cnt cnt cnt cnt cnt cnt cnt p c, u')).
Proof.
  intros c Hf Eu. destruct (effective_config_positive cfg) as (Hd & Hn & Hpd & Hpn & Hps). fold c in Hd, Hn, Hpd, Hpn, Hps.
  destruct (NewRollingCounter (stats_width c) (RollingStatsNumBuckets c) start) as [cnt| | |] eqn:Ec;
    [| unfold NewRollingCounter in Ec; destruct (Z.ltb_spec (RollingStatsNumBuckets c) 0); [lia | discriminate] ..].
  destruct (RollingPercentile.NewRollingPercentile (percentile_width c) (RollingPercentileNumBuckets c)
    (RollingPercentileBucketSize c) start) as [p| | |] eqn:Ep;
    [| exfalso; revert Ep; unfold RollingPercentile.NewRollingPercentile, RollingPercentile.makeBuckets,
         RollingPercentile.newDurationsBucket; zbool; try lia; discriminate ..].
  exists cnt, p. split; [done |]. split; [done |].
  unfold SetConfigNotThreadSafe. cbv zeta. fold (effective cfg). fold c. unfold bind at 1, modify at 1. rewrite Hf.
  unfold bind at 1, zoom. cbn [view upd fst snd]. rewrite Eu. unfold int_div.
  destruct (Z.eqb_spec (RollingStatsNumBuckets c) 0); [lia |]. fold (stats_width c).
  destruct (Z.eqb_spec (RollingPercentileNumBuckets c) 0); [lia |]. fold (percentile_width c).
  cbn [of_option]. rewrite !(bind_run (ret _) _ _ _ _ eq_refl). unfold rollingCounters. cbn [range_do].
  unfold bind, of_outcome. rewrite Ec, Ep. reflexivity.
Qed.

Lemma NewRollingCounter_total w n start cnt : NewRollingCounter w n start = Ret cnt -> totalSum cnt = 0.
Proof. unfold NewRollingCounter. destruct (n <? 0); [done |]. by intros [= <-]. Qed.

(** The new stats have been told nothing. *)
Lemma tracks_new c start now cnt p :
  let n := RollingStatsNumBuckets c in let w := stats_width c in
  let pcfg := mkRollingBuckets (RollingPercentileNumBuckets c) start (percentile_width c) 0 in
  let sz := Z.to_nat (RollingPercentileBucketSize c) in
  NewRollingCounter w n start = Ret cnt ->
  RollingPercentile.NewRollingPercentile (percentile_width c) (RollingPercentileNumBuckets c)
    (RollingPercentileBucketSize c) start = Ret p ->
  0 < n -> 0 < w -> start <= now -> now - start <= max_int64 -> max_int64 / w + n <= max_int64 ->
  0 < RollingPercentileNumBuckets c -> 0 < RollingPercentileBucketSize c -> 0 < percentile_width c ->
  max_int64 / percentile_width c + RollingPercentileNumBuckets c <= max_int64 ->
  tracks w n start now pcfg sz c [] (mkRunStats cnt cnt cnt cnt cnt cnt cnt p c).
Proof.
  intros n w pcfg sz Ec Ep Hn Hw Hnow Hrange Hm Hpn Hps Hpw Hpm. split; [| split; [done |]].
  - split; [| exists 0; split; [by left |]; by apply RollingPercentile.durations_New_represents].
    intros k. destruct k; by apply fed_new.
  - intros k. rewrite <- (NewRollingCounter_total _ _ _ _ Ec) at 1. by destruct k.
Qed.

(** The same for fallbacks. *)
Definition fallback_effective (cfg : FallbackStatsConfig U) : FallbackStatsConfig U :=
  Fallback_Merge (Fallback_sanitize cfg) (defaultFallbackStatsConfig time_Now).

Lemma fallback_effective_clock cfg : exists f, FallbackNow (fallback_effective cfg) = Some f.
Proof. unfold fallback_effective, Fallback_Merge. simpl. destruct (FallbackNow cfg); simpl; by eexists. Qed.

Lemma Fallback_SetConfig_run cfg r u f start u' :
  let c := fallback_effective cfg in
  FallbackNow c = Some f -> f u = (Ret start, u') ->
  exists cnt,
    NewRollingCounter (Z.quot (FallbackRollingStatsDuration c) (FallbackRollingStatsNumBuckets c))
      (FallbackRollingStatsNumBuckets c) start = Ret cnt /\
    Fallback_SetConfigNotThreadSafe time_Now cfg (r, u) = (Ret tt, (mkFallbackStats cnt cnt cnt, u')).
Proof.
  intros c Hf Eu. assert (Hn : 0 < FallbackRollingStatsNumBuckets c) by (apply merge_sanitized; simpl; lia).
  set (w := Z.quot _ _). destruct (NewRollingCounter w (FallbackRollingStatsNumBuckets c) start) as [cnt| | |] eqn:Ec;
    [| unfold NewRollingCounter in Ec; destruct (Z.ltb_spec (FallbackRollingStatsNumBuckets c) 0); [lia | discriminate] ..].
  exists cnt. split; [done |].
  unfold Fallback_SetConfigNotThreadSafe. cbv zeta. fold (fallback_effective cfg). fold c. rewrite Hf.
  unfold bind at 1, zoom. cbn [view upd fst snd]. rewrite Eu. unfold int_div.
  destruct (Z.eqb_spec (FallbackRollingStatsNumBuckets c) 0); [lia |]. fold w.
  cbn [of_option]. rewrite !(bind_run (ret _) _ _ _ _ eq_refl). cbn [range_do].
  unfold bind, of_outcome. rewrite Ec. reflexivity.
Qed.

Lemma find_RunStats_run name (w : FWorld (U := U)) :
  mu (factory w) = false -> find_RunStats name w = (Ret (default ∅ (runStatsByCircuit (factory w)) !! name), w).
Proof. destruct w as [[rc fc rm fm m] rh fh u]. simpl. by intros ->. Qed.

Lemma find_FallbackStats_run name (w : FWorld (U := U)) :
  mu (factory w) = false ->
  find_FallbackStats name w = (Ret (default ∅ (fallbackStatsByCircuit (factory w)) !! name), w).
Proof. destruct w as [[rc fc rm fm m] rh fh u]. simpl. by intros ->. Qed.
End New.

(** ** Histories of fallbacks *)

Inductive fallback_kind := FSuccess | FFailure | FRejection.

#[export] Instance fallback_kind_eq_dec : EqDecision fallback_kind.
Proof. solve_decision. Defined.

(** The counter of each kind. *)
Definition fallbackL (k : fallback_kind) : lens FallbackStats RollingCounter :=
  match k with
  | FSuccess => FallbackSuccessesL
  | FFailure => FallbackErrFailuresL
  | FRejection => FallbackErrConcurrencyLimitRejectsL
  end.

#[export] Instance fallbackL_laws k : LensLaws (fallbackL k).
Proof. by destruct k; split; intros; destruct s. Qed.

(** A report, by its kind and its instant. *)
Definition fallback_report (e : fallback_kind * Time) : M FallbackStats unit :=
  match e.1 with
  | FSuccess => FallbackSuccess FallbackStats_fallback Background e.2 0
  | FFailure => FallbackErrFailure FallbackStats_fallback Background e.2 0
  | FRejection => FallbackErrConcurrencyLimitReject FallbackStats_fallback Background e.2
  end.

Definition fallbacks_of (k : fallback_kind) (h : list (fallback_kind * Time)) : list Time :=
  omap (fun e => if decide (e.1 = k) then Some e.2 else None) h.

Section FallbackHistories.
Context (w n start now : Z).
Implicit Types (r : FallbackStats) (h : list (fallback_kind * Time)).

Definition fallback_tracks h r : Prop :=
  forall k, fed w n start now (fallbacks_of k h) (view (fallbackL k) r) /\
    totalSum (view (fallbackL k) r) = wrap64 (zlen (fallbacks_of k h)).

Lemma fallbackL_other k k' c r : k <> k' -> view (fallbackL k) (upd (fallbackL k') c r) = view (fallbackL k) r.
Proof. by destruct k, k'. Qed.

Lemma length_fallbacks_of k h : zlen (fallbacks_of k h) <= zlen h.
Proof using.
  clear. unfold zlen. induction h as [|e h IH]; [done |]. unfold fallbacks_of in *. cbn [omap list_omap].
  destruct (decide (e.1 = k)); cbn [length]; lia.
Qed.

Lemma fallback_tracks_report h e r :
  fallback_tracks h r -> start <= e.2 <= now ->
  exists r', fallback_report e r = (Ret tt, r') /\ fallback_tracks (h ++ [e]) r'.
Proof.
  intros Hk Ht. destruct (Hk e.1) as [Hf Htot].
  destruct (fed_inc w n start now _ e.2 _ Hf Ht) as (c & E & Hc).
  exists (upd (fallbackL e.1) c r). split.
  - transitivity (zoom (fallbackL e.1) (Inc e.2) r); [by destruct e as [[] t] |]. unfold zoom. by rewrite E.
  - intros k. unfold fallbacks_of. rewrite omap_app. cbn [omap list_omap].
    destruct (decide (e.1 = k)) as [<-|Hne].
    + rewrite view_upd. split; [done |]. rewrite (fed_inc_total _ _ _ _ _ _ _ _ Hf E), Htot, wrap64_add_l.
      unfold zlen. rewrite length_app. simpl. f_equal. unfold fallbacks_of. lia.
    + rewrite fallbackL_other, app_nil_r by congruence. apply Hk.
Qed.

Lemma fallback_tracks_events h h' r :
  fallback_tracks h r -> Forall (fun e => start <= e.2 <= now) h' ->
  exists r', range_do fallback_report h' r = (Ret tt, r') /\ fallback_tracks (h ++ h') r'.
Proof.
  intros Hk Hh'. revert h r Hk. induction Hh' as [|e h' Ht Hh' IH]; intros h r Hk.
  - exists r. by rewrite app_nil_r.
  - destruct (fallback_tracks_report h e r Hk Ht) as (r1 & E1 & Hk1).
    destruct (IH (h ++ [e]) r1 Hk1) as (r2 & E2 & Hk2).
    exists r2. cbn [range_do]. rewrite (bind_run _ _ _ _ _ E1). by rewrite <- app_assoc in Hk2.
Qed.

Lemma fallback_tracks_new cnt :
  NewRollingCounter w n start = Ret cnt -> 0 < n -> 0 < w -> start <= now -> max_int64 / w + n <= max_int64 ->
  fallback_tracks [] (mkFallbackStats cnt cnt cnt).
Proof.
  intros Ec Hn Hw Hnow Hm k. pose proof (NewRollingCounter_total _ _ _ _ Ec).
  destruct k; (split; [by apply fed_new | done]).
Qed.
End FallbackHistories.

(** * Properties *)

(** C20: the statistics of a circuit are exact.  After [SetConfigNotThreadSafe] with any
    configuration that gives buckets of a positive width, and then any events up to [now], in
    any order: the rolling sum of each kind is the number of its events in the window, the
    error percentage is the quotient of failures and timeouts by these and the successes (0
    when there are none), and the latencies are the sorted durations of the percentiles'
    window, of all events but rejections and short circuits. *)
Theorem run_stats_are_exact {U} (time_Now : M U Time) cfg r0 u f start u' h now :
  let c := effective time_Now cfg in
  let n := RollingStatsNumBuckets c in let w := stats_width c in
  let pcfg := mkRollingBuckets (RollingPercentileNumBuckets c) start (percentile_width c) 0 in
  let sz := Z.to_nat (RollingPercentileBucketSize c) in
  let count k := in_window w n start now (times_of k h) in
  let errors := count KErrFailure + count KErrTimeout in
  let attempts := count KSuccess + errors in
  Now c = Some f -> f u = (Ret start, u') -> 0 < w -> 0 < percentile_width c ->
  max_int64 / w + n <= max_int64 ->
  max_int64 / percentile_width c + RollingPercentileNumBuckets c <= max_int64 ->
  Forall (fun e => start <= e_time e <= now /\ e_duration e <= max_int64) h ->
  start <= now -> now - start <= max_int64 -> zlen h < max_int64 ->
  exists r r', SetConfigNotThreadSafe time_Now cfg (r0, u) = (Ret tt, (r, u')) /\
    range_do report h r = (Ret tt, r') /\
    (forall k, exists r2, zoom (counterL k) (RollingSumAt now) r' = (Ret (count k), r2)) /\
    (exists r2, ErrorPercentageAt now r'
       = (Ret (if attempts =? 0 then float64_of_int 0
               else fdiv (float64_of_int errors) (float64_of_int attempts)), r2)) /\
    (exists p, RollingPercentile.SnapshotAt now (Latencies r')
       = (Ret (merge_sort Z.le (RollingPercentile.window_durations pcfg sz
                 (RollingPercentile.plog_advance pcfg now (latency_log pcfg h)))), p)).
Proof.
  intros c n w pcfg sz count errors attempts Hf Eu Hw Hpw Hm Hpm Hh Hnow Hrange Hlen.
  destruct (effective_config_positive time_Now cfg) as (_ & Hn & _ & Hpn & Hps). fold c in Hn, Hpn, Hps.
  destruct (SetConfig_run time_Now cfg r0 u f start u' Hf Eu) as (cnt & p & Ec & Ep & E). fold c n w in Ec, Ep.
  assert (Hsz : (0 < sz)%nat) by (unfold sz; lia).
  assert (Hk : tracks w n start now pcfg sz c [] (mkRunStats cnt cnt cnt cnt cnt cnt cnt p c))
    by (eapply tracks_new; eauto).
  destruct (tracks_events w n start now pcfg sz Hsz c [] h _ Hk Hh) as (r' & E' & Hk' & _);
    [unfold zlen in *; simpl; lia |]. simpl in Hk'.
  eexists _, r'. split; [exact E |]. split; [exact E' |]. split; [| split].
  - intros k. unfold count. destruct (sum_knows w n start now pcfg sz Hsz Hw Hn Hnow Hrange k h r' Hk' Hlen) as (r2 & E2 & _).
    by exists r2.
  - destruct (ErrorPercentageAt_knows w n start now pcfg sz Hsz Hw Hn Hnow Hrange h r' Hk' Hlen) as (r2 & E2 & _).
    by exists r2.
  - destruct (snapshot_knows w n start now pcfg sz Hsz h r' now Hk') as (L & q & E2 & _ & Hs); [done |].
    rewrite (Hs eq_refl) in E2. by exists q.
Qed.

(** [StatFactory.CreateConfig] never panics, whatever sizes the factory is configured
    with: on a factory nobody is using, with clocks that return, it makes new stats with every
    unset or negative setting replaced by its default, hands out a configuration that reports
    to exactly these two, files them under the circuit's name and leaves every other name as
    it was. *)
Theorem stat_factory_creates {OS CS U} (time_Now : M U Time) name (w : FWorld) :
  let s := factory (U := U) w in
  let rcfg := effective time_Now (Merge RunStatsConfig_zero (RunConfig s)) in
  mu s = false -> (forall f u, (Now rcfg = Some f \/
     FallbackNow (fallback_effective time_Now (Fallback_Merge FallbackStatsConfig_zero (FallbackConfig s))) = Some f) ->
     exists t u', f u = (Ret t, u')) ->
  let rs := length (run_heap w) in let fs := length (fallback_heap w) in
  exists (cfg : Config OS CS U) w', CreateConfig time_Now name w = (Ret cfg, w') /\
    Metrics_ cfg = mkMetricsCollectors [rs] [fs] [] /\
    (exists r, run_heap w' = run_heap w ++ [r] /\ config r = rcfg) /\
    find_RunStats name w' = (Ret (Some rs), w') /\ find_FallbackStats name w' = (Ret (Some fs), w') /\
    (forall other, other <> name ->
       (find_RunStats other w').1 = (find_RunStats other w).1 /\
       (find_FallbackStats other w').1 = (find_FallbackStats other w).1) /\
    0 < RollingStatsNumBuckets rcfg /\ 0 < RollingPercentileNumBuckets rcfg /\
    (forall z, RollingStatsNumBuckets (RunConfig s) = z -> 0 < z -> RollingStatsNumBuckets rcfg = z).
Proof.
  intros s rcfg Hmu Hclock rs fs.
  destruct (effective_config_positive time_Now (Merge RunStatsConfig_zero (RunConfig s))) as (_ & Hn & _ & Hpn & _).
  fold rcfg in Hn, Hpn. destruct (effective_clock time_Now (Merge RunStatsConfig_zero (RunConfig s))) as (f & Hf).
  destruct (Hclock f (fenv w) (or_introl Hf)) as (t & u1 & E1).
  destruct (SetConfig_run time_Now _ RunStats_zero (fenv w) f t u1 Hf E1) as (cnt & p & _ & _ & Er). fold rcfg in Er.
  set (fcfg := Fallback_Merge FallbackStatsConfig_zero (FallbackConfig s)) in *.
  destruct (fallback_effective_clock time_Now fcfg) as (g & Hg).
  destruct (Hclock g u1 (or_intror Hg)) as (t2 & u2 & E2).
  destruct (Fallback_SetConfig_run time_Now fcfg FallbackStats_zero u1 g t2 u2 Hg E2) as (fc & _ & Ef).
  destruct w as [[rc fcf rm fm m] rh fh u]. simpl in Hmu. subst m. unfold s in *. cbn [RunConfig FallbackConfig fenv factory] in *.
  eexists _, _. split.
  { unfold CreateConfig. unfold bind at 1, gets at 1. unfold bind at 1, new_RunStats. cbn [factory RunConfig fenv].
    rewrite Er. unfold bind at 1, gets at 1. unfold bind at 1, new_FallbackStats. cbn [factory FallbackConfig fenv].
    fold fcfg. rewrite Ef. reflexivity. }
  split; [done |]. split; [by eexists |].
  split; [rewrite find_RunStats_run by done; simpl; by rewrite lookup_insert_eq |].
  split; [rewrite find_FallbackStats_run by done; simpl; by rewrite lookup_insert_eq |].
  split; [| split; [done | split; [done |]]].
  - intros other Hne. rewrite !find_RunStats_run, !find_FallbackStats_run by done. simpl.
    by rewrite !lookup_insert_ne.
  - intros z <- Hz. by apply merge_kept.
Qed.

(** * Witnesses *)

Module RunStatsSample.
(** A clock that stands still, at the number the environment is. *)
Definition clock : M Z Time := fun u => (Ret u, u).

Definition events : list event :=
  [mkEvent KSuccess 1000 30; mkEvent KErrFailure 1005 10; mkEvent KErrShortCircuit 1006 0;
   mkEvent KErrTimeout 1012 20; mkEvent KSuccess 1019 5].

(** Two buckets of 10ns each, and percentiles in one bucket of 60. *)
Definition config : RunStatsConfig Z := mkRunStatsConfig None 20 2 60 1 (-4).

Lemma run_stats_are_exact_witness :
  exists r r', SetConfigNotThreadSafe clock config (RunStats_zero, 1000) = (Ret tt, (r, 1000)) /\
    range_do report events r = (Ret tt, r') /\
    (exists r2, zoom (counterL KSuccess) (RollingSumAt 1020) r' = (Ret 1, r2)) /\
    (exists r2, ErrorPercentageAt 1020 r' = (Ret (fdiv (float64_of_int 1) (float64_of_int 2)), r2)) /\
    (exists p, RollingPercentile.SnapshotAt 1020 (Latencies r') = (Ret [5; 10; 20; 30], p)).
Proof.
  destruct (run_stats_are_exact clock config RunStats_zero 1000 clock 1000 1000 events 1020)
    as (r & r' & E & E' & Hsum & Hpct & Hlat).
  7: repeat constructor; vm_compute; congruence.
  1-9: first [by vm_compute | vm_compute; congruence].
  exists r, r'. split; [exact E |]. split; [exact E' |].
  split; [exact (Hsum KSuccess) | split; [exact Hpct | exact Hlat]].
Defined.

(** A factory with a negative number of buckets. *)
Definition start : FWorld (U := Z) :=
  mkFWorld (mkStatFactory config (mkFallbackStatsConfig 0 None (-1)) None None false) [] [] 1000.

Lemma stat_factory_creates_witness :
  exists (cfg : Config unit unit Z) w', CreateConfig clock "db" start = (Ret cfg, w') /\
    Metrics_ cfg = mkMetricsCollectors [0%nat] [0%nat] [] /\
    find_RunStats "db" w' = (Ret (Some 0%nat), w').
Proof.
  destruct (stat_factory_creates (OS := unit) (CS := unit) clock "db" start)
    as (cfg & w' & E & Hm & _ & Hr & _); [done | |].
  - intros f u [[= <-]|[= <-]]; by exists u, u.
  - exists cfg, w'. split; [exact E | split; [exact Hm | exact Hr]].
Defined.
End RunStatsSample.
End RunStats.
