(* ===== verification/CircuitStats.v ===== *)
(** circuit.go with metrics/rolling/rolling.go: a circuit that reports to rolling statistics.

    Circuit.v's calls report each command to the run metrics collectors, one of which is a [RunStats]
    in the environment.  Here the two meet.  [call_events] says what a call has to report: the event of
    its command, with the kind, the instant and the duration of its end, or that it was rejected or
    throttled, or nothing, when the opener prevented it or its command did not return.  Whatever the
    calls do - and however they end - the statistics are those of exactly these events
    ([circuit_statistics_are_exact]).  [tells] is the logic of the proof: what a computation of the
    circuit tells the statistics. *)

From S2P Require Import Prelude GoMonad GoFloat RollingBuckets RollingCounter RollingPercentile Errors Metrics Closers Config Circuit CircuitFrames CircuitFacts CircuitTheorems RunStats.

Open Scope Z_scope.

Module CircuitStats.
Import RunStats.

(** * What a call has to report *)

Section Events.
Context {OS CS U : Type} `{!ClosedToOpen OS} `{!OpenToClosed CS} `{!UserCode OS CS U}.
Abbreviation W := (World OS CS U).

(** The command runs in [ctx]: one event when it returned. *)
Definition command_events (ctx orig : Context) (t exp : Time) (f : Context -> M W (option error)) (x : W) : list event :=
  match f ctx x with
  | (Ret r, x1) =>
      match Circuit.now x1 with
      | (Ret done, x2) => [mkEvent (verdict x2 orig r exp done) done (time_Sub done t)]
      | _ => []
      end
  | _ => []
  end.

(** As the [n]-th of the commands in flight, at most [maxConcurrent] if that is not negative. *)
Definition counted_events ctx (t : Time) (maxConcurrent n : Z) f (x : W) : list event :=
  if (0 <=? maxConcurrent) && (maxConcurrent <? n) then [mkEvent KErrConcurrencyLimitReject t 0]
  else
    let timeout := a_ExecutionTimeout (threadSafeConfig (circ x)) in
    if 0 <? timeout then command_events (WithDeadline ctx (time_Add t timeout)) ctx t (time_Add t timeout) f x
    else command_events ctx ctx t 0 f x.

(** A call that the opener prevents has nothing to report. *)
Definition admitted_events ctx (t : Time) (maxConcurrent : Z) f (x : W) : list event :=
  match with_opener (Prevent ctx t) x with
  | (Ret prevented, x1) =>
      let n := wrap64 (concurrentCommands (circ x1) + 1) in
      if prevented : bool then [] else counted_events ctx t maxConcurrent n f (upd concurrentCommandsL n x1)
  | _ => []
  end.

Definition call_events ctx (f : Context -> M W (option error)) (x : W) : list event :=
  match Circuit.now x with
  | (Ret t, x1) =>
      let maxConcurrent := a_MaxConcurrentRequests (threadSafeConfig (circ x1)) in
      match allowNewRun ctx t maxConcurrent x1 with
      | (Ret allowed, x2) =>
          if allowed then admitted_events ctx t maxConcurrent f x2 else [mkEvent KErrShortCircuit t 0]
      | _ => []
      end
  | _ => []
  end.

Lemma call_events_length ctx f x : (length (call_events ctx f x) <= 1)%nat.
Proof.
  unfold call_events, admitted_events, counted_events, command_events. repeat (case_match; simpl; try lia).
Qed.
End Events.

(** * How a call ended *)

(** The kind of event a command that returned [r] may be reported as. *)
Definition fits (k : run_kind) (r : option error) : Prop :=
  match k with
  | KSuccess => r = None
  | KErrTimeout => IsBadRequest r = false
  | KErrBadRequest => IsBadRequest r = true
  | KErrFailure | KErrInterrupt => r <> None /\ IsBadRequest r = false
  | KErrShortCircuit | KErrConcurrencyLimitReject => False
  end.

(** [run] returned [r] and told the statistics [evs]. *)
Inductive told (start upto : Time) : option error -> list event -> Prop :=
| ToldNothing : told start upto (Some errCircuitOpen) []     (* prevented by the opener *)
| ToldRejected t : start <= t <= upto -> told start upto (Some errCircuitOpen) [mkEvent KErrShortCircuit t 0]
| ToldThrottled t :
    start <= t <= upto -> told start upto (Some errThrottledConcurrentCommands) [mkEvent KErrConcurrencyLimitReject t 0]
| ToldRan r k t d : start <= t <= upto -> fits k r -> told start upto r [mkEvent k t d].

(** [Execute] returned [x] and told [evs]: what [run] returned, or what the fallback made of its error. *)
Definition executed (start upto : Time) (x : option error) (evs : list event) : Prop :=
  exists r, told start upto r evs /\ (x = r \/ r <> None /\ IsBadRequest r = false).

(** * The statistics in the environment *)

Section Stats.
Context {OS CS U V : Type} `{!ClosedToOpen OS} `{!OpenToClosed CS} `{!UserCode OS CS U}.
Context (statsL : lens U (RunStats V)) (stats_id : nat) (before after : list nat).
Context (clk : M U Time) (w n start upto : Z) (pcfg : RollingBuckets) (sz : nat) (c : RunStatsConfig V).
Abbreviation W := (World OS CS U).

(** A circuit in use that reports to its closer, its opener and the users' objects, the statistics
    among them; [s] are the statistics. *)
Definition shows (s : RunStats V) (x : W) : Prop :=
  CmdMetricCollector (circ x) = RefOpenToClose :: RefClosedToOpen :: map RefUser (before ++ stats_id :: after) /\
  notThreadSafeConfigMu (circ x) = false /\ a_Disabled (threadSafeConfig (circ x)) = false /\
  OpenToClose (circ x) <> None /\ timeNow (circ x) = Some clk /\ view statsL (env x) = s.

(** Code that has nothing to do with the statistics. *)
Definition silent {A} (m : M W A) : Prop := forall s, stable (shows s) m.

(** The statistics are reported to as [*RunStats] is, and the rest of the program leaves them alone.
    Its clock gives instants from [start] to [upto]. *)
Class Aside : Prop := {
  aside_lens : forall s u, view statsL (upd statsL s u) = s;
  aside_stats : forall k ctx t d,
    run_call (user_run stats_id) k ctx t d =~ zoom (lens_comp envL statsL) (run_call (RunStats_run V) k ctx t d);
  aside_ids : stats_id ∉ before ++ after;
  aside_run : forall id k ctx t d, id <> stats_id -> silent (run_call (user_run id) k ctx t d);
  aside_fallbacks : forall s, FallbacksKeep (shows s);
  aside_listeners : forall s, ListenersKeep (shows s);
  aside_clock : forall u, view statsL (snd (clk u)) = view statsL u;
  aside_times : forall u t u', clk u = (Ret t, u') -> start <= t <= upto;
  aside_cancel : forall ctx u, view statsL (ctx_cancel ctx u) = view statsL u
}.

Context {aside : Aside}.

Lemma silent_now : silent Circuit.now.
Proof using aside.
  intros s x (H1 & H2 & H3 & H4 & H5 & H6). rewrite now_spec, H5. pose proof (aside_clock (env x)) as Hc.
  destruct (clk (env x)) as [o u]. cbn in *. repeat split; try done. cbn. congruence.
Qed.

Lemma now_in_time s x t x' : shows s x -> Circuit.now x = (Ret t, x') -> start <= t <= upto.
Proof using aside.
  intros (H1 & H2 & H3 & H4 & H5 & H6). rewrite now_spec, H5. destruct (clk (env x)) as [o u] eqn:E.
  intros [= -> _]. by eapply aside_times.
Qed.

#[local] Instance shows_framed s : Framed (shows s).
Proof using aside. split; [by apply silent_now | done |]. intros cs x (H1 & H2 & H3 & H4 & H5 & H6). by repeat split. Qed.

#[local] Instance shows_counters s : FramedCounters (shows s).
Proof using. by split. Qed.

#[local] Instance shows_transitions s : FramedTransitions (shows s).
Proof using. by split. Qed.

(** After the events [h]. *)
Definition knowing (h : list event) (x : W) : Prop :=
  exists s, shows s x /\ tracks w n start upto pcfg sz c h s.

(** ** What a computation tells *)

(** [m] has to report [E x] when it starts at [x], and it does if it returns; [Q] relates what it
    returns to the events.  One that panics may do so before it reports. *)
Definition reports {A} (x : W) (m : M W A) (due evs : list event) : Prop :=
  evs = due \/ evs = [] /\ forall a, fst (m x) <> Ret a.

Lemma reports_length {A} x (m : M W A) due evs : (length due <= 1)%nat -> reports x m due evs -> (length evs <= 1)%nat.
Proof using. clear. intros Hl [->|[-> _]]; [done | cbn; lia]. Qed.

Definition tells {A} (m : M W A) (E : W -> list event) (Q : A -> list event -> Prop) : Prop :=
  forall h x, zlen h + 1 < max_int64 -> knowing h x ->
  exists evs, reports x m (E x) evs /\ knowing (h ++ evs) (snd (m x)) /\ forall a, fst (m x) = Ret a -> Q a evs.

Lemma tells_ext {A} (m m' : M W A) E Q : m =~ m' -> tells m' E Q -> tells m E Q.
Proof using. intros Em H h x Hh Hx. unfold reports. rewrite Em. by apply H. Qed.

Lemma tells_silent {A} (m : M W A) (Q : A -> list event -> Prop) :
  silent m -> (forall x a x', m x = (Ret a, x') -> Q a []) -> tells m (fun _ => []) Q.
Proof using.
  intros Hm HQ h x Hh (s & Hs & Ht). exists []. split; [by left |]. rewrite app_nil_r.
  split; [by exists s; split; [apply Hm |] |]. intros a Ha. apply (HQ x a (snd (m x))). by rewrite <- Ha, <- surjective_pairing.
Qed.

(** What a silent first part leaves to report. *)
Definition then_due {A} (m : M W A) (E : A -> W -> list event) (x : W) : list event :=
  match m x with (Ret a, x') => E a x' | _ => [] end.

Lemma tells_bind_silent {A B} (m : M W A) (f : A -> M W B) E Q :
  silent m -> (forall s x a x', shows s x -> m x = (Ret a, x') -> tells (f a) (E a) Q) ->
  tells (bind m f) (then_due m E) Q.
Proof using.
  intros Hm Hf h x Hh (s & Hs & Ht). specialize (Hm s x Hs). pose proof Hs as Hsx. unfold bind, then_due, reports.
  destruct (m x) as [[a|p| |] x'] eqn:Ex; cbn [snd] in *; [by apply (Hf s x a x' Hsx Ex h x' Hh); exists s | ..];
    (exists []; split; [by left |]; rewrite app_nil_r; split; [by exists s | done]).
Qed.

(** The same when what is to be reported is known before. *)
Lemma tells_after_silent {A B} (m : M W A) (f : A -> M W B) due Q :
  silent m -> (forall a, tells (f a) (fun _ => due) Q) -> tells (bind m f) (fun _ => due) Q.
Proof using.
  intros Hm Hf h x Hh Hx. destruct (tells_bind_silent m f (fun _ _ => due) Q Hm (fun _ _ a _ _ _ => Hf a) h x Hh Hx)
    as (evs & He & Hk & Ha). exists evs. split; [| by split].
  revert He. unfold reports, then_due, bind. destruct (m x) as [[a|p| |] x']; cbn [fst]; try done;
    by intros [->|[-> _]]; right.
Qed.

(** A last part that is silent. *)
Lemma tells_then_silent {A B} (m : M W A) (f : A -> M W B) E Q (Q' : B -> list event -> Prop) :
  tells m E Q -> (forall a, silent (f a)) ->
  (forall a evs x b x', Q a evs -> f a x = (Ret b, x') -> Q' b evs) -> tells (bind m f) E Q'.
Proof using.
  intros Hm Hf HQ h x Hh Hx. destruct (Hm h x Hh Hx) as (evs & He & (s & Hs & Ht) & Ha). exists evs.
  unfold reports, bind in *. destruct (m x) as [[a|p| |] x'] eqn:Ex; cbn [fst snd] in *;
    try (split; [destruct He as [->|[-> _]]; [by left | by right] | split; [by exists s | done]]).
  split; [destruct He as [->|[_ Hn]]; [by left | by destruct (Hn a)] |].
  split; [exists s; split; [by apply Hf | done] |]. intros b Hb. apply (HQ a evs x' b (snd (f a x'))); [by apply Ha |].
  by rewrite <- Hb, <- surjective_pairing.
Qed.

Lemma tells_defer {A} cleanup (m : M W A) E Q : silent cleanup -> tells m E Q -> tells (defer cleanup m) E Q.
Proof using.
  intros Hc Hm h x Hh Hx. destruct (Hm h x Hh Hx) as (evs & He & (s & Hs & Ht) & Ha). exists evs.
  unfold reports, defer in *. destruct (m x) as [[a|p| |] x'] eqn:Ex; cbn [fst snd] in *;
    try (split; [destruct He as [->|[-> _]]; [by left | by right] | split; [by exists s | done]]).
  all: specialize (Hc s x' Hs); unfold bind, ret, throw; destruct (cleanup x') as [[| | |] x''];
    cbn [fst snd] in *; (split; [| split; [by exists s | try done]]).
  all: first [exact He | destruct He as [->|[-> Hn]]; [by left |]; by right].
Qed.

(** ** The methods of a circuit *)

Lemma silent_opener {A} (m : M OS A) : silent (with_opener m).
Proof using aside. intros s. by apply with_opener_framed, _. Qed.

Lemma silent_closer {A} (m : M CS A) : silent (with_closer m).
Proof using aside. intros s. by apply with_closer_framed, _. Qed.

Lemma silent_counter (l : lens W Z) d :
  (forall s z x, shows s x -> shows s (upd l z x)) -> silent (atomic_Add l d).
Proof using. intros H s. apply (atomic_Add_framed (shows s)). intros z x. apply H. Qed.

Lemma silent_count (d : Z) : silent (let! _ := atomic_Add concurrentCommandsL d in ret tt).
Proof using. intros s. apply stable_bind; [apply silent_counter; done | intros ?; apply stable_ret]. Qed.

(** The objects before and after the statistics. *)
Lemma silent_users k ctx t d ids :
  stats_id ∉ ids -> silent (range_do (fun R => run_call R k ctx t d) (map deref_run (map RefUser ids))).
Proof using aside.
  intros Hn s. apply stable_range_do. intros R HR. rewrite map_map in HR.
  apply list_elem_of_fmap in HR as (id & -> & Hid). apply aside_run. by intros ->.
Qed.

Hypothesis Hsz : (0 < sz)%nat.

Lemma tells_stats k ctx t d :
  start <= t <= upto -> d <= max_int64 ->
  tells (run_call (user_run stats_id) k ctx t d) (fun _ => [mkEvent k t d]) (fun _ evs => evs = [mkEvent k t d]).
Proof using aside Hsz.
  intros Ht Hd. eapply tells_ext; [apply aside_stats |]. intros h x Hh (s & (H1 & H2 & H3 & H4 & H5 & H6) & Hs).
  destruct (tracks_report w n start upto pcfg sz Hsz c h (mkEvent k t d) s Hs Ht Hd Hh) as (s' & E & Hs').
  exists [mkEvent k t d]. split; [by left |].
  assert (E' : zoom (lens_comp envL statsL) (run_call (RunStats_run V) k ctx t d) x
               = (Ret tt, upd envL (upd statsL s' (env x)) x)).
  { unfold zoom. cbn [lens_comp view upd envL]. rewrite H6. unfold report in E. cbn [e_kind e_time e_duration] in E.
    replace (run_call (RunStats_run V) k ctx t d) with (run_call (RunStats_run V) k Background t d) by (by destruct k).
    by rewrite E. }
  rewrite E'. cbn [fst snd]. split; [| done]. exists s'. split; [| done]. repeat split; try done. apply aside_lens.
Qed.

(** Whatever order the collectors are in, each command is told once. *)
Lemma tells_metrics k ctx t d :
  start <= t <= upto -> d <= max_int64 -> 
  tells (cmd_metrics k ctx t d) (fun _ => [mkEvent k t d]) (fun _ evs => evs = [mkEvent k t d]).
Proof using aside Hsz.
  intros Ht Hd h x Hh Hx. pose proof Hx as (s & (H1 & _) & _). pose proof aside_ids as Hids.
  unfold reports, cmd_metrics. unfold bind at 1 2 3, get, gets. cbn [view CmdMetricCollectorL]. rewrite H1. clear H1.
  revert h x Hh Hx. fold (tells (run_call (RunMetricsCollection (map deref_run (RefOpenToClose :: RefClosedToOpen ::
    map RefUser (before ++ stats_id :: after)))) k ctx t d) (fun _ => [mkEvent k t d]) (fun _ evs => evs = [mkEvent k t d])).
  eapply tells_ext; [apply run_call_collection |]. cbn [map range_do].
  rewrite !map_app. cbn [map]. apply not_elem_of_app in Hids as [Hb Ha].
  apply tells_after_silent; [intros s'; cbn [deref_run]; rewrite run_call_zoom; apply silent_closer | intros _].
  apply tells_after_silent; [intros s'; cbn [deref_run]; rewrite run_call_zoom; apply silent_opener | intros _].
  eapply tells_ext; [apply range_do_app |]. apply tells_after_silent; [by apply silent_users | intros _]. cbn [range_do].
  eapply tells_then_silent; [by apply tells_stats | intros _; by apply silent_users | by intros ? evs ? ? ? ->].
Qed.

(** [run] goes on after the report: the circuit may open or close. *)
Lemma silent_transition fuel ctx t o (should : Context -> Time -> M W bool) :
  (forall ctx t, silent (should ctx t)) -> silent (transitionTo fuel ctx t o (Some should)).
Proof using aside.
  intros Hs s. pose proof (aside_listeners s). apply (transitionTo_framed (shows s)). intros f ctx' t' [= <-]. apply Hs.
Qed.

Lemma silent_after_verdict fuel k ctx t : silent (after_verdict fuel k ctx t).
Proof using aside.
  assert (Hopen : silent (attempt_if_closed fuel ctx t)).
  { intros s. pose proof (aside_listeners s). apply (attempt_if_closed_framed (shows s)). }
  destruct k; cbn [after_verdict]; try done; try (intros s; apply stable_ret).
  intros s. apply stable_bind; [apply stable_gets | intros o]. apply stable_bind; [apply stable_gets | intros cfg].
  destruct (_ || _); [apply stable_ret |]. apply stable_bind; [apply silent_closer | intros should].
  destruct should; [| apply stable_ret]. apply silent_transition. intros. apply silent_closer.
Qed.

Lemma verdict_fits (x : W) orig r exp done : fits (verdict x orig r exp done) r.
Proof using.
  unfold verdict. destruct (IsBadRequest r) eqn:Eb; [done |]. destruct (_ && _); [done |].
  destruct r as [e|]; [| done]. destruct (ctx_Err _ _) as [e'|]; [| done].
  by destruct (_ && _).
Qed.

Lemma run_and_classify_tells fuel ctx orig t0 exp f :
  (forall ctx, silent (f ctx)) ->
  tells (run_and_classify fuel ctx orig t0 exp f) (command_events ctx orig t0 exp f) (told start upto).
Proof using aside Hsz.
  intros Hf. unfold run_and_classify. apply tells_bind_silent; [apply Hf |]. intros _ _ r _ _ _.
  apply tells_bind_silent; [apply silent_now |]. intros s2 x2 done x3 Hs2 Enow h x Hh Hx.
  pose proof Hx as (s & (_ & Hmu & _) & _). unfold reports. rewrite classify_spec by exact Hmu.
  pose proof (verdict_fits x orig r exp done) as Hk. set (k := verdict x orig r exp done) in *.
  pose proof (now_in_time _ _ _ _ Hs2 Enow) as Ht. pose proof (time_Sub_range done t0).
  assert (H' : tells (do! cmd_metrics k ctx done (time_Sub done t0); do! after_verdict fuel k ctx done; ret r)
    (fun _ => [mkEvent k done (time_Sub done t0)]) (told start upto)).
  { eapply tells_then_silent; [apply tells_metrics; [done | lia] | |].
    - intros _ s'. apply stable_bind; [apply silent_after_verdict | intros ?; apply stable_ret].
    - intros _ evs x' b x'' -> (a & x4 & _ & E)%bind_inv. injection E as <- _. by constructor. }
  by apply H'.
Qed.

Lemma silent_allow ctx t m : silent (allowNewRun ctx t m).
Proof using aside.
  intros s. unfold allowNewRun. apply stable_bind; [apply stable_gets | intros cfg].
  destruct (a_ForceOpen cfg); [apply stable_ret |]. apply stable_bind; [apply stable_gets | intros o].
  destruct (_ || _); [apply stable_ret |]. apply stable_bind; [apply stable_gets | intros running].
  destruct (_ && _); [apply stable_ret | apply silent_closer].
Qed.

(** Reading a field of the circuit. *)
Lemma tells_get {T A} (l : lens W T) (f : T -> M W A) E Q :
  (forall v, tells (f v) (E v) Q) -> tells (bind (get l) f) (fun x => E (view l x) x) Q.
Proof using. intros H h x Hh Hx. by apply (H (view l x) h x). Qed.

Lemma run_counted_tells fuel ctx t maxConcurrent count f :
  start <= t <= upto -> (forall ctx, silent (f ctx)) ->
  tells (run_counted fuel ctx t maxConcurrent count f) (counted_events ctx t maxConcurrent count f) (told start upto).
Proof using aside Hsz.
  intros Ht Hf. unfold run_counted, counted_events. destruct (_ && _).
  - eapply tells_then_silent; [apply tells_metrics; [done | vm_compute; discriminate] | intros ? s; apply stable_ret |].
    intros _ evs x b x' -> [= <- _]. by constructor.
  - apply (tells_get threadSafeConfigL _ (fun cfg x => let timeout := a_ExecutionTimeout cfg in if 0 <? timeout
      then command_events (WithDeadline ctx (time_Add t timeout)) ctx t (time_Add t timeout) f x
      else command_events ctx ctx t 0 f x)).
    intros cfg. cbv zeta. destruct (0 <? _).
    + apply tells_defer; [| by apply run_and_classify_tells]. intros s. apply stable_modify.
      intros y (H1 & H2 & H3 & H4 & H5 & H6). repeat split; try done. cbn. by rewrite aside_cancel.
    + by apply run_and_classify_tells.
Qed.

Lemma run_tells fuel ctx f :
  (forall ctx, silent (f ctx)) -> tells (run fuel ctx f) (call_events ctx f) (told start upto).
Proof using aside Hsz.
  intros Hf. unfold run.
  apply (tells_bind_silent _ _ (fun t x1 => let max := a_MaxConcurrentRequests (view threadSafeConfigL x1) in
    then_due (allowNewRun ctx t max) (fun b x => if b : bool then admitted_events ctx t max f x else [mkEvent KErrShortCircuit t 0]) x1));
    [apply silent_now |].
  intros s0 x0 t x1 Hs0 Enow. pose proof (now_in_time _ _ _ _ Hs0 Enow) as Ht.
  apply (tells_get threadSafeConfigL _ (fun cfg => let max := a_MaxConcurrentRequests cfg in
    then_due (allowNewRun ctx t max) (fun b x => if b : bool then admitted_events ctx t max f x else [mkEvent KErrShortCircuit t 0]))).
  intros cfg. cbv zeta. apply tells_bind_silent; [apply silent_allow |]. intros _ _ allowed _ _ _.
  destruct allowed; cbn [negb].
  - apply (tells_bind_silent _ _ (fun prevented x => if prevented : bool then [] else
      counted_events ctx t (a_MaxConcurrentRequests cfg) (wrap64 (concurrentCommands (circ x) + 1)) f
        (upd concurrentCommandsL (wrap64 (concurrentCommands (circ x) + 1)) x))); [apply silent_opener |].
    intros _ _ prevented _ _ _. destruct prevented.
    { apply tells_silent; [intros s; apply stable_ret | intros x2 a x3 [= <- _]; constructor]. }
    refine (tells_bind_silent (atomic_Add concurrentCommandsL 1) _ (fun n => counted_events ctx t (a_MaxConcurrentRequests cfg) n f)
      _ _ _); [by apply silent_counter |].
    intros _ _ count _ _ _. apply tells_defer; [apply silent_count | by apply run_counted_tells].
  - eapply tells_then_silent; [apply tells_metrics; [done | vm_compute; discriminate] | intros ? s; apply stable_ret |].
    intros _ evs x b x' -> [= <- _]. by constructor.
Qed.

Lemma Execute_tells fuel ctx f fb :
  (forall ctx, silent (f ctx)) -> (forall g ctx e, fb = Some g -> silent (g ctx e)) ->
  tells (Execute fuel theCircuit ctx (Some f) fb) (call_events ctx f) (executed start upto).
Proof using aside Hsz.
  intros Hf Hfb h x Hh Hx. pose proof Hx as (s & (_ & _ & Hd & Hc & _) & _).
  set (body := let! err := run fuel ctx f in
    match err with None => ret None | Some e => if IsBadRequest err then ret err else fallback ctx e fb end).
  assert (E : Execute fuel theCircuit ctx (Some f) fb x = body x).
  { unfold Execute, isEmptyOrNil. unfold bind at 1 2 3, get, gets, ret at 1. cbn [view OpenToCloseL threadSafeConfigL].
    destruct (OpenToClose (circ x)); [| done]. by rewrite Hd. }
  unfold reports. rewrite E. clear E Hd Hc s. revert h x Hh Hx.
  fold (tells body (call_events ctx f) (executed start upto)).
  eapply tells_then_silent; [by apply run_tells | |].
  - intros err s. destruct err as [e|]; [| apply stable_ret]. destruct (IsBadRequest _); [apply stable_ret |].
    pose proof (aside_fallbacks s). apply (fallback_framed (shows s)). intros g ctx' e' E. by eapply Hfb.
  - intros err evs x b x' Ht E. exists err. split; [done |]. destruct err as [e|]; [| left; by injection E as <- _].
    destruct (IsBadRequest (Some e)) eqn:Eb; [left; by injection E as <- _ | by right].
Qed.

(** ** Sequences of calls *)

(** What a caller gives to [Execute]; none of it reports to the statistics itself. *)
Record request := mkRequest {
  rq_ctx : Context;
  rq_run : Context -> M W (option error);
  rq_fallback : option (Context -> error -> M W (option error))
}.

Definition elsewhere (r : request) : Prop :=
  (forall ctx, silent (rq_run r ctx)) /\ (forall g ctx e, rq_fallback r = Some g -> silent (g ctx e)).

(** One call after the other, by callers that recover from panics. *)
Fixpoint serve (fuel : nat) (rs : list request) (x : W) : list (outcome (option error)) * W :=
  match rs with
  | [] => ([], x)
  | r :: rs' =>
      let '(o, x1) := Execute fuel theCircuit (rq_ctx r) (Some (rq_run r)) (rq_fallback r) x in
      let '(os, x2) := serve fuel rs' x1 in (o :: os, x2)
  end.

(** The events of one call that starts at [x]: what it has to report, if it returns, and they say how it
    ended. *)
Definition accounts (fuel : nat) (r : request) (x : W) (evs : list event) : Prop :=
  let call := Execute fuel theCircuit (rq_ctx r) (Some (rq_run r)) (rq_fallback r) in
  reports x call (call_events (rq_ctx r) (rq_run r) x) evs /\
  forall a, fst (call x) = Ret a -> executed start upto a evs.

(** Those of the calls of [serve]. *)
Fixpoint accounted (fuel : nat) (rs : list request) (x : W) (evss : list (list event)) : Prop :=
  match rs, evss with
  | [], [] => True
  | r :: rs', evs :: evss' =>
      accounts fuel r x evs /\
      accounted fuel rs' (snd (Execute fuel theCircuit (rq_ctx r) (Some (rq_run r)) (rq_fallback r) x)) evss'
  | _, _ => False
  end.

(** What the calls have to report, when each of them returns or has nothing to. *)
Fixpoint due_of (fuel : nat) (rs : list request) (x : W) : option (list (list event)) :=
  match rs with
  | [] => Some []
  | r :: rs' =>
      let '(o, x') := Execute fuel theCircuit (rq_ctx r) (Some (rq_run r)) (rq_fallback r) x in
      match due_of fuel rs' x', call_events (rq_ctx r) (rq_run r) x, o with
      | Some evss, evs, Ret _ => Some (evs :: evss)
      | Some evss, [], _ => Some ([] :: evss)
      | _, _, _ => None
      end
  end.

Lemma accounted_due fuel rs x evss evss' :
  accounted fuel rs x evss -> due_of fuel rs x = Some evss' -> evss = evss'.
Proof using.
  clear. revert x evss evss'. induction rs as [|r rs IH]; intros x [|evs evss] evss'; cbn [accounted due_of]; try done.
  { by intros _ [= <-]. }
  intros [[He _] H]. unfold reports in He. destruct (Execute _ _ _ _ _ x) as [o x']. cbn [fst snd] in *.
  destruct (due_of fuel rs x') as [l|] eqn:El; [| done]. rewrite (IH _ _ _ H El).
  destruct o as [a| p| |], (call_events _ _ x) as [|ev evs'] eqn:Ed; intros [= <-];
    destruct He as [->|[-> Hn]]; try done; by destruct (Hn a).
Qed.

Lemma serve_tells fuel rs h x :
  Forall elsewhere rs -> knowing h x -> zlen h + zlen rs < max_int64 ->
  exists evss, accounted fuel rs x evss /\ knowing (h ++ concat evss) (snd (serve fuel rs x)).
Proof using aside Hsz.
  intros Hrs. revert h x. induction Hrs as [|r rs [Hf Hfb] Hrs IH]; intros h x Hx Hmax.
  - exists []. cbn. rewrite app_nil_r. by split.
  - unfold zlen in Hmax. cbn [length] in Hmax. cbn [serve accounted].
    destruct (Execute_tells fuel (rq_ctx r) (rq_run r) (rq_fallback r) Hf Hfb h x) as (evs & He & Hk & Ha);
      [unfold zlen; lia | done |].
    pose proof (reports_length _ _ _ _ (call_events_length _ _ _) He) as Hl.
    assert (Hacc : accounts fuel r x evs) by by split. clear He Ha.
    destruct (Execute fuel theCircuit (rq_ctx r) (Some (rq_run r)) (rq_fallback r) x) as [o x1] eqn:Ex. cbn [fst snd] in *.
    destruct (IH (h ++ evs) x1 Hk) as (evss & Hos & Hk2); [unfold zlen in *; rewrite length_app; lia |].
    destruct (serve fuel rs x1) as [os x2]. cbn [fst snd] in *. exists (evs :: evss).
    split; [by split |]. cbn [concat]. by rewrite app_assoc.
Qed.

Lemma accounted_length fuel rs x evss : accounted fuel rs x evss -> (length (concat evss) <= length rs)%nat.
Proof using.
  clear. revert x evss. induction rs as [|r rs IH]; intros x [|evs evss]; cbn [accounted]; try done.
  intros [[He _] H]. apply IH in H. pose proof (reports_length _ _ _ _ (call_events_length _ _ _) He).
  cbn [concat length]. rewrite length_app. lia.
Qed.
End Stats.

(** * Properties *)

(** C8: the statistics of a circuit are those of its calls.  Take a circuit with new rolling statistics
    among its run metrics collectors, and any calls of [Execute], one after the other, whatever their
    functions and fallbacks return or panic with, and whatever the circuit does about it.  Each call that
    returns has reported exactly what it has to ([call_events]): one event with the verdict on its
    command, at the instant at which it ended and with the time since the call began, or one short
    circuit or throttling; none only if the opener prevented it.  A call that panics has reported the
    same or nothing, and nothing if its command panicked.  The events agree with what [Execute] returned
    ([executed]).  And the statistics are exactly those of these events: the totals, the sums over the
    window at [upto], and the error percentage. *)
Theorem circuit_statistics_are_exact {OS CS U V} `{!ClosedToOpen OS} `{!OpenToClosed CS} `{!UserCode OS CS U}
    (statsL : lens U (RunStats V)) stats_id before after clk (time_NowV : M V Time) cfg r0 u0 v f v' start upto s fuel rs
    (x : World OS CS U) :
  let c := effective time_NowV cfg in
  let n := RollingStatsNumBuckets c in let w := stats_width c in
  Now c = Some f -> f v = (Ret start, v') -> 0 < w -> 0 < percentile_width c ->
  max_int64 / w + n <= max_int64 ->
  max_int64 / percentile_width c + RollingPercentileNumBuckets c <= max_int64 ->
  start <= upto -> upto - start <= max_int64 ->
  SetConfigNotThreadSafe time_NowV cfg (r0, v) = (Ret tt, (s, u0)) ->
  Aside statsL stats_id before after clk start upto ->
  shows statsL stats_id before after clk s x ->
  Forall (elsewhere statsL stats_id before after clk) rs -> zlen rs < max_int64 ->
  exists evss, accounted start upto fuel rs x evss /\
    let h := concat evss in
    let s' := view statsL (env (snd (serve fuel rs x))) in
    (forall k, TotalSum (view (counterL k) s') = zlen (times_of k h)) /\
    (forall k, exists s'', zoom (counterL k) (RollingSumAt upto) s' = (Ret (in_window w n start upto (times_of k h)), s'')) /\
    exists s'', ErrorPercentageAt upto s'
      = (Ret (let errors := in_window w n start upto (times_of KErrFailure h) + in_window w n start upto (times_of KErrTimeout h) in
              let attempts := in_window w n start upto (times_of KSuccess h) + errors in
              if attempts =? 0 then float64_of_int 0 else fdiv (float64_of_int errors) (float64_of_int attempts)), s'').
Proof.
  intros c n w Hf Ev Hw Hpw Hm Hpm Hup Hrange Es Has Hx Hrs Hlen.
  destruct (effective_config_positive time_NowV cfg) as (_ & Hn & _ & Hpn & Hps). fold c in Hn, Hpn, Hps.
  destruct (SetConfig_run time_NowV cfg r0 v f start v' Hf Ev) as (cnt & p & Ec & Ep & E). fold c n w in Ec, Ep.
  assert (s = mkRunStats cnt cnt cnt cnt cnt cnt cnt p c) as -> by (rewrite E in Es; by injection Es).
  set (pcfg := mkRollingBuckets (RollingPercentileNumBuckets c) start (percentile_width c) 0).
  set (sz := Z.to_nat (RollingPercentileBucketSize c)).
  assert (Hk : tracks w n start upto pcfg sz c [] (mkRunStats cnt cnt cnt cnt cnt cnt cnt p c))
    by (eapply tracks_new; eauto).
  assert (Hsz : (0 < sz)%nat) by (unfold sz; lia).
  destruct (serve_tells statsL stats_id before after clk w n start upto pcfg sz c Hsz fuel rs [] x Hrs) as (evss & Hos & s' & Hs' & Hk');
    [by eexists | unfold zlen in *; cbn; lia |].
  exists evss. split; [exact Hos |]. cbv zeta. cbn [app] in Hk'. set (h := concat evss) in *.
  assert (Hh : zlen h < max_int64).
  { pose proof (accounted_length _ _ _ _ _ _ Hos) as Hl. unfold zlen in *. unfold h. lia. }
  destruct Hs' as (_ & _ & _ & _ & _ & ->). destruct Hk' as (Hk' & _ & Htot). split; [| split].
  - intros k. change (TotalSum (view (counterL k) s')) with (total_of k s'). rewrite Htot.
    pose proof (length_times_of k h). pose proof (zlen_nonneg (times_of k h)).
    rewrite wrap64_id by (unfold min_int64; lia). done.
  - intros k. destruct (sum_knows w n start upto pcfg sz Hsz Hw Hn Hup Hrange k h s' Hk' Hh) as (s'' & -> & _). by exists s''.
  - destruct (ErrorPercentageAt_knows w n start upto pcfg sz Hsz Hw Hn Hup Hrange h s' Hk' Hh) as (s'' & -> & _). by exists s''.
Qed.

(** * Witness *)

Module CircuitStatsSample.

(** The environment: a clock that ticks by 7 from 1000 to 1060, and the statistics. *)
Record Env := mkEnv { ticks : Z; stats : RunStats Z }.

Definition statsL : lens Env (RunStats Z) := Lens stats (fun s u => mkEnv (ticks u) s).

Definition reading (t : Z) : Time := Z.max 1000 (Z.min t 1060).
Definition tick : M Env Time := fun u => (Ret (reading (ticks u)), mkEnv (ticks u + 7) (stats u)).
Definition tickZ : M Z Time := fun u => (Ret (reading u), u + 7).

Abbreviation W := (World neverOpens neverCloses Env).
Definition quiet_run : RunMetrics W := {|
  Metrics.Success _ _ _ := ret tt; Metrics.ErrFailure _ _ _ := ret tt; Metrics.ErrTimeout _ _ _ := ret tt;
  Metrics.ErrBadRequest _ _ _ := ret tt; Metrics.ErrInterrupt _ _ _ := ret tt;
  Metrics.ErrConcurrencyLimitReject _ _ := ret tt; Metrics.ErrShortCircuit _ _ := ret tt |}.

#[local] Instance code : UserCode neverOpens neverCloses Env := {|
  user_run id := if (id =? 3)%nat then RunMetrics_zoom (fun A => zoom (lens_comp envL statsL)) (RunStats_run Z) else quiet_run;
  user_fallback _ := {| FallbackSuccess _ _ _ := ret tt; FallbackErrFailure _ _ _ := ret tt;
    FallbackErrConcurrencyLimitReject _ _ := ret tt |};
  user_metrics _ := {| Closed _ _ := ret tt; Opened _ _ := ret tt |};
  ctx_Err _ _ := None;
  ctx_cancel _ u := u;
  opener_Configurable := None;
  closer_Configurable := None;
  neverOpensFactory := ret neverOpens_value;
  neverClosesFactory := ret neverCloses_value;
  time_Now := tick
|}.

#[local] Instance sample_aside : Aside statsL 3 [1%nat] [] tick 1000 1060.
Proof.
  split; try done.
  - intros k ctx t d. apply (run_call_zoom (fun A => zoom (lens_comp envL statsL))).
  - intros H. apply list_elem_of_singleton in H. done.
  - intros id k ctx t d Hne s. unfold user_run. cbn. destruct (Nat.eqb_spec id 3); [done |]. by destruct k; intros x Hx.
  - intros s. split; intros; by intros x Hx.
  - intros s. split; intros; by intros x Hx.
  - intros u t u' [= <- _]. unfold reading. lia.
Qed.

(** Two buckets of 10ns each. *)
Definition config : RunStatsConfig Z := mkRunStatsConfig None 20 2 60 1 (-4).
Definition fresh : RunStats Z :=
  match SetConfigNotThreadSafe tickZ config (RunStats_zero, 1000) with (_, (s, _)) => s end.

(** At most one command at a time, and a time limit of 10ns. *)
Definition world : W :=
  mkWorld (mkCircuit [RefOpenToClose; RefClosedToOpen; RefUser 1; RefUser 3] [] [] None "sample" Config_zero false
    (mkAtomicCircuitConfig 10 1 false 10 false false false false)
    false (Some neverOpens_value) (Some neverCloses_value) (Some tick) false [] false 0 0)
  (mkEnv 1000 fresh).

Definition failure : error := userError "failed" None None NoUnwrap.
Definition succeeds (ctx : Context) : M W (option error) := ret None.
Definition fails (ctx : Context) : M W (option error) := ret (Some failure).
Definition panics (ctx : Context) : M W (option error) := throw (PanicValue 7).
Definition slow (ctx : Context) : M W (option error) := 
  do! modify (fun w => mkWorld (circ w) (mkEnv (ticks (env w) + 12) (stats (env w)))); ret None.
Definition saves (ctx : Context) (e : error) : M W (option error) := ret None.

Definition requests : list request :=
  [mkRequest Background succeeds None; mkRequest Background panics None; mkRequest Background fails (Some saves);
   mkRequest Background slow None; mkRequest Background fails None].

Lemma fresh_configured : SetConfigNotThreadSafe tickZ config (RunStats_zero, 1000) = (Ret tt, (fresh, 1007)).
Proof.
  destruct (SetConfig_run tickZ config RunStats_zero 1000 tickZ 1000 1007 eq_refl eq_refl) as (cnt & p & _ & _ & E).
  unfold fresh. rewrite E. done.
Qed.

Lemma requests_elsewhere : Forall (elsewhere statsL 3 [1%nat] [] tick) requests.
Proof.
  assert (Hs : forall ctx, silent statsL 3 [1%nat] [] tick (succeeds ctx)) by (by intros ctx s x Hx).
  assert (Hp : forall ctx, silent statsL 3 [1%nat] [] tick (panics ctx)) by (by intros ctx s x Hx).
  assert (Hf : forall ctx, silent statsL 3 [1%nat] [] tick (fails ctx)) by (by intros ctx s x Hx).
  assert (Hl : forall ctx, silent statsL 3 [1%nat] [] tick (slow ctx)).
  { intros ctx s. apply stable_bind; [| intros _; apply stable_ret]. apply stable_modify. by intros x Hx. }
  assert (Hb : forall g ctx e, Some saves = Some g -> silent statsL 3 [1%nat] [] tick (g ctx e)) by (by intros g ctx e [= <-] s x Hx).
  repeat (apply Forall_cons_2; [by split |]). constructor.
Qed.

(** A success, a panic, a failure that the fallback saves, a timeout, a failure. *)
Definition reported : list (list event) :=
  [[mkEvent KSuccess 1007 7]; []; [mkEvent KErrFailure 1028 7]; [mkEvent KErrTimeout 1060 11]; [mkEvent KErrFailure 1060 0]].

Lemma due_requests : due_of 2 requests world = Some reported.
Proof. vm_compute. reflexivity. Qed.

Lemma circuit_statistics_are_exact_witness :
  fst (serve 2 requests world) = [Ret None; Panic (PanicValue 7); Ret None; Ret None; Ret (Some failure)] /\
  accounted 1000 1060 2 requests world reported /\
  forall k, TotalSum (view (counterL k) (view statsL (env (snd (serve 2 requests world))))) = zlen (times_of k (concat reported)).
Proof.
  split; [vm_compute; reflexivity |].
  destruct (circuit_statistics_are_exact statsL 3 [1%nat] [] tick tickZ config RunStats_zero 1007 1000 tickZ 1007 1000 1060
    fresh 2 requests world) as (evss & Hev & Ht & _).
  - reflexivity.
  - reflexivity.
  - vm_compute. reflexivity.
  - vm_compute. reflexivity.
  - vm_compute. discriminate.
  - vm_compute. discriminate.
  - lia.
  - vm_compute. discriminate.
  - exact fresh_configured.
  - exact sample_aside.
  - repeat split. discriminate.
  - exact requests_elsewhere.
  - reflexivity.
  - pose proof (accounted_due _ _ _ _ _ _ _ Hev due_requests) as ->. split; [exact Hev | exact Ht].
Defined.
End CircuitStatsSample.
End CircuitStats.
