(* ===== verification/SloTracker.v ===== *)
(** metrics/responsetimeslo/responsetime.go: counting the commands that meet a response time
    objective.

    The collectors are the user's: numbered objects whose two methods act on the world of the
    tracker, [Told] holding what is outside it.  The constructors of [Factory] are computations
    over that outside. *)

From S2P Require Import Prelude GoMonad Metrics Config.

Module SloTracker.

(** * Data *)

(** The tracker's own [Config]. *)
Record SloConfig := mkSloConfig { MaximumHealthyTime_ : Duration }.

Section Data.
Context {U : Type}.

Record Tracker := mkTracker {
  MaximumHealthyTime : Z;
  MeetsSLOCount : Z;
  FailsSLOCount : Z;
  Collectors : list nat;
  mu : bool;
  config : SloConfig
}.

Record TWorld := mkTWorld { tracker : Tracker; outside : U }.

Record Factory := mkFactory {
  Factory_Config : SloConfig;
  ConfigConstructor : list (string -> M U SloConfig);
  CollectorConstructors : list (string -> M U nat)
}.
End Data.

Arguments TWorld U : clear implicits.
Arguments Factory U : clear implicits.

Definition defaultConfig : SloConfig := mkSloConfig (Millisecond * 250).

Definition Merge (c other : SloConfig) : SloConfig :=
  mkSloConfig (merge_zero (MaximumHealthyTime_ c) (MaximumHealthyTime_ other)).

(** [Collector] *)
Class Collector (U : Type) := {
  Failed : nat -> M (TWorld U) unit;
  Passed : nat -> M (TWorld U) unit
}.

Section Methods.
Context {U : Type} `{!Collector U}.
Abbreviation W := (TWorld U).

Definition set_counts (meets fails : Z) (w : W) : W :=
  let r := tracker w in
  mkTWorld (mkTracker (MaximumHealthyTime r) meets fails (Collectors r) (mu r) (config r)) (outside w).

Definition set_mu (b : bool) (w : W) : W :=
  let r := tracker w in
  mkTWorld (mkTracker (MaximumHealthyTime r) (MeetsSLOCount r) (FailsSLOCount r) (Collectors r) b (config r))
    (outside w).

Definition set_config (cfg : SloConfig) (w : W) : W :=
  let r := tracker w in
  mkTWorld (mkTracker (MaximumHealthyTime_ cfg) (MeetsSLOCount r) (FailsSLOCount r) (Collectors r) (mu r) cfg)
    (outside w).

(** * Operations *)

Definition failure : M W unit :=
  do! modify (fun w => set_counts (MeetsSLOCount (tracker w)) (wrap64 (FailsSLOCount (tracker w) + 1)) w);
  let! cs := gets (fun w => Collectors (tracker w)) in
  range_do Failed cs.

Definition healthy : M W unit :=
  do! modify (fun w => set_counts (wrap64 (MeetsSLOCount (tracker w) + 1)) (FailsSLOCount (tracker w)) w);
  let! cs := gets (fun w => Collectors (tracker w)) in
  range_do Passed cs.

Definition Success (duration : Duration) : M W unit :=
  let! max := gets (fun w => MaximumHealthyTime (tracker w)) in
  if duration <=? max then healthy else failure.

Definition ErrInterrupt (duration : Duration) : M W unit :=
  let! max := gets (fun w => MaximumHealthyTime (tracker w)) in
  if max <? duration then failure else ret tt.

(** The interface: the context and the time are ignored. *)
#[export] Instance Tracker_run : RunMetrics W := {|
  Metrics.Success _ _ d := Success d;
  Metrics.ErrFailure _ _ _ := failure;
  Metrics.ErrTimeout _ _ _ := failure;
  Metrics.ErrConcurrencyLimitReject _ _ := failure;
  Metrics.ErrShortCircuit _ _ := failure;
  Metrics.ErrBadRequest _ _ _ := ret tt;
  Metrics.ErrInterrupt _ _ d := ErrInterrupt d
|}.

Definition lock_mu : M W unit := fun w =>
  if mu (tracker w) then (Deadlock, w) else (Ret tt, set_mu true w).
Definition unlock_mu : M W unit := fun w =>
  if mu (tracker w) then (Ret tt, set_mu false w) else (Panic UnlockOfUnlocked, w).

Definition SetConfigThreadSafe (cfg : SloConfig) : M W unit :=
  do! lock_mu;
  defer unlock_mu (modify (set_config cfg)).

Definition Config : M W SloConfig :=
  do! lock_mu;
  defer unlock_mu (gets (fun w => config (tracker w))).
End Methods.

Section Factory.
Context {U : Type}.

(** The loop of [getConfig], from the last constructor to the first. *)
Fixpoint merge_constructors (cs : list (string -> M U SloConfig)) (name : string) (cfg : SloConfig)
    : M U SloConfig :=
  match cs with
  | [] => ret cfg
  | c :: rest => let! other := c name in merge_constructors rest name (Merge cfg other)
  end.

Definition getConfig (r : Factory U) (name : string) : M U SloConfig :=
  let! cfg := merge_constructors (reverse (ConfigConstructor r)) name (mkSloConfig 0) in
  ret (Merge (Merge cfg (Factory_Config r)) defaultConfig).

(** [for _, constructor := range r.CollectorConstructors { append(...) }] *)
Fixpoint make_collectors (cs : list (string -> M U nat)) (name : string) : M U (list nat) :=
  match cs with
  | [] => ret []
  | c :: rest => let! id := c name in let! ids := make_collectors rest name in ret (id :: ids)
  end.

(** [CommandProperties]: the tracker it puts into the circuit's configuration; the fields of
    the new tracker that are not set are zero. *)
Definition CommandProperties (r : Factory U) (name : string) : M U Tracker :=
  let! collectors := make_collectors (CollectorConstructors r) name in
  let! cfg := getConfig r name in
  fun u =>
    match SetConfigThreadSafe cfg (mkTWorld (mkTracker 0 0 0 collectors false (mkSloConfig 0)) u) with
    | (Ret _, w) => (Ret (tracker w), outside w)
    | (Panic p, w) => (Panic p, outside w)
    | (Deadlock, w) => (Deadlock, outside w)
    | (OutOfFuel, w) => (OutOfFuel, outside w)
    end.
End Factory.

(** * Specification *)

(** What an event says of the objective: met, missed, or nothing. *)
Definition verdict (max : Z) (k : run_kind) (d : Duration) : option bool :=
  match k with
  | KSuccess => Some (d <=? max)
  | KErrFailure | KErrTimeout | KErrConcurrencyLimitReject | KErrShortCircuit => Some false
  | KErrInterrupt => if max <? d then Some false else None
  | KErrBadRequest => None
  end.

(** An event of a command: its kind, its time and its duration. *)
Record event := mkEvent { e_kind : run_kind; e_ctx : Context; e_time : Time; e_duration : Duration }.

Definition report {U} `{!Collector U} (e : event) : M (TWorld U) unit :=
  run_call Tracker_run (e_kind e) (e_ctx e) (e_time e) (e_duration e).

Definition verdicts (max : Z) (es : list event) : list bool :=
  omap (fun e => verdict max (e_kind e) (e_duration e)) es.

(** Collectors that return and only change what is outside the tracker: method [b] of
    collector [id] changes it by [f id b]. *)
Class QuietCollectors (U : Type) `{!Collector U} (f : nat -> bool -> U -> U) : Prop := {
  quiet_Passed : forall id w, Passed id w = (Ret tt, mkTWorld (tracker w) (f id true (outside w)));
  quiet_Failed : forall id w, Failed id w = (Ret tt, mkTWorld (tracker w) (f id false (outside w)))
}.

(** Everything the collectors are told, one verdict after the other. *)
Definition tell_all {U} (f : nat -> bool -> U -> U) (ids : list nat) (vs : list bool) (u : U) : U :=
  fold_left (fun u b => fold_left (fun u id => f id b u) ids u) vs u.

(** * Lemmas *)

Section Facts.
Context {U : Type} `{!Collector U} (f : nat -> bool -> U -> U) `{!QuietCollectors U f}.
Abbreviation W := (TWorld U).

Lemma range_told (b : bool) ids (w : W) :
  range_do (if b then Passed else Failed) ids w
  = (Ret tt, mkTWorld (tracker w) (fold_left (fun u id => f id b u) ids (outside w))).
Proof.
  revert w. induction ids as [|id ids IH]; intros w; simpl; [by destruct w |].
  unfold bind. destruct b; [rewrite quiet_Passed | rewrite quiet_Failed]; by rewrite IH.
Qed.

(** The tracker after the verdict [v]. *)
Definition counted (v : option bool) (w : W) : W :=
  match v with
  | None => w
  | Some b =>
      let r := tracker w in
      let w1 := set_counts (if b then wrap64 (MeetsSLOCount r + 1) else MeetsSLOCount r)
        (if b then FailsSLOCount r else wrap64 (FailsSLOCount r + 1)) w in
      mkTWorld (tracker w1) (fold_left (fun u id => f id b u) (Collectors r) (outside w))
  end.

Lemma report_counted e w :
  report e w = (Ret tt, counted (verdict (MaximumHealthyTime (tracker w)) (e_kind e) (e_duration e)) w).
Proof.
  destruct e as [k ctx t d]. unfold report. simpl.
  assert (Hf : failure w = (Ret tt, counted (Some false) w)).
  { unfold failure, bind, modify, gets. by rewrite (range_told false). }
  assert (Hp : healthy w = (Ret tt, counted (Some true) w)).
  { unfold healthy, bind, modify, gets. by rewrite (range_told true). }
  destruct k; simpl; try done.
  - unfold Success, bind, gets. by destruct (d <=? _).
  - unfold ErrInterrupt, bind, gets. by destruct (_ <? d).
Qed.

Lemma counted_frame v w :
  MaximumHealthyTime (tracker (counted v w)) = MaximumHealthyTime (tracker w) /\
  Collectors (tracker (counted v w)) = Collectors (tracker w) /\
  config (tracker (counted v w)) = config (tracker w) /\ mu (tracker (counted v w)) = mu (tracker w).
Proof. by destruct v. Qed.
End Facts.

(** The first setting of a list that is not zero. *)
Definition first_set (l : list SloConfig) : Duration :=
  foldr (fun c rest => merge_zero (MaximumHealthyTime_ c) rest) 0 l.

Lemma merge_first_set c l : MaximumHealthyTime_ (fold_left Merge l c) = merge_zero (MaximumHealthyTime_ c) (first_set l).
Proof.
  revert c. induction l as [|c' l IH]; intros c; simpl.
  - unfold merge_zero. by destruct (Z.eqb_spec (MaximumHealthyTime_ c) 0).
  - rewrite IH. simpl. apply merge_zero_assoc.
Qed.

Lemma merge_constructors_run {U} (cs : list SloConfig) name cfg (u : U) :
  merge_constructors ((fun c _ => ret c) <$> cs) name cfg u = (Ret (fold_left Merge cs cfg), u).
Proof. revert cfg. induction cs as [|c cs IH]; intros cfg; simpl; [done |]. unfold bind, ret at 1. by rewrite IH. Qed.

Lemma make_collectors_run {U} (ids : list nat) name (u : U) :
  make_collectors ((fun id _ => ret id) <$> ids) name u = (Ret ids, u).
Proof.
  induction ids as [|id ids IH]; [done |]. cbn [fmap list_fmap make_collectors].
  rewrite (bind_run _ _ u id u) by done. by rewrite (bind_run _ _ u ids u).
Qed.

(** * Properties *)

(** C39: the objective is counted by verdicts: after any events, on a tracker whose collectors
    return, the two counters have grown by the number of commands that met and that missed the
    objective, where only a success within the limit meets it, and an interrupt past the limit
    misses it; bad requests and earlier interrupts count as nothing.  Each collector was told
    each verdict, once, in order. *)
Theorem objective_counts {U} `{!Collector U} f `{!QuietCollectors U f} es (w : TWorld U) :
  min_int64 <= MeetsSLOCount (tracker w) <= max_int64 ->
  min_int64 <= FailsSLOCount (tracker w) <= max_int64 ->
  let vs := verdicts (MaximumHealthyTime (tracker w)) es in
  exists w', range_do report es w = (Ret tt, w') /\
    MeetsSLOCount (tracker w') = wrap64 (MeetsSLOCount (tracker w) + count_if (fun b => b) vs) /\
    FailsSLOCount (tracker w') = wrap64 (FailsSLOCount (tracker w) + count_if negb vs) /\
    outside w' = tell_all f (Collectors (tracker w)) vs (outside w) /\
    mu (tracker w') = mu (tracker w) /\ config (tracker w') = config (tracker w).
Proof.
  revert w. induction es as [|e es IH]; intros w Hm Hf vs; unfold vs.
  { exists w. simpl. by rewrite !Z.add_0_r, !wrap64_id. }
  set (v := verdict (MaximumHealthyTime (tracker w)) (e_kind e) (e_duration e)).
  destruct (counted_frame f v w) as (Hmax & Hcol & Hcfg & Hmu).
  destruct (IH (counted f v w)) as (w' & E & Em & Ef & Et & Emu & Ecfg).
  1,2: destruct v as [[]|]; simpl; (done || apply wrap64_range).
  exists w'. simpl. unfold bind. rewrite (report_counted f e w). fold v. split; [exact E |].
  rewrite Em, Ef, Et, Emu, Ecfg, Hmax, Hcol, Hmu, Hcfg. unfold verdicts. simpl. fold v.
  destruct v as [b|]; simpl; [| done].
  split; [destruct b; simpl; rewrite ?wrap64_add_l; f_equal; lia |].
  split; [destruct b; simpl; rewrite ?wrap64_add_l; f_equal; lia | done].
Qed.

(** The tracker a factory puts into a circuit has the limit of the last constructor that
    sets one, else that of the factory, else 250ms; it has the collectors of all constructors,
    in order, and starts from zero, unlocked, with the configuration it runs by. *)
Theorem factory_tracker {U} (cfg : SloConfig) (cs : list SloConfig) (ids : list nat) name (u : U) :
  let r := mkFactory cfg ((fun c _ => ret c) <$> cs) ((fun id _ => ret id) <$> ids) in
  let max := first_set (reverse cs ++ [cfg; defaultConfig]) in
  CommandProperties r name u = (Ret (mkTracker max 0 0 ids false (mkSloConfig max)), u) /\
  ((forall c, c ∈ cs -> 0 <= MaximumHealthyTime_ c) -> 0 <= MaximumHealthyTime_ cfg -> 0 < max).
Proof.
  intros r max.
  assert (Hget : getConfig r name u = (Ret (mkSloConfig max), u)).
  { unfold getConfig, r. cbn [ConfigConstructor Factory_Config]. rewrite <- fmap_reverse.
    unfold bind. rewrite merge_constructors_run. unfold ret. do 2 f_equal.
    change (Merge (Merge ?a ?b) ?c) with (fold_left Merge [b; c] a). rewrite <- fold_left_app.
    assert (Hm : forall c, c = mkSloConfig (MaximumHealthyTime_ c)) by (by intros []).
    rewrite (Hm (fold_left _ _ _)), merge_first_set. unfold merge_zero. done. }
  split.
  - unfold CommandProperties, r. cbn [CollectorConstructors]. unfold bind at 1.
    rewrite make_collectors_run. unfold bind at 1. fold r. by rewrite Hget.
  - clear Hget. intros Hcs Hcfg. unfold max. clear max r.
    assert (H : Forall (fun c => 0 <= MaximumHealthyTime_ c) (reverse cs)).
    { apply Forall_forall. intros c Hc. apply Hcs. by rewrite elem_of_reverse in Hc. }
    induction H as [|c l Hc Hl IH]; simpl; unfold merge_zero.
    + destruct (Z.eqb_spec (MaximumHealthyTime_ cfg) 0); [by vm_compute | lia].
    + destruct (Z.eqb_spec (MaximumHealthyTime_ c) 0); [exact IH | lia].
Qed.

(** * Witnesses *)

Module SloSample.
(** Collectors that write down what they are told. *)
#[export] Instance collectors : Collector (list (nat * bool)) := {|
  Failed id := fun w => (Ret tt, mkTWorld (tracker w) (outside w ++ [(id, false)]));
  Passed id := fun w => (Ret tt, mkTWorld (tracker w) (outside w ++ [(id, true)]))
|}.

#[export] Instance collectors_quiet : QuietCollectors (list (nat * bool)) (fun id b u => u ++ [(id, b)]).
Proof. by split. Qed.

Definition events : list event :=
  [mkEvent KSuccess Background 0 200; mkEvent KSuccess Background 1 300;
   mkEvent KErrBadRequest Background 2 900; mkEvent KErrInterrupt Background 3 100;
   mkEvent KErrInterrupt Background 4 900; mkEvent KErrShortCircuit Background 5 0].

Lemma objective_counts_witness :
  exists w', range_do report events (mkTWorld (mkTracker 250 0 0 [7%nat; 8%nat] false (mkSloConfig 250)) [])
      = (Ret tt, w') /\ MeetsSLOCount (tracker w') = 1 /\ FailsSLOCount (tracker w') = 3 /\
    outside w' = [(7%nat, true); (8%nat, true); (7%nat, false); (8%nat, false);
                  (7%nat, false); (8%nat, false); (7%nat, false); (8%nat, false)].
Proof.
  destruct (objective_counts (fun id b u => u ++ [(id, b)]) events
    (mkTWorld (mkTracker 250 0 0 [7%nat; 8%nat] false (mkSloConfig 250)) []))
    as (w' & E & Em & Ef & Et & _); [simpl; unfold min_int64, max_int64; lia .. |].
  exists w'. split; [exact E | split; [exact Em | split; [exact Ef | exact Et]]].
Defined.

Lemma factory_tracker_witness :
  0 < first_set (reverse [mkSloConfig 5; mkSloConfig 0] ++ [mkSloConfig 9; defaultConfig]).
Proof.
  apply (factory_tracker (U := unit) (mkSloConfig 9) [mkSloConfig 5; mkSloConfig 0] [] "db" tt);
    [| simpl; lia].
  intros c Hc. repeat (apply elem_of_cons in Hc as [->|Hc]; [simpl; lia |]). by apply elem_of_nil in Hc.
Defined.
End SloSample.
End SloTracker.
