(* ===== verification/StatsExport.v ===== *)
(** The exporters of the statistics: [SortedDurations] and [RollingPercentile]
    (faststats/rolling_percentile.go), [RunStats] and [FallbackStats] (metrics/rolling/rolling.go) and
    the [Tracker] (metrics/responsetimeslo/responsetime.go), as variables of Expvar.v.

    [RunStats.Var] rolls every window forward before it is read, at an instant of the configured
    clock; the counters it names are encoded afterwards, by CounterJson.v. *)

From stdpp Require Import pretty.
From S2P Require Import Prelude GoMonad GoFloat RollingBuckets RollingCounter RollingPercentile GoFloatFacts PercentileBounds TimedCheck GoJson CounterJson Expvar Metrics Config RunStats SloTracker.

Open Scope Z_scope.

Module StatsExport.
Import GoJson Expvar RunStats.

(** * Durations as text

    [Duration.String] of package time: 72h3m0.5s, with the smaller units below a second. *)

(** [fmtFrac]: [prec] digits of [v] after a point, without the zeros at the end, and what is left. *)
Fixpoint fmtFrac_loop (prec : nat) (v : Z) (print : bool) (buf : string) : Z * bool * string :=
  match prec with
  | O => (v, print, buf)
  | S prec' =>
      let digit := v mod 10 in
      let print := print || negb (digit =? 0) in
      fmtFrac_loop prec' (v / 10) print (if print then pretty digit +:+ buf else buf)
  end.

Definition fmtFrac (prec : nat) (v : Z) (buf : string) : Z * string :=
  let '(v, print, buf) := fmtFrac_loop prec v false buf in (v, if print then "." +:+ buf else buf).

Definition Duration_String (d : Duration) : string :=
  let u := Z.abs d in
  let text :=
    if u <? Second then
      if u =? 0 then "0s"
      else
        let '(prec, unit) := if u <? 1000 then (0%nat, "ns")
                             else if u <? Millisecond then (3%nat, "µs") else (6%nat, "ms") in
        let '(u, buf) := fmtFrac prec u unit in pretty u +:+ buf
    else
      let '(u, buf) := fmtFrac 9 u "s" in
      let buf := pretty (u mod 60) +:+ buf in
      let u := u / 60 in
      if 0 <? u then
        let buf := pretty (u mod 60) +:+ "m" +:+ buf in
        let u := u / 60 in
        if 0 <? u then pretty u +:+ "h" +:+ buf else buf
      else buf in
  if (d <? 0) && negb (u =? 0) then "-" +:+ text else text.

Example duration_texts :
  Duration_String <$> [0; -1; 1100; 2200000; 1000000000; 259380500000000; -60000000000]
  = ["0s"; "-1ns"; "1.1µs"; "2.2ms"; "1s"; "72h3m0.5s"; "-1m0s"].
Proof. vm_compute. reflexivity. Qed.

(** * faststats/rolling_bucket.go and timedcheck.go

    [time_String] is [Time.String], which depends on the instant's location. *)

Definition RollingBuckets_String (r : RollingBuckets) : string :=
  "RollingBucket(num=" +:+ pretty (NumBuckets r) +:+ ", width=" +:+ Duration_String (BucketWidth r) +:+ ")".

Definition TimedCheck_String (time_String : Time -> string) (c : TimedCheck.TimedCheck) : string :=
  "TimedCheck(open=" +:+ time_String (TimedCheck.nextOpenTime c) +:+ ")".

Example window_text :
  RollingBuckets_String (mkRollingBuckets 10 0 (1000 * Millisecond) 0) = "RollingBucket(num=10, width=1s)".
Proof. vm_compute. reflexivity. Qed.

(** * faststats/rolling_percentile.go *)

Section Percentiles.
Context {texts : Texts}.

Definition SortedDurations_String (s : list Duration) : string :=
  "(" +:+ String.concat "," (Duration_String <$> s) +:+ ")".

(** [durationsBucket.String] *)
Definition durationsBucket_String (b : RollingPercentile.durationsBucket) : string :=
  "durationsBucket(idx=" +:+ pretty (RollingPercentile.currentIndex b) +:+ ")".

(** The members of a snapshot; [None] where [Percentile] has no value. *)
Definition latency_texts (s : list Duration) : option (list (string * string)) :=
  p25 ← RollingPercentile.Percentile s (float64_of_int 25);
  p50 ← RollingPercentile.Percentile s (float64_of_int 50);
  p90 ← RollingPercentile.Percentile s (float64_of_int 90);
  p99 ← RollingPercentile.Percentile s (float64_of_int 99);
  Some [("min", Duration_String (RollingPercentile.Min s)); ("p25", Duration_String p25);
        ("p50", Duration_String p50); ("p90", Duration_String p90); ("p99", Duration_String p99);
        ("max", Duration_String (RollingPercentile.Max s)); ("mean", Duration_String (RollingPercentile.Mean s))].

Definition strings {St} (ms : list (string * string)) : any St :=
  Map ((fun m => (m.1, Value (JString m.2))) <$> ms).

Definition SortedDurations_Var {St} (s : list Duration) : Var St :=
  Func (let! ms := of_option IndexOutOfRange (latency_texts s) in ret (strings ms)).

(** On the percentiles and the environment in which [time.Now] is read. *)
Definition RollingPercentile_Var {U} (time_Now : M U Time) : Var (RollingPercentile.RollingPercentile * U) :=
  Func (
    let! now := zoom (Lens snd (fun u s => (fst s, u))) time_Now in
    let! s := zoom (Lens fst (fun p s => (p, snd s))) (RollingPercentile.SnapshotAt now) in
    let! v := ForExpvar (HasVar (ret (Some (SortedDurations_Var s)))) in
    ret (Map [("snap", v)])).
End Percentiles.

(** * metrics/rolling/rolling.go *)

Section Stats.
Context {texts : Texts} {U : Type} (time_Now : M U Time).
Abbreviation W := (RunStats U * U)%type.

Definition statsL : lens W (RunStats U) := Lens fst (fun r s => (r, snd s)).
Definition clockL : lens W U := Lens snd (fun u s => (fst s, u)).

(** The name of each counter. *)
Definition counter_name (k : run_kind) : string :=
  match k with
  | KSuccess => "Successes"
  | KErrConcurrencyLimitReject => "ErrConcurrencyLimitRejects"
  | KErrFailure => "ErrFailures"
  | KErrShortCircuit => "ErrShortCircuits"
  | KErrTimeout => "ErrTimeouts"
  | KErrBadRequest => "ErrBadRequests"
  | KErrInterrupt => "ErrInterrupts"
  end.

(** [&r.Successes] and so on: a [*RollingCounter] has no [Var]; it is encoded by its [MarshalJSON]. *)
Definition counter_pointer (k : run_kind) : any W :=
  Marshaler (gets (fun s => CounterJson.MarshalJSON format_time parse_time (view (counterL k) s.1))).

Fixpoint export_counters (ks : list run_kind) : M W (list (string * any W)) :=
  match ks with
  | [] => ret []
  | k :: ks' =>
      let! v := ForExpvar (NoVar (counter_pointer k)) in
      let! ms := export_counters ks' in
      ret ((counter_name k, v) :: ms)
  end.

Definition RunStats_Var : Var W :=
  Func (
    let! r := gets fst in
    let! t := zoom clockL (now time_Now r) in
    do! range_do (fun k => do! zoom (lens_comp statsL (counterL k)) (RollingSumAt t); ret tt) rollingCounters;
    let! counters := export_counters rollingCounters in
    let! s := zoom (lens_comp statsL LatenciesL) (RollingPercentile.SnapshotAt t) in
    let! snap := ForExpvar (HasVar (ret (Some (SortedDurations_Var s)))) in
    ret (Map (counters ++ [("Latencies", Map [("snap", snap)])]))).

Definition FallbackStats_Var : Var FallbackStats :=
  Func (
    let! r := gets (fun r => r) in
    ret (Map [("Successes", Value (JInt (TotalSum (FallbackSuccesses r))));
              ("ErrConcurrencyLimitRejects", Value (JInt (TotalSum (FallbackErrConcurrencyLimitRejects r))));
              ("ErrFailures", Value (JInt (TotalSum (FallbackErrFailures r))))])).
End Stats.

(** * metrics/responsetimeslo/responsetime.go *)

Section Slo.
Context {U : Type} `{!SloTracker.Collector U}.

Definition SloConfig_json (c : SloTracker.SloConfig) : json :=
  JObject [("MaximumHealthyTime", JInt (SloTracker.MaximumHealthyTime_ c))].

Definition Tracker_Var : Var (SloTracker.TWorld U) :=
  Func (
    let! cfg := SloTracker.Config in
    let! w := gets (fun w => w) in
    ret (Map [("config", Value (SloConfig_json cfg));
              ("pass", Value (JInt (SloTracker.MeetsSLOCount (SloTracker.tracker w))));
              ("fail", Value (JInt (SloTracker.FailsSLOCount (SloTracker.tracker w))))])).
End Slo.

(** * Lemmas *)

(** ** Snapshots have texts *)

Lemma flat_map_length {A B} (f : A -> list B) m l :
  (forall a, (length (f a) <= m)%nat) -> (length (a ← l; f a) <= length l * m)%nat.
Proof.
  intros H. induction l as [|a l IH]; [done |]. cbn. rewrite length_app. exact (Nat.add_le_mono _ _ _ _ (H a) IH).
Qed.

Lemma window_durations_length cfg sz w :
  0 <= NumBuckets cfg -> zlen (RollingPercentile.window_durations cfg sz w) <= NumBuckets cfg * Z.of_nat sz.
Proof.
  intros Hn. unfold RollingPercentile.window_durations.
  unfold zlen. etransitivity.
  - apply Nat2Z.inj_le, (flat_map_length _ sz). intros k. rewrite length_fmap, RollingPercentile.length_latest. lia.
  - rewrite length_seqZ. lia.
Qed.

Lemma window_durations_range cfg sz w :
  Forall (fun e => e.2 <= max_int64) (RollingPercentile.pl_events w) ->
  Forall (fun d => 0 <= d <= max_int64) (RollingPercentile.window_durations cfg sz w).
Proof.
  intros H. apply Forall_forall. intros d Hd. unfold RollingPercentile.window_durations in Hd.
  apply list_elem_of_bind in Hd as (k & Hd & _). apply list_elem_of_fmap in Hd as (d' & -> & Hd).
  unfold RollingPercentile.latest in Hd. apply (subseteq_drop _ _) in Hd.
  unfold RollingPercentile.durations_at in Hd. apply list_elem_of_fmap in Hd as (e & -> & He).
  apply list_elem_of_filter in He as [_ He]. rewrite Forall_forall in H. specialize (H e He).
  unfold RollingPercentile.clamp. unfold max_int64 in *. lia.
Qed.

Lemma latency_log_range pcfg L h t :
  Forall (fun e => e_duration e <= max_int64) h ->
  Forall (fun e : Z * Duration => e.2 <= max_int64)
    (RollingPercentile.pl_events (RollingPercentile.plog_advance pcfg t (latency_log_from pcfg L h))).
Proof.
  intros H. cbn. induction h as [|e h IH] using rev_ind; [constructor |].
  apply Forall_app in H as [H He]. apply Forall_cons in He as [He _]. specialize (IH H).
  rewrite latency_log_snoc. unfold latency_step. destruct (has_latency _); [| done].
  unfold RollingPercentile.plog_add. destruct (absIndexAt _ _); [| done]. cbn.
  apply Forall_app. split; [done |]. by repeat constructor.
Qed.

Lemma latency_texts_total s :
  StronglySorted Z.le s -> Forall (fun d => 0 <= d <= max_int64) s -> zlen s <= 2 ^ 53 ->
  exists ms, latency_texts s = Some ms /\ ms.*1 = ["min"; "p25"; "p50"; "p90"; "p99"; "max"; "mean"].
Proof.
  intros Hs Hr Hl. assert (H : forall z, valid (float64_of_int z) -> is_nan (float64_of_int z) = false ->
    exists d, RollingPercentile.Percentile s (float64_of_int z) = Some d).
  { intros z Hv Hn. destruct s as [|d s]; [by exists (-1) |].
    destruct (PercentileBounds.Percentile_between (d :: s) (float64_of_int z)) as (_ & _ & _ & _ & x & _ & _ & _ & _ & _ & _ & E & _);
      try done. by exists x. }
  unfold latency_texts.
  destruct (H 25) as (d1 & ->); [done .. |]. destruct (H 50) as (d2 & ->); [done .. |].
  destruct (H 90) as (d3 & ->); [done .. |]. destruct (H 99) as (d4 & ->); [done .. |]. cbn. by eexists.
Qed.

(** ** Counters as documents *)

Definition RollingBuckets_json (start : string) (rb : RollingBuckets) : json :=
  JObject [("NumBuckets", JInt (NumBuckets rb)); ("StartTime", JString start);
           ("BucketWidth", JInt (BucketWidth rb)); ("LastAbsIndex", JInt (LastAbsIndex rb))].

Definition counter_json (start : string) (c : RollingCounter) : json :=
  JObject [("Buckets", JArray (JInt <$> buckets c)); ("RollingSum", JInt (sumBuckets c));
           ("TotalSum", JInt (totalSum c)); ("RollingBucket", RollingBuckets_json start (rollingBucket c))].

Section Documents.
Context {texts : Texts}.

Lemma counter_MarshalJSON c start :
  format_time (StartTime (rollingBucket c)) = Some start ->
  CounterJson.MarshalJSON format_time parse_time c = Some (counter_json start c).
Proof.
  intros Hs. unfold CounterJson.MarshalJSON. cbn.
  assert (Hb : forall l, mapM (fun a => Some (JInt a)) l = Some (JInt <$> l)).
  { intros l. induction l as [|z l IH]; [done |]. cbn. by rewrite IH. }
  unfold AtomicInt64.MarshalJSON. cbn. rewrite Hb. cbn. by rewrite Hs.
Qed.
End Documents.

(** ** Reading statistics *)

Section Read.
Context {texts : Texts} {U : Type} (time_Now : M U Time).
Context (w n start now : Z) (pcfg : RollingBuckets) (sz : nat) (c : RunStatsConfig U) (f : M U Time) (x : string).
Hypothesis Hw : 0 < w.
Hypothesis Hn : 0 < n.
Hypothesis Hnow : start <= now.
Hypothesis Hrange : now - start <= max_int64.
Hypothesis Hsz : (0 < sz)%nat.
Hypothesis Hpn : 0 <= NumBuckets pcfg.
Hypothesis Hsize : NumBuckets pcfg * Z.of_nat sz <= 2 ^ 53.
Hypothesis Hclock : Now c = Some f.
Hypothesis Hstart : format_time start = Some x.
Abbreviation W := (RunStats U * U)%type.
Abbreviation knows := (knows w n start now pcfg sz).
Abbreviation tracks := (tracks w n start now pcfg sz c).
Implicit Types (h : list event) (s : W).

(** Rolling the counters [ks] forward to [t]. *)
Definition roll (t : Time) (ks : list run_kind) : M W unit :=
  range_do (fun k => do! zoom (lens_comp statsL (counterL k)) (RollingSumAt t); ret tt) ks.

Lemma RollingSumAt_sum t r y r' : RollingSumAt t r = (Ret y, r') -> sumBuckets r' = y.
Proof using. intros (a & r1 & _ & E)%bind_inv. by injection E as <- <-. Qed.

Lemma fed_StartTime w' n' start' now' ts r : fed w' n' start' now' ts r -> StartTime (rollingBucket r) = start'.
Proof using. intros (_ & L0 & T & _ & -> & _). done. Qed.

Lemma roll_one t k h s :
  knows h s.1 -> start <= t <= now ->
  exists r', (do! zoom (lens_comp statsL (counterL k)) (RollingSumAt t); ret tt) s = (Ret tt, (r', s.2)) /\
    knows h r' /\ config r' = config s.1 /\ (forall k', total_of k' r' = total_of k' s.1) /\
    (forall k', k' <> k -> view (counterL k') r' = view (counterL k') s.1) /\
    (t = now -> zlen h < max_int64 -> sumBuckets (view (counterL k) r') = count_of w n start now k h).
Proof.
  intros Hk Ht. pose proof (proj1 Hk k) as Hfed.
  destruct (fed_roll w n start now Hw Hn Hrange _ t _ Hfed Ht) as (y & cnt & E & Hc).
  exists (upd (counterL k) cnt s.1). split.
  { unfold bind, zoom. cbn [view upd lens_comp statsL]. by rewrite E. }
  split; [by apply knows_counter |]. split; [apply counter_config |]. split; [| split].
  - intros k'. unfold total_of. destruct (decide (k' = k)) as [->|Hne]; [| by rewrite counter_other].
    rewrite view_upd. apply (fed_sum_total _ _ _ _ _ _ _ _ _ Hfed E).
  - intros k' Hne. by rewrite counter_other.
  - intros -> Hmax. rewrite view_upd, (RollingSumAt_sum _ _ _ _ E). pose proof (length_times_of k h).
    destruct (fed_sum w n start now Hw Hn Hnow Hrange _ _ Hfed) as (cnt' & E' & _); [lia |].
    rewrite E in E'. by injection E' as ->.
Qed.

Lemma roll_all t ks h s :
  knows h s.1 -> start <= t <= now ->
  exists r', roll t ks s = (Ret tt, (r', s.2)) /\
    knows h r' /\ config r' = config s.1 /\ (forall k, total_of k r' = total_of k s.1) /\
    (forall k, k ∉ ks -> view (counterL k) r' = view (counterL k) s.1) /\
    (t = now -> zlen h < max_int64 -> forall k, k ∈ ks ->
       sumBuckets (view (counterL k) r') = count_of w n start now k h).
Proof.
  intros Hk Ht. revert s Hk. induction ks as [|k ks IH]; intros s Hk.
  - exists s.1. split; [by destruct s |]. repeat (split; [done |]). intros _ _ k Hin. by apply elem_of_nil in Hin.
  - destruct (roll_one t k h s Hk Ht) as (r1 & E1 & Hk1 & Hc1 & Ht1 & Ho1 & Hs1).
    destruct (IH (r1, s.2) Hk1) as (r2 & E2 & Hk2 & Hc2 & Ht2 & Ho2 & Hs2). cbn [fst snd] in *.
    exists r2. unfold roll in *. cbn [range_do]. rewrite (bind_run _ _ _ _ _ E1). split; [exact E2 |].
    split; [done |]. split; [by rewrite Hc2 |]. split; [intros k'; by rewrite Ht2 |]. split.
    + intros k' Hk'. apply not_elem_of_cons in Hk' as [Hne Hk']. rewrite Ho2 by done. by apply Ho1.
    + intros Et Hmax k' Hk'. destruct (decide (k' ∈ ks)) as [Hin|Hin]; [by apply Hs2 |].
      apply elem_of_cons in Hk' as [->|Hk']; [| done]. rewrite Ho2 by done. by apply Hs1.
Qed.

Lemma export_counters_run ks s :
  export_counters ks s = (Ret ((fun k => (counter_name k, counter_pointer k)) <$> ks), s).
Proof using.
  induction ks as [|k ks IH]; [done |]. cbn [export_counters ForExpvar].
  unfold bind at 1, ret at 1. by rewrite (bind_run _ _ _ _ _ IH).
Qed.

(** The document of statistics. *)
Definition stats_members (r : RunStats U) (ms : list (string * string)) : list (string * json) :=
  ((fun k => (counter_name k, counter_json x (view (counterL k) r))) <$> rollingCounters) ++
  [("Latencies", JObject (sort_keys [("snap", JObject (sort_keys ((fun m => (m.1, JString m.2)) <$> ms)))]))].

Lemma strings_read ms s : reads_as (strings ms : any W) s (JObject (sort_keys ((fun m => (m.1, JString m.2)) <$> ms))).
Proof using. apply reads_Map, Forall2_fmap. by apply Forall_Forall2_diag, Forall_true. Qed.

Lemma pointers_read r u ks :
  (forall k, StartTime (rollingBucket (view (counterL k) r)) = start) ->
  Forall2 (fun (kv : string * any W) kj => kv.1 = kj.1 /\ reads_as kv.2 (r, u) kj.2)
    ((fun k => (counter_name k, counter_pointer k)) <$> ks)
    ((fun k => (counter_name k, counter_json x (view (counterL k) r))) <$> ks).
Proof.
  intros Hst. apply Forall2_fmap, Forall_Forall2_diag, Forall_true. intros k. cbn [fst snd]. split; [done |].
  unfold reads_as, counter_pointer. cbn [Marshal]. unfold gets. cbn [fst].
  by rewrite (counter_MarshalJSON _ x) by (by rewrite Hst).
Qed.

(** The latencies that are read at [t], and their texts. *)
Definition snapshot (t L : Z) h : list Duration :=
  merge_sort Z.le (RollingPercentile.window_durations pcfg sz
    (RollingPercentile.plog_advance pcfg t (latency_log_from pcfg L h))).

Lemma snapshot_texts t L h :
  Forall (fun e => e_duration e <= max_int64) h ->
  exists ms, latency_texts (snapshot t L h) = Some ms /\ ms.*1 = ["min"; "p25"; "p50"; "p90"; "p99"; "max"; "mean"].
Proof.
  intros H. apply latency_texts_total.
  - apply (StronglySorted_merge_sort Z.le).
  - unfold snapshot. rewrite (merge_sort_Permutation Z.le). by apply window_durations_range, latency_log_range.
  - unfold zlen, snapshot. rewrite (merge_sort_Permutation Z.le). etransitivity; [by apply window_durations_length | done].
Qed.

(** The value: pointers to the counters, and the texts. *)
Definition stats_value (ms : list (string * string)) : any W :=
  Map (((fun k => (counter_name k, counter_pointer k)) <$> rollingCounters) ++
    [("Latencies", Map [("snap", strings ms)])]).

Lemma Value_run s t u' r1 l p ms :
  Now (config s.1) = Some f -> f s.2 = (Ret t, u') -> roll t rollingCounters (s.1, u') = (Ret tt, (r1, u')) ->
  RollingPercentile.SnapshotAt t (Latencies r1) = (Ret l, p) -> latency_texts l = Some ms ->
  Value_of (RunStats_Var time_Now) s = (Ret (stats_value ms), (upd LatenciesL p r1, u')).
Proof using.
  intros Hf Eu E1 E2 Ems. unfold RunStats_Var, Value_of. rewrite (bind_run _ _ s s.1 s) by done.
  assert (Et : zoom clockL (RunStats.now time_Now s.1) s = (Ret t, (s.1, u'))).
  { unfold zoom, RunStats.now. rewrite Hf. cbn [view upd clockL]. by rewrite Eu. }
  rewrite (bind_run _ _ _ _ _ Et). rewrite (bind_run _ _ _ _ _ E1).
  rewrite (bind_run _ _ _ _ _ (export_counters_run _ _)).
  rewrite (bind_run _ _ _ l (upd LatenciesL p r1, u')).
  - cbn [ForExpvar]. unfold SortedDurations_Var. unfold bind at 1 2. cbn [ret ExpvarToVal]. rewrite Ems. done.
  - unfold zoom. cbn [view upd lens_comp statsL fst LatenciesL]. by rewrite E2.
Qed.

Lemma value_reads r u ms :
  (forall k, StartTime (rollingBucket (view (counterL k) r)) = start) ->
  reads_as (stats_value ms) (r, u) (JObject (sort_keys (stats_members r ms))).
Proof.
  intros Hst. apply reads_Map, Forall2_app; [by apply pointers_read |].
  constructor; [| constructor]. split; [done |]. apply (reads_Map _ _ [_]). constructor; [| constructor].
  split; [done |]. apply strings_read.
Qed.

(** Reading the variable, at an instant of the clock up to [now]. *)
Lemma Var_read h s t u' :
  tracks h s.1 -> f s.2 = (Ret t, u') -> start <= t <= now -> Forall (fun e => e_duration e <= max_int64) h ->
  exists r' L ms, Func_String (Value_of (RunStats_Var time_Now)) s
      = (Ret (Some (JObject (sort_keys (stats_members r' ms)))), (r', u')) /\
    tracks h r' /\ latency_texts (snapshot t L h) = Some ms /\
    ms.*1 = ["min"; "p25"; "p50"; "p90"; "p99"; "max"; "mean"] /\
    (t = now -> snapshot t L h = snapshot now 0 h) /\
    (t = now -> zlen h < max_int64 -> forall k, sumBuckets (view (counterL k) r') = count_of w n start now k h).
Proof.
  intros (Hk & Hc & Htot) Eu Ht Hdur.
  destruct (roll_all t rollingCounters h (s.1, u') Hk Ht) as (r1 & E1 & Hk1 & Hc1 & Ht1 & _ & Hs1).
  destruct (snapshot_knows w n start now pcfg sz Hsz h r1 t Hk1) as (L & p & E2 & Hk2 & Hn2); [lia |]. cbn [fst snd] in *.
  destruct (snapshot_texts t L h Hdur) as (ms & Ems & Hkeys).
  exists (upd LatenciesL p r1), L, ms. split.
  { unfold Func_String. rewrite (bind_run _ _ _ _ _ (Value_run s t u' r1 _ p ms ltac:(by rewrite Hc) Eu E1 E2 Ems)).
    apply value_reads. intros k. rewrite latencies_counter. eapply fed_StartTime, Hk1. }
  split; [split; [done | split; [by rewrite <- Hc, <- Hc1 |]] |].
  { intros k. rewrite <- Htot, <- Ht1. unfold total_of. by rewrite latencies_counter. }
  split; [done |]. split; [done |]. split; [intros ->; unfold snapshot; by rewrite Hn2 |].
  intros Et Hmax k. rewrite latencies_counter. apply Hs1; [done | done |]. destruct k; repeat constructor.
Qed.

(** A step of a session: an event is reported, or the variable is read. *)
Inductive session_step := Told (e : event) | Observed.

Definition session_run (st : session_step) : M W unit :=
  match st with
  | Told e => zoom statsL (report e)
  | Observed => do! Func_String (Value_of (RunStats_Var time_Now)); ret tt
  end.

Definition told_events (sts : list session_step) : list event :=
  omap (fun st => match st with Told e => Some e | Observed => None end) sts.

Definition event_in_range (e : event) : Prop := start <= e_time e <= now /\ e_duration e <= max_int64.

Lemma session_tracks h s sts :
  tracks h s.1 -> (forall u, exists t u', f u = (Ret t, u') /\ start <= t <= now) ->
  Forall event_in_range (h ++ told_events sts) -> zlen (h ++ told_events sts) < max_int64 ->
  exists s', range_do session_run sts s = (Ret tt, s') /\ tracks (h ++ told_events sts) s'.1.
Proof.
  intros Ht Hf. revert h s Ht. induction sts as [|[e|] sts IH]; intros h s Ht Hh Hlen.
  - exists s. by rewrite app_nil_r.
  - cbn [told_events omap list_omap] in Hh, Hlen |- *. fold (told_events sts) in Hh, Hlen |- *.
    rewrite cons_middle, app_assoc in Hh, Hlen |- *.
    apply Forall_app in Hh as Hh'. destruct Hh' as [Hh' _]. apply Forall_app in Hh' as [_ He].
    apply Forall_cons in He as [[He Hd] _].
    destruct (tracks_report w n start now pcfg sz Hsz c h e s.1 Ht He Hd) as (r' & E & Ht').
    { unfold zlen in *. rewrite !length_app in Hlen. simpl in Hlen. lia. }
    destruct (IH _ (r', s.2) Ht' Hh Hlen) as (s' & E' & Hs'). exists s'. split; [| done].
    cbn [range_do session_run]. rewrite (bind_run _ _ s tt (r', s.2)); [exact E' |].
    unfold zoom. cbn [view upd statsL]. by rewrite E.
  - cbn [told_events omap list_omap] in Hh, Hlen |- *. fold (told_events sts) in Hh, Hlen |- *.
    destruct (Hf s.2) as (t & u' & Eu & Htn).
    destruct (Var_read h s t u' Ht Eu Htn) as (r' & L & ms & E & Ht' & _).
    { apply Forall_app in Hh as [Hh _]. eapply Forall_impl; [exact Hh |]. intros e He. apply He. }
    destruct (IH h (r', u') Ht' Hh Hlen) as (s' & E' & Hs'). exists s'. split; [| done].
    cbn [range_do session_run]. rewrite (bind_run _ _ s tt (r', u')); [exact E' |].
    by rewrite (bind_run _ _ _ _ _ E).
Qed.

(** What is found in the document. *)
Lemma stats_found r ms k :
  ms.*1 = ["min"; "p25"; "p50"; "p90"; "p99"; "max"; "mean"] ->
  let doc := JObject (sort_keys (stats_members r ms)) in
  at_path [counter_name k; "RollingSum"] doc = Some (JInt (sumBuckets (view (counterL k) r))) /\
  at_path [counter_name k; "TotalSum"] doc = Some (JInt (total_of k r)) /\
  (forall key text, (key, text) ∈ ms -> at_path ["Latencies"; "snap"; key] doc = Some (JString text)).
Proof using.
  intros Hms doc.
  assert (Hnd : NoDup (stats_members r ms).*1).
  { apply (bool_decide_eq_true_1 (NoDup _)). vm_compute. reflexivity. }
  assert (Hc : member (counter_name k) doc = Some (counter_json x (view (counterL k) r))).
  { apply member_found; [done |]. apply elem_of_app. left. apply list_elem_of_fmap. exists k.
    split; [done |]. destruct k; repeat constructor. }
  cbn [at_path]. rewrite Hc. split; [done |]. split; [done |]. intros key text Hin.
  assert (Hl : member "Latencies" doc = Some (JObject (sort_keys [("snap", JObject (sort_keys ((fun m => (m.1, JString m.2)) <$> ms)))]))).
  { apply member_found; [done |]. apply elem_of_app. right. by left. }
  rewrite Hl. cbn [mbind option_bind]. rewrite (member_found [_] "snap" (JObject (sort_keys ((fun m => (m.1, JString m.2)) <$> ms)))).
  - cbn [mbind option_bind at_path]. rewrite (member_found _ key (JString text)); [done | |].
    + rewrite <- list_fmap_compose. change (NoDup (ms.*1)). rewrite Hms.
      apply (bool_decide_eq_true_1 (NoDup _)). vm_compute. reflexivity.
    + apply list_elem_of_fmap. by exists (key, text).
  - apply NoDup_singleton.
  - by left.
Qed.
End Read.

(** What was told to the fallback statistics and to a tracker is what they publish. *)
Lemma fallbacks_read {texts : Texts} w n start now h r :
  fallback_tracks w n start now h r ->
  exists doc, Func_String (Value_of FallbackStats_Var) r = (Ret (Some doc), r) /\
    at_path ["Successes"] doc = Some (JInt (wrap64 (zlen (fallbacks_of FSuccess h)))) /\
    at_path ["ErrFailures"] doc = Some (JInt (wrap64 (zlen (fallbacks_of FFailure h)))) /\
    at_path ["ErrConcurrencyLimitRejects"] doc = Some (JInt (wrap64 (zlen (fallbacks_of FRejection h)))).
Proof.
  intros H. eexists. split; [reflexivity |]. rewrite <- (proj2 (H FSuccess)), <- (proj2 (H FFailure)), <- (proj2 (H FRejection)).
  done.
Qed.

Lemma tracker_read {U} {texts : Texts} `{!SloTracker.Collector U} (w : SloTracker.TWorld U) :
  SloTracker.mu (SloTracker.tracker w) = false ->
  exists doc, Func_String (Value_of Tracker_Var) w = (Ret (Some doc), w) /\
    at_path ["pass"] doc = Some (JInt (SloTracker.MeetsSLOCount (SloTracker.tracker w))) /\
    at_path ["fail"] doc = Some (JInt (SloTracker.FailsSLOCount (SloTracker.tracker w))) /\
    at_path ["config"; "MaximumHealthyTime"] doc
    = Some (JInt (SloTracker.MaximumHealthyTime_ (SloTracker.config (SloTracker.tracker w)))).
Proof. destruct w as [[? ? ? ? m cfg] u]. cbn. intros ->. eexists. split; [reflexivity | done]. Qed.

(** * Properties *)

(** what the statistics publish is exact, and publishing loses nothing.  Take new statistics with
    a configured clock, any events up to [now], and any number of reads of the variable between them,
    at whatever instants the clock gives up to [now].  No read panics; and a read at [now] is one
    JSON document, in which each counter's RollingSum is the number of its events in the window, its
    TotalSum the number of all its events, and the latencies are the texts of the percentiles of the
    window's durations.  (Rolling the windows by another clock than the events' would lose events.) *)
Theorem exported_stats_are_exact {U} {texts : Texts} (time_Now : M U Time) cfg r0 u f start u0 x sts now :
  let c := effective time_Now cfg in
  let n := RollingStatsNumBuckets c in let w := stats_width c in
  let pcfg := mkRollingBuckets (RollingPercentileNumBuckets c) start (percentile_width c) 0 in
  let sz := Z.to_nat (RollingPercentileBucketSize c) in
  let h := told_events sts in
  let latencies := merge_sort Z.le (RollingPercentile.window_durations pcfg sz
                     (RollingPercentile.plog_advance pcfg now (latency_log pcfg h))) in
  Now c = Some f -> f u = (Ret start, u0) -> 0 < w -> 0 < percentile_width c ->
  max_int64 / w + n <= max_int64 ->
  max_int64 / percentile_width c + RollingPercentileNumBuckets c <= max_int64 ->
  RollingPercentileNumBuckets c * RollingPercentileBucketSize c <= 2 ^ 53 ->
  start <= now -> now - start <= max_int64 -> format_time start = Some x ->
  (forall u, exists t u', f u = (Ret t, u') /\ start <= t <= now) ->
  Forall (event_in_range start now) h -> zlen h < max_int64 ->
  exists r s, SetConfigNotThreadSafe time_Now cfg (r0, u) = (Ret tt, (r, u0)) /\
    range_do (session_run time_Now) sts (r, u0) = (Ret tt, s) /\
    forall u1, f s.2 = (Ret now, u1) ->
      exists doc s' ms, Func_String (Value_of (RunStats_Var time_Now)) s = (Ret (Some doc), s') /\
        (forall k, at_path [counter_name k; "RollingSum"] doc = Some (JInt (in_window w n start now (times_of k h))) /\
                   at_path [counter_name k; "TotalSum"] doc = Some (JInt (zlen (times_of k h)))) /\
        latency_texts latencies = Some ms /\
        (forall key text, (key, text) ∈ ms -> at_path ["Latencies"; "snap"; key] doc = Some (JString text)).
Proof.
  intros c n w pcfg sz h latencies Hf Eu Hw Hpw Hm Hpm Hsize Hnow Hrange Hx Hclock Hh Hlen.
  destruct (effective_config_positive time_Now cfg) as (_ & Hn & _ & Hpn & Hps). fold c in Hn, Hpn, Hps.
  destruct (SetConfig_run time_Now cfg r0 u f start u0 Hf Eu) as (cnt & p & Ec & Ep & E). fold c n w in Ec, Ep.
  assert (Hsz : (0 < sz)%nat) by (unfold sz; lia).
  assert (Hsz' : NumBuckets pcfg * Z.of_nat sz <= 2 ^ 53) by (unfold sz; rewrite Z2Nat.id by lia; exact Hsize).
  assert (Hpn' : 0 <= NumBuckets pcfg) by (unfold pcfg; cbn [NumBuckets]; lia).
  assert (Hk : tracks w n start now pcfg sz c [] (mkRunStats cnt cnt cnt cnt cnt cnt cnt p c))
    by (eapply tracks_new; eauto).
  destruct (session_tracks time_Now w n start now pcfg sz c f x Hw Hn Hnow Hrange Hsz Hpn' Hsz' Hf Hx [] (_, u0) sts Hk Hclock Hh Hlen)
    as (s & Es & Hs). cbn [app] in Hs. fold h in Hs.
  eexists _, s. split; [exact E |]. split; [exact Es |]. intros u1 Eu1.
  destruct (Var_read time_Now w n start now pcfg sz c f x Hw Hn Hnow Hrange Hsz Hpn' Hsz' Hf Hx h s now u1 Hs Eu1)
    as (r' & L & ms & Er & (_ & _ & Htot) & Ems & Hkeys & Hsnap & Hsum); [lia | |].
  { eapply Forall_impl; [exact Hh |]. intros e He. apply He. }
  eexists _, _, ms. split; [exact Er |]. specialize (Hsum eq_refl Hlen).
  split; [| split; [by rewrite <- Ems, (Hsnap eq_refl) |]].
  - intros k. destruct (stats_found x r' ms k Hkeys) as (-> & -> & _). rewrite Hsum, Htot. split; [done |].
    pose proof (length_times_of k h). pose proof (zlen_nonneg (times_of k h)).
    rewrite wrap64_id by (unfold min_int64; lia). done.
  - apply (stats_found x r' ms KSuccess Hkeys).
Qed.

(** * Witnesses *)

Module StatsExportSample.

(** A clock that ticks by 7 from 1000 to 1020, for the witness. *)
Definition clock : M Z Time := fun u => (Ret (Z.max 1000 (Z.min u 1020)), u + 7).

#[local] Instance texts : Texts := {|
  format_time t := Some (pretty t);
  parse_time _ := None;
  json_of_float _ := None;
  json_of_text _ := None
|}.

(** Two buckets of 10ns each, and percentiles in one bucket of 60ns. *)
Definition config : RunStatsConfig Z := mkRunStatsConfig None 20 2 60 1 (-4).

Definition session : list session_step :=
  [Told (mkEvent KSuccess 1000 30); Observed; Told (mkEvent KErrFailure 1005 10); Observed;
   Told (mkEvent KErrShortCircuit 1006 0); Told (mkEvent KErrTimeout 1012 20); Told (mkEvent KSuccess 1019 5)].

Lemma exported_stats_are_exact_witness :
  exists r s doc s', SetConfigNotThreadSafe clock config (RunStats_zero, 1000) = (Ret tt, (r, 1007)) /\
    range_do (session_run clock) session (r, 1007) = (Ret tt, s) /\
    Func_String (Value_of (RunStats_Var clock)) s = (Ret (Some doc), s') /\
    at_path ["Successes"; "RollingSum"] doc = Some (JInt 1) /\
    at_path ["Successes"; "TotalSum"] doc = Some (JInt 2) /\
    at_path ["Latencies"; "snap"; "p50"] doc = Some (JString "15ns").
Proof.
  destruct (exported_stats_are_exact clock config RunStats_zero 1000 clock 1000 1007 "1000" session 1020)
    as (r & s & E & Es & H).
  1-10: first [reflexivity | vm_compute; discriminate].
  - intros u. eexists _, _. split; [reflexivity |]. lia.
  - repeat constructor; vm_compute; discriminate.
  - reflexivity.
  - assert (Hs : s.2 = 1021).
    { pose proof E as E'. vm_compute in E'. injection E' as E'. rewrite <- E' in Es. vm_compute in Es.
      injection Es as Es. by rewrite <- Es. }
    destruct (H 1028) as (doc & s' & ms & Ed & Hc & Hl & Ht); [rewrite Hs; reflexivity |].
    exists r, s, doc, s'. split; [exact E |]. split; [exact Es |]. split; [exact Ed |].
    split; [exact (proj1 (Hc KSuccess)) |]. split; [exact (proj2 (Hc KSuccess)) |].
    apply Ht. revert Hl. vm_compute. intros [= <-]. right; right; left.
Defined.
End StatsExportSample.
End StatsExport.
