(* ===== verification/HystrixExport.v ===== *)
(** [MarshalJSON] of the hystrix logic: [Opener] (closers/hystrix/opener.go) and [Closer]
    (closers/hystrix/closer.go), as a circuit publishes them.

    The opener reads its clock, rolls its two windows and encodes them after that; the mutexes of
    both are those left out in HystrixOpener.v and HystrixCloser.v. *)

From stdpp Require Import pretty.
From S2P Require Import Prelude GoMonad GoFloat RollingBuckets RollingCounter GoJson CounterJson Expvar StatsExport Metrics Closers HystrixOpener HystrixCloser.

Open Scope Z_scope.

Module HystrixExport.
Import GoJson Expvar.

Section Opener.
Context {texts : Texts} {U : Type} (time_Now : M U Time).
Abbreviation Op := (HystrixOpener.Opener.Opener U).

(** The fields of [ConfigureOpener] that are not tagged "-". *)
Definition ConfigureOpener_json (c : HystrixOpener.Opener.ConfigureOpener U) : json :=
  JObject [("ErrorThresholdPercentage", JInt (HystrixOpener.Opener.ErrorThresholdPercentage c));
           ("RequestVolumeThreshold", JInt (HystrixOpener.Opener.RequestVolumeThreshold c));
           ("RollingDuration", JInt (HystrixOpener.Opener.RollingDuration c));
           ("NumBuckets", JInt (HystrixOpener.Opener.NumBuckets c))].

(** A pointer to a counter of the opener. *)
Definition opener_counter (l : lens Op RollingCounter) : any (Op * U) :=
  Marshaler (gets (fun s => CounterJson.MarshalJSON format_time parse_time (view l s.1))).

(** On the opener and the environment its clock is read in. *)
Definition Opener_MarshalJSON : M (Op * U) (option json) :=
  let! e := gets fst in
  let cfg := HystrixOpener.Opener.Config e in
  let! t := zoom (Lens snd (fun u s => (fst s, u))) (HystrixOpener.Opener.now time_Now cfg) in
  let! pct := zoom (Lens fst (fun e s => (e, snd s))) (HystrixOpener.Opener.errPercentage t) in
  Marshal (Map [("config", Value (ConfigureOpener_json cfg));
                ("attempts", opener_counter HystrixOpener.Opener.legitimateAttemptsCountL);
                ("errors", opener_counter HystrixOpener.Opener.errorsCountL);
                ("err_%", Float pct)]).

(** The document, of an opener whose counters are [e]'s. *)
Definition opener_members (x : string) (j : json) (e : Op) : list (string * json) :=
  [("config", ConfigureOpener_json (HystrixOpener.Opener.config e));
   ("attempts", StatsExport.counter_json x (HystrixOpener.Opener.legitimateAttemptsCount e));
   ("errors", StatsExport.counter_json x (HystrixOpener.Opener.errorsCount e)); ("err_%", j)].

Section Told.
Context (w n start now : Z) (errs atts : list Time).
Hypothesis Hw : 0 < w.
Hypothesis Hn : 0 < n.
Hypothesis Hnow : start <= now.
Hypothesis Hrange : now - start <= max_int64.
Hypothesis Hle : zlen errs <= max_int64.
Hypothesis Hla : zlen atts <= max_int64.
Abbreviation knows := (HystrixOpener.Opener.knows w n start now errs atts).
Abbreviation a := (in_window w n start now atts).

Definition published_rate : float64 :=
  if a =? 0 then float64_of_int (-1)
  else fdiv (float64_of_int (in_window w n start now errs)) (float64_of_int a).

(** [errPercentage] rolls the window of the attempts, and that of the errors if there were attempts. *)
Lemma errPercentage_run (e : Op) :
  knows e ->
  exists e', HystrixOpener.Opener.errPercentage now e = (Ret published_rate, e') /\ knows e' /\
    HystrixOpener.Opener.config e' = HystrixOpener.Opener.config e /\
    sumBuckets (HystrixOpener.Opener.legitimateAttemptsCount e') = a /\
    sumBuckets (HystrixOpener.Opener.errorsCount e')
    = if a =? 0 then sumBuckets (HystrixOpener.Opener.errorsCount e) else in_window w n start now errs.
Proof.
  intros [He Ha].
  destruct (fed_sum w n start now Hw Hn Hnow Hrange atts _ Ha Hla) as (c1 & E1 & Hc1).
  destruct (fed_sum w n start now Hw Hn Hnow Hrange errs _ He Hle) as (c2 & E2 & Hc2).
  pose proof (StatsExport.RollingSumAt_sum _ _ _ _ E1) as S1. pose proof (StatsExport.RollingSumAt_sum _ _ _ _ E2) as S2.
  unfold HystrixOpener.Opener.errPercentage, published_rate. unfold bind at 1, zoom at 1.
  cbn [view HystrixOpener.Opener.legitimateAttemptsCountL]. rewrite E1.
  destruct (a =? 0); [by eexists |].
  unfold bind, zoom. cbn [view upd HystrixOpener.Opener.errorsCountL HystrixOpener.Opener.legitimateAttemptsCountL HystrixOpener.Opener.errorsCount].
  rewrite E2. by eexists.
Qed.

(** C35: what an opener publishes.  An opener that was told of [errs] and [atts], asked for its JSON at
    [now] on its clock, shows the number of attempts in the window and, as its rate, the quotient of the
    errors in the window by them (-1 if there are none); and it decides afterwards as it did before.
    Its errors are those in the window only when there was an attempt in it: an idle opener goes on
    showing the errors it had when it was last asked or told. *)
Theorem published_opener e u u' x j f :
  knows e ->
  HystrixOpener.Opener.Now (HystrixOpener.Opener.config e) = Some f -> f u = (Ret now, u') ->
  format_time start = Some x -> json_of_float published_rate = Some j ->
  exists doc e', Opener_MarshalJSON (e, u) = (Ret (Some doc), (e', u')) /\ knows e' /\
    at_path ["config"] doc = Some (ConfigureOpener_json (HystrixOpener.Opener.config e)) /\
    at_path ["attempts"; "RollingSum"] doc = Some (JInt a) /\ at_path ["err_%"] doc = Some j /\
    at_path ["errors"; "RollingSum"] doc
    = Some (JInt (if a =? 0 then sumBuckets (HystrixOpener.Opener.errorsCount e) else in_window w n start now errs)).
Proof.
  intros Hk Hf Eu Hx Hj. destruct (errPercentage_run e Hk) as (e' & Ep & Hk' & Hcfg & S1 & S2).
  exists (JObject (sort_keys (opener_members x j e'))), e'. split; [| split; [exact Hk' |]].
  - unfold Opener_MarshalJSON. rewrite (bind_run _ _ (e, u) e (e, u)) by done.
    rewrite (bind_run _ _ _ now (e, u'))
      by (unfold zoom, HystrixOpener.Opener.now, HystrixOpener.Opener.Config; rewrite Hf; cbn; by rewrite Eu).
    rewrite (bind_run _ _ _ published_rate (e', u')) by (unfold zoom; cbn [view fst]; by rewrite Ep).
    apply reads_Map. destruct Hk' as [He2 Ha2].
    repeat constructor; unfold reads_as; cbn [Marshal snd opener_counter]; unfold gets, ret; cbn [fst view].
    + by rewrite Hcfg.
    + by rewrite (StatsExport.counter_MarshalJSON _ x) by (by erewrite StatsExport.fed_StartTime).
    + by rewrite (StatsExport.counter_MarshalJSON _ x) by (by erewrite StatsExport.fed_StartTime).
    + by rewrite Hj.
  - by rewrite <- S2, <- S1, <- Hcfg.
Qed.
End Told.
End Opener.

(** * The closer *)

Definition ConfigureCloser_json (c : HystrixCloser.Closer.ConfigureCloser) : json :=
  JObject [("SleepWindow", JInt (HystrixCloser.Closer.SleepWindow c));
           ("HalfOpenAttempts", JInt (HystrixCloser.Closer.HalfOpenAttempts c));
           ("RequiredConcurrentSuccessful", JInt (HystrixCloser.Closer.RequiredConcurrentSuccessful c))].

Definition Closer_MarshalJSON `{texts : Texts} : M HystrixCloser.Closer.Closer (option json) :=
  let! s := gets (fun s => s) in
  Marshal (Map [("config", Value (ConfigureCloser_json (HystrixCloser.Closer.Config s)));
                ("concurrentSuccessfulAttempts", Value (JInt (HystrixCloser.Closer.concurrentSuccessfulAttempts s)))]).

Lemma published_closer `{texts : Texts} s :
  exists doc, Closer_MarshalJSON s = (Ret (Some doc), s) /\
    at_path ["concurrentSuccessfulAttempts"] doc = Some (JInt (HystrixCloser.Closer.concurrentSuccessfulAttempts s)) /\
    at_path ["config"; "SleepWindow"] doc = Some (JInt (HystrixCloser.Closer.SleepWindow (HystrixCloser.Closer.config s))).
Proof. eexists. split; [reflexivity | done]. Qed.

(** * Witness *)

Module HystrixExportSample.

Definition ticking : M Z Time := fun u => (Ret u, u + 1).

#[local] Instance texts : Texts := {|
  format_time t := Some (pretty t);
  parse_time _ := None;
  json_of_float f := JInt <$> int64_of_float f;
  json_of_text _ := None
|}.

(** Made at 0, with two buckets of 10ns; told of one failure at 5 and asked at 15, and never again
    until 95. *)
Definition config : HystrixOpener.Opener.ConfigureOpener Z := HystrixOpener.Opener.mkConfigureOpener 50 1 (Some ticking) 20 2.

Definition counted_once : RollingCounter := mkRollingCounter [1; 0] 1 (mkRollingBuckets 2 0 10 0).

Definition told : HystrixOpener.Opener.Opener Z := HystrixOpener.Opener.mkOpener counted_once counted_once 50 1 config.

Lemma told_knows now : 5 <= now -> HystrixOpener.Opener.knows 10 2 0 now [5] [5] told.
Proof.
  intros Hnow. assert (H : fed 10 2 0 now [5] counted_once); [| by split].
  assert (H0 : fed 10 2 0 now [] (mkRollingCounter [0; 0] 0 (mkRollingBuckets 2 0 10 0)))
    by (apply fed_new; try done; lia).
  destruct (fed_inc 10 2 0 now [] 5 _ H0) as (r' & E & H); [lia |]. vm_compute in E. injection E as E. by rewrite <- E in H.
Qed.

Lemma published_opener_witness :
  (exists doc e', Opener_MarshalJSON ticking (told, 15) = (Ret (Some doc), (e', 16)) /\
     at_path ["attempts"; "RollingSum"] doc = Some (JInt 1) /\ at_path ["err_%"] doc = Some (JInt 1) /\
     at_path ["errors"; "RollingSum"] doc = Some (JInt 1)) /\
  (exists doc e', Opener_MarshalJSON ticking (told, 95) = (Ret (Some doc), (e', 96)) /\
     at_path ["attempts"; "RollingSum"] doc = Some (JInt 0) /\ at_path ["err_%"] doc = Some (JInt (-1)) /\
     at_path ["errors"; "RollingSum"] doc = Some (JInt 1)).
Proof.
  split.
  - destruct (published_opener ticking 10 2 0 15 [5] [5] ltac:(lia) ltac:(lia) ltac:(lia) ltac:(vm_compute; discriminate)
      ltac:(vm_compute; discriminate) ltac:(vm_compute; discriminate) told 15 16 "0" (JInt 1) ticking
      (told_knows 15 ltac:(lia)) eq_refl eq_refl eq_refl eq_refl) as (doc & e' & E & _ & _ & H1 & H2 & H3).
    exists doc, e'. split; [exact E | split; [exact H1 | split; [exact H2 | exact H3]]].
  - destruct (published_opener ticking 10 2 0 95 [5] [5] ltac:(lia) ltac:(lia) ltac:(lia) ltac:(vm_compute; discriminate)
      ltac:(vm_compute; discriminate) ltac:(vm_compute; discriminate) told 95 96 "0" (JInt (-1)) ticking
      (told_knows 95 ltac:(lia)) eq_refl eq_refl eq_refl eq_refl) as (doc & e' & E & _ & _ & H1 & H2 & H3).
    exists doc, e'. split; [exact E | split; [exact H1 | split; [exact H2 | exact H3]]].
Defined.
End HystrixExportSample.
End HystrixExport.
