(* ===== verification/StreamMetrics.v ===== *)
(** metriceventstream/metriceventstream.go, the data: the metrics of one circuit that are sent
    to the clients of the stream, and metrics/rolling/rolling.go's search for the statistics of a
    circuit.

    [collectCommandMetrics] runs on the circuit, on its environment, where the statistics are
    (their windows advance when they are read), and on two statistics of its own, which it shows
    when the circuit has none ([scratch]).  What Go finds by a type assertion is found by
    [DynamicTypes].  Durations are truncated to milliseconds. *)

From S2P Require Import Prelude GoMonad GoFloat RollingBuckets RollingCounter RollingPercentile Errors Metrics Closers Config Circuit RunStats HystrixOpener HystrixCloser.

Module StreamMetrics.

Abbreviation RunStats := RunStats.RunStats.RunStats.
Abbreviation FallbackStats := RunStats.RunStats.FallbackStats.
Abbreviation counterL := RunStats.RunStats.counterL.
Abbreviation fallback_kind := RunStats.RunStats.fallback_kind.
Abbreviation fallbackL := RunStats.RunStats.fallbackL.
Abbreviation FSuccess := RunStats.RunStats.FSuccess.
Abbreviation FFailure := RunStats.RunStats.FFailure.
Abbreviation FRejection := RunStats.RunStats.FRejection.

#[local] Existing Instance RunStats.RunStats.counterL_laws.
#[local] Existing Instance RunStats.RunStats.fallbackL_laws.
#[local] Existing Instance RunStats.RunStats.fallback_kind_eq_dec.

(** * The message *)

Record streamCmdLatency := mkStreamCmdLatency {
  Timing0 : Z;
  Timing25 : Z;
  Timing50 : Z;
  Timing75 : Z;
  Timing90 : Z;
  Timing95 : Z;
  Timing99 : Z;
  Timing995 : Z;
  Timing100 : Z
}.

Record streamCmdMetric := mkStreamCmdMetric {
  Type_ : string;
  Name_ : string;
  Group : string;
  Time_ : Z;
  ReportingHosts : Z;
  RequestCount : Z;
  ErrorCount : Z;
  ErrorPct : Z;
  RollingCountCollapsedRequests : Z;
  RollingCountExceptionsThrown : Z;
  RollingCountResponsesFromCache : Z;
  RollingCountFallbackFailure : Z;
  RollingCountFallbackRejection : Z;
  RollingCountFallbackSuccess : Z;
  RollingCountFailure : Z;
  RollingCountSemaphoreRejected : Z;
  RollingCountShortCircuited : Z;
  RollingCountSuccess : Z;
  RollingCountThreadPoolRejected : Z;
  RollingCountTimeout : Z;
  RollingCountBadRequests : Z;
  CurrentConcurrentExecutionCount : Z;
  LatencyExecuteMean : Z;
  LatencyTotalMean : Z;
  LatencyExecute : streamCmdLatency;
  LatencyTotal : streamCmdLatency;
  CircuitBreakerRequestVolumeThreshold : Z;
  CircuitBreakerSleepWindow : Z;
  CircuitBreakerErrorThresholdPercent : Z;
  ExecutionIsolationStrategy : string;
  ExecutionIsolationThreadPoolKeyOverride : string;
  ExecutionIsolationThreadTimeout : Z;
  ExecutionIsolationSemaphoreMaxConcurrentRequests : Z;
  FallbackIsolationSemaphoreMaxConcurrentRequests : Z;
  RollingStatsWindow : Z;
  CircuitBreakerForceOpen : bool;
  CircuitBreakerForceClosed : bool;
  CircuitBreakerEnabled : bool;
  ExecutionIsolationThreadInterruptOnTimeout : bool;
  RequestCacheEnabled : bool;
  RequestLogEnabled : bool;
  CircuitBreakerOpen : bool;
  TotalCountFallbackSuccess : Z;
  TotalCountFallbackFailure : Z;
  TotalCountFallbackRejection : Z;
  TotalCountSuccess : Z;
  TotalCountSemaphoreRejected : Z;
  TotalCountFailure : Z;
  TotalCountShortCircuited : Z;
  TotalCountTimeout : Z;
  TotalCountBadRequests : Z
}.

(** The three properties that are hystrix's. *)
Definition set_properties (volume sleep percent : Z) (m : streamCmdMetric) : streamCmdMetric :=
  mkStreamCmdMetric
    (Type_ m) (Name_ m) (Group m) (Time_ m) (ReportingHosts m) (RequestCount m) (ErrorCount m)
    (ErrorPct m) (RollingCountCollapsedRequests m) (RollingCountExceptionsThrown m)
    (RollingCountResponsesFromCache m) (RollingCountFallbackFailure m)
    (RollingCountFallbackRejection m) (RollingCountFallbackSuccess m) (RollingCountFailure m)
    (RollingCountSemaphoreRejected m) (RollingCountShortCircuited m) (RollingCountSuccess m)
    (RollingCountThreadPoolRejected m) (RollingCountTimeout m) (RollingCountBadRequests m)
    (CurrentConcurrentExecutionCount m) (LatencyExecuteMean m) (LatencyTotalMean m)
    (LatencyExecute m) (LatencyTotal m) volume sleep percent (ExecutionIsolationStrategy m)
    (ExecutionIsolationThreadPoolKeyOverride m) (ExecutionIsolationThreadTimeout m)
    (ExecutionIsolationSemaphoreMaxConcurrentRequests m)
    (FallbackIsolationSemaphoreMaxConcurrentRequests m) (RollingStatsWindow m)
    (CircuitBreakerForceOpen m) (CircuitBreakerForceClosed m) (CircuitBreakerEnabled m)
    (ExecutionIsolationThreadInterruptOnTimeout m) (RequestCacheEnabled m)
    (RequestLogEnabled m) (CircuitBreakerOpen m) (TotalCountFallbackSuccess m)
    (TotalCountFallbackFailure m) (TotalCountFallbackRejection m) (TotalCountSuccess m)
    (TotalCountSemaphoreRejected m) (TotalCountFailure m) (TotalCountShortCircuited m)
    (TotalCountTimeout m) (TotalCountBadRequests m).

(** [d.Nanoseconds() / time.Millisecond.Nanoseconds()] *)
Definition milliseconds (d : Duration) : Z := Z.quot d Millisecond.

(** [None] where [Percentile] has no value. *)
Definition generateLatencyTimings (snap : list Duration) : option streamCmdLatency :=
  let timing p := milliseconds <$> RollingPercentile.Percentile snap p in
  timing0 ← timing (float64_of_int 0);
  timing25 ← timing (float64_of_int 25);
  timing50 ← timing (float64_of_int 50);
  timing75 ← timing (float64_of_int 75);
  timing90 ← timing (float64_of_int 90);
  timing95 ← timing (float64_of_int 95);
  timing99 ← timing (float64_of_int 99);
  timing995 ← timing (fdiv (float64_of_int 995) (float64_of_int 10));
  timing100 ← timing (float64_of_int 100);
  Some (mkStreamCmdLatency timing0 timing25 timing50 timing75 timing90 timing95 timing99 timing995 timing100).

(** * Finding the statistics of a circuit *)

(** The type assertions of the program: which user's objects are statistics, and where these
    are in the environment; whether the logic of a circuit is hystrix's.  The clocks of the
    statistics read a part [V] of the environment. *)
Class DynamicTypes (OS CS U V : Type) := {
  as_RunStats : nat -> option (lens U (RunStats V));
  as_FallbackStats : nat -> option (lens U FallbackStats);
  as_hystrix_Opener : OS -> option (HystrixOpener.Opener.Opener U);
  as_hystrix_Closer : CS -> option HystrixCloser.Closer.Closer
}.

(** [for _, r := range l { if ret, ok := r.(T); ok { return ret } }; return nil] *)
Fixpoint first_of {A B} (is_a : A -> option B) (l : list A) : option B :=
  match l with
  | [] => None
  | r :: l' => match is_a r with Some x => Some x | None => first_of is_a l' end
  end.

Section Collect.
Context {OS CS U V : Type} `{!DynamicTypes OS CS U V}.

(** The logic of a circuit is never a [*RunStats]: that has none of its other methods. *)
Definition run_ref_as_RunStats (r : run_ref) : option (lens U (RunStats V)) :=
  match r with RefUser id => as_RunStats id | _ => None end.

Definition FindCommandMetrics (c : Circuit OS CS U) : option (lens U (RunStats V)) :=
  first_of run_ref_as_RunStats (CmdMetricCollector c).

Definition FindFallbackMetrics (c : Circuit OS CS U) : option (lens U FallbackStats) :=
  first_of as_FallbackStats (FallbackMetricCollector c).

(** * Collecting *)

(** The world, and the statistics shown for a circuit that has none. *)
Record scratch := mkScratch { world : World OS CS U; zeroRun : RunStats V; zeroFallback : FallbackStats }.

Definition worldL : lens scratch (World OS CS U) :=
  Lens world (fun w s => mkScratch w (zeroRun s) (zeroFallback s)).
Definition zeroRunL : lens scratch (RunStats V) :=
  Lens zeroRun (fun r s => mkScratch (world s) r (zeroFallback s)).
Definition zeroFallbackL : lens scratch FallbackStats :=
  Lens zeroFallback (fun r s => mkScratch (world s) (zeroRun s) r).

Definition userL : lens scratch U := lens_comp worldL envL.

Definition runStatsL (c : Circuit OS CS U) : lens scratch (RunStats V) :=
  match FindCommandMetrics c with Some l => lens_comp userL l | None => zeroRunL end.
Definition fallbackStatsL (c : Circuit OS CS U) : lens scratch FallbackStats :=
  match FindFallbackMetrics c with Some l => lens_comp userL l | None => zeroFallbackL end.

Definition attachHystrixProperties (c : Circuit OS CS U) (into : streamCmdMetric) : streamCmdMetric :=
  let into :=
    match ClosedToOpenLogic c ≫= as_hystrix_Opener with
    | Some asHystrix =>
        let config := HystrixOpener.Opener.Config asHystrix in
        set_properties (HystrixOpener.Opener.RequestVolumeThreshold config) (CircuitBreakerSleepWindow into)
          (HystrixOpener.Opener.ErrorThresholdPercentage config) into
    | None => into
    end in
  match OpenToClose c ≫= as_hystrix_Closer with
  | Some asHystrix =>
      set_properties (CircuitBreakerRequestVolumeThreshold into)
        (milliseconds (HystrixCloser.Closer.SleepWindow (HystrixCloser.Closer.Config asHystrix)))
        (CircuitBreakerErrorThresholdPercent into) into
  | None => into
  end.

(** The operands of the message are evaluated in the order of the code; [of_option] is a
    conversion out of the range of an integer, or an index out of range. *)
Definition collectCommandMetrics : M scratch streamCmdMetric :=
  let! c := gets (fun s => circ (world s)) in
  let run := runStatsL c in
  let fallback := fallbackStatsL c in
  let! config := zoom worldL GetConfig in
  let! now := match Now (General_TimeKeeper (General config)) with
              | Some f => zoom userL f
              | None => throw NilDereference
              end in
  let! snap := zoom run (zoom RunStats.RunStats.LatenciesL (RollingPercentile.SnapshotAt now)) in
  let! circuitConfig := zoom worldL GetConfig in
  let rolling k := zoom run (zoom (counterL k) (RollingSumAt now)) in
  let total k := zoom run (zoom (counterL k) (gets TotalSum)) in
  let rollingFallback l := zoom fallback (zoom l (RollingSumAt now)) in
  let totalFallback l := zoom fallback (zoom l (gets TotalSum)) in
  let! name := zoom worldL (Name theCircuit) in
  let! attempts := zoom run (RunStats.RunStats.LegitimateAttemptsAt now) in
  let! interrupts := rolling KErrInterrupt in
  let requestCount := wrap64 (attempts + interrupts) in
  let! errorCount := zoom run (RunStats.RunStats.ErrorsAt now) in
  let! errorPercentage := zoom run (RunStats.RunStats.ErrorPercentageAt now) in
  let! errorPct := of_option IndexOutOfRange (int64_of_float (fmul (float64_of_int 100) errorPercentage)) in
  let! circuitOpen := zoom worldL (IsOpen theCircuit) in
  let! rollingFallbackSuccess := rollingFallback RunStats.RunStats.FallbackSuccessesL in
  let! rollingFallbackFailure := rollingFallback RunStats.RunStats.FallbackErrFailuresL in
  let! rollingFallbackRejection := rollingFallback RunStats.RunStats.FallbackErrConcurrencyLimitRejectsL in
  let! rollingSuccess := rolling KSuccess in
  let! rollingRejected := rolling KErrConcurrencyLimitReject in
  let! rollingFailure := rolling KErrFailure in
  let! rollingShortCircuited := rolling KErrShortCircuit in
  let! rollingTimeout := rolling KErrTimeout in
  let! badRequests := rolling KErrBadRequest in
  let! interrupts := rolling KErrInterrupt in
  let rollingBadRequests := wrap64 (badRequests + interrupts) in
  let! totalFallbackSuccess := totalFallback RunStats.RunStats.FallbackSuccessesL in
  let! totalFallbackFailure := totalFallback RunStats.RunStats.FallbackErrFailuresL in
  let! totalFallbackRejection := totalFallback RunStats.RunStats.FallbackErrConcurrencyLimitRejectsL in
  let! totalSuccess := total KSuccess in
  let! totalRejected := total KErrConcurrencyLimitReject in
  let! totalFailure := total KErrFailure in
  let! totalShortCircuited := total KErrShortCircuit in
  let! totalTimeout := total KErrTimeout in
  let! totalBadRequest := total KErrBadRequest in
  let! totalInterrupt := total KErrInterrupt in
  let! latency := of_option IndexOutOfRange (generateLatencyTimings snap) in
  let mean := milliseconds (RollingPercentile.Mean snap) in
  let! concurrentCommands := zoom worldL ConcurrentCommands in
  let! rollingStatsDuration :=
    gets (fun s => RunStats.RunStats.RollingStatsDuration (RunStats.RunStats.Config_ (view run s))) in
  let rollingStatsWindow := milliseconds rollingStatsDuration in
  let! c := gets (fun s => circ (world s)) in
  ret (attachHystrixProperties c (mkStreamCmdMetric
    "HystrixCommand" name "" (milliseconds now) 1 requestCount errorCount errorPct 0 0 0
    rollingFallbackFailure rollingFallbackRejection rollingFallbackSuccess rollingFailure
    rollingRejected rollingShortCircuited rollingSuccess 0 rollingTimeout rollingBadRequests
    concurrentCommands mean mean latency latency 0 0 0 "SEMAPHORE" ""
    (milliseconds (Timeout (Execution circuitConfig)))
    (MaxConcurrentRequests (Execution circuitConfig))
    (Fallback_MaxConcurrentRequests (Fallback circuitConfig)) rollingStatsWindow
    (ForceOpen (General circuitConfig)) (ForcedClosed (General circuitConfig))
    (negb (Disabled (General circuitConfig))) false false false circuitOpen
    totalFallbackSuccess totalFallbackFailure totalFallbackRejection totalSuccess totalRejected
    totalFailure totalShortCircuited totalTimeout (wrap64 (totalBadRequest + totalInterrupt)))).
End Collect.

Arguments scratch OS CS U V : clear implicits.

(** * What statistics show *)

(** The numbers the statistics show at an instant: of the window, ever, and the latencies. *)
Record shown := mkShown {
  in_window_of : run_kind -> Z;
  ever : run_kind -> Z;
  latencies : list Duration;
  window : Duration
}.

Definition errors_of (n : shown) : Z := wrap64 (in_window_of n KErrFailure + in_window_of n KErrTimeout).
Definition attempts_of (n : shown) : Z := wrap64 (in_window_of n KSuccess + errors_of n).
Definition percentage_of (n : shown) : float64 :=
  if attempts_of n =? 0 then float64_of_int 0
  else fdiv (float64_of_int (errors_of n)) (float64_of_int (attempts_of n)).

Section Show.
Context {U : Type}.

(** From the states of [P], run statistics show [n] at [now]. *)
Record run_shows (now : Time) (P : RunStats U -> Prop) (n : shown) : Prop := {
  shows_sum : forall k, reads P (zoom (counterL k) (RollingSumAt now)) (in_window_of n k);
  shows_total : forall k, reads P (zoom (counterL k) (gets TotalSum)) (ever n k);
  shows_latencies :
    reads P (zoom RunStats.RunStats.LatenciesL (RollingPercentile.SnapshotAt now)) (latencies n);
  shows_window : forall r, P r -> RunStats.RunStats.RollingStatsDuration (RunStats.RunStats.Config_ r) = window n
}.

Record fallback_shows (now : Time) (Q : FallbackStats -> Prop) (sums totals : fallback_kind -> Z) : Prop := {
  shows_fallback : forall k, reads Q (zoom (fallbackL k) (RollingSumAt now)) (sums k);
  shows_fallback_total : forall k, reads Q (zoom (fallbackL k) (gets TotalSum)) (totals k)
}.

Lemma ErrorsAt_reads now P n : run_shows now P n -> reads P (RunStats.RunStats.ErrorsAt now) (errors_of n).
Proof.
  intros H. eapply reads_bind; [apply (shows_sum _ _ _ H KErrFailure) |].
  eapply reads_bind; [apply (shows_sum _ _ _ H KErrTimeout) |]. apply reads_ret.
Qed.

Lemma LegitimateAttemptsAt_reads now P n :
  run_shows now P n -> reads P (RunStats.RunStats.LegitimateAttemptsAt now) (attempts_of n).
Proof.
  intros H. eapply reads_bind; [apply (shows_sum _ _ _ H KSuccess) |].
  eapply reads_bind; [by apply (ErrorsAt_reads _ _ n) |]. apply reads_ret.
Qed.

Lemma ErrorPercentageAt_reads now P n :
  run_shows now P n -> reads P (RunStats.RunStats.ErrorPercentageAt now) (percentage_of n).
Proof.
  intros H. eapply reads_bind; [by apply (LegitimateAttemptsAt_reads _ _ n) |].
  unfold percentage_of. destruct (attempts_of n =? 0); [apply reads_ret |].
  eapply reads_bind; [by apply (ErrorsAt_reads _ _ n) |]. apply reads_ret.
Qed.
End Show.

(** * The message shows these numbers *)

Section Message.
Context {OS CS U V : Type} `{!DynamicTypes OS CS U V}.
Context (c : Circuit OS CS U) (now : Time).
Context (P : RunStats V -> Prop) (Q : FallbackStats -> Prop).
Context (n : shown) (sums totals : fallback_kind -> Z).
Implicit Types s : scratch OS CS U V.

(** The two statistics are objects of their own, apart from the circuit. *)
Class Apart : Prop := {
  run_set : forall r s, view (runStatsL c) (upd (runStatsL c) r s) = r;
  fallback_set : forall r s, view (fallbackStatsL c) (upd (fallbackStatsL c) r s) = r;
  run_fallback : forall r s, view (fallbackStatsL c) (upd (runStatsL c) r s) = view (fallbackStatsL c) s;
  fallback_run : forall r s, view (runStatsL c) (upd (fallbackStatsL c) r s) = view (runStatsL c) s;
  run_circ : forall r s, circ (world (upd (runStatsL c) r s)) = circ (world s);
  fallback_circ : forall r s, circ (world (upd (fallbackStatsL c) r s)) = circ (world s)
}.

Definition collecting s : Prop :=
  circ (world s) = c /\ P (view (runStatsL c) s) /\ Q (view (fallbackStatsL c) s).

Definition open_shown : bool :=
  let cfg := threadSafeConfig c in
  if a_ForceOpen cfg then true else if a_ForcedClosed cfg then false else isOpen c.

(** The message says what the circuit and its statistics say. *)
Definition says (latency : streamCmdLatency) (percent : Z) (m : streamCmdMetric) : Prop :=
  let config := notThreadSafeConfig c in
  (Type_ m = "HystrixCommand" /\ Name_ m = name c /\ Time_ m = milliseconds now) /\
  (RequestCount m = wrap64 (attempts_of n + in_window_of n KErrInterrupt) /\
   ErrorCount m = errors_of n /\ ErrorPct m = percent /\ CircuitBreakerOpen m = open_shown) /\
  (RollingCountSuccess m = in_window_of n KSuccess /\ RollingCountFailure m = in_window_of n KErrFailure /\
   RollingCountTimeout m = in_window_of n KErrTimeout /\
   RollingCountSemaphoreRejected m = in_window_of n KErrConcurrencyLimitReject /\
   RollingCountShortCircuited m = in_window_of n KErrShortCircuit /\
   RollingCountBadRequests m = wrap64 (in_window_of n KErrBadRequest + in_window_of n KErrInterrupt)) /\
  (RollingCountFallbackSuccess m = sums FSuccess /\ RollingCountFallbackFailure m = sums FFailure /\
   RollingCountFallbackRejection m = sums FRejection) /\
  (TotalCountSuccess m = ever n KSuccess /\ TotalCountFailure m = ever n KErrFailure /\
   TotalCountTimeout m = ever n KErrTimeout /\
   TotalCountSemaphoreRejected m = ever n KErrConcurrencyLimitReject /\
   TotalCountShortCircuited m = ever n KErrShortCircuit /\
   TotalCountBadRequests m = wrap64 (ever n KErrBadRequest + ever n KErrInterrupt)) /\
  (TotalCountFallbackSuccess m = totals FSuccess /\ TotalCountFallbackFailure m = totals FFailure /\
   TotalCountFallbackRejection m = totals FRejection) /\
  (LatencyTotal m = latency /\ LatencyExecute m = latency /\
   LatencyTotalMean m = milliseconds (RollingPercentile.Mean (latencies n)) /\
   LatencyExecuteMean m = milliseconds (RollingPercentile.Mean (latencies n))) /\
  (CurrentConcurrentExecutionCount m = concurrentCommands c /\
   CircuitBreakerEnabled m = negb (Disabled (General config)) /\
   CircuitBreakerForceOpen m = ForceOpen (General config) /\
   CircuitBreakerForceClosed m = ForcedClosed (General config) /\
   ExecutionIsolationSemaphoreMaxConcurrentRequests m = MaxConcurrentRequests (Execution config) /\
   ExecutionIsolationThreadTimeout m = milliseconds (Timeout (Execution config)) /\
   FallbackIsolationSemaphoreMaxConcurrentRequests m = Fallback_MaxConcurrentRequests (Fallback config) /\
   RollingStatsWindow m = milliseconds (window n)) /\
  (CircuitBreakerErrorThresholdPercent m
     = from_option (fun o => HystrixOpener.Opener.ErrorThresholdPercentage (HystrixOpener.Opener.Config o)) 0
         (ClosedToOpenLogic c ≫= as_hystrix_Opener) /\
   CircuitBreakerRequestVolumeThreshold m
     = from_option (fun o => HystrixOpener.Opener.RequestVolumeThreshold (HystrixOpener.Opener.Config o)) 0
         (ClosedToOpenLogic c ≫= as_hystrix_Opener) /\
   CircuitBreakerSleepWindow m
     = from_option (fun o => milliseconds (HystrixCloser.Closer.SleepWindow (HystrixCloser.Closer.Config o))) 0
         (OpenToClose c ≫= as_hystrix_Closer)).

Context `{!Apart}.

Lemma reads_run {A} (m : M (RunStats V) A) a : reads P m a -> reads collecting (zoom (runStatsL c) m) a.
Proof.
  intros Hm. eapply reads_zoom; [done | by intros s (_ & Hp & _) |].
  intros t s (Hc & Hp & Hq) Ht. split; [by rewrite run_circ |]. by rewrite run_set, run_fallback.
Qed.

Lemma reads_fallback {A} (m : M FallbackStats A) a :
  reads Q m a -> reads collecting (zoom (fallbackStatsL c) m) a.
Proof.
  intros Hm. eapply reads_zoom; [done | by intros s (_ & _ & Hq) |].
  intros t s (Hc & Hp & Hq) Ht. split; [by rewrite fallback_circ |]. by rewrite fallback_run, fallback_set.
Qed.

(** A method of the circuit that leaves the world as it is. *)
Lemma reads_circuit {A} (m : M (World OS CS U) A) a :
  (forall w, circ w = c -> m w = (Ret a, w)) -> reads collecting (zoom worldL m) a.
Proof.
  intros Hm s Hs. exists s. unfold zoom. cbn [view worldL]. rewrite (Hm _ (proj1 Hs)). by destruct s.
Qed.

Hypothesis Hmu : notThreadSafeConfigMu c = false.

Lemma GetConfig_run w : circ w = c -> GetConfig w = (Ret (notThreadSafeConfig c), w).
Proof. destruct w as [c' u]. simpl. intros ->. destruct c. simpl in Hmu. by subst. Qed.

Lemma Name_run w : circ w = c -> Name theCircuit w = (Ret (name c), w).
Proof. by intros <-. Qed.

Lemma ConcurrentCommands_run w : circ w = c -> ConcurrentCommands w = (Ret (concurrentCommands c), w).
Proof. by intros <-. Qed.

Lemma IsOpen_run w : circ w = c -> IsOpen theCircuit w = (Ret open_shown, w).
Proof.
  intros Hc. unfold IsOpen, open_shown, bind, get, gets, ret. cbn [view threadSafeConfigL isOpenL]. rewrite Hc.
  destruct (a_ForceOpen _); [done |]. destruct (a_ForcedClosed _); [done | by rewrite Hc].
Qed.

Context (f : M U Time).
Hypothesis Hf : Now (General_TimeKeeper (General (notThreadSafeConfig c))) = Some f.
Hypothesis Hrun : run_shows now P n.
Hypothesis Hfallback : fallback_shows now Q sums totals.

Ltac look :=
  first
  [ apply reads_circuit; first [exact GetConfig_run | exact IsOpen_run | exact Name_run | exact ConcurrentCommands_run]
  | apply reads_run, (shows_sum _ _ _ Hrun)
  | apply reads_run, (shows_total _ _ _ Hrun)
  | apply reads_run, (shows_latencies _ _ _ Hrun)
  | apply reads_run; by apply (ErrorsAt_reads _ _ n)
  | apply reads_run; by apply (LegitimateAttemptsAt_reads _ _ n)
  | apply reads_run; by apply (ErrorPercentageAt_reads _ _ n)
  | apply reads_fallback; first
      [ exact (shows_fallback _ _ _ _ Hfallback FSuccess) | exact (shows_fallback _ _ _ _ Hfallback FFailure)
      | exact (shows_fallback _ _ _ _ Hfallback FRejection)
      | exact (shows_fallback_total _ _ _ _ Hfallback FSuccess)
      | exact (shows_fallback_total _ _ _ _ Hfallback FFailure)
      | exact (shows_fallback_total _ _ _ _ Hfallback FRejection) ]
  | by apply reads_of_option
  | apply reads_gets; intros s (Hc & Hs & _); first [exact Hc | exact (shows_window _ _ _ Hrun _ Hs)] ].

Lemma collect_reads latency percent :
  generateLatencyTimings (latencies n) = Some latency ->
  int64_of_float (fmul (float64_of_int 100) (percentage_of n)) = Some percent ->
  exists m, says latency percent m /\
    forall s s1, collecting s -> zoom userL f s = (Ret now, s1) -> collecting s1 ->
      exists s', collectCommandMetrics s = (Ret m, s') /\ collecting s'.
Proof.
  intros Hl Hp. eexists. split; cycle 1.
  - intros s s1 Hs Hclock Hs1. unfold collectCommandMetrics.
    rewrite (bind_run _ _ _ _ _ (eq_refl : gets _ s = (Ret _, s))), (proj1 Hs). cbv zeta.
    assert (E : zoom worldL GetConfig s = (Ret (notThreadSafeConfig c), s)).
    { unfold zoom. cbn [view worldL]. rewrite (GetConfig_run _ (proj1 Hs)). by destruct s. }
    rewrite (bind_run _ _ _ _ _ E), Hf, (bind_run _ _ _ _ _ Hclock). clear E Hs Hclock.
    revert s1 Hs1. clear s.
    match goal with |- forall s, _ -> exists s', ?rest s = (Ret ?m, s') /\ _ => change (reads collecting rest m) end.
    repeat (eapply reads_bind; [look |]). apply reads_ret.
  - unfold attachHystrixProperties, says.
    destruct (ClosedToOpenLogic c ≫= as_hystrix_Opener), (OpenToClose c ≫= as_hystrix_Closer);
      simpl; repeat split; reflexivity.
Qed.
End Message.

(** * Statistics that were told events *)

Section Told.
Context {U : Type} (w n start now : Z) (pcfg : RollingBuckets) (sz : nat).
Context (c : RunStats.RunStats.RunStatsConfig U) (h : list RunStats.RunStats.event).
Implicit Types r : RunStats U.

Definition told_latencies : list Duration :=
  merge_sort Z.le (RollingPercentile.window_durations pcfg sz
    (RollingPercentile.plog_advance pcfg now (RunStats.RunStats.latency_log pcfg h))).

(** What stats show that were told [h]. *)
Definition told : shown :=
  mkShown (fun k => in_window w n start now (RunStats.RunStats.times_of k h))
    (fun k => wrap64 (zlen (RunStats.RunStats.times_of k h))) told_latencies
    (RunStats.RunStats.RollingStatsDuration c).

(** Stats that were told [h], and may have been looked at [now]. *)
Definition telling r : Prop :=
  (forall k, fed w n start now (RunStats.RunStats.times_of k h) (view (counterL k) r)) /\
  (forall k, RunStats.RunStats.total_of k r = wrap64 (zlen (RunStats.RunStats.times_of k h))) /\
  RunStats.RunStats.config r = c /\
  exists l, RollingPercentile.represents pcfg sz (RunStats.RunStats.Latencies r) l /\
    RollingPercentile.plog_advance pcfg now l
    = RollingPercentile.plog_advance pcfg now (RunStats.RunStats.latency_log pcfg h).

Lemma tracks_telling r : RunStats.RunStats.tracks w n start now pcfg sz c h r -> telling r.
Proof.
  intros ((Hk & L & HL & Hp) & Hc & Ht). split; [done |]. split; [done |]. split; [done |].
  eexists. split; [exact Hp |]. by apply RunStats.RunStats.advance_reached.
Qed.

Lemma plog_advance_idemp l :
  RollingPercentile.plog_advance pcfg now (RollingPercentile.plog_advance pcfg now l)
  = RollingPercentile.plog_advance pcfg now l.
Proof.
  unfold RollingPercentile.plog_advance, advancedLast. rewrite !absIndexAt_set_LastAbsIndex. cbn.
  destruct (absIndexAt pcfg now); f_equal. lia.
Qed.

Hypothesis Hsz : (0 < sz)%nat.
Hypothesis Hw : 0 < w.
Hypothesis Hn : 0 < n.
Hypothesis Hnow : start <= now.
Hypothesis Hrange : now - start <= max_int64.
Hypothesis Hlen : zlen h < max_int64.

Lemma told_sum k :
  reads telling (zoom (counterL k) (RollingSumAt now)) (in_window w n start now (RunStats.RunStats.times_of k h)).
Proof.
  intros r (Hk & Ht & Hc & Hl). pose proof (RunStats.RunStats.length_times_of k h).
  destruct (fed_sum w n start now Hw Hn Hnow Hrange _ _ (Hk k)) as (x & E & Hx); [lia |].
  pose proof (fed_sum_total _ _ _ _ _ _ _ _ _ (Hk k) E) as Htot.
  unfold zoom. rewrite E. eexists. split; [done |].
  split; [| split; [| split; [by rewrite RunStats.RunStats.counter_config | by rewrite RunStats.RunStats.counter_latencies]]].
  - intros k'. destruct (decide (k' = k)) as [->|Hne]; [by rewrite view_upd |].
    by rewrite RunStats.RunStats.counter_other.
  - intros k'. specialize (Ht k'). unfold RunStats.RunStats.total_of in *.
    destruct (decide (k' = k)) as [->|Hne]; [by rewrite view_upd, Htot |].
    by rewrite RunStats.RunStats.counter_other.
Qed.

Lemma told_total k :
  reads telling (zoom (counterL k) (gets TotalSum)) (wrap64 (zlen (RunStats.RunStats.times_of k h))).
Proof.
  intros r Hr. exists r. unfold zoom, gets, TotalSum. rewrite upd_view. split; [| done].
  destruct Hr as (_ & Ht & _). specialize (Ht k). unfold RunStats.RunStats.total_of in Ht. by rewrite Ht.
Qed.

Lemma told_snapshot :
  reads telling (zoom RunStats.RunStats.LatenciesL (RollingPercentile.SnapshotAt now)) told_latencies.
Proof.
  intros r (Hk & Ht & Hc & l & Hp & El).
  destruct (RollingPercentile.SortedDurations_represents pcfg sz Hsz now _ _ Hp) as (p & E & Hp').
  unfold zoom. unfold RollingPercentile.SnapshotAt. cbn [view RunStats.RunStats.LatenciesL]. rewrite E, El.
  eexists. split; [done |]. split; [intros k; by rewrite RunStats.RunStats.latencies_counter |].
  split; [intros k; unfold RunStats.RunStats.total_of; rewrite RunStats.RunStats.latencies_counter; apply Ht |].
  split; [done |]. exists (RollingPercentile.plog_advance pcfg now l). split; [done |].
  by rewrite plog_advance_idemp.
Qed.

Lemma told_shows : run_shows now telling told.
Proof.
  split; [apply told_sum | apply told_total | apply told_snapshot |].
  intros r (_ & _ & Hc & _). unfold RunStats.RunStats.Config_. by rewrite Hc.
Qed.

Lemma told_fallback hf :
  zlen hf < max_int64 ->
  fallback_shows now (RunStats.RunStats.fallback_tracks w n start now hf)
    (fun k => in_window w n start now (RunStats.RunStats.fallbacks_of k hf))
    (fun k => wrap64 (zlen (RunStats.RunStats.fallbacks_of k hf))).
Proof using Hw Hn Hnow Hrange.
  clear - Hw Hn Hnow Hrange. intros Hlf. split; intros k r Hr.
  - pose proof (RunStats.RunStats.length_fallbacks_of k hf). destruct (Hr k) as [Hk Ht].
    destruct (fed_sum w n start now Hw Hn Hnow Hrange _ _ Hk) as (x & E & Hx); [lia |].
    pose proof (fed_sum_total _ _ _ _ _ _ _ _ _ Hk E) as Htot.
    unfold zoom. rewrite E. eexists. split; [done |]. intros k'.
    destruct (decide (k' = k)) as [->|Hne]; [by rewrite view_upd, Htot |].
    by rewrite RunStats.RunStats.fallbackL_other.
  - exists r. unfold zoom, gets, TotalSum. rewrite upd_view. split; [| done]. by rewrite (proj2 (Hr k)).
Qed.
End Told.

(** 57 errors in 100 attempts show as 56 percent: the quotient is rounded down to a float64 and
    its hundredfold truncated. *)
Example fifty_seven_percent_shows_as_56 :
  let n := mkShown (fun k => match k with KErrFailure => 57 | KSuccess => 43 | _ => 0 end) (fun _ => 0) [] 0 in
  errors_of n = 57 /\ attempts_of n = 100 /\
  int64_of_float (fmul (float64_of_int 100) (percentage_of n)) = Some 56.
Proof. by vm_compute. Qed.

(** Statistics that are the zero value show zeros. *)
Definition nothing : shown := mkShown (fun _ => 0) (fun _ => 0) [] 0.

Lemma zero_shows {U} now : run_shows now (eq (RunStats.RunStats.RunStats_zero (U := U))) nothing.
Proof.
  split; intros.
  1-2: intros r <-; destruct k; by eexists.
  - intros r <-. by eexists.
  - by subst.
Qed.

Lemma zero_fallback_shows now :
  fallback_shows now (eq RunStats.RunStats.FallbackStats_zero) (fun _ => 0) (fun _ => 0).
Proof. split; intros k r <-; destruct k; by eexists. Qed.

(** * Statistics as they are made and told *)

Section Made.
Context {U : Type} (time_Now : M U Time).

(** [r] is what [SetConfigNotThreadSafe] makes when its clock says [start]. *)
Definition made (cfg : RunStats.RunStats.RunStatsConfig U) (start : Time) (r : RunStats U) : Prop :=
  exists r0 u u' f, RunStats.RunStats.Now (RunStats.RunStats.effective time_Now cfg) = Some f /\
    f u = (Ret start, u') /\ RunStats.RunStats.SetConfigNotThreadSafe time_Now cfg (r0, u) = (Ret tt, (r, u')).

Definition fallback_made (cfg : RunStats.RunStats.FallbackStatsConfig U) (start : Time) (r : FallbackStats) : Prop :=
  exists r0 u u' f, RunStats.RunStats.FallbackNow (RunStats.RunStats.fallback_effective time_Now cfg) = Some f /\
    f u = (Ret start, u') /\
    RunStats.RunStats.Fallback_SetConfigNotThreadSafe time_Now cfg (r0, u) = (Ret tt, (r, u')).

(** Buckets of a positive width, and room for the index of every instant. *)
Definition usable (w n : Z) : Prop := 0 < w /\ max_int64 / w + n <= max_int64.

Lemma made_tracks cfg start now r h :
  let c := RunStats.RunStats.effective time_Now cfg in
  let n := RunStats.RunStats.RollingStatsNumBuckets c in let w := RunStats.RunStats.stats_width c in
  let pn := RunStats.RunStats.RollingPercentileNumBuckets c in
  let pcfg := mkRollingBuckets pn start (RunStats.RunStats.percentile_width c) 0 in
  let sz := Z.to_nat (RunStats.RunStats.RollingPercentileBucketSize c) in
  made cfg start r -> usable w n -> usable (RunStats.RunStats.percentile_width c) pn ->
  start <= now -> now - start <= max_int64 -> zlen h < max_int64 ->
  Forall (fun e => start <= RunStats.RunStats.e_time e <= now /\ RunStats.RunStats.e_duration e <= max_int64) h ->
  exists r', range_do RunStats.RunStats.report h r = (Ret tt, r') /\
    RunStats.RunStats.tracks w n start now pcfg sz c h r'.
Proof.
  intros c n w pn pcfg sz (r0 & u & u' & f & Hf & Eu & E) [Hw Hm] [Hpw Hpm] Hnow Hrange Hlen Hh.
  destruct (RunStats.RunStats.effective_config_positive time_Now cfg) as (_ & Hn & _ & Hpn & Hps).
  destruct (RunStats.RunStats.SetConfig_run time_Now cfg r0 u f start u' Hf Eu) as (cnt & p & Ec & Ep & E').
  rewrite E in E'. injection E' as ->.
  assert (Hsz : (0 < sz)%nat) by (fold c in Hps; unfold sz; lia).
  apply (RunStats.RunStats.tracks_events w n start now pcfg sz Hsz c [] h); [| done | done].
  by eapply RunStats.RunStats.tracks_new.
Qed.

Lemma fallback_made_tracks cfg start now r hf :
  let c := RunStats.RunStats.fallback_effective time_Now cfg in
  let n := RunStats.RunStats.FallbackRollingStatsNumBuckets c in
  let w := Z.quot (RunStats.RunStats.FallbackRollingStatsDuration c) n in
  fallback_made cfg start r -> usable w n -> start <= now ->
  Forall (fun e => start <= e.2 <= now) hf ->
  0 < n /\ exists r', range_do RunStats.RunStats.fallback_report hf r = (Ret tt, r') /\
    RunStats.RunStats.fallback_tracks w n start now hf r'.
Proof.
  intros c n w (r0 & u & u' & f & Hf & Eu & E) [Hw Hm] Hnow Hh.
  assert (Hn : 0 < n) by (apply RunStats.RunStats.merge_sanitized; simpl; lia). split; [done |].
  destruct (RunStats.RunStats.Fallback_SetConfig_run time_Now cfg r0 u f start u' Hf Eu) as (cnt & Ec & E').
  rewrite E in E'. injection E' as ->.
  apply (RunStats.RunStats.fallback_tracks_events w n start now [] hf); [| done].
  by apply RunStats.RunStats.fallback_tracks_new.
Qed.
End Made.

Section Theorems.
Context {OS CS U V : Type} `{!DynamicTypes OS CS U V}.

Lemma found_apart (c : Circuit OS CS U) lr lf :
  FindCommandMetrics c = Some lr -> FindFallbackMetrics c = Some lf -> LensLaws lr -> LensLaws lf ->
  (forall r u, view lf (upd lr r u) = view lf u) -> (forall r u, view lr (upd lf r u) = view lr u) -> Apart c.
Proof.
  intros Er Ef Lr Lf Hrf Hfr. unfold runStatsL, fallbackStatsL.
  split; unfold runStatsL, fallbackStatsL; rewrite ?Er, ?Ef; intros; simpl; rewrite ?view_upd; auto.
Qed.

Lemma zero_apart (c : Circuit OS CS U) :
  FindCommandMetrics c = None -> FindFallbackMetrics c = None -> Apart c.
Proof. intros Er Ef. split; unfold runStatsL, fallbackStatsL; by rewrite ?Er, ?Ef. Qed.

(** C30: the message of the stream is exact.  For a circuit whose statistics are found among its
    collectors, made by any configurations that give usable buckets and told any events up to
    [now], [collectCommandMetrics] returns a message that says ([says]) what these events are:
    each rolling count is the number of events of its kinds in the window, each total the number
    ever, the latencies are those of the percentiles' window, and the settings are the circuit's
    and its hystrix logic's; the circuit is left as it was. *)
Theorem stream_message_is_exact (time_Now : M V Time) (s : scratch OS CS U V) cfg fcfg start fstart now
    lr lf r0 q0 h hf f latency percent :
  let c := circ (world s) in
  let rc := RunStats.RunStats.effective time_Now cfg in
  let n := RunStats.RunStats.RollingStatsNumBuckets rc in let w := RunStats.RunStats.stats_width rc in
  let pn := RunStats.RunStats.RollingPercentileNumBuckets rc in
  let pw := RunStats.RunStats.percentile_width rc in
  let fc := RunStats.RunStats.fallback_effective time_Now fcfg in
  let fn := RunStats.RunStats.FallbackRollingStatsNumBuckets fc in
  let fw := Z.quot (RunStats.RunStats.FallbackRollingStatsDuration fc) fn in
  let numbers := told w n start now (mkRollingBuckets pn start pw 0)
    (Z.to_nat (RunStats.RunStats.RollingPercentileBucketSize rc)) rc h in
  FindCommandMetrics c = Some lr -> FindFallbackMetrics c = Some lf -> LensLaws lr -> LensLaws lf ->
  (forall r u, view lf (upd lr r u) = view lf u) -> (forall r u, view lr (upd lf r u) = view lr u) ->
  notThreadSafeConfigMu c = false -> Now (General_TimeKeeper (General (notThreadSafeConfig c))) = Some f ->
  (exists u', f (env (world s)) = (Ret now, u') /\
     view lr u' = view lr (env (world s)) /\ view lf u' = view lf (env (world s))) ->
  made time_Now cfg start r0 -> fallback_made time_Now fcfg fstart q0 ->
  range_do RunStats.RunStats.report h r0 = (Ret tt, view lr (env (world s))) ->
  range_do RunStats.RunStats.fallback_report hf q0 = (Ret tt, view lf (env (world s))) ->
  usable w n -> usable pw pn -> usable fw fn ->
  start <= now -> now - start <= max_int64 -> fstart <= now -> now - fstart <= max_int64 ->
  zlen h < max_int64 -> zlen hf < max_int64 ->
  Forall (fun e => start <= RunStats.RunStats.e_time e <= now /\ RunStats.RunStats.e_duration e <= max_int64) h ->
  Forall (fun e => fstart <= e.2 <= now) hf ->
  generateLatencyTimings (latencies numbers) = Some latency ->
  int64_of_float (fmul (float64_of_int 100) (percentage_of numbers)) = Some percent ->
  exists m s', collectCommandMetrics s = (Ret m, s') /\ circ (world s') = c /\
    says c now numbers
      (fun k => in_window fw fn fstart now (RunStats.RunStats.fallbacks_of k hf))
      (fun k => wrap64 (zlen (RunStats.RunStats.fallbacks_of k hf))) latency percent m.
Proof.
  intros c rc n w pn pw fc fn fw numbers Er Ef Lr Lf Hrf Hfr Hmu Hnow_f Hclk Hr0 Hq0 Hr Hq Hu Hpu Hfu
    Hnow Hrange Hfnow Hfrange Hlen Hflen Hh Hhf Hlat Hpct.
  destruct (made_tracks time_Now cfg start now r0 h Hr0 Hu Hpu Hnow Hrange Hlen Hh) as (r & E & Htr).
  rewrite Hr in E. injection E as E.
  destruct (fallback_made_tracks time_Now fcfg fstart now q0 hf Hq0 Hfu Hfnow Hhf) as (Hfn & q & E' & Hfk).
  rewrite Hq in E'. injection E' as E'.
  destruct (RunStats.RunStats.effective_config_positive time_Now cfg) as (_ & Hn & _ & _ & Hps).
  fold rc in Hn, Hps. fold n in Hn.
  pose proof (found_apart c lr lf Er Ef Lr Lf Hrf Hfr) as Hapart.
  set (P := telling w n start now (mkRollingBuckets pn start pw 0)
    (Z.to_nat (RunStats.RunStats.RollingPercentileBucketSize rc)) rc h).
  set (Q := RunStats.RunStats.fallback_tracks fw fn fstart now hf).
  assert (Hs : collecting c P Q s).
  { unfold collecting, runStatsL, fallbackStatsL. rewrite Er, Ef. cbn [view lens_comp userL worldL envL].
    rewrite E, E'. split; [done |]. split; [by apply tracks_telling | done]. }
  set (sums := fun k => in_window fw fn fstart now (RunStats.RunStats.fallbacks_of k hf)).
  set (totals := fun k => wrap64 (zlen (RunStats.RunStats.fallbacks_of k hf))).
  destruct (collect_reads c now P Q numbers sums totals Hmu f Hnow_f) with (latency := latency) (percent := percent)
    as (m & Hsays & Hm); [| | done | done |].
  - apply told_shows; (done || lia || by destruct Hu).
  - apply told_fallback; (done || lia || by destruct Hfu).
  - destruct Hclk as (u' & Eu & Hv & Hvf).
    destruct (Hm s (upd userL u' s) Hs) as (s' & Em & Hc & _); [| | by exists m, s'].
    + unfold zoom. cbn [view userL lens_comp worldL envL]. by rewrite Eu.
    + revert Hs. unfold collecting, runStatsL, fallbackStatsL. rewrite Er, Ef.
      cbn [view lens_comp userL worldL envL upd world circ env]. by rewrite Hv, Hvf.
Qed.

(** A circuit without statistics shows up, with every number zero. *)
Theorem no_stats_show_zeros (s : scratch OS CS U V) now f :
  let c := circ (world s) in
  FindCommandMetrics c = None -> FindFallbackMetrics c = None ->
  zeroRun s = RunStats.RunStats.RunStats_zero -> zeroFallback s = RunStats.RunStats.FallbackStats_zero ->
  notThreadSafeConfigMu c = false -> Now (General_TimeKeeper (General (notThreadSafeConfig c))) = Some f ->
  (exists u', f (env (world s)) = (Ret now, u')) ->
  exists m s', collectCommandMetrics s = (Ret m, s') /\ circ (world s') = c /\
    says c now nothing (fun _ => 0) (fun _ => 0) (mkStreamCmdLatency 0 0 0 0 0 0 0 0 0) 0 m /\
    LatencyTotalMean m = 0.
Proof.
  intros c Er Ef Hr Hq Hmu Hf Hclk. pose proof (zero_apart c Er Ef) as Hapart.
  destruct (collect_reads c now (eq RunStats.RunStats.RunStats_zero) (eq RunStats.RunStats.FallbackStats_zero)
    nothing (fun _ => 0) (fun _ => 0) Hmu f Hf) with (latency := mkStreamCmdLatency 0 0 0 0 0 0 0 0 0)
    (percent := 0) as (m & Hsays & Hm);
    [apply zero_shows | apply zero_fallback_shows | reflexivity | reflexivity |].
  - assert (Hs : collecting c (eq RunStats.RunStats.RunStats_zero) (eq RunStats.RunStats.FallbackStats_zero) s)
      by (unfold collecting, runStatsL, fallbackStatsL; rewrite Er, Ef; simpl; auto).
    destruct Hclk as (u' & Eu). destruct (Hm s (upd userL u' s) Hs) as (s' & Em & Hc & _).
    + unfold zoom. cbn [view userL lens_comp worldL envL]. by rewrite Eu.
    + revert Hs. unfold collecting, runStatsL, fallbackStatsL. by rewrite Er, Ef.
    + exists m, s'. split; [done |]. split; [done |]. split; [done |].
      destruct Hsays as (_ & _ & _ & _ & _ & _ & (_ & _ & -> & _) & _). done.
Qed.
End Theorems.

(** * Witnesses *)

Module StreamSample.
(** An environment with the two statistics and a clock. *)
Record Env := mkEnv { stats : RunStats Z; fallback : FallbackStats; clock : Z }.

Definition statsL : lens Env (RunStats Z) := Lens stats (fun r u => mkEnv r (fallback u) (clock u)).
Definition userFallbackL : lens Env FallbackStats := Lens fallback (fun r u => mkEnv (stats u) r (clock u)).

#[export] Instance statsL_laws : LensLaws statsL.
Proof. split; intros; by destruct s. Qed.

#[export] Instance userFallbackL_laws : LensLaws userFallbackL.
Proof. split; intros; by destruct s. Qed.

Abbreviation Opener := (HystrixOpener.Opener.Opener Env).
Abbreviation Closer := HystrixCloser.Closer.Closer.

(** The object 3 of the user is the run statistics, the object 4 the fallback statistics. *)
#[export] Instance types : DynamicTypes Opener Closer Env Z := {|
  as_RunStats id := if decide (id = 3%nat) then Some statsL else None;
  as_FallbackStats id := if decide (id = 4%nat) then Some userFallbackL else None;
  as_hystrix_Opener := Some;
  as_hystrix_Closer := Some
|}.

Definition time_Now : M Z Time := fun u => (Ret u, u).

Definition cfg : RunStats.RunStats.RunStatsConfig Z := RunStats.RunStats.mkRunStatsConfig None 20 2 60 1 0.
Definition fcfg : RunStats.RunStats.FallbackStatsConfig Z := RunStats.RunStats.mkFallbackStatsConfig 40 None 4.

Definition ms : Z := 1000000.

Definition events : list RunStats.RunStats.event :=
  [RunStats.RunStats.mkEvent KSuccess 1000 (30 * ms); RunStats.RunStats.mkEvent KErrFailure 1005 (10 * ms);
   RunStats.RunStats.mkEvent KErrShortCircuit 1006 0; RunStats.RunStats.mkEvent KErrTimeout 1012 (20 * ms);
   RunStats.RunStats.mkEvent KErrInterrupt 1013 (40 * ms); RunStats.RunStats.mkEvent KSuccess 1019 (5 * ms)].

Definition fallback_events : list (fallback_kind * Time) :=
  [(FSuccess, 1005); (FFailure, 1012); (FRejection, 1013); (FFailure, 1019)].

Definition r0 : RunStats Z :=
  (RunStats.RunStats.SetConfigNotThreadSafe time_Now cfg (RunStats.RunStats.RunStats_zero, 1000)).2.1.
Definition q0 : FallbackStats :=
  (RunStats.RunStats.Fallback_SetConfigNotThreadSafe time_Now fcfg (RunStats.RunStats.FallbackStats_zero, 1000)).2.1.

Definition env : Env :=
  mkEnv (range_do RunStats.RunStats.report events r0).2
    (range_do RunStats.RunStats.fallback_report fallback_events q0).2 1020.

Definition Env_now : M Env Time := gets clock.

Definition config : Config Opener Closer Env :=
  let zero : Config Opener Closer Env := Config_zero in
  mkConfig (mkGeneralConfig false false false None None None None (mkTimeKeeper (Some Env_now) None))
    (mkExecutionConfig (50 * ms) 7 false None) (Fallback zero) (Metrics_ zero).

(** An open circuit, with users' objects before the statistics. *)
Definition circuit (run fallback : list nat) : Circuit Opener Closer Env :=
  mkCircuit (RefOpenToClose :: RefClosedToOpen :: map RefUser run) fallback [] None "db" config false
    (mkAtomicCircuitConfig (50 * ms) 7 false 10 false false false false) true None None (Some Env_now)
    false [] false 2 0.

Definition start : scratch Opener Closer Env Z :=
  mkScratch (mkWorld (circuit [1; 3]%nat [4]%nat) env) RunStats.RunStats.RunStats_zero
    RunStats.RunStats.FallbackStats_zero.

Lemma stream_message_is_exact_witness :
  exists m s', collectCommandMetrics start = (Ret m, s') /\
    RequestCount m = 3 /\ ErrorCount m = 1 /\ ErrorPct m = 50 /\ CircuitBreakerOpen m = true /\
    RollingCountBadRequests m = 1 /\ RollingCountFallbackFailure m = 2 /\ TotalCountSuccess m = 2 /\
    Timing50 (LatencyTotal m) = 20 /\ LatencyTotalMean m = 21.
Proof.
  destruct (stream_message_is_exact time_Now start cfg fcfg 1000 1000 1020 statsL userFallbackL r0 q0 events
    fallback_events Env_now (mkStreamCmdLatency 5 10 20 30 36 37 39 39 40) 50)
    as (m & s' & E & _ & Hs).
  1-2: reflexivity.
  1-2: apply _.
  1-4: reflexivity.
  - by exists env.
  - exists RunStats.RunStats.RunStats_zero, 1000, 1000, time_Now. split; [done |]. split; [done |]. by vm_compute.
  - exists RunStats.RunStats.FallbackStats_zero, 1000, 1000, time_Now. split; [done |]. split; [done |]. by vm_compute.
  - by vm_compute.
  - by vm_compute.
  - split; vm_compute; congruence.
  - split; vm_compute; congruence.
  - split; vm_compute; congruence.
  - by vm_compute.
  - by vm_compute.
  - by vm_compute.
  - by vm_compute.
  - by vm_compute.
  - by vm_compute.
  - repeat constructor; vm_compute; congruence.
  - repeat constructor; vm_compute; congruence.
  - by vm_compute.
  - by vm_compute.
  - exists m, s'. split; [exact E | clear E].
    destruct Hs as (_ & (Hreq & Herr & Hpct & Hopen) & (_ & _ & _ & _ & _ & Hbad) & (_ & Hff & _) & (Hts & _) & _ &
      (Hlat & _ & Hmean & _) & _).
    rewrite Hreq, Herr, Hpct, Hopen, Hbad, Hff, Hts, Hlat, Hmean.
    vm_compute. by repeat split.
Defined.

Lemma no_stats_show_zeros_witness :
  exists m s',
    collectCommandMetrics (mkScratch (mkWorld (circuit [1]%nat []) env) RunStats.RunStats.RunStats_zero
      RunStats.RunStats.FallbackStats_zero) = (Ret m, s') /\
    Name_ m = "db" /\ RequestCount m = 0 /\ LatencyTotal m = mkStreamCmdLatency 0 0 0 0 0 0 0 0 0.
Proof.
  destruct (no_stats_show_zeros (mkScratch (mkWorld (circuit [1]%nat []) env) RunStats.RunStats.RunStats_zero
    RunStats.RunStats.FallbackStats_zero) 1020 Env_now) as (m & s' & E & _ & Hs & _); try reflexivity.
  - by exists env.
  - exists m, s'. split; [exact E | clear E].
    by destruct Hs as ((_ & Hn & _) & (Hreq & _) & _ & _ & _ & _ & (Hlat & _) & _).
Defined.
End StreamSample.
End StreamMetrics.
