(* ===== verification/EventStream.v ===== *)
(** metriceventstream/metriceventstream.go, the server: clients of the stream, the goroutine that
    sends events to them, and [Close], on any number of goroutines.

    A request is the number of its [*http.Request]; the channels of the clients are allocated on a
    heap.  A [step] is one critical section, channel operation or write to a client of one
    goroutine.  The contents of an event are whatever the circuits show at that moment
    (StreamMetrics.v); how JSON encodes them is the parameter [Encode].  Clients come, stop
    reading, fail and go away at any time. *)

From Stdlib Require Import Strings.Byte.
From stdpp Require Import relations.
From S2P Require Import Prelude GoMonad StreamMetrics.

Module EventStream.

Abbreviation streamCmdMetric := StreamMetrics.StreamMetrics.streamCmdMetric.

Abbreviation bytes := (list byte).

#[export] Instance byte_eq_dec : EqDecision byte.
Proof. exact Byte.byte_eq_dec. Defined.

(** * The stream *)

Inductive closing := NilChan | OpenChan | ClosedChan.

Record MetricEventStream := mkMetricEventStream {
  eventStreams : option (gmap nat nat);   (* the channel of each request; None: nil *)
  closeChan : closing;
  mu : bool;
  once : bool;
  closeOnce : bool;
  chans : list (list bytes)               (* the contents of every channel made *)
}.

(** [tickDuration], of the field [TickDuration]: how long the collector waits. *)
Definition tickDuration (TickDuration : Duration) : Duration :=
  if TickDuration =? 0 then Second else TickDuration.

(** The zero value. *)
Definition MetricEventStream_zero : MetricEventStream :=
  mkMetricEventStream None NilChan false false false [].

Implicit Types m : MetricEventStream.

Definition set_eventStreams e m :=
  mkMetricEventStream e (closeChan m) (mu m) (once m) (closeOnce m) (chans m).
Definition set_closeChan c m :=
  mkMetricEventStream (eventStreams m) c (mu m) (once m) (closeOnce m) (chans m).
Definition set_chans cs m :=
  mkMetricEventStream (eventStreams m) (closeChan m) (mu m) (once m) (closeOnce m) cs.

Definition muL : lens MetricEventStream bool := Lens mu (fun b m =>
  mkMetricEventStream (eventStreams m) (closeChan m) b (once m) (closeOnce m) (chans m)).
Definition onceL : lens MetricEventStream bool := Lens once (fun b m =>
  mkMetricEventStream (eventStreams m) (closeChan m) (mu m) b (closeOnce m) (chans m)).
Definition closeOnceL : lens MetricEventStream bool := Lens closeOnce (fun b m =>
  mkMetricEventStream (eventStreams m) (closeChan m) (mu m) (once m) b (chans m)).

Definition Lock : M MetricEventStream unit := fun m =>
  if mu m then (Deadlock, m) else (Ret tt, upd muL true m).
Definition Unlock : M MetricEventStream unit := fun m =>
  if mu m then (Ret tt, upd muL false m) else (Panic UnlockOfUnlocked, m).

(** [sync.Once.Do]: a call that panics counts as done. *)
Definition Do (onceL : lens MetricEventStream bool) (f : M MetricEventStream unit) : M MetricEventStream unit :=
  let! done := gets (view onceL) in
  if done : bool then ret tt else defer (modify (upd onceL true)) f.

Definition doOnce : M MetricEventStream unit :=
  do! modify (set_closeChan OpenChan);
  modify (set_eventStreams (Some ∅)).

(** [make(chan []byte, 1024)] *)
Definition capacity : nat := 1024.
Definition make_chan : M MetricEventStream nat := fun m =>
  (Ret (length (chans m)), set_chans (chans m ++ [[]]) m).

(** [m.eventStreams[req] = ch], which panics on a nil map, and [delete]. *)
Definition set_stream (req ch : nat) : M MetricEventStream unit := fun m =>
  match eventStreams m with
  | Some e => (Ret tt, set_eventStreams (Some (<[req := ch]> e)) m)
  | None => (Panic NilDereference, m)
  end.
Definition delete_stream (req : nat) : M MetricEventStream unit :=
  modify (fun m => set_eventStreams (delete req <$> eventStreams m) m).

(** [ServeHTTP] up to its loop: the channel of the client, or none for a writer that cannot
    flush. *)
Definition ServeHTTP_enter (req : nat) (flusher : bool) : M MetricEventStream (option nat) :=
  do! Do onceL doOnce;
  if negb flusher then ret None
  else
    let! ch := make_chan in
    do! Lock;
    do! set_stream req ch;
    do! Unlock;
    ret (Some ch).

(** Its deferred function. *)
Definition ServeHTTP_leave (req : nat) : M MetricEventStream unit :=
  do! Lock;
  do! delete_stream req;
  Unlock.

(** [toWriteBytes := <-myBytesToWrite], when the channel is not empty. *)
Definition receive (ch : nat) : M MetricEventStream (option bytes) := fun m =>
  match chans m !! ch with
  | Some (ev :: q) => (Ret (Some ev), set_chans (<[ch := q]> (chans m)) m)
  | _ => (Ret None, m)
  end.

(** [len] of a nil map is 0. *)
Definition listenerCount : M MetricEventStream Z :=
  do! Lock;
  let! n := gets (fun m => from_option (fun e => Z.of_nat (size e)) 0 (eventStreams m)) in
  do! Unlock;
  ret n.

(** [placesToSend] of [sendEvent], up to the order of the map. *)
Definition placesToSend : M MetricEventStream (list nat) :=
  do! Lock;
  let! places := gets (fun m => from_option (fun e => (map_to_list e).*2) [] (eventStreams m)) in
  do! Unlock;
  ret places.

(** [select { case stream <- event: default: }] *)
Definition offer (ch : nat) (event : bytes) : M MetricEventStream unit := fun m =>
  match chans m !! ch with
  | Some q => (Ret tt, if (length q <? capacity)%nat then set_chans (<[ch := q ++ [event]]> (chans m)) m else m)
  | None => (Ret tt, m)
  end.

(** [close(m.closeChan)] *)
Definition close_chan : M MetricEventStream unit := fun m =>
  match closeChan m with
  | OpenChan => (Ret tt, set_closeChan ClosedChan m)
  | NilChan | ClosedChan => (Panic NilDereference, m)
  end.

Definition Close : M MetricEventStream unit :=
  do! Do onceL doOnce;
  Do closeOnceL close_chan.

(** * Events *)

Definition newline : byte := x0a.
Definition data_prefix : bytes := String.list_byte_of_string "data:".

Section Events.
Context (Encode : streamCmdMetric -> option bytes).   (* [json.Encoder.Encode] *)

(** The body of the loop over the circuits in [Start]; [None] when the encoding fails. *)
Definition event_of (commandMetrics : streamCmdMetric) : option bytes :=
  json ← Encode commandMetrics;
  Some (data_prefix ++ json ++ [newline]).

(** * Goroutines *)

(** A call of [ServeHTTP]: [since] is the number of events sent before it listened, [out] what
    was written to the client. *)
Inductive handler :=
| Entering (req : nat) (flusher : bool)
| Serving (req ch since : nat) (out : list bytes)     (* in the loop *)
| Leaving (req ch since : nat) (out : list bytes)     (* out of it, about to run the deferred function *)
| Left (since : nat) (out : list bytes).

(** The call of [Start]. *)
Inductive collector :=
| NotStarted
| Ticking                                             (* in the select *)
| Collecting (circuits : nat)                         (* that many circuits are left *)
| Sending (event : bytes) (places : list nat) (circuits : nat)
| Stopped.

Record sys := mkSys {
  stream : MetricEventStream;
  handlers : list handler;
  start : collector;
  sent : list bytes           (* every event, in the order they were sent *)
}.

Definition request_of (h : handler) : option nat :=
  match h with Entering req _ | Serving req _ _ _ | Leaving req _ _ _ => Some req | Left _ _ => None end.

Inductive step : sys -> sys -> Prop :=
(** every call of [ServeHTTP] has a request of its own *)
| StepRequest m hs c es req flusher :
    Forall (fun h => request_of h <> Some req) hs ->
    step (mkSys m hs c es) (mkSys m (hs ++ [Entering req flusher]) c es)
| StepEnter m m' hs c es i req flusher r :
    hs !! i = Some (Entering req flusher) -> ServeHTTP_enter req flusher m = (Ret r, m') ->
    step (mkSys m hs c es)
      (mkSys m' (<[i := match r with Some ch => Serving req ch (length es) [] | None => Left (length es) [] end]> hs) c es)
| StepWrite m m' hs c es i req ch since out ev :
    hs !! i = Some (Serving req ch since out) -> receive ch m = (Ret (Some ev), m') ->
    step (mkSys m hs c es) (mkSys m' (<[i := Serving req ch since (out ++ [ev])]> hs) c es)
| StepWriteFails m m' hs c es i req ch since out ev :
    hs !! i = Some (Serving req ch since out) -> receive ch m = (Ret (Some ev), m') ->
    step (mkSys m hs c es) (mkSys m' (<[i := Leaving req ch since out]> hs) c es)
| StepGone m hs c es i req ch since out :      (* the request's context is done *)
    hs !! i = Some (Serving req ch since out) ->
    step (mkSys m hs c es) (mkSys m (<[i := Leaving req ch since out]> hs) c es)
| StepClosed m hs c es i req ch since out :
    hs !! i = Some (Serving req ch since out) -> closeChan m = ClosedChan ->
    step (mkSys m hs c es) (mkSys m (<[i := Leaving req ch since out]> hs) c es)
| StepLeave m m' hs c es i req ch since out :
    hs !! i = Some (Leaving req ch since out) -> ServeHTTP_leave req m = (Ret tt, m') ->
    step (mkSys m hs c es) (mkSys m' (<[i := Left since out]> hs) c es)
| StepStart m m' hs es :
    Do onceL doOnce m = (Ret tt, m') ->
    step (mkSys m hs NotStarted es) (mkSys m' hs Ticking es)
| StepTick m m' hs es n circuits :
    listenerCount m = (Ret n, m') ->
    step (mkSys m hs Ticking es) (mkSys m' hs (if n =? 0 then Ticking else Collecting circuits) es)
| StepSkip m hs es commandMetrics circuits :
    event_of commandMetrics = None ->
    step (mkSys m hs (Collecting (S circuits)) es) (mkSys m hs (Collecting circuits) es)
| StepSend m m' hs es commandMetrics circuits event places order :
    event_of commandMetrics = Some event -> placesToSend m = (Ret places, m') -> order ≡ₚ places ->
    step (mkSys m hs (Collecting (S circuits)) es) (mkSys m' hs (Sending event order circuits) (es ++ [event]))
| StepOffer m m' hs es event ch places circuits :
    offer ch event m = (Ret tt, m') ->
    step (mkSys m hs (Sending event (ch :: places) circuits) es) (mkSys m' hs (Sending event places circuits) es)
| StepSent m hs es event circuits :
    step (mkSys m hs (Sending event [] circuits) es) (mkSys m hs (Collecting circuits) es)
| StepCollected m hs es : step (mkSys m hs (Collecting 0) es) (mkSys m hs Ticking es)
| StepStop m hs es :
    closeChan m = ClosedChan -> step (mkSys m hs Ticking es) (mkSys m hs Stopped es)
| StepClose m m' hs c es :
    Close m = (Ret tt, m') -> step (mkSys m hs c es) (mkSys m' hs c es).

(** A stream that nobody has used. *)
Definition initial : sys := mkSys MetricEventStream_zero [] NotStarted [].

End Events.

(** * The critical sections *)

Definition streams m : gmap nat nat := default ∅ (eventStreams m).

(** Between critical sections: the initialisation is done or has not begun. *)
Definition ready m : Prop :=
  mu m = false /\
  if once m then is_Some (eventStreams m) /\ closeChan m = (if closeOnce m then ClosedChan else OpenChan)
  else eventStreams m = None /\ closeChan m = NilChan /\ closeOnce m = false.

Definition stays_closed m m' : Prop := closeChan m = ClosedChan -> closeChan m' = ClosedChan.

Ltac open_ready :=
  let m := fresh "m" in let H := fresh in
  intros [?Hmu H]; revert H;
  match goal with |- context [once ?x] => destruct x as [[e|] cc mu0 [] [] cs] end; cbn in *; subst;
  try (intros [[? ?] ?]; done); try (intros (? & ? & ?); done).

Lemma Do_once_run m :
  ready m -> exists m', Do onceL doOnce m = (Ret tt, m') /\ ready m' /\ once m' = true /\
    streams m' = streams m /\ chans m' = chans m /\ stays_closed m m'.
Proof.
  unfold stays_closed.
  open_ready; [intros [_ ->] .. | intros (_ & -> & _)]; eexists; (split; [reflexivity |]);
    split; unfold ready; cbn; repeat split; eauto; done.
Qed.

Lemma enter_run req m :
  ready m -> exists m', ServeHTTP_enter req true m = (Ret (Some (length (chans m))), m') /\ ready m' /\
    streams m' = <[req := length (chans m)]> (streams m) /\ chans m' = chans m ++ [[]] /\ stays_closed m m'.
Proof.
  intros Hr. destruct (Do_once_run m Hr) as (m1 & E & [Hmu H1] & Ho & <- & <- & Hcl).
  unfold ServeHTTP_enter, stays_closed in *. rewrite (bind_run _ _ _ _ _ E). rewrite Ho in H1.
  destruct m1 as [[e|] cc mu1 on co cs]; cbn in *; [| by destruct H1 as [[? [=]] _]]. subst.
  eexists. split; [reflexivity |]. split; [| done]. split; [done |]. cbn. by destruct H1; eauto.
Qed.

Lemma enter_refused req m :
  ready m -> exists m', ServeHTTP_enter req false m = (Ret None, m') /\ ready m' /\
    streams m' = streams m /\ chans m' = chans m /\ stays_closed m m'.
Proof.
  intros Hr. destruct (Do_once_run m Hr) as (m1 & E & H1 & _ & Hs & Hc & Hcl).
  exists m1. unfold ServeHTTP_enter. by rewrite (bind_run _ _ _ _ _ E).
Qed.

Lemma leave_run req m :
  ready m -> exists m', ServeHTTP_leave req m = (Ret tt, m') /\ ready m' /\
    streams m' = delete req (streams m) /\ chans m' = chans m /\ stays_closed m m'.
Proof.
  unfold stays_closed. open_ready; [intros [_ ->] .. | intros (_ & -> & _)]; eexists; (split; [reflexivity |]);
    split; unfold ready, streams; cbn; repeat split; eauto; done.
Qed.

Lemma listenerCount_run m : ready m -> listenerCount m = (Ret (Z.of_nat (size (streams m))), m).
Proof. by open_ready. Qed.

Lemma placesToSend_run m : ready m -> placesToSend m = (Ret (map_to_list (streams m)).*2, m).
Proof. by open_ready. Qed.

Lemma Close_run m :
  ready m -> exists m', Close m = (Ret tt, m') /\ ready m' /\ closeChan m' = ClosedChan /\
    streams m' = streams m /\ chans m' = chans m.
Proof.
  intros Hr. destruct (Do_once_run m Hr) as (m1 & E & [Hmu H1] & Ho & <- & <- & _).
  unfold Close. rewrite (bind_run _ _ _ _ _ E). rewrite Ho in H1.
  destruct m1 as [e cc mu1 on [] cs]; cbn in *; subst; destruct H1 as [He ->];
    eexists; (split; [reflexivity |]); by repeat split.
Qed.

Lemma receive_inv ch m ev m' :
  receive ch m = (Ret (Some ev), m') ->
  exists q, chans m !! ch = Some (ev :: q) /\ m' = set_chans (<[ch := q]> (chans m)) m.
Proof. unfold receive. destruct (chans m !! ch) as [[|x q]|]; intros [=]. subst. by exists q. Qed.

Lemma set_chans_ready cs m : ready (set_chans cs m) <-> ready m.
Proof. done. Qed.

Lemma offer_inv ch ev m m' :
  offer ch ev m = (Ret tt, m') ->
  (exists q, chans m !! ch = Some q /\ (length q < capacity)%nat /\ m' = set_chans (<[ch := q ++ [ev]]> (chans m)) m) \/
  (forall q, chans m !! ch = Some q -> (capacity <= length q)%nat) /\ m' = m.
Proof.
  unfold offer. destruct (chans m !! ch) as [q|]; [| intros [= <-]; by right].
  destruct (Nat.ltb_spec (length q) capacity); intros [= <-]; [left; by exists q |].
  right. split; [| done]. by intros ? [= <-].
Qed.

(** * The invariant *)

(** The entry of the map that is a handler's. *)
Definition holds (h : handler) : option (nat * nat) :=
  match h with Serving req ch _ _ | Leaving req ch _ _ => Some (req, ch) | _ => None end.

(** What the collector has offered to channel [ch]: it is in the middle of the last event. *)
Definition pending (c : collector) (es : list bytes) (ch : nat) : list bytes :=
  match c with
  | Sending _ places _ => if decide (ch ∈ places) then take (pred (length es)) es else es
  | _ => es
  end.

Definition handler_ok (cs : list (list bytes)) (c : collector) (es : list bytes) (h : handler) : Prop :=
  match h with
  | Entering _ _ => True
  | Serving _ ch since out =>
      let offered := drop since (pending c es ch) in
      (since <= length (pending c es ch))%nat /\
      exists q, cs !! ch = Some q /\ out ++ q `sublist_of` offered /\ take capacity offered `prefix_of` out ++ q
  | Leaving _ _ since out | Left since out => (since <= length es)%nat /\ out `sublist_of` drop since es
  end.

Definition start_ok (cs : list (list bytes)) (c : collector) (es : list bytes) : Prop :=
  match c with
  | Sending ev places _ => NoDup places /\ Forall (fun ch => (ch < length cs)%nat) places /\ last es = Some ev
  | _ => True
  end.

(** A handler other than number [i] holds the entry. *)
Definition other_holds (hs : list handler) (i req ch : nat) : Prop :=
  exists j h, j <> i /\ hs !! j = Some h /\ holds h = Some (req, ch).

Record stream_inv (s : sys) : Prop := {
  i_ready : ready (stream s);
  i_map : forall req ch, streams (stream s) !! req = Some ch <->
    exists i h, handlers s !! i = Some h /\ holds h = Some (req, ch);
  i_request : forall i j h h' req, handlers s !! i = Some h -> handlers s !! j = Some h' ->
    request_of h = Some req -> request_of h' = Some req -> i = j;
  i_channel : forall i h req ch, handlers s !! i = Some h -> holds h = Some (req, ch) ->
    (ch < length (chans (stream s)))%nat /\ forall req', ~ other_holds (handlers s) i req' ch;
  i_capacity : Forall (fun q => length q <= capacity)%nat (chans (stream s));
  i_start : start_ok (chans (stream s)) (start s) (sent s);
  i_handlers : Forall (handler_ok (chans (stream s)) (start s) (sent s)) (handlers s)
}.

Lemma holds_request h req ch : holds h = Some (req, ch) -> request_of h = Some req.
Proof. by destruct h; intros [= -> _]. Qed.

(** The entries after handler [i] changed. *)
Lemma entries_insert hs i h h' req ch :
  hs !! i = Some h ->
  (exists j hj, <[i := h']> hs !! j = Some hj /\ holds hj = Some (req, ch)) <->
  holds h' = Some (req, ch) \/ other_holds hs i req ch.
Proof.
  intros Hi. split.
  - intros (j & hj & Hj & Hh). destruct (decide (j = i)) as [->|Hne].
    + rewrite list_lookup_insert_eq in Hj by (by eapply lookup_lt_Some). left. congruence.
    + rewrite list_lookup_insert_ne in Hj by done. right. by exists j, hj.
  - intros [Hh|(j & hj & Hne & Hj & Hh)].
    + exists i, h'. by rewrite list_lookup_insert_eq by (by eapply lookup_lt_Some).
    + exists j, hj. by rewrite list_lookup_insert_ne.
Qed.

Section Update.
Context (m : MetricEventStream) (hs : list handler) (c : collector) (es : list bytes).
Context (HI : stream_inv (mkSys m hs c es)) (i : nat) (h : handler) (Hi : hs !! i = Some h).

Lemma entries req ch :
  streams m !! req = Some ch <-> holds h = Some (req, ch) \/ other_holds hs i req ch.
Proof.
  rewrite (i_map _ HI). cbn [handlers]. rewrite <- (entries_insert hs i h h req ch Hi).
  by rewrite list_insert_id.
Qed.

(** Nobody else has the request of handler [i]. *)
Lemma request_apart req req' ch :
  request_of h = Some req -> other_holds hs i req' ch -> req' <> req.
Proof.
  intros Hr (j & hj & Hne & Hj & Hh) ->. apply Hne.
  by eapply (i_request _ HI j i hj h req); [| | apply holds_request in Hh |].
Qed.

(** Handler [i] becomes [h']. *)
Lemma inv_update h' m' :
  (request_of h' = None \/ request_of h' = request_of h) -> ready m' ->
  Forall (fun q => length q <= capacity)%nat (chans m') -> (length (chans m) <= length (chans m'))%nat ->
  (forall req ch, streams m' !! req = Some ch <-> holds h' = Some (req, ch) \/ other_holds hs i req ch) ->
  (forall req ch, holds h' = Some (req, ch) ->
     (ch < length (chans m'))%nat /\ forall req', ~ other_holds hs i req' ch) ->
  (forall req ch, other_holds hs i req ch -> chans m' !! ch = chans m !! ch) ->
  handler_ok (chans m') c es h' ->
  stream_inv (mkSys m' (<[i := h']> hs) c es).
Proof.
  intros Hreq Hrdy Hcap Hlen Hmap Hch Hkeep Hok. pose proof (lookup_lt_Some _ _ _ Hi) as Hlt.
  split; cbn [stream handlers start sent]; try done.
  - intros req ch. by rewrite Hmap, entries_insert.
  - intros j k hj hk req. rewrite !list_lookup_insert_Some.
    intros [(-> & <- & _)|[Hnj Hj]] [(-> & <- & _)|[Hnk Hk]] Hrj Hrk; try done.
    + destruct Hreq as [E|E]; rewrite E in Hrj; [done |]. by eapply (i_request _ HI _ _ h hk req).
    + destruct Hreq as [E|E]; rewrite E in Hrk; [done |]. by eapply (i_request _ HI _ _ hj h req).
    + by eapply (i_request _ HI _ _ hj hk req).
  - intros j hj req ch. rewrite list_lookup_insert_Some. intros [(-> & <- & _)|[Hnj Hj]] Hh.
    + destruct (Hch req ch Hh) as [Hl Hno]. split; [done |]. intros req' (k & hk & Hnk & Hk & Hhk).
      rewrite list_lookup_insert_ne in Hk by done. apply (Hno req'). by exists k, hk.
    + destruct (i_channel _ HI j hj req ch Hj Hh) as [Hl Hno]. cbn [handlers stream] in *. split; [lia |].
      intros req' (k & hk & Hnk & Hk & Hhk). rewrite list_lookup_insert_Some in Hk.
      destruct Hk as [(<- & <- & _)|[Hik Hk]]; [| apply (Hno req'); by exists k, hk].
      destruct (Hch req' ch Hhk) as [_ Hno']. apply (Hno' req). by exists j, hj.
  - pose proof (i_start _ HI) as Hs. cbn [stream start sent] in Hs. destruct c; try done.
    destruct Hs as (Hnd & Hpl & Hlast). split; [done |]. split; [| done].
    eapply Forall_impl; [exact Hpl |]. cbn. lia.
  - apply Forall_lookup. intros j hj. rewrite list_lookup_insert_Some. intros [(-> & <- & _)|[Hnj Hj]]; [done |].
    pose proof (Forall_lookup_1 _ _ _ _ (i_handlers _ HI) Hj) as Hhj. cbn [stream start sent] in Hhj.
    destruct hj; try done. destruct Hhj as (Hsince & q & Hq & Hrest). split; [done |]. exists q.
    rewrite (Hkeep req ch); [done |]. by eexists j, _.
Qed.

(** The same when the handler keeps its entry and only its own channel may change. *)
Lemma inv_keep h' m' :
  holds h' = holds h -> request_of h' = request_of h -> ready m' -> streams m' = streams m ->
  Forall (fun q => length q <= capacity)%nat (chans m') -> length (chans m') = length (chans m) ->
  (forall req ch, other_holds hs i req ch -> chans m' !! ch = chans m !! ch) ->
  handler_ok (chans m') c es h' ->
  stream_inv (mkSys m' (<[i := h']> hs) c es).
Proof.
  intros Hh Hr Hrdy Hst Hcap Hlen Hkeep Hok. apply inv_update; try done; [by right | lia | |].
  - intros req ch. rewrite Hst, Hh. apply entries.
  - intros req ch E. rewrite Hlen. rewrite Hh in E. by apply (i_channel _ HI i h req ch).
Qed.
End Update.

(** ** The steps of handlers *)

Lemma other_channel m hs c es i h req ch :
  stream_inv (mkSys m hs c es) -> hs !! i = Some h -> holds h = Some (req, ch) ->
  forall req' ch', other_holds hs i req' ch' -> ch' <> ch.
Proof. intros HI Hi Hh req' ch' Ho ->. by apply (proj2 (i_channel _ HI i h req ch Hi Hh) req'). Qed.

Lemma stream_inv_enter req flusher m m' hs c es i r :
  stream_inv (mkSys m hs c es) -> hs !! i = Some (Entering req flusher) ->
  ServeHTTP_enter req flusher m = (Ret r, m') ->
  stream_inv (mkSys m' (<[i := match r with Some ch => Serving req ch (length es) [] | None => Left (length es) [] end]> hs) c es).
Proof.
  intros HI Hi E. pose proof (entries _ _ _ _ HI i _ Hi) as Hmap. cbn [holds] in Hmap.
  pose proof (i_ready _ HI) as Hr. pose proof (i_capacity _ HI) as Hcap. cbn [stream] in Hr, Hcap.
  assert (Hlast : forall req' ch, other_holds hs i req' ch -> (ch < length (chans m))%nat).
  { intros req' ch (j & hj & _ & Hj & Hh). by apply (i_channel _ HI j hj req' ch). }
  destruct flusher.
  - destruct (enter_run req m Hr) as (m1 & E1 & Hr1 & Hs1 & Hc1 & _). rewrite E1 in E. injection E as <- <-.
    eapply inv_update; try done; rewrite ?Hc1; [by right | | | | | |].
    + apply Forall_app_2; [done |]. by apply Forall_singleton, Nat.le_0_l.
    + rewrite length_app. lia.
    + intros req' ch. rewrite Hs1. cbn [holds]. rewrite lookup_insert_Some. split.
      * intros [[-> ->]|[Hne Hl]]; [by left | right]. apply Hmap in Hl. by destruct Hl.
      * intros [[= <- <-]|Ho]; [by left | right]. split; [| apply Hmap; by right].
        intros <-. by apply (request_apart _ _ _ _ HI i _ Hi req req ch).
    + intros req' ch [= <- <-]. rewrite length_app. cbn [length]. split; [lia |].
      intros req' Ho. specialize (Hlast _ _ Ho). lia.
    + intros req' ch Ho. apply lookup_app_l. by eapply Hlast.
    + pose proof (i_start _ HI) as Hst. cbn [stream start sent] in Hst.
      assert (Hp : pending c es (length (chans m)) = es).
      { destruct c as [| | |ev places circuits|]; try done. cbn [pending]. destruct (decide _) as [Hin|]; [| done].
        destruct Hst as (_ & Hpl & _). rewrite Forall_forall in Hpl. specialize (Hpl _ Hin). lia. }
      cbn [handler_ok]. rewrite Hp. split; [done |]. exists [].
      rewrite lookup_app_r, Nat.sub_diag by done. split; [done |]. by rewrite drop_all.
  - destruct (enter_refused req m Hr) as (m1 & E1 & Hr1 & Hs1 & Hc1 & _). rewrite E1 in E. injection E as <- <-.
    eapply inv_update; try done; rewrite ?Hc1; try done; [by left | |].
    + intros req' ch. by rewrite Hs1, Hmap.
    + cbn [handler_ok]. by rewrite drop_all.
Qed.

Lemma inv_leave req ch since out m m' hs c es i :
  stream_inv (mkSys m hs c es) -> hs !! i = Some (Leaving req ch since out) ->
  ServeHTTP_leave req m = (Ret tt, m') ->
  stream_inv (mkSys m' (<[i := Left since out]> hs) c es).
Proof.
  intros HI Hi E. pose proof (entries _ _ _ _ HI i _ Hi) as Hmap.
  pose proof (Forall_lookup_1 _ _ _ _ (i_handlers _ HI) Hi) as Hok. cbn [handler_ok] in Hok.
  destruct (leave_run req m (i_ready _ HI)) as (m1 & E1 & Hr1 & Hs1 & Hc1 & _). rewrite E1 in E. injection E as <-.
  eapply inv_update; try done; rewrite ?Hc1; try done; [by left | apply (i_capacity _ HI) |].
  intros req' ch'. rewrite Hs1, lookup_delete_Some, Hmap. cbn [holds]. split.
  - intros [Hne [[= <- <-]|Ho]]; [done | by right].
  - intros [[=]|Ho]. split; [| by right]. intros <-. by apply (request_apart _ _ _ _ HI i _ Hi req req ch').
Qed.

Lemma pending_take c es ch : exists k, pending c es ch = take k es.
Proof.
  destruct c as [| | |event places circuits|]; cbn [pending]; [by exists (length es); rewrite firstn_all .. | |
    by exists (length es); rewrite firstn_all].
  destruct (decide _); [by eexists | by exists (length es); rewrite firstn_all].
Qed.

Lemma drop_pending since c es ch : drop since (pending c es ch) `sublist_of` drop since es.
Proof.
  destruct (pending_take c es ch) as (k & ->). rewrite <- (take_drop k es) at 2.
  rewrite drop_app. by apply sublist_inserts_r.
Qed.

Lemma serving_leaves req ch since out m hs c es i :
  stream_inv (mkSys m hs c es) -> hs !! i = Some (Serving req ch since out) ->
  (since <= length es)%nat /\ out `sublist_of` drop since es.
Proof.
  intros HI Hi. destruct (Forall_lookup_1 _ _ _ _ (i_handlers _ HI) Hi) as (Hs & q & _ & Hq & _).
  cbn [start sent stream] in *. split.
  - destruct (pending_take c es ch) as (k & E). rewrite E, length_take in Hs. lia.
  - transitivity (out ++ q); [by apply sublist_inserts_r |].
    transitivity (drop since (pending c es ch)); [done | apply drop_pending].
Qed.

Lemma inv_receive h' req ch since out q ev m hs c es i :
  stream_inv (mkSys m hs c es) -> hs !! i = Some (Serving req ch since out) -> chans m !! ch = Some (ev :: q) ->
  holds h' = Some (req, ch) -> request_of h' = Some req ->
  handler_ok (<[ch := q]> (chans m)) c es h' ->
  stream_inv (mkSys (set_chans (<[ch := q]> (chans m)) m) (<[i := h']> hs) c es).
Proof.
  intros HI Hi Hq Hh Hr Hok. eapply inv_keep; try done.
  - by rewrite set_chans_ready; apply (i_ready _ HI).
  - apply Forall_insert; [apply (i_capacity _ HI) |].
    pose proof (Forall_lookup_1 _ _ _ _ (i_capacity _ HI) Hq) as Hl. cbn [length] in Hl. lia.
  - cbn. by rewrite length_insert.
  - intros req' ch' Ho. cbn. apply list_lookup_insert_ne, not_eq_sym.
    by apply (other_channel _ _ _ _ _ _ req ch HI Hi eq_refl req' ch').
Qed.

(** ** The steps of the collector *)

(** The first [k] of [d] are in [o], and stay there. *)
Lemma take_accepted {A} k (d o : list A) x :
  o `sublist_of` d -> take k d `prefix_of` o -> take k (d ++ [x]) `prefix_of` o ++ [x].
Proof.
  intros Hs Hp. destruct (decide (k <= length d)%nat) as [Hk|Hk].
  - rewrite take_app_le by done. by apply prefix_app_r.
  - rewrite (take_ge d) in Hp by lia. rewrite take_ge by (rewrite length_app; simpl; lia).
    apply prefix_length_eq in Hp; [by subst | by apply sublist_length].
Qed.

Lemma take_dropped {A} k (d o : list A) x :
  o `sublist_of` d -> take k d `prefix_of` o -> (k <= length o)%nat -> take k (d ++ [x]) `prefix_of` o.
Proof. intros Hs%sublist_length Hp Hk. by rewrite take_app_le by lia. Qed.

Lemma inv_collector m m' hs c c' es :
  stream_inv (mkSys m hs c es) -> ready m' -> streams m' = streams m -> chans m' = chans m ->
  (forall ch, pending c' es ch = pending c es ch) -> start_ok (chans m) c' es ->
  stream_inv (mkSys m' hs c' es).
Proof.
  intros HI Hr Hs Hc Hp Hst. destruct HI as [? Hmap Hreq Hch Hcap ? Hok].
  split; cbn [stream handlers start sent] in *; rewrite ?Hs, ?Hc; try done.
  eapply Forall_impl; [exact Hok |]. intros [| | |]; cbn [handler_ok]; try done. by rewrite Hp.
Qed.

Lemma inv_send m hs es circuits event order :
  stream_inv (mkSys m hs (Collecting (S circuits)) es) -> order ≡ₚ (map_to_list (streams m)).*2 ->
  stream_inv (mkSys m hs (Sending event order circuits) (es ++ [event])).
Proof.
  intros HI Hord. pose proof HI as [Hr Hmap Hreq Hch Hcap _ Hok].
  split; cbn [stream handlers start sent] in *; try done.
  - assert (Hin : forall ch, ch ∈ order -> exists req, streams m !! req = Some ch).
    { intros ch Hin. rewrite Hord in Hin. apply list_elem_of_fmap in Hin as ([req ch'] & -> & Hin).
      exists req. by apply elem_of_map_to_list in Hin. }
    split; [| split].
    + rewrite Hord. apply NoDup_fmap_2_strong; [| apply NoDup_map_to_list].
      intros [r1 c1] [r2 c2] H1 H2. cbn. intros <-. apply elem_of_map_to_list in H1, H2.
      apply Hmap in H1 as (i & h & Hi & Hh), H2 as (j & h' & Hj & Hh').
      destruct (decide (j = i)) as [->|Hne]; [congruence |].
      destruct (proj2 (Hch i h r1 c1 Hi Hh) r2). by exists j, h'.
    + apply Forall_forall. intros ch Hin'. destruct (Hin ch Hin') as (req & (i & h & Hi & Hh)%Hmap).
      by apply (Hch i h req ch).
    + apply last_snoc.
  - apply Forall_lookup. intros i h Hi. pose proof (Forall_lookup_1 _ _ _ _ Hok Hi) as Hh.
    assert (Hsnoc : forall since out, (since <= length es)%nat /\ out `sublist_of` drop since es ->
      (since <= length (es ++ [event]))%nat /\ out `sublist_of` drop since (es ++ [event])).
    { intros since out [Hl Ho]. rewrite length_app, drop_app_le by done. split; [lia |].
      by apply sublist_inserts_r. }
    destruct h as [|req ch since out|req ch since out|since out]; cbn [handler_ok] in *; auto.
    cbn [pending]. rewrite decide_True; [by rewrite length_app, Nat.add_1_r; cbn [pred]; rewrite take_app_length |].
    rewrite Hord. apply list_elem_of_fmap. exists (req, ch). split; [done |].
    apply elem_of_map_to_list, Hmap. by exists i, (Serving req ch since out).
Qed.

Lemma inv_offer m m' hs es event ch places circuits :
  stream_inv (mkSys m hs (Sending event (ch :: places) circuits) es) -> offer ch event m = (Ret tt, m') ->
  stream_inv (mkSys m' hs (Sending event places circuits) es).
Proof.
  intros HI Ho. pose proof HI as [Hr Hmap Hreq Hch Hcap Hst Hok]. cbn [stream handlers start sent] in *.
  destruct Hst as (Hnd & Hpl & Hlast). apply NoDup_cons in Hnd as [Hni Hnd]. apply Forall_cons in Hpl as [Hlt Hpl].
  assert (Hes : es = take (pred (length es)) es ++ [event]).
  { apply last_Some in Hlast as (l & ->). rewrite length_app, Nat.add_1_r. cbn [pred]. by rewrite take_app_length. }
  assert (Hm : ready m' /\ streams m' = streams m /\ length (chans m') = length (chans m) /\
    Forall (fun q => length q <= capacity)%nat (chans m') /\
    (forall ch', ch' <> ch -> chans m' !! ch' = chans m !! ch') /\
    (forall q, chans m !! ch = Some q -> exists q', chans m' !! ch = Some q' /\
      (q' = q ++ [event] \/ q' = q /\ (capacity <= length q)%nat))).
  { apply offer_inv in Ho as [(q & Hq & Hl & ->)|[Hfull ->]].
    - split; [by rewrite set_chans_ready |]. split; [done |]. cbn. split; [by rewrite length_insert |].
      split; [apply Forall_insert; [done | rewrite length_app; cbn; lia] |].
      split; [intros ch' Hne; by apply list_lookup_insert_ne, not_eq_sym |].
      intros q1 Hq1. exists (q ++ [event]). rewrite list_lookup_insert_eq by done. split; [done |]. left. congruence.
    - do 5 (split; [done |]). intros q Hq. exists q. split; [done |]. right. eauto. }
  destruct Hm as (Hr' & Hs' & Hl' & Hc' & Hother & Hown).
  split; cbn [stream handlers start sent]; rewrite ?Hs', ?Hl'; try done.
  { split; [done |]. by rewrite Hl'. }
  eapply Forall_impl; [exact Hok |]. intros [|req ch' since out| |]; cbn [handler_ok]; try done.
  intros (Hsince & q & Hq & Hsub & Hpre). cbn [pending] in *. destruct (decide (ch' = ch)) as [->|Hne].
  - rewrite decide_True in Hsince, Hsub, Hpre by left. rewrite decide_False by done.
    set (l := take (pred (length es)) es) in *. rewrite Hes. rewrite length_app. split; [lia |].
    destruct (Hown q Hq) as (q' & Hq' & Hcase). exists q'. split; [done |]. rewrite drop_app_le by done.
    destruct Hcase as [-> | [-> Hfull]].
    + rewrite app_assoc. split; [by apply sublist_app | by apply take_accepted].
    + split; [by apply sublist_inserts_r |]. apply take_dropped; try done. rewrite length_app. lia.
  - rewrite Hother by done. destruct (decide (ch' ∈ ch :: places)) as [Hin|Hout].
    + rewrite decide_True by (by apply elem_of_cons in Hin as [|]). eauto.
    + rewrite decide_False by (by intros Hin; apply Hout; right). eauto.
Qed.

(** ** Every step *)

Section Run.
Context (Encode : streamCmdMetric -> option bytes).

Lemma stream_inv_initial : stream_inv initial.
Proof.
  split; cbn; try done.
  - intros req ch. split; [by rewrite lookup_empty | intros (i & h & Hi & _); by rewrite lookup_nil in Hi].
Qed.

Lemma inv_request m hs c es req flusher :
  stream_inv (mkSys m hs c es) -> Forall (fun h => request_of h <> Some req) hs ->
  stream_inv (mkSys m (hs ++ [Entering req flusher]) c es).
Proof.
  intros [Hr Hmap Hreq Hch Hcap Hst Hok] Hnew. rewrite Forall_lookup in Hnew.
  assert (Hl : forall i h, (hs ++ [Entering req flusher]) !! i = Some h ->
    hs !! i = Some h \/ i = length hs /\ h = Entering req flusher).
  { intros i h [Hi|[Hge Hi]]%lookup_app_Some; [by left | right].
    apply list_lookup_singleton_Some in Hi as [Hz <-]. split; [lia | done]. }
  split; cbn [stream handlers start sent] in *; try done.
  - intros req' ch. rewrite Hmap. split; intros (i & h & Hi & Hh); exists i, h; (split; [| done]).
    + by apply lookup_app_l_Some.
    + by destruct (Hl i h Hi) as [|[_ ->]].
  - intros i j h h' r Hi Hj Hri Hrj. destruct (Hl i h Hi) as [Hi'|[-> ->]], (Hl j h' Hj) as [Hj'|[-> ->]].
    + by eapply (Hreq i j h h' r).
    + injection Hrj as <-. by destruct (Hnew i h Hi').
    + injection Hri as <-. by destruct (Hnew j h' Hj').
    + done.
  - intros i h r ch Hi Hh. destruct (Hl i h Hi) as [Hi'|[_ ->]]; [| done].
    destruct (Hch i h r ch Hi' Hh) as [Hlt Hno]. split; [done |].
    intros r' (j & h' & Hne & Hj & Hh'). apply (Hno r'). destruct (Hl j h' Hj) as [Hj'|[_ ->]]; [| done].
    by exists j, h'.
  - by apply Forall_app_2, Forall_singleton.
Qed.

Lemma stream_inv_step s s' : stream_inv s -> step Encode s s' -> stream_inv s'.
Proof.
  intros HI Hs. pose proof (i_ready _ HI) as Hr. destruct Hs; cbn [stream] in Hr.
  - by apply inv_request.
  - by eapply stream_inv_enter.
  - apply receive_inv in H0 as (q & Hq & ->). eapply inv_receive; try done.
    destruct (Forall_lookup_1 _ _ _ _ (i_handlers _ HI) H) as (Hs & q' & Hq' & Hsub & Hpre).
    cbn [stream] in Hq'. rewrite Hq in Hq'. injection Hq' as <-. split; [done |]. exists q.
    rewrite list_lookup_insert_eq by (by eapply lookup_lt_Some). by rewrite <- app_assoc.
  - apply receive_inv in H0 as (q & Hq & ->). eapply inv_receive; try done. by eapply serving_leaves.
  - eapply inv_keep; try done; [apply (i_capacity _ HI) | by eapply serving_leaves].
  - eapply inv_keep; try done; [apply (i_capacity _ HI) | by eapply serving_leaves].
  - by eapply inv_leave.
  - destruct (Do_once_run m Hr) as (m1 & E & Hr1 & _ & Hs1 & Hc1 & _). rewrite E in H. injection H as <-.
    by eapply inv_collector.
  - rewrite listenerCount_run in H by done. injection H as <- <-. by eapply inv_collector; try done; destruct (_ =? 0).
  - by eapply inv_collector.
  - rewrite placesToSend_run in H0 by done. injection H0 as <- <-. by apply (inv_send _ _ _ circuits).
  - by eapply inv_offer.
  - by eapply inv_collector.
  - by eapply inv_collector.
  - by eapply inv_collector.
  - destruct (Close_run m Hr) as (m1 & E & Hr1 & _ & Hs1 & Hc1). rewrite E in H. injection H as <-.
    eapply inv_collector; try done. apply (i_start _ HI).
Qed.

Lemma stream_inv_reachable s s' : stream_inv s -> rtc (step Encode) s s' -> stream_inv s'.
Proof. intros HI. induction 1; eauto using stream_inv_step. Qed.

(** ** After [Close] *)

Definition closed (s : sys) : Prop := closeChan (stream s) = ClosedChan.

Lemma closed_step s s' : stream_inv s -> step Encode s s' -> closed s -> closed s'.
Proof.
  intros HI Hs. pose proof (i_ready _ HI) as Hr. unfold closed. destruct Hs; cbn [stream] in *; try done.
  - destruct flusher; [destruct (enter_run req m Hr) as (m1 & E & Hm) | destruct (enter_refused req m Hr) as (m1 & E & Hm)];
      destruct Hm as (_ & _ & _ & Hcl); rewrite E in H0; by injection H0 as _ <-.
  - by apply receive_inv in H0 as (q & _ & ->).
  - by apply receive_inv in H0 as (q & _ & ->).
  - destruct (leave_run req m Hr) as (m1 & E & _ & _ & _ & Hcl). rewrite E in H0. by injection H0 as <-.
  - destruct (Do_once_run m Hr) as (m1 & E & _ & _ & _ & _ & Hcl). rewrite E in H. by injection H as <-.
  - rewrite listenerCount_run in H by done. by injection H as _ <-.
  - rewrite placesToSend_run in H0 by done. by injection H0 as _ <-.
  - by apply offer_inv in H as [(q & _ & _ & ->)|[_ ->]].
  - destruct (Close_run m Hr) as (m1 & E & _ & Hcl & _). rewrite E in H. by injection H as <-.
Qed.

Definition is_left (h : handler) : Prop := match h with Left _ _ => True | _ => False end.
Definition at_end (c : collector) : Prop := match c with NotStarted | Stopped => True | _ => False end.

(** [s] leads to a state of [P], the invariant and the closing kept. *)
Definition leads_to (s : sys) (P : sys -> Prop) : Prop :=
  exists s', rtc (step Encode) s s' /\ stream_inv s' /\ closed s' /\ P s'.

Lemma leads_step s s' P : stream_inv s -> closed s -> step Encode s s' ->
  (stream_inv s' -> closed s' -> leads_to s' P) -> leads_to s P.
Proof.
  intros HI Hc Hs HP. destruct HP as (s2 & Hr & H2); [by eapply stream_inv_step | by eapply closed_step |].
  exists s2. split; [by eapply rtc_l | done].
Qed.

Lemma leads_now s (P : sys -> Prop) : stream_inv s -> closed s -> P s -> leads_to s P.
Proof. intros HI Hc HP. by exists s. Qed.

(** The collector finishes its event, its circuits, and stops. *)
Lemma ticking_ends m hs es :
  stream_inv (mkSys m hs Ticking es) -> closed (mkSys m hs Ticking es) ->
  leads_to (mkSys m hs Ticking es) (fun s => handlers s = hs /\ at_end (start s)).
Proof. intros HI Hc. eapply leads_step; [done | done | by apply StepStop |]. intros ??. by apply leads_now. Qed.

Lemma sending_ends m hs es event places circuits P :
  stream_inv (mkSys m hs (Sending event places circuits) es) ->
  closed (mkSys m hs (Sending event places circuits) es) ->
  (forall m' es', stream_inv (mkSys m' hs (Collecting circuits) es') -> closed (mkSys m' hs (Collecting circuits) es') ->
     leads_to (mkSys m' hs (Collecting circuits) es') P) ->
  leads_to (mkSys m hs (Sending event places circuits) es) P.
Proof.
  intros HI Hc HP. revert m HI Hc. induction places as [|ch places IH]; intros m HI Hc.
  - eapply leads_step; [done | done | apply StepSent | apply HP].
  - assert (exists m', offer ch event m = (Ret tt, m')) as [m' E]
      by (unfold offer; destruct (chans m !! ch); by eexists).
    eapply leads_step; [done | done | by apply StepOffer | apply IH].
Qed.

Context (some_metric : streamCmdMetric).   (* there are messages *)

Lemma collecting_ends m hs es circuits :
  stream_inv (mkSys m hs (Collecting circuits) es) -> closed (mkSys m hs (Collecting circuits) es) ->
  leads_to (mkSys m hs (Collecting circuits) es) (fun s => handlers s = hs /\ at_end (start s)).
Proof.
  revert m es. induction circuits as [|circuits IH]; intros m es HI Hc.
  - eapply leads_step; [done | done | apply StepCollected | apply ticking_ends].
  - destruct (event_of Encode some_metric) as [event|] eqn:E.
    + eapply leads_step; [done | done | |].
      * eapply StepSend; [exact E | apply placesToSend_run; apply (i_ready _ HI) | done].
      * intros HI' Hc'. by eapply sending_ends.
    + eapply leads_step; [done | done | by eapply StepSkip | apply IH].
Qed.

Lemma collector_ends s :
  stream_inv s -> closed s -> leads_to s (fun s' => handlers s' = handlers s /\ at_end (start s')).
Proof.
  destruct s as [m hs c es]. intros HI Hc. destruct c; cbn [handlers].
  - by apply leads_now.
  - by apply ticking_ends.
  - by apply collecting_ends.
  - eapply sending_ends; try done. intros. by apply collecting_ends.
  - by apply leads_now.
Qed.

(** Handler [i] leaves. *)
Lemma handler_ends m hs c es i h P :
  stream_inv (mkSys m hs c es) -> closed (mkSys m hs c es) -> hs !! i = Some h ->
  (forall m' since out, stream_inv (mkSys m' (<[i := Left since out]> hs) c es) ->
     closed (mkSys m' (<[i := Left since out]> hs) c es) -> leads_to (mkSys m' (<[i := Left since out]> hs) c es) P) ->
  leads_to (mkSys m hs c es) P.
Proof.
  intros HI Hc Hi HP.
  assert (Hleave : forall m hs0 req ch since out, stream_inv (mkSys m hs0 c es) -> closed (mkSys m hs0 c es) ->
    hs0 !! i = Some (Leaving req ch since out) -> (forall h', <[i := h']> hs0 = <[i := h']> hs) ->
    leads_to (mkSys m hs0 c es) P).
  { intros m1 hs1 req ch since out HI1 Hc1 Hi1 Heq.
    destruct (leave_run req m1 (i_ready _ HI1)) as (m2 & E & _).
    eapply leads_step; [done | done | by eapply StepLeave |]. rewrite Heq. apply HP. }
  assert (Hserve : forall m hs0 req ch since out, stream_inv (mkSys m hs0 c es) -> closed (mkSys m hs0 c es) ->
    hs0 !! i = Some (Serving req ch since out) -> (forall h', <[i := h']> hs0 = <[i := h']> hs) ->
    leads_to (mkSys m hs0 c es) P).
  { intros m1 hs1 req ch since out HI1 Hc1 Hi1 Heq.
    eapply leads_step; [done | done | by eapply StepClosed |]. intros HI2 Hc2.
    eapply (Hleave m1 _ req ch since out); try done.
    - by rewrite list_lookup_insert_eq by (by eapply lookup_lt_Some).
    - intros h'. by rewrite list_insert_insert_eq. }
  destruct h as [req flusher|req ch since out|req ch since out|since out].
  - destruct flusher.
    + destruct (enter_run req m (i_ready _ HI)) as (m1 & E & _).
      eapply leads_step; [done | done | by eapply StepEnter |]. intros HI2 Hc2.
      eapply (Hserve m1 _ req (length (chans m)) (length es) []); try done.
      * by rewrite list_lookup_insert_eq by (by eapply lookup_lt_Some).
      * intros h'. by rewrite list_insert_insert_eq.
    + destruct (enter_refused req m (i_ready _ HI)) as (m1 & E & _).
      eapply leads_step; [done | done | by eapply StepEnter |]. apply HP.
  - by eapply (Hserve m hs).
  - by eapply (Hleave m hs).
  - rewrite <- (list_insert_id hs i _ Hi). rewrite <- (list_insert_id hs i _ Hi) in HI, Hc. by apply HP.
Qed.

(** The handlers from number [k] on leave. *)
Lemma handlers_end k m hs c es :
  stream_inv (mkSys m hs c es) -> closed (mkSys m hs c es) -> Forall is_left (drop k hs) ->
  leads_to (mkSys m hs c es) (fun s => Forall is_left (handlers s) /\ start s = c).
Proof.
  revert m hs. induction k as [|k IH]; intros m hs HI Hc Hk; [by apply leads_now |].
  destruct (hs !! k) as [h|] eqn:E.
  - eapply handler_ends; [done | done | exact E |]. intros m' since out HI' Hc'. apply IH; [done | done |].
    rewrite (drop_S _ (Left since out)) by (rewrite list_lookup_insert_eq; [done | by eapply lookup_lt_Some]).
    constructor; [done |]. by rewrite drop_insert_lt by lia.
  - apply IH; [done | done |]. rewrite drop_ge; [done |]. by apply lookup_ge_None.
Qed.
End Run.

(** * What a client reads

    The format text/event-stream, as a client decodes it: an event ends with an empty line, and
    its lines that begin with "data:" are its data. *)

(** The lines of a text, each ended by a newline. *)
Fixpoint lines (line : bytes) (text : bytes) : list bytes :=
  match text with
  | [] => []
  | x :: text' => if decide (x = newline) then line :: lines [] text' else lines (line ++ [x]) text'
  end.

Fixpoint strip (prefix line : bytes) : option bytes :=
  match prefix, line with
  | [], _ => Some line
  | p :: prefix', x :: line' => if decide (p = x) then strip prefix' line' else None
  | _ :: _, [] => None
  end.

Fixpoint messages (data : option bytes) (ls : list bytes) : list bytes :=
  match ls with
  | [] => []
  | [] :: ls' =>
      match data with Some d => d :: messages None ls' | None => messages None ls' end
  | line :: ls' =>
      match strip data_prefix line with
      | Some d => messages (Some (match data with Some d0 => d0 ++ [newline] ++ d | None => d end)) ls'
      | None => messages data ls'
      end
  end.

Definition decode (text : bytes) : list bytes := messages None (lines [] text).

Lemma lines_app line l text :
  newline ∉ l -> lines line (l ++ newline :: text) = (line ++ l) :: lines [] text.
Proof.
  revert line. induction l as [|x l IH]; intros line Hl; cbn [app lines].
  - by rewrite decide_True, app_nil_r by done.
  - apply not_elem_of_cons in Hl as [Hx Hl]. rewrite decide_False by congruence.
    by rewrite IH, <- app_assoc.
Qed.

Lemma decode_event json text :
  newline ∉ json -> decode ((data_prefix ++ (json ++ [newline]) ++ [newline]) ++ text) = json :: decode text.
Proof.
  intros Hj. unfold decode.
  assert (Hp : newline ∉ data_prefix ++ json).
  { apply not_elem_of_app. split; [| done]. by apply (bool_decide_unpack _). }
  replace ((data_prefix ++ (json ++ [newline]) ++ [newline]) ++ text)
    with ((data_prefix ++ json) ++ newline :: newline :: text) by (by rewrite <- !app_assoc).
  rewrite lines_app by done. cbn [lines app]. by rewrite decide_True.
Qed.

(** [Encode] writes JSON and a newline; the JSON of a struct has no other. *)
Definition encodes (Encode : streamCmdMetric -> option bytes) : Prop :=
  forall x b, Encode x = Some b -> exists json, b = json ++ [newline] /\ newline ∉ json.

(** What was written to a client, and when it began to listen. *)
Definition written (h : handler) : list bytes :=
  match h with Entering _ _ => [] | Serving _ _ _ out | Leaving _ _ _ out | Left _ out => out end.
Definition since_of (h : handler) : nat :=
  match h with Entering _ _ => 0%nat | Serving _ _ since _ | Leaving _ _ since _ | Left since _ => since end.

Lemma Forall2_sublist {A B} (R : A -> B -> Prop) l k k' :
  Forall2 R l k -> k' `sublist_of` k -> exists l', l' `sublist_of` l /\ Forall2 R l' k'.
Proof.
  intros H Hs. revert l H. induction Hs as [|x k' k Hs IH|x k' k Hs IH]; intros l H.
  - exists []. by inversion H; subst.
  - inversion H as [|y ? l0 ? Hy Hl]; subst. destruct (IH l0 Hl) as (l' & Hl' & HR).
    exists (y :: l'). by split; constructor.
  - inversion H as [|y ? l0 ? Hy Hl]; subst. destruct (IH l0 Hl) as (l' & Hl' & HR).
    exists l'. by split; [constructor |].
Qed.

Section Wire.
Context (Encode : streamCmdMetric -> option bytes) (HE : encodes Encode).

Definition frame_of (json ev : bytes) : Prop :=
  exists x, Encode x = Some (json ++ [newline]) /\ event_of Encode x = Some ev.

Lemma sent_reachable s :
  rtc (step Encode) initial s -> Forall (fun ev => exists x, event_of Encode x = Some ev) (sent s).
Proof using.
  clear HE. intros H. cut (Forall (fun ev => exists x, event_of Encode x = Some ev) (sent initial)); [| by constructor].
  induction H as [|s1 s2 s3 Hs _ IH]; [done |]. intros H1. apply IH. destruct Hs; cbn [sent] in *; try done.
  apply Forall_app_2; [done |]. apply Forall_singleton. by eexists.
Qed.

Lemma event_of_inv x ev :
  event_of Encode x = Some ev ->
  exists json, Encode x = Some (json ++ [newline]) /\ newline ∉ json /\
    ev = data_prefix ++ (json ++ [newline]) ++ [newline].
Proof.
  unfold event_of. intros (b & Eb & Hev)%bind_Some. destruct (HE x b Eb) as (json & -> & Hn).
  exists json. split; [done |]. split; [done |]. congruence.
Qed.

Lemma framed_jsons evs :
  Forall (fun ev => exists x, event_of Encode x = Some ev) evs -> exists jsons, Forall2 frame_of jsons evs.
Proof.
  induction 1 as [|ev evs (x & Hx) _ (jsons & IH)]; [by exists [] |].
  destruct (event_of_inv x ev Hx) as (json & E & _ & _).
  exists (json :: jsons). constructor; [by exists x | done].
Qed.

Lemma decode_events jsons evs : Forall2 frame_of jsons evs -> decode (concat evs) = jsons.
Proof.
  induction 1 as [|json ev jsons evs (x & Ex & Hev) _ IH]; [done |].
  destruct (event_of_inv x ev Hev) as (json' & Ex' & Hn & ->).
  assert (json' = json) as -> by (rewrite Ex in Ex'; injection Ex' as Ex'; by apply app_inj_tail in Ex' as [-> _]).
  cbn [concat]. by rewrite decode_event, IH.
Qed.
End Wire.

(** * Theorems *)

Section Theorems.
Context (Encode : streamCmdMetric -> option bytes).

(** C31: the state of the stream is well formed.  In every interleaving of clients, the
    collector and calls of [Close], between critical sections: the mutex is free; nothing is
    initialised or everything is; the map has exactly the entries of the clients being served,
    each with a channel of its own, which holds at most 1024 events; and no critical section
    panics - no write to the nil map, no second close of the channel - or waits for the mutex. *)
Theorem stream_is_well_formed s :
  rtc (step Encode) initial s ->
  (mu (stream s) = false /\
   (if once (stream s) then is_Some (eventStreams (stream s)) /\ closeChan (stream s) <> NilChan
    else eventStreams (stream s) = None /\ closeChan (stream s) = NilChan)) /\
  (forall req ch, streams (stream s) !! req = Some ch <->
     exists i h, handlers s !! i = Some h /\ holds h = Some (req, ch)) /\
  (forall i j h h' req req' ch, handlers s !! i = Some h -> handlers s !! j = Some h' ->
     holds h = Some (req, ch) -> holds h' = Some (req', ch) -> i = j) /\
  Forall (fun q => length q <= 1024)%nat (chans (stream s)) /\
  (forall req flusher, exists r m', ServeHTTP_enter req flusher (stream s) = (Ret r, m') /\ (r = None <-> flusher = false)) /\
  (forall req, exists m', ServeHTTP_leave req (stream s) = (Ret tt, m')) /\
  listenerCount (stream s) = (Ret (Z.of_nat (size (streams (stream s)))), stream s) /\
  (exists m', Close (stream s) = (Ret tt, m') /\ closeChan m' = ClosedChan).
Proof.
  intros Hs. pose proof (stream_inv_reachable Encode _ _ stream_inv_initial Hs) as HI. pose proof HI as [Hr Hmap Hreq Hch Hcap _ _].
  split; [| split; [exact Hmap | split; [| split; [exact Hcap | split; [| split; [| split]]]]]].
  - destruct Hr as [Hmu Hr]. split; [done |]. destruct (once _); [| by destruct Hr as (? & ? & _)].
    destruct Hr as [He ->]. split; [done |]. by destruct (closeOnce _).
  - intros i j h h' req req' ch Hi Hj Hh Hh'. destruct (decide (j = i)) as [|Hne]; [done |].
    destruct (Hch i h req ch Hi Hh) as [_ Hno]. destruct (Hno req'). by exists j, h'.
  - intros req [|].
    + destruct (enter_run req _ Hr) as (m' & E & _). by eexists _, m'.
    + destruct (enter_refused req _ Hr) as (m' & E & _). by eexists _, m'.
  - intros req. destruct (leave_run req _ Hr) as (m' & E & _). by exists m'.
  - by apply listenerCount_run.
  - destruct (Close_run _ Hr) as (m' & E & _ & Hc & _). by exists m'.
Qed.

(** C32: clients get the events in order, and none of the first 1024 is lost.  What a client was
    written, and then what waits in its channel, is a subsequence of the events that were sent
    since it listened; while it is served, and unless the collector still has to offer it the
    last event, it has all of the first 1024 of them, however slow it is. *)
Theorem clients_get_events_in_order s i h :
  rtc (step Encode) initial s -> handlers s !! i = Some h ->
  match h with
  | Entering _ _ => True
  | Serving req ch since out =>
      exists queue, chans (stream s) !! ch = Some queue /\ out ++ queue `sublist_of` drop since (sent s) /\
        ((forall event places circuits, start s = Sending event places circuits -> ch ∉ places) ->
         take 1024 (drop since (sent s)) `prefix_of` out ++ queue)
  | Leaving _ _ since out | Left since out => out `sublist_of` drop since (sent s)
  end.
Proof.
  intros Hs Hi. pose proof (stream_inv_reachable Encode _ _ stream_inv_initial Hs) as HI.
  pose proof (Forall_lookup_1 _ _ _ _ (i_handlers _ HI) Hi) as Hok.
  destruct h as [|req ch since out| |]; try done; [| by destruct Hok ..].
  destruct Hok as (Hl & queue & Hq & Hsub & Hpre). exists queue. split; [done |]. split.
  - transitivity (drop since (pending (start s) (sent s) ch)); [done |]. apply drop_pending.
  - intros Hno. revert Hpre. unfold pending. destruct (start s); try done.
    by rewrite decide_False by (by eapply Hno).
Qed.

(** A closed stream ends.  Once [Close] was called, it stays closed, and whatever happened
    since, the calls of [ServeHTTP] and of [Start] can all return: there is a run to a state
    where every client has left, its entry is gone, and the collector has stopped. *)
Theorem closed_stream_ends (some_metric : streamCmdMetric) s s' :
  rtc (step Encode) initial s -> closeChan (stream s) = ClosedChan -> rtc (step Encode) s s' ->
  closeChan (stream s') = ClosedChan /\
  exists s2, rtc (step Encode) s' s2 /\ Forall is_left (handlers s2) /\ at_end (start s2) /\
    streams (stream s2) = ∅.
Proof.
  intros Hs Hc Hs'. pose proof (stream_inv_reachable Encode _ _ stream_inv_initial Hs) as HI.
  assert (HI' : stream_inv s' /\ closed s').
  { clear Hs. induction Hs' as [s|s s1 s2 H1 _ IH]; [done |].
    apply IH; [by apply (closed_step Encode s) | by apply (stream_inv_step Encode s)]. }
  clear Hc HI. destruct HI' as [HI Hc]. split; [done |].
  destruct (collector_ends Encode some_metric s' HI Hc) as (s1 & H1 & HI1 & Hc1 & _ & He).
  destruct s1 as [m hs c es].
  destruct (handlers_end Encode (length hs) m hs c es HI1 Hc1) as (s2 & H2 & HI2 & _ & Hl & Hst); [by rewrite drop_all |].
  exists s2. split; [by transitivity (mkSys m hs c es) |]. split; [done |]. split; [by rewrite Hst |].
  apply map_empty. intros req. destruct (streams (stream s2) !! req) as [ch|] eqn:E; [| done].
  apply (i_map _ HI2) in E as (i & h & Hi & Hh). rewrite Forall_lookup in Hl. specialize (Hl i h Hi).
  by destruct h.
Qed.

(** C33: the events survive the wire.  Every event is "data:", the JSON of some circuit's metrics
    and an empty line, and a client that decodes what it was written as text/event-stream reads
    the JSON of the events it was sent, nothing more, a subsequence of those since it listened,
    in their order. *)
Theorem clients_read_the_metrics s :
  encodes Encode -> rtc (step Encode) initial s ->
  exists jsons,
    Forall2 (fun json ev => exists x, Encode x = Some (json ++ [newline]) /\ event_of Encode x = Some ev)
      jsons (sent s) /\
    forall i h, handlers s !! i = Some h -> decode (concat (written h)) `sublist_of` drop (since_of h) jsons.
Proof.
  intros HE Hs. pose proof (stream_inv_reachable Encode _ _ stream_inv_initial Hs) as HI.
  destruct (framed_jsons Encode HE (sent s)) as (jsons & Hj); [by apply sent_reachable |].
  exists jsons. split; [done |]. intros i h Hi.
  assert (Hout : written h `sublist_of` drop (since_of h) (sent s)).
  { pose proof (Forall_lookup_1 _ _ _ _ (i_handlers _ HI) Hi) as Hok.
    destruct h as [|req ch since out| |]; [by apply sublist_nil_l | | by destruct Hok ..].
    destruct s as [m hs c es]. by apply (serving_leaves req ch since out m hs c es i). }
  destruct (Forall2_sublist _ _ _ _ (Forall2_drop _ _ _ (since_of h) Hj) Hout) as (js & Hsub & Hjs).
  by rewrite (decode_events Encode HE _ _ Hjs).
Qed.
End Theorems.

(** * Witnesses *)

Module StreamSample.
Definition latency : StreamMetrics.StreamMetrics.streamCmdLatency :=
  StreamMetrics.StreamMetrics.mkStreamCmdLatency 0 0 0 0 0 0 0 0 0.

(** The message of a circuit that did nothing. *)
Definition message (name : string) : streamCmdMetric :=
  StreamMetrics.StreamMetrics.mkStreamCmdMetric "HystrixCommand" name "" 0 1 0 0 0 0 0 0 0 0 0 0 0 0 0 0 0 0 0 0 0
    latency latency 0 0 0 "SEMAPHORE" "" 0 0 0 0 false false true false false false false 0 0 0 0 0 0 0 0 0.

(** JSON of the name alone. *)
Definition Encode (x : streamCmdMetric) : option bytes :=
  let name := String.list_byte_of_string (StreamMetrics.StreamMetrics.Name_ x) in
  Some ((x7b :: (if decide (newline ∈ name) then [] else name) ++ [x7d]) ++ [newline]).

Lemma Encode_encodes : encodes Encode.
Proof.
  intros x b [= <-]. eexists (x7b :: _ ++ [x7d]). split; [done |].
  rewrite not_elem_of_cons, not_elem_of_app. split; [done |]. split; [| by apply (bool_decide_unpack _)].
  destruct (decide _) as [Hin|Hout]; [by apply not_elem_of_nil | done].
Qed.

Definition event (name : string) : bytes := default [] (event_of Encode (message name)).

(** A client has read the first of two events. *)
Definition s1 : sys :=
  mkSys (mkMetricEventStream (Some {[7%nat := 0%nat]}) OpenChan false true false [[event "b"]])
    [Serving 7 0 0 [event "a"]] Ticking [event "a"; event "b"].
Definition s2 : sys :=
  mkSys (mkMetricEventStream (Some {[7%nat := 0%nat]}) ClosedChan false true true [[event "b"]])
    [Serving 7 0 0 [event "a"]] Ticking [event "a"; event "b"].

Ltac go tac := eapply rtc_l; [tac |].
Ltac send name :=
  go ltac:(eapply (StepSend _ _ _ _ _ (message name)); [reflexivity | reflexivity | reflexivity]);
  go ltac:(eapply StepOffer; reflexivity); go ltac:(eapply StepSent).

Lemma s1_reachable : rtc (step Encode) initial s1.
Proof.
  go ltac:(eapply (StepRequest _ _ _ _ _ 7 true); by constructor).
  go ltac:(eapply (StepEnter _ _ _ _ _ _ 0); reflexivity).
  go ltac:(eapply StepStart; reflexivity).
  go ltac:(eapply (StepTick _ _ _ _ _ _ 2); reflexivity).
  send "a"%string. send "b"%string.
  go ltac:(eapply StepCollected).
  go ltac:(eapply (StepWrite _ _ _ _ _ _ 0); reflexivity).
  apply rtc_refl.
Qed.

Lemma s2_reachable : rtc (step Encode) initial s2.
Proof. eapply rtc_r; [exact s1_reachable |]. by apply StepClose. Qed.

Lemma stream_is_well_formed_witness :
  (mu (stream s1) = false /\ is_Some (eventStreams (stream s1)) /\ closeChan (stream s1) <> NilChan) /\
  exists m', Close (stream s1) = (Ret tt, m') /\ closeChan m' = ClosedChan.
Proof.
  destruct (stream_is_well_formed Encode s1 s1_reachable) as ((Hmu & Hr) & _ & _ & _ & _ & _ & _ & Hc).
  split; [split; [exact Hmu | exact Hr] | exact Hc].
Defined.

Lemma clients_get_events_in_order_witness :
  exists queue, chans (stream s1) !! 0%nat = Some queue /\
    [event "a"] ++ queue `sublist_of` [event "a"; event "b"] /\
    [event "a"; event "b"] `prefix_of` [event "a"] ++ queue.
Proof.
  destruct (clients_get_events_in_order Encode s1 0 _ s1_reachable eq_refl) as (queue & Hq & Hs & Hp).
  exists queue. split; [exact Hq |]. split; [exact Hs |]. apply Hp. discriminate.
Defined.

Lemma closed_stream_ends_witness :
  closeChan (stream s2) = ClosedChan /\
  exists s3, rtc (step Encode) s2 s3 /\ Forall is_left (handlers s3) /\ at_end (start s3) /\
    streams (stream s3) = ∅.
Proof. apply (closed_stream_ends Encode (message "a") s2 s2 s2_reachable eq_refl). apply rtc_refl. Defined.

Lemma clients_read_the_metrics_witness :
  exists jsons, length jsons = 2%nat /\ decode (concat [event "a"]) `sublist_of` jsons.
Proof.
  destruct (clients_read_the_metrics Encode s1 Encode_encodes s1_reachable) as (jsons & Hj & Hd).
  exists jsons. split; [exact (Forall2_length _ _ _ Hj) | exact (Hd 0%nat _ eq_refl)].
Defined.
End StreamSample.
End EventStream.
