(* ===== verification/MockClock.v ===== *)
(** internal/clock/clock.go: the clock the library's own tests and its users' tests run by.

    The callbacks are the user's: numbered functions over the world of the clock, so they may
    call back into it.  [slices.SortStableFunc] is modelled by an insertion sort, proved to be
    a stable sort.  The stopped timer that [AfterFunc] returns does nothing and is left out.
    [After] makes a channel and has the time sent on it by one of the callbacks; the real sleeps of
    [TickUntil] are the environment's, and its loop runs on fuel. *)

From S2P Require Import Prelude GoMonad.

Module MockClock.

(** * Data *)

Record timedCallbacks := mkTimedCallbacks { when : Time; f : nat }.

Section Data.
Context {U : Type}.

Record MockClock := mkMockClock {
  currentTime : Time;
  callbacks : list timedCallbacks;
  mu : bool
}.

Record CWorld := mkCWorld { clock : MockClock; outside : U }.
End Data.

Arguments CWorld U : clear implicits.

(** ** [slices.SortStableFunc] by deadline *)

Fixpoint insert_when (c : timedCallbacks) (l : list timedCallbacks) : list timedCallbacks :=
  match l with
  | [] => [c]
  | c' :: l' => if when c <=? when c' then c :: l else c' :: insert_when c l'
  end.

Fixpoint sort_when (l : list timedCallbacks) : list timedCallbacks :=
  match l with
  | [] => []
  | c :: l' => insert_when c (sort_when l')
  end.

Section Methods.
Context {U : Type} (callback : nat -> M (CWorld U) unit).
Abbreviation W := (CWorld U).

Definition set_clock (c : MockClock) (w : W) : W := mkCWorld c (outside w).

Definition set_currentTime (t : Time) (w : W) : W :=
  set_clock (mkMockClock t (callbacks (clock w)) (mu (clock w))) w.
Definition set_callbacks (l : list timedCallbacks) (w : W) : W :=
  set_clock (mkMockClock (currentTime (clock w)) l (mu (clock w))) w.
Definition set_mu (b : bool) (w : W) : W :=
  set_clock (mkMockClock (currentTime (clock w)) (callbacks (clock w)) b) w.

Definition lock : M W unit := fun w =>
  if mu (clock w) then (Deadlock, w) else (Ret tt, set_mu true w).
Definition unlock : M W unit := fun w =>
  if mu (clock w) then (Ret tt, set_mu false w) else (Panic UnlockOfUnlocked, w).

(** * Operations *)

(** The loop that splits the callbacks: those still to come, and those to call. *)
Fixpoint split_callbacks (now : Time) (l newArray toCall : list timedCallbacks)
    : list timedCallbacks * list timedCallbacks :=
  match l with
  | [] => (newArray, toCall)
  | c :: l' =>
      if time_Before now (when c) then split_callbacks now l' (newArray ++ [c]) toCall
      else split_callbacks now l' newArray (toCall ++ [c])
  end.

Definition triggerCallbacks : M W unit :=
  do! lock;
  let! c := gets clock in
  let '(newArray, toCall) := split_callbacks (currentTime c) (callbacks c) [] [] in
  do! modify (set_callbacks newArray);
  do! unlock;
  range_do (fun cb => callback (f cb)) (sort_when toCall).

(** The deferred calls run last in, first out: the lock is released before the callbacks. *)
Definition Set_ (t : Time) : M W Time :=
  defer triggerCallbacks
    (do! lock;
     defer unlock
       (do! modify (set_currentTime t);
        gets (fun w => currentTime (clock w)))).

Definition Add (d : Duration) : M W Time :=
  do! lock;
  let! t := gets (fun w => currentTime (clock w)) in
  do! modify (set_currentTime (time_Add t d));
  let! ret_ := gets (fun w => currentTime (clock w)) in
  do! unlock;
  do! triggerCallbacks;
  ret ret_.

Definition Now : M W Time :=
  do! lock;
  defer unlock (gets (fun w => currentTime (clock w))).

Definition AfterFunc (d : Duration) (id : nat) : M W unit :=
  do! lock;
  if d <=? 0 then
    do! unlock;
    callback id
  else
    let! c := gets clock in
    do! modify (set_callbacks (callbacks c ++ [mkTimedCallbacks (time_Add (currentTime c) d) id]));
    unlock.

(** [f] is the function of the caller that says when to stop; other goroutines may act during a sleep. *)
Fixpoint TickUntil (fuel : nat) (shouldStop : M W bool) (sleep : M W unit) (mockIncr : Duration) : M W unit :=
  match fuel with
  | O => fun w => (OutOfFuel, w)
  | S fuel =>
      let! stop := shouldStop in
      if stop : bool then ret tt
      else do! sleep; do! Add mockIncr; TickUntil fuel shouldStop sleep mockIncr
  end.
End Methods.

(** ** Channels of times

    The channels that [After] made are kept in the environment, each as the list of what is buffered
    in it.  Its callback, the closure that sends on channel [c], is the one numbered [sender c]. *)

Section After.
Context {V : Type} (callback : nat -> M (CWorld (list (list Time) * V)) unit) (sender : nat -> nat).
Abbreviation W := (CWorld (list (list Time) * V)).

Definition set_channels (cs : list (list Time)) (w : W) : W := mkCWorld (clock w) (cs, snd (outside w)).

(** [c <- t] on a channel of capacity 1, from which nobody is receiving. *)
Definition send (c : nat) (t : Time) : M W unit := fun w =>
  match fst (outside w) !! c with
  | Some [] => (Ret tt, set_channels (<[c := [t]]> (fst (outside w))) w)
  | _ => (Deadlock, w)
  end.

(** The closure of [After]. *)
Definition send_now (c : nat) : M W unit := let! t := Now in send c t.

Definition After (d : Duration) : M W nat :=
  let! cs := gets (fun w => fst (outside w)) in
  do! modify (set_channels (cs ++ [[]]));
  do! AfterFunc callback d (sender (length cs));
  ret (length cs).
End After.

(** * Lemmas *)

(** ** The sort *)

Definition le_when (a b : timedCallbacks) : Prop := when a <= when b.

Lemma insert_when_permutation c l : insert_when c l ≡ₚ c :: l.
Proof. induction l as [|c' l IH]; simpl; [done |]. destruct (_ <=? _); [done |]. rewrite IH. constructor. Qed.

Lemma sort_when_permutation l : sort_when l ≡ₚ l.
Proof. induction l as [|c l IH]; simpl; [done |]. by rewrite insert_when_permutation, IH. Qed.

Lemma insert_when_sorted c l : StronglySorted le_when l -> StronglySorted le_when (insert_when c l).
Proof.
  induction 1 as [|c' l Hs IH Hc]; simpl; [repeat constructor |].
  destruct (Z.leb_spec (when c) (when c')).
  - constructor; [by constructor |]. constructor; [done |]. eapply Forall_impl; [exact Hc |].
    unfold le_when. intros x. simpl. lia.
  - constructor; [done |]. rewrite insert_when_permutation. constructor; [unfold le_when; lia | done].
Qed.

Lemma sort_when_sorted l : StronglySorted le_when (sort_when l).
Proof. induction l as [|c l IH]; simpl; [constructor | by apply insert_when_sorted]. Qed.

(** Callbacks of one deadline keep their order. *)
Lemma insert_when_stable t c l :
  filter (fun c' => when c' = t) (insert_when c l) = filter (fun c' => when c' = t) (c :: l).
Proof.
  induction l as [|c' l IH]; simpl; [done |]. destruct (Z.leb_spec (when c) (when c')); [done |].
  rewrite !filter_cons, IH, !filter_cons. destruct (decide (when c' = t)), (decide (when c = t)); (done || lia).
Qed.

Lemma sort_when_stable t l :
  filter (fun c => when c = t) (sort_when l) = filter (fun c => when c = t) l.
Proof.
  induction l as [|c l IH]; simpl; [done |]. by rewrite insert_when_stable, !filter_cons, IH.
Qed.

(** ** The operations on a free clock *)

Definition due (t : Time) (l : list timedCallbacks) : list timedCallbacks := filter (fun c => when c <= t) l.
Definition still (t : Time) (l : list timedCallbacks) : list timedCallbacks := filter (fun c => t < when c) l.

Lemma split_callbacks_spec t l a b : split_callbacks t l a b = (a ++ still t l, b ++ due t l).
Proof.
  revert a b. induction l as [|c l IH]; intros a b; simpl; [by rewrite !app_nil_r |].
  unfold still, due, time_Before. rewrite !filter_cons.
  destruct (Z.ltb_spec t (when c)); rewrite IH.
  - rewrite decide_True, decide_False by lia. by rewrite <- app_assoc.
  - rewrite decide_False, decide_True by lia. by rewrite <- app_assoc.
Qed.

Lemma still_due_permutation t l : due t l ++ still t l ≡ₚ l.
Proof.
  unfold due, still. induction l as [|c l IH]; [done |]. rewrite !filter_cons.
  destruct (decide (when c <= t)), (decide (t < when c)); try lia; simpl; [by rewrite IH |].
  by rewrite <- Permutation_middle, IH.
Qed.

Section Facts.
Context {U : Type} (callback : nat -> M (CWorld U) unit).
Abbreviation W := (CWorld U).
Implicit Types w : W.

(** The clock at [t] with the callbacks [l], unlocked. *)
Definition free_clock (t : Time) (l : list timedCallbacks) (u : U) : W := mkCWorld (mkMockClock t l false) u.

Definition run_all (l : list timedCallbacks) : M W unit := range_do (fun cb => callback (f cb)) l.

Lemma triggerCallbacks_run t l u :
  triggerCallbacks callback (free_clock t l u) = run_all (sort_when (due t l)) (free_clock t (still t l) u).
Proof.
  unfold triggerCallbacks, free_clock. unfold bind at 1, lock. cbn [clock mu]. unfold bind at 1, gets.
  simpl. rewrite split_callbacks_spec. reflexivity.
Qed.

Lemma Add_run d t l u :
  Add callback d (free_clock t l u)
  = (do! run_all (sort_when (due (t + d) l)); ret (t + d)) (free_clock (t + d) (still (t + d) l) u).
Proof.
  change (Add callback d (free_clock t l u)) with ((do! triggerCallbacks callback; ret (t + d)) (free_clock (t + d) l u)).
  unfold bind. by rewrite triggerCallbacks_run.
Qed.

Lemma Set_run t' t l u :
  Set_ callback t' (free_clock t l u)
  = (do! run_all (sort_when (due t' l)); ret t') (free_clock t' (still t' l) u).
Proof.
  change (Set_ callback t' (free_clock t l u)) with ((do! triggerCallbacks callback; ret t') (free_clock t' l u)).
  unfold bind. by rewrite triggerCallbacks_run.
Qed.

Lemma AfterFunc_run d id t l u :
  AfterFunc callback d id (free_clock t l u)
  = if d <=? 0 then callback id (free_clock t l u)
    else (Ret tt, free_clock t (l ++ [mkTimedCallbacks (t + d) id]) u).
Proof. unfold AfterFunc. unfold bind at 1, lock. cbn [free_clock clock mu]. by destruct (d <=? 0). Qed.

(** Callbacks that only act outside the clock. *)
Definition apart (effect : nat -> U -> U) : Prop :=
  forall id w, callback id w = (Ret tt, mkCWorld (clock w) (effect id (outside w))).

Lemma run_all_apart effect l w :
  apart effect ->
  run_all l w = (Ret tt, mkCWorld (clock w) (fold_left (fun u id => effect id u) (f <$> l) (outside w))).
Proof.
  intros Ha. unfold run_all. revert w. induction l as [|c l IH]; intros w; [by destruct w |].
  cbn [range_do]. rewrite (bind_run _ _ _ _ _ (Ha (f c) w)). apply IH.
Qed.
End Facts.

(** ** Histories *)

Inductive clock_call :=
| CallAdd (d : Duration)
| CallAfterFunc (d : Duration) (id : nat).

Definition do_call {U} (callback : nat -> M (CWorld U) unit) (c : clock_call) : M (CWorld U) unit :=
  match c with
  | CallAdd d => do! Add callback d; ret tt
  | CallAfterFunc d id => AfterFunc callback d id
  end.

(** What the calls register, with the deadlines; a callback with no delay is due at once. *)
Fixpoint registered (t : Time) (cs : list clock_call) : list timedCallbacks :=
  match cs with
  | [] => []
  | CallAdd d :: rest => registered (t + d) rest
  | CallAfterFunc d id :: rest => mkTimedCallbacks (t + Z.max 0 d) id :: registered t rest
  end.

Fixpoint clock_after (t : Time) (cs : list clock_call) : Time :=
  match cs with
  | [] => t
  | CallAdd d :: rest => clock_after (t + d) rest
  | CallAfterFunc _ _ :: rest => clock_after t rest
  end.

Definition forward (c : clock_call) : Prop := match c with CallAdd d => 0 <= d | _ => True end.

(** The calls so far fired [fired], in this order, and [l] is pending at [t]. *)
Definition fired_ok (t : Time) (fired l : list timedCallbacks) : Prop :=
  StronglySorted le_when fired /\ Forall (fun c => when c <= t) fired /\ Forall (fun c => t < when c) l.

Lemma sorted_app_le t l1 l2 :
  StronglySorted le_when l1 -> StronglySorted le_when l2 ->
  Forall (fun c => when c <= t) l1 -> Forall (fun c => t <= when c) l2 -> StronglySorted le_when (l1 ++ l2).
Proof.
  intros H1 H2 Hb Hc. induction H1 as [|c l1 H1 IH Hle]; simpl; [done |].
  apply Forall_cons in Hb as [Hbc Hb]. constructor; [by apply IH |].
  apply Forall_app_2; [done |]. eapply Forall_impl; [exact Hc |]. unfold le_when. simpl. lia.
Qed.

Section Histories.
Context (callback : nat -> M (CWorld (list nat)) unit).
(** The callbacks write down that they ran. *)
Hypothesis writes : apart callback (fun id u => u ++ [id]).

Lemma fold_writes (ids u : list nat) : fold_left (fun u id => u ++ [id]) ids u = u ++ ids.
Proof.
  revert u. induction ids as [|id ids IH]; intros u; simpl; [by rewrite app_nil_r |].
  by rewrite IH, <- app_assoc.
Qed.

Lemma calls_fire cs t l fired :
  Forall forward cs -> fired_ok t fired l ->
  exists fired' l', range_do (do_call callback) cs (free_clock t l (f <$> fired))
      = (Ret tt, free_clock (clock_after t cs) l' (f <$> fired')) /\
    fired' ++ l' ≡ₚ (fired ++ l) ++ registered t cs /\ fired_ok (clock_after t cs) fired' l'.
Proof.
  intros Hcs. revert t l fired. induction Hcs as [|[d|d id] cs Hd Hcs IH]; intros t l fired Hok.
  - exists fired, l. simpl. by rewrite app_nil_r.
  - destruct Hok as (Hs & Hle & Hlt).
    destruct (IH (t + d) (still (t + d) l) (fired ++ sort_when (due (t + d) l))) as (fired' & l' & E & Hp & Hok').
    { split; [| split].
      - apply (sorted_app_le t); [done | apply sort_when_sorted | done |].
        rewrite sort_when_permutation. unfold due. apply Forall_forall. intros c [_ Hc]%list_elem_of_filter.
        rewrite Forall_forall in Hlt. specialize (Hlt c Hc). lia.
      - apply Forall_app_2; [eapply Forall_impl; [exact Hle |]; simpl in *; lia |].
        rewrite sort_when_permutation. unfold due. apply Forall_forall. by intros c [Hc _]%list_elem_of_filter.
      - unfold still. apply Forall_forall. by intros c [Hc _]%list_elem_of_filter. }
    exists fired', l'. split; [| split; [| done]].
    + cbn [range_do do_call]. unfold bind at 1 2. rewrite Add_run. unfold bind at 1.
      rewrite (run_all_apart callback _ _ _ writes). simpl. rewrite fold_writes, <- fmap_app. exact E.
    + rewrite Hp. simpl. rewrite sort_when_permutation. apply Permutation_app_tail.
      by rewrite <- app_assoc, still_due_permutation.
  - destruct Hok as (Hs & Hle & Hlt). cbn [range_do do_call registered clock_after]. unfold bind at 1.
    setoid_rewrite AfterFunc_run. destruct (Z.leb_spec d 0).
    + destruct (IH t l (fired ++ [mkTimedCallbacks (t + Z.max 0 d) id])) as (fired' & l' & E & Hp & Hok').
      { split; [| split; [| done]].
        - apply (sorted_app_le t); [done | repeat constructor | done | repeat constructor; simpl; lia].
        - apply Forall_app_2; [done |]. repeat constructor. simpl. lia. }
      exists fired', l'. split; [| split; [| done]].
      * rewrite writes. rewrite fmap_app in E. exact E.
      * rewrite Hp, <- !app_assoc. simpl. apply Permutation_app_head. by rewrite Permutation_middle.
    + destruct (IH t (l ++ [mkTimedCallbacks (t + d) id]) fired) as (fired' & l' & E & Hp & Hok').
      { split; [done |]. split; [done |]. apply Forall_app_2; [done |]. repeat constructor. simpl. lia. }
      exists fired', l'. split; [exact E | split; [| done]].
      rewrite Hp, <- !app_assoc. replace (Z.max 0 d) with d by lia. done.
Qed.
End Histories.

(** ** Timers: what [After] promises *)

(** A timer has a deadline and, once it came, the time that was sent. *)
Record timer := mkTimer { deadline : Time; sent : option Time }.

Inductive timer_call := TimerAdd (d : Duration) | TimerAfter (d : Duration).

(** The clock reaches [t]. *)
Definition reach (t : Time) (x : timer) : timer :=
  match sent x with
  | None => if deadline x <=? t then mkTimer (deadline x) (Some t) else x
  | Some _ => x
  end.

Definition call_timers (c : timer_call) (s : Time * list timer) : Time * list timer :=
  let '(t, xs) := s in
  match c with
  | TimerAdd d => (t + d, reach (t + d) <$> xs)
  | TimerAfter d => (t, xs ++ [reach t (mkTimer (t + Z.max 0 d) None)])
  end.

Definition timer_forward (c : timer_call) : Prop := match c with TimerAdd d => 0 <= d | _ => True end.

Definition channel_of (x : timer) : list Time := option_list (sent x).

Section Timers.
Context {V : Type} (callback : nat -> M (CWorld (list (list Time) * V)) unit) (sender : nat -> nat) (v : V).
Hypothesis sends : forall c, callback (sender c) = send_now c.
Abbreviation W := (CWorld (list (list Time) * V)).

Definition do_timer_call (c : timer_call) : M W unit :=
  match c with
  | TimerAdd d => do! Add callback d; ret tt
  | TimerAfter d => do! After callback sender d; ret tt
  end.

(** The callbacks are those of the timers still to come, each with the number of its channel. *)
Fixpoint unsent (c : nat) (xs : list timer) : list (nat * Time) :=
  match xs with
  | [] => []
  | x :: xs' => match sent x with None => (c, deadline x) :: unsent (S c) xs' | Some _ => unsent (S c) xs' end
  end.

Definition sending (p : nat * Time) : timedCallbacks := mkTimedCallbacks p.2 (sender p.1).

Definition timers_at (t : Time) (xs : list timer) : W :=
  free_clock t (sending <$> unsent 0 xs) (channel_of <$> xs, v).

Lemma unsent_app c xs x :
  unsent c (xs ++ [x]) = unsent c xs ++ unsent (c + length xs) [x].
Proof.
  revert c. induction xs as [|y xs IH]; intros c; simpl; [by rewrite Nat.add_0_r |].
  rewrite IH, <- Nat.add_succ_comm. by destruct (sent y).
Qed.

Lemma elem_of_unsent c xs n t :
  (n, t) ∈ unsent c xs <-> exists k, n = (c + k)%nat /\ xs !! k = Some (mkTimer t None).
Proof.
  revert c. induction xs as [|x xs IH]; intros c; simpl.
  - split; [by intros ?%elem_of_nil | by intros (k & _ & ?)].
  - assert (Hs : (n, t) ∈ unsent (S c) xs <-> exists k, n = (c + S k)%nat /\ xs !! k = Some (mkTimer t None))
      by (rewrite IH; by setoid_rewrite Nat.add_succ_comm).
    destruct x as [dl [s|]]; simpl; [| rewrite elem_of_cons]; rewrite Hs; split.
    + intros (k & ? & ?). by exists (S k).
    + intros ([|k] & ? & ?); [done | by exists k].
    + intros [[= -> ->]|(k & ? & ?)]; [exists 0%nat; by rewrite Nat.add_0_r | by exists (S k)].
    + intros ([|k] & -> & E); [left; injection E as ->; by rewrite Nat.add_0_r | right; by exists k].
Qed.

Lemma unsent_NoDup c xs : NoDup (unsent c xs).*1.
Proof.
  revert c. induction xs as [|x xs IH]; intros c; simpl; [constructor |].
  destruct (sent x); [apply IH |]. constructor; [| apply IH].
  intros ([n t] & E & Hin)%list_elem_of_fmap. apply elem_of_unsent in Hin as (k & Hn & _). simpl in E. lia.
Qed.

Lemma still_unsent t c xs : still t (sending <$> unsent c xs) = sending <$> unsent c (reach t <$> xs).
Proof.
  revert c. induction xs as [|[dl [s|]] xs IH]; intros c; simpl; [done | apply IH |].
  unfold still in *. rewrite filter_cons. cbn [sending when snd fst]. specialize (IH (S c)).
  unfold reach at 1. cbn [sent deadline].
  destruct (Z.leb_spec dl t); [rewrite decide_False by lia | rewrite decide_True by lia]; cbn [sent]; [exact IH |].
  unfold reach at 1. cbn [sent deadline]. destruct (Z.leb_spec dl t); [lia |]. cbn. f_equal. exact IH.
Qed.

(** Callbacks of different empty channels send on them what the clock says, in whatever order. *)
Lemma run_sends t l ps cs :
  NoDup ps.*1 -> Forall (fun p => cs !! p.1 = Some []) ps ->
  exists cs', run_all callback (sending <$> ps) (free_clock t l (cs, v)) = (Ret tt, free_clock t l (cs', v)) /\
    (forall c, c ∈ ps.*1 -> cs' !! c = Some [t]) /\ (forall c, c ∉ ps.*1 -> cs' !! c = cs !! c).
Proof.
  revert cs. induction ps as [|[c dl] ps IH]; intros cs Hnd Hcs.
  - exists cs. split; [done |]. split; [by intros c ?%elem_of_nil | done].
  - apply NoDup_cons in Hnd as [Hc Hnd]. apply Forall_cons in Hcs as [Hec Hcs]. cbn [fst] in *.
    destruct (IH (<[c := [t]]> cs) Hnd) as (cs' & E & Hin & Hout).
    { rewrite Forall_forall in *. intros p Hp. rewrite list_lookup_insert_ne; [by apply Hcs |].
      intros ->. apply Hc. by apply list_elem_of_fmap_2. }
    exists cs'. unfold run_all in *. cbn [fmap list_fmap range_do]. split; [| split].
    + rewrite (bind_run _ _ _ tt (free_clock t l (<[c := [t]]> cs, v))); [exact E |].
      cbn [sending f fst snd]. rewrite sends. unfold send_now. rewrite (bind_run _ _ _ t (free_clock t l (cs, v))) by done.
      unfold send. cbn [free_clock outside fst]. by rewrite Hec.
    + intros c' [->|Hc']%elem_of_cons; [| by apply Hin]. rewrite Hout by done.
      apply list_lookup_insert_eq. by eapply lookup_lt_Some.
    + intros c' [Hne Hc']%not_elem_of_cons. rewrite Hout by done. by rewrite list_lookup_insert_ne.
Qed.

Lemma timers_add t xs d :
  (do! Add callback d; ret tt) (timers_at t xs) = (Ret tt, timers_at (t + d) (reach (t + d) <$> xs)).
Proof.
  set (t' := t + d). unfold timers_at. unfold bind at 1. rewrite Add_run, still_unsent. fold t'.
  assert (Hp : sort_when (due t' (sending <$> unsent 0 xs)) ≡ₚ sending <$> filter (fun p => p.2 <= t') (unsent 0 xs)).
  { rewrite sort_when_permutation. unfold due. induction (unsent 0 xs) as [|p ps IH]; [done |]. cbn.
    destruct (decide (p.2 <= t')); [cbn; by constructor | exact IH]. }
  apply Permutation_map_inv in Hp as (ps & Eps & Hp).
  assert (Hin : forall c, c ∈ ps.*1 <-> exists dl, xs !! c = Some (mkTimer dl None) /\ dl <= t').
  { intros c. rewrite <- Hp. rewrite list_elem_of_fmap. split.
    - intros ([c' dl] & -> & [Hle Hin]%list_elem_of_filter). apply elem_of_unsent in Hin as (k & -> & Hk). by exists dl.
    - intros (dl & Hx & Hle). exists (c, dl). split; [done |]. apply list_elem_of_filter. split; [done |].
      apply elem_of_unsent. by exists c. }
  destruct (run_sends t' (sending <$> unsent 0 (reach t' <$> xs)) ps (channel_of <$> xs)) as (cs' & E & Hs & Ho).
  - rewrite <- Hp. apply (sublist_NoDup _ (unsent 0 xs).*1); [apply unsent_NoDup |].
    apply fmap_sublist, sublist_filter.
  - apply Forall_forall. intros p Hpin. apply (list_elem_of_fmap_2 fst), Hin in Hpin as (dl & Hx & _).
    by rewrite list_lookup_fmap, Hx.
  - change (map sending ps) with (sending <$> ps) in Eps. unfold bind. rewrite Eps.
    setoid_rewrite E. cbn. do 3 f_equal. apply list_eq. intros c.
    rewrite !list_lookup_fmap. destruct (decide (c ∈ ps.*1)) as [Hc|Hc].
    + rewrite Hs by done. apply Hin in Hc as (dl & -> & Hle). simpl. unfold reach. simpl.
      destruct (Z.leb_spec dl t'); [done | lia].
    + rewrite Ho by done. rewrite list_lookup_fmap. destruct (xs !! c) as [[dl [s|]]|] eqn:Ex; try done. simpl.
      unfold reach. simpl. destruct (Z.leb_spec dl t'); [| done]. exfalso. apply Hc, Hin. by exists dl.
Qed.

Lemma timers_after t xs d :
  After callback sender d (timers_at t xs)
  = (Ret (length xs), timers_at t (xs ++ [reach t (mkTimer (t + Z.max 0 d) None)])).
Proof.
  unfold After, timers_at. unfold bind at 1, gets. cbn [free_clock outside fst]. rewrite length_fmap.
  unfold bind at 1, modify. unfold bind at 1. cbn [set_channels clock outside snd].
  setoid_rewrite AfterFunc_run. rewrite fmap_app, unsent_app, fmap_app. cbn [Nat.add].
  unfold reach. cbn [sent deadline]. destruct (Z.leb_spec d 0) as [Hd|Hd].
  - replace (Z.max 0 d) with 0 by lia. destruct (Z.leb_spec (t + 0) t); [| lia]. simpl. rewrite app_nil_r.
    rewrite sends. unfold send_now. unfold bind at 1. cbn. unfold send. cbn.
    rewrite lookup_app_r by (by rewrite length_fmap). rewrite length_fmap, Nat.sub_diag. cbn.
    unfold set_channels, free_clock. cbn. do 3 f_equal. f_equal.
    rewrite insert_app_r_alt by (by rewrite length_fmap). by rewrite length_fmap, Nat.sub_diag.
  - replace (Z.max 0 d) with d by lia. destruct (Z.leb_spec (t + d) t); [lia |]. done.
Qed.

Lemma timer_calls_run cs t xs :
  let '(t', xs') := fold_left (fun s c => call_timers c s) cs (t, xs) in
  range_do do_timer_call cs (timers_at t xs) = (Ret tt, timers_at t' xs').
Proof.
  revert t xs. induction cs as [|c cs IH]; intros t xs; [done |]. cbn [fold_left range_do].
  destruct c as [d|d]; cbn [call_timers do_timer_call].
  - rewrite (bind_run _ _ _ _ _ (timers_add t xs d)). apply IH.
  - rewrite (bind_run _ _ _ tt (timers_at t (xs ++ [reach t (mkTimer (t + Z.max 0 d) None)]))); [apply IH |].
    by rewrite (bind_run _ _ _ _ _ (timers_after t xs d)).
Qed.
End Timers.

(** No timer is early, and none late. *)
Lemma timers_on_time cs t xs :
  Forall timer_forward cs ->
  let on_time (t : Time) := Forall (fun x => match sent x with None => t < deadline x | Some s => deadline x <= s <= t end) in
  on_time t xs -> let '(t', xs') := fold_left (fun s c => call_timers c s) cs (t, xs) in on_time t' xs'.
Proof.
  intros Hcs on_time. revert t xs. induction Hcs as [|[d|d] cs Hd Hcs IH]; intros t xs Hx; [done | |]; apply IH.
  - apply Forall_fmap. eapply Forall_impl; [exact Hx |]. intros [dl [s|]]; unfold reach; cbn in *; [lia |].
    destruct (Z.leb_spec dl (t + d)); cbn; lia.
  - apply Forall_app_2; [done |]. constructor; [| constructor]. unfold reach. cbn.
    destruct (Z.leb_spec (t + Z.max 0 d) t); cbn; lia.
Qed.

Lemma still_still t t' l : t <= t' -> still t' (still t l) = still t' l.
Proof. intros H. unfold still. rewrite list_filter_filter. apply list_filter_iff. lia. Qed.

Lemma still_all t l : Forall (fun c => t < when c) l -> still t l = l.
Proof. induction 1 as [|c l Hc Hl IH]; [done |]. unfold still in *. by rewrite filter_cons, decide_True, IH by done. Qed.

Lemma ticks {U} (callback : nat -> M (CWorld U) unit) effect stop incr sleep n t l (u : U) :
  apart callback effect -> 0 < incr ->
  (forall w, exists u', sleep w = (Ret tt, mkCWorld (clock w) u')) ->
  Forall (fun c => t < when c) l -> stop - t <= Z.of_nat n ->
  exists k u', 0 <= k /\
    TickUntil callback (S n) (let! now := Now in ret (stop <=? now)) sleep incr (free_clock t l u)
    = (Ret tt, free_clock (t + k * incr) (still (t + k * incr) l) u') /\
    stop <= t + k * incr /\ (0 < k -> t + (k - 1) * incr < stop).
Proof.
  intros Ha Hi Hs. revert t l u. induction n as [|n IH]; intros t l u Hl Hn; cbn [TickUntil].
  all: rewrite (bind_run _ _ _ (stop <=? t) (free_clock t l u)) by done; destruct (Z.leb_spec stop t); try lia.
  1, 2: exists 0, u; rewrite Z.mul_0_l, Z.add_0_r, still_all by done; split; [lia | split; [done | lia]].
  destruct (Hs (free_clock t l u)) as (u1 & E1). rewrite (bind_run _ _ _ _ _ E1).
  change (mkCWorld (clock (free_clock t l u)) u1) with (free_clock t l u1).
  assert (E2 : exists u2, Add callback incr (free_clock t l u1) = (Ret (t + incr), free_clock (t + incr) (still (t + incr) l) u2)).
  { rewrite Add_run. unfold bind. rewrite (run_all_apart callback effect) by done. by eexists. }
  destruct E2 as (u2 & E2). rewrite (bind_run _ _ _ _ _ E2).
  destruct (IH (t + incr) (still (t + incr) l) u2) as (k & u' & Hk & E & Hstop & Hfirst);
    [unfold still; apply Forall_forall; by intros c [Hc _]%list_elem_of_filter | lia |].
  exists (k + 1), u'. rewrite still_still in E by nia. replace (t + (k + 1) * incr) with (t + incr + k * incr) by lia.
  split; [lia |]. split; [exact E |]. split; [lia |]. intros _.
  destruct (Z.eq_dec k 0) as [->|]; [lia |]. specialize (Hfirst ltac:(lia)). lia.
Qed.

(** * Properties *)

(** Moving the clock fires exactly the callbacks that are due, by deadline and, for one
    deadline, in the order they were registered; it keeps the others, all of them in the
    future; and it runs them, whatever they do, with the lock released and the clock already
    moved, so they may read it, register callbacks and move it again. *)
Theorem due_callbacks_fire {U} (callback : nat -> M (CWorld U) unit) d t t' l (u : U) :
  exists fired rest,
    Add callback d (free_clock t l u)
      = (do! run_all callback fired; ret (t + d)) (free_clock (t + d) rest u) /\
    Set_ callback t' (free_clock t l u)
      = (do! run_all callback (sort_when (due t' l)); ret t') (free_clock t' (still t' l) u) /\
    Now (free_clock t l u) = (Ret t, free_clock t l u) /\
    fired ++ rest ≡ₚ l /\ StronglySorted le_when fired /\
    (forall at_, filter (fun c => when c = at_) fired
       = if decide (at_ <= t + d) then filter (fun c => when c = at_) l else []) /\
    rest = filter (fun c => t + d < when c) l.
Proof.
  exists (sort_when (due (t + d) l)), (still (t + d) l).
  split; [apply Add_run |]. split; [apply Set_run |]. split; [done |].
  split; [by rewrite sort_when_permutation, still_due_permutation |].
  split; [apply sort_when_sorted |]. split; [| done].
  intros at_. rewrite sort_when_stable. unfold due. rewrite list_filter_filter.
  destruct (decide (at_ <= t + d)).
  - apply list_filter_iff. intros c. lia.
  - induction l as [|c l IH]; [done |]. rewrite filter_cons, IH, decide_False by lia. done.
Qed.

(** Over any calls that move the clock forward and register callbacks with any delays,
    each callback runs exactly once if its deadline has come and not at all otherwise, and they
    run in the order of their deadlines, whatever the sizes of the moves. *)
Theorem callbacks_fire_once_in_order (callback : nat -> M (CWorld (list nat)) unit) cs t :
  apart callback (fun id u => u ++ [id]) -> Forall forward cs ->
  exists fired pending,
    range_do (do_call callback) cs (free_clock t [] []) = (Ret tt, free_clock (clock_after t cs) pending (f <$> fired)) /\
    fired ++ pending ≡ₚ registered t cs /\ StronglySorted le_when fired /\
    Forall (fun c => when c <= clock_after t cs) fired /\ Forall (fun c => clock_after t cs < when c) pending.
Proof.
  intros Hw Hcs. destruct (calls_fire callback Hw cs t [] [] Hcs) as (fired & pending & E & Hp & Hok);
    [by repeat constructor |]. exists fired, pending. destruct Hok as (Hs & Hle & Hlt). by repeat split.
Qed.

(** [After] keeps the promise of time.After, on a clock whose callbacks are its own: over any calls
    that move the clock forward and make channels, in any order, nobody ever waits - no lock is left
    taken and no channel gets a second value.  A channel is empty before its deadline and holds one
    time after it, not before the deadline: that of the move that reached it ([call_timers]). *)
Theorem after_sends_once {V} (callback : nat -> M (CWorld (list (list Time) * V)) unit) sender v cs t :
  (forall c, callback (sender c) = send_now c) -> Forall timer_forward cs ->
  exists t' xs l, range_do (do_timer_call callback sender) cs (free_clock t [] ([], v))
      = (Ret tt, free_clock t' l (channel_of <$> xs, v)) /\
    fold_left (fun s c => call_timers c s) cs (t, []) = (t', xs) /\
    Forall (fun x => match sent x with None => t' < deadline x | Some s => deadline x <= s <= t' end) xs.
Proof.
  intros Hs Hcs. pose proof (timer_calls_run callback sender v Hs cs t []) as H.
  pose proof (timers_on_time cs t [] Hcs ltac:(constructor)) as Hx.
  destruct (fold_left _ cs (t, [])) as [t' xs]. by exists t', xs, (sending sender <$> unsent 0 xs).
Qed.

(** [TickUntil] ends: if it is to stop at the instant [stop] and the other goroutines leave the clock
    alone while it sleeps, then it moves the clock in its steps to the first one not before [stop]. *)
Theorem TickUntil_ends {U} (callback : nat -> M (CWorld U) unit) effect stop incr sleep t l (u : U) :
  apart callback effect -> 0 < incr ->
  (forall w, exists u', sleep w = (Ret tt, mkCWorld (clock w) u')) ->
  Forall (fun c => t < when c) l ->
  exists fuel k u', 0 <= k /\
    TickUntil callback fuel (let! now := Now in ret (stop <=? now)) sleep incr (free_clock t l u)
    = (Ret tt, free_clock (t + k * incr) (still (t + k * incr) l) u') /\
    stop <= t + k * incr /\ (0 < k -> t + (k - 1) * incr < stop).
Proof.
  intros Ha Hi Hs Hl. exists (S (Z.to_nat (stop - t))).
  destruct (ticks callback effect stop incr sleep (Z.to_nat (stop - t)) t l u) as (k & u' & ?); [done .. | lia | by exists k, u'].
Qed.

(** * Witness *)

Module ClockSample.
Definition write (id : nat) : M (CWorld (list nat)) unit := fun w =>
  (Ret tt, mkCWorld (clock w) (outside w ++ [id])).

Lemma callbacks_fire_once_in_order_witness :
  exists fired pending,
    range_do (do_call write)
      [CallAfterFunc 9 1; CallAfterFunc 4 2; CallAfterFunc 9 3; CallAfterFunc 0 4; CallAdd 10; CallAfterFunc 1 5]
      (free_clock 100 [] [])
    = (Ret tt, free_clock 110 pending (f <$> fired)) /\ f <$> fired = [4; 2; 1; 3]%nat /\
    StronglySorted le_when fired /\ Forall (fun c => 110 < when c) pending.
Proof.
  destruct (callbacks_fire_once_in_order write
    [CallAfterFunc 9 1; CallAfterFunc 4 2; CallAfterFunc 9 3; CallAfterFunc 0 4; CallAdd 10; CallAfterFunc 1 5]
    100) as (fired & pending & E & _ & Hs & _ & Hp); [by intros id w | repeat constructor; simpl; lia |].
  exists fired, pending. split; [exact E |]. split; [| split; [exact Hs | exact Hp]].
  apply (f_equal (fun r => outside (snd r))) in E. etransitivity; [symmetry; exact E | by vm_compute].
Defined.

(** Every callback is that of a channel. *)
Definition senders (c : nat) : M (CWorld (list (list Time) * unit)) unit := send_now c.
Lemma after_sends_once_witness :
  exists t' xs l, range_do (do_timer_call senders id)
      [TimerAfter 5; TimerAfter 0; TimerAdd 3; TimerAfter 4; TimerAdd 3; TimerAfter 9] (free_clock 100 [] ([], tt))
    = (Ret tt, free_clock t' l (channel_of <$> xs, tt)) /\
    channel_of <$> xs = [[106]; [100]; []; []] /\
    Forall (fun x => match sent x with None => t' < deadline x | Some s => deadline x <= s <= t' end) xs.
Proof.
  destruct (after_sends_once senders id tt
    [TimerAfter 5; TimerAfter 0; TimerAdd 3; TimerAfter 4; TimerAdd 3; TimerAfter 9] 100)
    as (t' & xs & l & E & Ef & Hx); [done | repeat (apply Forall_cons_2; [cbn; first [exact I | lia] |]); apply Forall_nil_2 |].
  exists t', xs, l. split; [exact E |]. split; [| exact Hx]. vm_compute in Ef. injection Ef as <- <-. done.
Defined.

Lemma TickUntil_ends_witness :
  exists fuel k u', 0 <= k /\
    TickUntil write fuel (let! now := Now in ret (131 <=? now)) (ret tt) 10 (free_clock 100 [mkTimedCallbacks 125 7] [])
    = (Ret tt, free_clock (100 + k * 10) (still (100 + k * 10) [mkTimedCallbacks 125 7]) u') /\
    131 <= 100 + k * 10 /\ (0 < k -> 100 + (k - 1) * 10 < 131).
Proof.
  apply (TickUntil_ends write (fun id u => u ++ [id]) 131 10 (ret tt));
    [by intros id w | lia | intros w; exists (outside w); by destruct w | repeat constructor; simpl; lia].
Defined.
End ClockSample.
End MockClock.
