(* ===== verification/TestHelp.v ===== *)
(** internal/testhelp/testhelp.go: the run functions and fallbacks that the package's tests give to
    circuits, and the check that counts what a circuit does with them.

    [BehaviorCheck.Run] touches its fields in two critical sections, before and - deferred, so also
    when [RunFunc] panics - after [RunFunc]; a [step] is one of them, or a reading of the clock, of
    any number of goroutines.  [BehaviorCheck_Run] is a run of these steps ([Run_is_a_run]), and
    [behavior_checks_are_exact] says what the fields are in every interleaving.  [t.Errorf] of
    package testing appends to the log of the test. *)

From stdpp Require Import relations.
From S2P Require Import Prelude GoMonad Errors Metrics.

Open Scope Z_scope.

Module TestHelp.

(** * Data *)

(** The fields that [mu] guards; [RunFunc] is the user's. *)
Record BehaviorCheck := mkBehaviorCheck {
  TotalRuns : Z;
  totalErrors : Z;
  LongestRunDuration : Duration;
  MostConcurrent : Z;
  currentConcurrent : Z
}.

Definition BehaviorCheck_zero : BehaviorCheck := mkBehaviorCheck 0 0 0 0 0.

(** * BehaviorCheck.Run *)

(** The section before [RunFunc]. *)
Definition entering (b : BehaviorCheck) : BehaviorCheck :=
  let current := wrap64 (currentConcurrent b + 1) in
  mkBehaviorCheck (wrap64 (TotalRuns b + 1)) (totalErrors b) (LongestRunDuration b)
    (if MostConcurrent b <? current then current else MostConcurrent b) current.

(** The deferred one, with the value of the named result. *)
Definition leaving (err : option error) (thisRun : Duration) (b : BehaviorCheck) : BehaviorCheck :=
  mkBehaviorCheck (TotalRuns b)
    (match err with Some _ => wrap64 (totalErrors b + 1) | None => totalErrors b end)
    (if LongestRunDuration b <? thisRun then thisRun else LongestRunDuration b)
    (MostConcurrent b) (wrap64 (currentConcurrent b - 1)).

Section Run.
Context {W : Type} (checkL : lens W BehaviorCheck) (time_Now : M W Time).
Context (RunFunc : Context -> M W (option error)).

Definition locked (f : BehaviorCheck -> BehaviorCheck) : M W unit :=
  modify (fun w => upd checkL (f (view checkL w)) w).

(** The deferred function; while a panic unwinds, the named result [err] is still nil. *)
Definition Run_deferred (start : Time) (err : option error) : M W unit :=
  let! end_ := time_Now in
  locked (leaving err (time_Sub end_ start)).

Definition BehaviorCheck_Run (ctx : Context) : M W (option error) :=
  let! start := time_Now in
  fun w =>
    match (do! locked entering; RunFunc ctx) w with
    | (Ret err, w') => (do! Run_deferred start err; ret err) w'
    | (Panic p, w') => (do! Run_deferred start None; throw p) w'
    | (Deadlock, w') => (Deadlock, w')
    | (OutOfFuel, w') => (OutOfFuel, w')
    end.
End Run.

(** * Run functions, fallbacks and assertions *)

Definition AlwaysPasses (_ : Context) : option error := None.

Definition errFailure : error := userError "alwaysFails failure" None None NoUnwrap.

Definition AlwaysFails (_ : Context) : option error := Some errFailure.

Definition AlwaysPassesFallback (_ : Context) (_ : option error) : option error := None.

(** [fmt.Errorf] without the verb [%w] wraps nothing; [%s] of a nil error is [%!s(<nil>)]. *)
Definition AlwaysFailsFallback (_ : Context) (err : option error) : option error :=
  Some (userError ("failed: " +:+ match err with Some e => Error e | None => "%!s(<nil>)" end) None None NoUnwrap).

(** What [SleepsForX(d)] can return when its select begins at [start] and the context ends as [ended]
    says: the channel that is ready first decides, either of them if they are ready at once. *)
Inductive SleepsForX (d : Duration) (start : Time) (ended : option (Time * error)) : option error -> Prop :=
| SleepsCut t e :
    ended = Some (t, e) -> Z.max start t <= time_Add start (Z.max 0 d) -> SleepsForX d start ended (Some e)
| SleepsOut :
    (forall t e, ended = Some (t, e) -> time_Add start (Z.max 0 d) <= Z.max start t) -> SleepsForX d start ended None.

(** The log of [t.Errorf]. *)
Definition MustTesting (err : option error) (log : list string) : list string :=
  match err with Some e => log ++ ["unexpected error: " +:+ Error e] | None => log end.

Definition MustNotTesting (err : option error) (log : list string) : list string :=
  match err with Some _ => log | None => log ++ ["Saw nil, expected an error"] end.

(** [DoTillTime]: what the goroutine does, after [wg.Add(1)] of the caller.  Whether it yields the
    processor after a call is nobody's business. *)
Section DoTillTime.
Context {W : Type} (wgL : lens W Z) (time_Now : M W Time).

Definition wg_Add (n : Z) : M W unit := modify (fun w => upd wgL (view wgL w + n) w).

Fixpoint till (fuel : nat) (endTime : Time) (f : M W unit) : M W unit :=
  match fuel with
  | O => fun w => (OutOfFuel, w)
  | S fuel =>
      let! t := time_Now in
      if time_Before t endTime then do! f; till fuel endTime f else ret tt
  end.

Definition DoTillTime (fuel : nat) (endTime : Time) (f : M W unit) : M W unit :=
  do! wg_Add 1;
  defer (wg_Add (-1)) (till fuel endTime f).
End DoTillTime.

(** * Any number of runs at a time *)

Inductive task :=
| Arriving (start : Time)
| Inside (start : Time)
| Leaving (err : option error) (thisRun : Duration)   (* a panic leaves with nil *)
| Gone (err : option error) (thisRun : Duration).

Record sys := mkSys { check : BehaviorCheck; tasks : list task }.

Inductive step : sys -> sys -> Prop :=
| StepCall b ts start : step (mkSys b ts) (mkSys b (ts ++ [Arriving start]))
| StepEnter b ts i start :
    ts !! i = Some (Arriving start) -> step (mkSys b ts) (mkSys (entering b) (<[i := Inside start]> ts))
| StepReturn b ts i start err end_ :
    ts !! i = Some (Inside start) -> step (mkSys b ts) (mkSys b (<[i := Leaving err (time_Sub end_ start)]> ts))
| StepLeave b ts i err d :
    ts !! i = Some (Leaving err d) -> step (mkSys b ts) (mkSys (leaving err d b) (<[i := Gone err d]> ts)).

Definition initial : sys := mkSys BehaviorCheck_zero [].

(** Runs that have entered, that are inside, that have left with an error. *)
Definition entered (t : task) : bool := match t with Arriving _ => false | _ => true end.
Definition inside (t : task) : bool := match t with Inside _ | Leaving _ _ => true | _ => false end.
Definition failed (t : task) : bool := match t with Gone (Some _) _ => true | _ => false end.
Definition left_after (t : task) : option Duration := match t with Gone _ d => Some d | _ => None end.

Definition longest (ts : list task) : Duration := foldr Z.max 0 (omap left_after ts).

(** * Lemmas *)

Record exact (s : sys) : Prop := mkExact {
  ex_total : TotalRuns (check s) = count_if entered (tasks s);
  ex_errors : totalErrors (check s) = count_if failed (tasks s);
  ex_longest : LongestRunDuration (check s) = longest (tasks s);
  ex_current : currentConcurrent (check s) = count_if inside (tasks s);
  ex_most : count_if inside (tasks s) <= MostConcurrent (check s)
}.

Lemma longest_app ts ts' : longest (ts ++ ts') = Z.max (longest ts) (longest ts').
Proof.
  unfold longest. induction ts as [|t ts IH]; cbn; [|destruct (left_after t); cbn; lia].
  induction (omap left_after ts') as [|d l IHl]; cbn; lia.
Qed.

Lemma longest_nonneg ts : 0 <= longest ts.
Proof. unfold longest. induction (omap left_after ts) as [|d l IH]; cbn; lia. Qed.

Lemma longest_insert ts i t t' :
  ts !! i = Some t -> left_after t = None ->
  longest (<[i := t']> ts) = Z.max (longest ts) (default 0 (left_after t')).
Proof.
  intros Hi Ht. rewrite <- (take_drop_middle _ _ _ Hi) at 2. rewrite insert_take_drop by by eapply lookup_lt_Some.
  change (t :: drop (S i) ts) with ([t] ++ drop (S i) ts). change (t' :: drop (S i) ts) with ([t'] ++ drop (S i) ts).
  rewrite !longest_app. unfold longest at 2 5. cbn. rewrite Ht.
  pose proof (longest_nonneg (drop (S i) ts)). destruct (left_after t'); cbn; lia.
Qed.

Lemma count_if_bounds {A} (p : A -> bool) l : 0 <= count_if p l <= zlen l.
Proof. split; [apply count_if_nonneg | apply count_if_le_length]. Qed.

Lemma check_exact_step s s' : exact s -> zlen (tasks s') <= max_int64 -> step s s' -> exact s'.
Proof.
  intros [H1 H2 H3 H4 H5] Hlen Hst. pose proof (longest_nonneg (tasks s)) as Hlong.
  destruct Hst as [b ts start|b ts i start Hi|b ts i start err end_ Hi|b ts i err d Hi]; cbn [check tasks] in *.
  - split; cbn [check tasks]; rewrite ?count_if_app; cbn; try lia.
    rewrite longest_app. change (longest [Arriving start]) with 0. lia.
  - rewrite zlen_insert in Hlen.
    pose proof (count_if_insert entered _ _ _ (Inside start) Hi) as E1. pose proof (count_if_insert inside _ _ _ (Inside start) Hi) as E2.
    cbn in E1, E2.
    pose proof (count_if_bounds entered (<[i := Inside start]> ts)) as B1. rewrite zlen_insert in B1.
    pose proof (count_if_bounds inside (<[i := Inside start]> ts)) as B2. rewrite zlen_insert in B2.
    pose proof (count_if_nonneg entered ts). pose proof (count_if_nonneg inside ts).
    assert (Hc : wrap64 (currentConcurrent b + 1) = count_if inside (<[i := Inside start]> ts))
      by (rewrite wrap64_id; unfold min_int64; lia).
    split; cbn [check tasks entering TotalRuns totalErrors LongestRunDuration MostConcurrent currentConcurrent].
    + rewrite wrap64_id; unfold min_int64; lia.
    + rewrite (count_if_insert failed _ _ _ _ Hi). cbn. lia.
    + rewrite (longest_insert _ _ _ _ Hi) by done. cbn. lia.
    + exact Hc.
    + rewrite Hc. destruct (Z.ltb_spec (MostConcurrent b) (count_if inside (<[i := Inside start]> ts))); lia.
  - split; cbn [check tasks]; rewrite ?(count_if_insert _ _ _ _ _ Hi); cbn; try lia.
    rewrite (longest_insert _ _ _ _ Hi) by done. cbn. lia.
  - rewrite zlen_insert in Hlen.
    pose proof (count_if_insert inside _ _ _ (Gone err d) Hi) as E2. cbn in E2.
    pose proof (count_if_insert failed _ _ _ (Gone err d) Hi) as E3. cbn in E3.
    pose proof (count_if_bounds inside (<[i := Gone err d]> ts)). pose proof (count_if_bounds inside ts).
    pose proof (count_if_bounds failed (<[i := Gone err d]> ts)) as B3. rewrite zlen_insert in B3.
    pose proof (count_if_bounds failed ts).
    split; cbn [check tasks leaving TotalRuns totalErrors LongestRunDuration MostConcurrent currentConcurrent].
    + rewrite (count_if_insert entered _ _ _ _ Hi). cbn. lia.
    + destruct err; [rewrite wrap64_id; unfold min_int64 |]; lia.
    + rewrite (longest_insert _ _ _ _ Hi) by done. cbn. rewrite H3.
      destruct (Z.ltb_spec (longest ts) d); lia.
    + rewrite wrap64_id; unfold min_int64; lia.
    + lia.
Qed.

Lemma tasks_grow s s' : step s s' -> zlen (tasks s) <= zlen (tasks s').
Proof. destruct 1; cbn; rewrite ?zlen_insert; [unfold zlen; rewrite length_app |..]; lia. Qed.

Lemma most_grows s s' : step s s' -> MostConcurrent (check s) <= MostConcurrent (check s').
Proof. destruct 1; cbn; try done. destruct (Z.ltb_spec (MostConcurrent b) (wrap64 (currentConcurrent b + 1))); lia. Qed.

Lemma steps_grow s s' :
  rtc step s s' -> zlen (tasks s) <= zlen (tasks s') /\ MostConcurrent (check s) <= MostConcurrent (check s').
Proof.
  induction 1 as [s|s s1 s' Hs _ IH]; [lia |]. pose proof (tasks_grow _ _ Hs). pose proof (most_grows _ _ Hs). lia.
Qed.

Lemma check_exact_steps s s' : exact s -> rtc step s s' -> zlen (tasks s') <= max_int64 -> exact s'.
Proof.
  intros He Hst Hlen. induction Hst as [s|s s1 s' Hs Hst IH]; [done |]. apply IH; [| done].
  eapply check_exact_step; [done | | done]. destruct (steps_grow _ _ Hst). lia.
Qed.

Lemma exact_initial : exact initial.
Proof. by split. Qed.

(** The peak was reached. *)
Lemma peak_reached s s' :
  exact s -> rtc step s s' -> zlen (tasks s') <= max_int64 -> MostConcurrent (check s) = count_if inside (tasks s) ->
  exists s1, rtc step s s1 /\ rtc step s1 s' /\ count_if inside (tasks s1) = MostConcurrent (check s').
Proof.
  intros He Hst Hlen Hm. revert Hlen. revert s' Hst. refine (rtc_ind_r _ s _ _); [by exists s |].
  intros s1 s2 Hst Hs IH Hlen.
  pose proof (tasks_grow _ _ Hs). pose proof (check_exact_steps _ _ He Hst ltac:(lia)) as He1.
  pose proof (check_exact_step _ _ He1 Hlen Hs) as He2.
  destruct (IH ltac:(lia)) as (s0 & H0 & H1 & Hp).
  destruct (decide (MostConcurrent (check s2) = MostConcurrent (check s1))) as [E|Hne].
  - exists s0. split; [done |]. split; [by apply rtc_r with s1 | congruence].
  - exists s2. split; [by apply rtc_r with s1 |]. split; [done |]. pose proof (ex_current _ He2) as Hc.
    destruct Hs as [| |b ts|]; cbn in *; try done.
    destruct (Z.ltb_spec (MostConcurrent b) (wrap64 (currentConcurrent b + 1))); [by rewrite <- Hc | done].
Qed.

(** ** Run *)

Section Runs.
Context {W : Type} (checkL : lens W BehaviorCheck) `{!LensLaws checkL} (time_Now : M W Time).
Context (RunFunc : Context -> M W (option error)).

(** The clock and [RunFunc] leave the check alone. *)
Hypothesis Hclock : forall w o w', time_Now w = (o, w') -> view checkL w' = view checkL w /\ exists t, o = Ret t.
Hypothesis Hrun : forall ctx w o w', RunFunc ctx w = (o, w') -> view checkL w' = view checkL w.

Lemma deferred_runs start err w :
  exists d w', Run_deferred checkL time_Now start err w = (Ret tt, w') /\
    view checkL w' = leaving err d (view checkL w) /\ exists end_, d = time_Sub end_ start.
Proof using Hclock LensLaws0.
  unfold Run_deferred. destruct (time_Now w) as [o w1] eqn:E. destruct (Hclock _ _ _ E) as [Ev [t ->]].
  exists (time_Sub t start). eexists. rewrite (bind_run _ _ _ _ _ E). split; [reflexivity |].
  split; [by rewrite view_upd, Ev | by exists t].
Qed.

Lemma last_moves b b' ts t t' s :
  step (mkSys b (ts ++ [t])) (mkSys b' (<[length ts := t']> (ts ++ [t]))) ->
  rtc step (mkSys b' (ts ++ [t'])) s -> rtc step (mkSys b (ts ++ [t])) s.
Proof using. rewrite insert_app_r_alt, Nat.sub_diag by done. apply rtc_l. Qed.

(** The steps of a goroutine that nobody interrupts. *)
Lemma one_run b ts start err end_ :
  rtc step (mkSys b ts)
    (mkSys (leaving err (time_Sub end_ start) (entering b)) (ts ++ [Gone err (time_Sub end_ start)])).
Proof using.
  eapply rtc_l; [apply (StepCall b ts start) |].
  assert (Hlast : forall t : task, (ts ++ [t]) !! length ts = Some t) by (intros t; by rewrite lookup_app_r, Nat.sub_diag).
  eapply last_moves; [eapply StepEnter, Hlast |]. eapply last_moves; [eapply (StepReturn _ _ _ _ err end_), Hlast |].
  eapply last_moves; [eapply StepLeave, Hlast |]. done.
Qed.
End Runs.

(** ** DoTillTime *)

Section TillEnds.
Context {W : Type} (wgL : lens W Z) `{!LensLaws wgL} (time_Now : M W Time) (f : M W unit) (endTime : Time).
Context (clock : W -> Time).

(** Every reading is later than the one before, and the function neither moves the clock back nor
    touches the wait group. *)
Hypothesis Hclock : forall w, exists w', time_Now w = (Ret (clock w'), w') /\ clock w < clock w' /\ view wgL w' = view wgL w.
Hypothesis Hf : forall w, exists w', f w = (Ret tt, w') /\ clock w <= clock w' /\ view wgL w' = view wgL w.

Lemma till_ends fuel w :
  endTime - clock w <= Z.of_nat fuel ->
  exists w', till time_Now (S fuel) endTime f w = (Ret tt, w') /\ endTime <= clock w' /\ view wgL w' = view wgL w.
Proof using Hclock Hf.
  assert (Hunfold : forall n, till time_Now (S n) endTime f
    = let! t := time_Now in if time_Before t endTime then do! f; till time_Now n endTime f else ret tt) by done.
  revert w. induction fuel as [|fuel IH]; intros w Hw; destruct (Hclock w) as (w1 & E1 & Ht & Hv1);
    rewrite Hunfold, (bind_run _ _ _ _ _ E1); unfold time_Before;
    destruct (Z.ltb_spec (clock w1) endTime) as [Hlt|Hge]; try (exists w1; by split); try lia.
  destruct (Hf w1) as (w2 & E2 & Ht2 & Hv2). rewrite (bind_run _ _ _ _ _ E2).
  destruct (IH w2 ltac:(lia)) as (w' & E' & He & Hv'). exists w'. split; [exact E' |]. split; [done | congruence].
Qed.
End TillEnds.

(** * Properties *)

(** What a check says, in every interleaving of fewer than 2^63 runs of it: [TotalRuns] are the runs
    that entered, [totalErrors] those that returned an error and are over, [LongestRunDuration] the
    longest of those over, [currentConcurrent] the ones inside; and [MostConcurrent] is the greatest
    number that was ever inside at a time. *)
Theorem behavior_checks_are_exact s :
  rtc step initial s -> zlen (tasks s) <= max_int64 ->
  TotalRuns (check s) = count_if entered (tasks s) /\
  totalErrors (check s) = count_if failed (tasks s) /\
  LongestRunDuration (check s) = longest (tasks s) /\
  currentConcurrent (check s) = count_if inside (tasks s) /\
  (exists s1, rtc step initial s1 /\ rtc step s1 s /\ count_if inside (tasks s1) = MostConcurrent (check s)) /\
  (forall s1, rtc step initial s1 -> rtc step s1 s -> count_if inside (tasks s1) <= MostConcurrent (check s)).
Proof.
  intros Hst Hlen. pose proof (check_exact_steps _ _ exact_initial Hst Hlen) as He. destruct (He) as [H1 H2 H3 H4 H5].
  do 4 (split; [done |]). split; [by apply peak_reached |]. intros s1 Hs1 Hst1.
  destruct (steps_grow _ _ Hst1) as [Hl Hm]. pose proof (ex_most _ (check_exact_steps _ _ exact_initial Hs1 ltac:(lia))). lia.
Qed.

(** [BehaviorCheck_Run] is a run of the steps: it hands on what [RunFunc] returns or panics with, and the deferred
    section is run in both cases - a panic is no error to the check. *)
Theorem Run_is_a_run {W} (checkL : lens W BehaviorCheck) `{!LensLaws checkL} (time_Now : M W Time)
    (RunFunc : Context -> M W (option error)) ctx w o w' ts :
  (forall w o w', time_Now w = (o, w') -> view checkL w' = view checkL w /\ exists t, o = Ret t) ->
  (forall ctx w o w', RunFunc ctx w = (o, w') -> view checkL w' = view checkL w) ->
  BehaviorCheck_Run checkL time_Now RunFunc ctx w = (o, w') -> o <> Deadlock -> o <> OutOfFuel ->
  exists err d, rtc step (mkSys (view checkL w) ts) (mkSys (view checkL w') (ts ++ [Gone err d])) /\
    match o with Ret r => err = r | _ => err = None end.
Proof.
  intros Hclock Hrun H Hd Ho. unfold BehaviorCheck_Run in H. destruct (time_Now w) as [o1 w1] eqn:E1.
  destruct (Hclock _ _ _ E1) as [Ev1 [start ->]]. rewrite (bind_run _ _ _ _ _ E1) in H.
  set (w2 := upd checkL (entering (view checkL w1)) w1) in *.
  change ((do! locked checkL entering; RunFunc ctx) w1) with (RunFunc ctx w2) in H.
  destruct (RunFunc ctx w2) as [o3 w3] eqn:E3. pose proof (Hrun _ _ _ _ E3) as Ev3.
  assert (Hend : forall err, exists d w4, Run_deferred checkL time_Now start err w3 = (Ret tt, w4) /\
    rtc step (mkSys (view checkL w) ts) (mkSys (view checkL w4) (ts ++ [Gone err d]))).
  { intros err. destruct (deferred_runs checkL time_Now Hclock start err w3) as (d & w4 & E4 & Ev4 & end_ & ->).
    exists (time_Sub end_ start), w4. split; [done |]. rewrite Ev4, Ev3. unfold w2. rewrite view_upd, Ev1. apply one_run. }
  destruct o3 as [r|p| |]; [| | by injection H as <- .. ].
  - destruct (Hend r) as (d & w4 & E4 & Hst). rewrite (bind_run _ _ _ _ _ E4) in H. injection H as <- <-. by exists r, d.
  - destruct (Hend None) as (d & w4 & E4 & Hst). rewrite (bind_run _ _ _ _ _ E4) in H. injection H as <- <-. by exists None, d.
Qed.

(** [DoTillTime] ends: on a clock that moves with every reading, and with a function that returns and
    does not move it back, the goroutine calls the function until the clock reads [endTime] or later,
    and then releases the wait group. *)
Theorem DoTillTime_ends {W} (wgL : lens W Z) `{!LensLaws wgL} (time_Now : M W Time) (f : M W unit) endTime
    (clock : W -> Time) w :
  (forall w, exists w', time_Now w = (Ret (clock w'), w') /\ clock w < clock w' /\ view wgL w' = view wgL w) ->
  (forall w, exists w', f w = (Ret tt, w') /\ clock w <= clock w' /\ view wgL w' = view wgL w) ->
  (forall n w, clock (upd wgL n w) = clock w) ->
  exists fuel w', DoTillTime wgL time_Now fuel endTime f w = (Ret tt, w') /\ endTime <= clock w' /\
    view wgL w' = view wgL w.
Proof.
  intros Hclock Hf Hupd. exists (S (Z.to_nat (endTime - clock w))).
  set (w1 := upd wgL (view wgL w + 1) w).
  destruct (till_ends wgL time_Now f endTime clock Hclock Hf (Z.to_nat (endTime - clock w)) w1) as (w' & E & He & Hv);
    [unfold w1; rewrite Hupd; lia |].
  exists (upd wgL (view wgL w' + -1) w'). split; [| rewrite Hupd, view_upd, Hv; unfold w1; rewrite view_upd; split; [done | lia]].
  unfold DoTillTime. rewrite (bind_run _ _ _ tt w1) by done. unfold defer. by rewrite E.
Qed.

(** The other helpers: which results are errors, and that none of them is a bad request; [SleepsForX]
    returns nil unless the context ended, and it always can return. *)
Theorem helpers_return ctx err d start ended :
  AlwaysPasses ctx = None /\ AlwaysPassesFallback ctx err = None /\
  (exists e, AlwaysFails ctx = Some e /\ IsBadRequest (AlwaysFails ctx) = false /\ Error e = "alwaysFails failure"%string) /\
  (exists e, AlwaysFailsFallback ctx err = Some e /\ IsBadRequest (AlwaysFailsFallback ctx err) = false /\
     (forall e0, err = Some e0 -> Error e = ("failed: " +:+ Error e0)%string)) /\
  (exists r, SleepsForX d start ended r) /\
  (forall e, SleepsForX d start ended (Some e) -> exists t, ended = Some (t, e)).
Proof.
  split; [done |]. split; [done |]. split; [by eexists |]. split; [by eexists; split; [| split; [| intros e0 ->]] |]. split.
  - destruct ended as [[t e]|].
    + destruct (decide (Z.max start t <= time_Add start (Z.max 0 d))) as [Hle|Hgt].
      * exists (Some e). by eapply SleepsCut.
      * exists None. apply SleepsOut. intros t' e' [= <- <-]. lia.
    + exists None. by apply SleepsOut.
  - intros e He. inversion He as [t e' Hended Hle|]; subst. by exists t.
Qed.

(** * Witnesses *)

Module TestHelpSample.

(** Two runs overlap: one fails after 7, the other returns nil after 3; a third comes later. *)
Definition three_runs : sys :=
  mkSys (mkBehaviorCheck 3 1 7 2 1) [Gone (Some errFailure) 7; Gone None 3; Inside 20].

Lemma three_runs_reachable : rtc step initial three_runs.
Proof.
  eapply rtc_l; [apply (StepCall _ _ 10) |]. eapply rtc_l; [by apply (StepEnter _ _ 0 10) |].
  eapply rtc_l; [apply (StepCall _ _ 11) |]. eapply rtc_l; [by apply (StepEnter _ _ 1 11) |].
  eapply rtc_l; [by apply (StepReturn _ _ 1 11 None 14) |]. eapply rtc_l; [by apply (StepLeave _ _ 1 None 3) |].
  eapply rtc_l; [by apply (StepReturn _ _ 0 10 (Some errFailure) 17) |].
  eapply rtc_l; [by apply (StepLeave _ _ 0 (Some errFailure) 7) |].
  eapply rtc_l; [apply (StepCall _ _ 20) |]. eapply rtc_l; [by apply (StepEnter _ _ 2 20) |]. done.
Qed.

Lemma behavior_checks_are_exact_witness :
  exists s1, rtc step initial s1 /\ rtc step s1 three_runs /\ count_if inside (tasks s1) = 2.
Proof.
  destruct (behavior_checks_are_exact three_runs three_runs_reachable ltac:(vm_compute; congruence))
    as (_ & _ & _ & _ & H & _). exact H.
Defined.

(** A clock beside the check. *)
Definition firstL : lens (BehaviorCheck * Z) BehaviorCheck := Lens fst (fun b w => (b, snd w)).
#[export] Instance firstL_laws : LensLaws firstL.
Proof. split; by intros; repeat match goal with x : _ * _ |- _ => destruct x end. Qed.
Definition tick : M (BehaviorCheck * Z) Time := fun w => (Ret (snd w + 1), (fst w, snd w + 1)).

Lemma Run_is_a_run_witness :
  exists err d, rtc step (mkSys BehaviorCheck_zero []) (mkSys (mkBehaviorCheck 1 0 1 1 0) [Gone err d]) /\ err = None.
Proof.
  apply (Run_is_a_run firstL tick (fun _ => throw (PanicValue 1)) Background (BehaviorCheck_zero, 10) (Panic (PanicValue 1))
    (mkBehaviorCheck 1 0 1 1 0, 12) []); try done.
  - intros w o w' [= <- <-]. split; [done | by eexists].
  - intros ctx w o w' [= <- <-]. done.
Defined.

Definition waitL : lens (Z * Z) Z := Lens fst (fun n w => (n, snd w)).
#[export] Instance waitL_laws : LensLaws waitL.
Proof. split; by intros; repeat match goal with x : _ * _ |- _ => destruct x end. Qed.

Lemma DoTillTime_ends_witness :
  exists fuel w', DoTillTime waitL (fun w => (Ret (snd w + 1), (fst w, snd w + 1))) fuel 25 (ret tt) (0, 20) = (Ret tt, w') /\
    25 <= snd w' /\ fst w' = 0.
Proof.
  apply (DoTillTime_ends waitL _ _ 25 snd); try done.
  - intros w. exists (fst w, snd w + 1). split; [done |]. cbn. split; [lia | done].
  - intros w. exists w. split; [done | split; [lia | done]].
Defined.
End TestHelpSample.
End TestHelp.
